(* ===== verification/_CoqProject ===== *)
-Q . S2P
Prelude.v
PriorityQueue.v
KVStore.v
KVStoreInv.v
KVStoreOps.v
KVStoreSweep.v
KVStoreSpec.v
KVStoreStored.v
KVStoreTheorems.v
FrameCodec.v
CommandParser.v
CommandGrammar.v
CommandExecutor.v
CommandTheorems.v
RequestSpec.v
OutputBuffer.v
ServerMetrics.v
MetricsTheorems.v
MetricsConcurrency.v
Poller.v
PollerTheorems.v
StatsReport.v
SubReactor.v
SubReactorInv.v
SubReactorRequests.v
SubReactorHandlers.v
SubReactorTheorems.v
EventLoop.v
ReactorFrame.v
ReactorEvents.v
ReactorInv.v
ReactorRounds.v
ReactorTheorems.v
Serving.v
ServingInv.v
ServingSteps.v
ServingTheorems.v
TcpServer.v
ReactorInterface.v
SweeperTheorems.v
SweeperThread.v
SweeperThreadTheorems.v
ServerAccept.v
ServerShutdown.v
ServerLedger.v
Logger.v
AppConfig.v
CommandLine.v
CommandLineSpec.v
ConfigLoader.v
ConfigTheorems.v
Client.v
ClientSession.v
ClientWire.v
ClientWireSteps.v
Posix.v
ScopedFd.v
SocketUtil.v
WakeupChannel.v
WakeupProtocol.v
SignalHandler.v
PollerFactory.v
ServerStart.v
ServerSlots.v
ServerStartInv.v
ServerStartSteps.v
ServerStartStages.v
ServerStartRunning.v
ServerStartAbort.v
ServerStartTheorems.v
ServerRun.v
ServerMain.v
ClientMain.v
ClientServer.v
