(* ===== verification/Prelude.v ===== *)
(** * TinyKVCache: a verification library

    TinyKVCache is a Redis-like in-memory cache: a TCP server whose requests are
    lines of text in length-prefixed frames. A main reactor accepts clients and
    hands them to sub-reactors; each sub-reactor runs an event loop over its
    connections; all of them share one store and one set of metrics, and a
    background thread sweeps expired keys.

    ** Parts and files

    - [Prelude] (this file): byte strings, machine integers, outcomes
      (values, exceptions, failed assertions, undefined behaviour), the state
      monad with failures, loops with fuel, record update, weakest
      preconditions and their tactics, generic lemmas.
    - [PriorityQueue]: [std::priority_queue] as a class with laws, and one
      instance. The store is verified for every instance.
    - [KVStore] models src/src/core/kv_store.cpp: [Set_], [Get], [Del],
      [Expire], [Ttl], [Size], [Stats], [SweepExpired] and the private helpers
      are the methods of the same names. The record [KVStore] has the C++
      members. [KVStoreInv] is the representation invariant, [KVStoreOps] and
      [KVStoreSweep] compute the operations on consistent stores,
      [KVStoreSpec] is the abstract map with deadlines and the simulation,
      [KVStoreStored] the map of the stored entries, expired ones included, which
      is what [Size], [Stats] and [SweepExpired] are about; [KVStoreTheorems] the
      results.
    - [FrameCodec] models src/src/core/frame_codec.cpp, and holds the grammar of
      byte streams and its theorems.
    - [CommandParser] models src/src/core/command_parser.cpp; [CommandGrammar] is
      the request language and the proof that the parser decides it;
      [CommandExecutor] models src/src/core/command_executor.cpp;
      [CommandTheorems] and [RequestSpec] hold the results on parsing and on
      whole sessions of requests.
    - [OutputBuffer] models src/src/net/output_buffer.cpp.
    - [ServerMetrics] models src/src/observability/server_metrics.cpp: a method is
      the list of its accesses to the counters, which one thread runs ([alone])
      or any number of threads, taking turns at every access and at every attempt
      of a compare-exchange ([metrics_step]). [MetricsTheorems] has the account of
      the counters and the compare-exchange loop by itself, [MetricsConcurrency]
      that concurrent calls lose nothing.
    - [Poller] models src/src/net/poll (the interface as a class, both back ends,
      the factory); [PollerTheorems] shows that both satisfy the interface.
    - [StatsReport] models the text of [STATS] (averages and percentiles of
      sub_reactor.cpp and server_metrics.cpp) with IEEE doubles.
    - [SubReactor] models the connection handlers of
      src/src/net/sub_reactor.cpp; [SubReactorInv] the invariant of a
      connection and the queueing of responses, [SubReactorRequests] batches of
      requests, [SubReactorHandlers] reading, writing and interest,
      [SubReactorTheorems] the results.
    - [EventLoop] models the loop, the control requests and the shutdown of
      the same file.
      [ReactorFrame] says what a round leaves alone,
      [ReactorEvents] treats one event on one connection, [ReactorInv] the
      invariant of a reactor and its parts, [ReactorRounds] control requests,
      shutdown and whole rounds, [ReactorTheorems] the results on histories:
      sequences of rounds of the loop and of calls from other threads
      ([exec_step]). Other threads reach a reactor only through the fields
      under [m_controlMutex], which a round reads once, so that the calls made
      during a round are placed after it.
    - [Serving] composes the connection handlers of all sub-reactors and the
      sweeper over the one store of the server; [ServingInv] and [ServingSteps]
      hold the invariant, [ServingTheorems] the result.
    - [TcpServer] models the main reactor and the sweeper of
      src/src/net/tcp_server.cpp. It sees a sub-reactor through the class
      [ReactorControl]; [ReactorInterface] states what its calls owe and shows
      that a [SubReactor] at rest gives it. [ServerAccept] treats accepting and the
      distribution of clients, [ServerShutdown] the rounds of the main loop, the
      shutdown of the server and the end of [Run], [ServerLedger] the account of the
      client descriptors, [SweeperTheorems] the sweeper.
    - [Logger] models src/src/observability/logger.cpp and the class of logger.h.
      The calls of the logger in the other components are left out: they change
      no state of theirs.
    - [AppConfig] holds the configuration record, the parsers of
      src/src/config/config_parser.cpp and the validation; [CommandLine] models
      src/src/config/command_line.cpp and [CommandLineSpec] is the language of
      command lines it decides; [ConfigLoader] models
      src/src/config/config_loader.cpp and the configuration part of the
      server's [main]; [ConfigTheorems] the results.
    - [Client] models the exchange of frames of the client
      (src/app/client_main.cpp) over a class of sockets, and states as a second
      class ([Service]) what it needs of the other end. A peer that computes its
      answers is one instance; [ClientSession] puts the request language of the
      server there. [ClientMain] is the [main] of the client, with its result for
      any service. [ClientWire] is a connection with the server of [Serving] at
      the other end: during each call of the client the threads of the server
      make moves, on this client and on all others; [ClientWireSteps] follows a
      request through them, and [ClientServer] shows that this server is a
      service and puts the two programs together.
    - [Posix] states the system calls the rest of the code makes as a class of
      operations on a kernel, with the documented laws and one instance;
      [ScopedFd], [SocketUtil] (with posix_error.cpp) and [WakeupChannel] model
      the files of the same names, [SignalHandler] the termination signals.
    - [SweeperThread] models the thread of the sweeper (mutex, condition
      variable, flag) with the main thread that starts and stops it, as steps
      that interleave; [SweeperThreadTheorems] the results.
    - [PollerFactory] adds the descriptors of the back ends to [Poller]: what
      poller_factory.cpp makes and the destructors close.
    - [ServerStart] models [TcpServer::Run] with every system call: the start of
      the server and of the sub-reactors, the handler that undoes it, the rounds
      of the main loop, [Join] and the destructors. The threads of the
      sub-reactors run beside the main thread. [ServerSlots] shows that a
      sub-reactor whose thread runs keeps the interface of [ReactorInterface] and
      that its thread ends when it should; [ServerStartInv] says which descriptors
      the server owns; [ServerStartSteps], [ServerStartStages] and
      [ServerStartRunning] follow the start step by step, [ServerStartAbort] the
      two ends; [ServerStartTheorems] and [ServerRun] hold the results on the
      start and on the whole of [Run].
    - [ServerMain] is the [main] of src/app/server_main.cpp: configuration,
      outputs, the server object and the signal handler in their scopes.
    - [WakeupProtocol] puts notifying threads and the loop of a sub-reactor
      together, system call by system call; the loop enters through an
      interface ([ControlLoop]) that [EventLoop] implements.

    ** Modelling decisions

    - A method is a computation of the monad [M S]: it returns a value or fails,
      and a failure keeps the state reached, as C++ exceptions do. Failures
      tell exceptions ([Throw]) from assertions, undefined behaviour and lack of
      fuel; only exceptions can be caught. Theorems that say an operation
      "runs" exclude all of them.
    - Integers are [Z] with the wrap-around of their type written out; signed
      64-bit arithmetic is checked. A [std::string] is a list of bytes. Hash maps
      are finite maps; where C++ iterates over one, the model takes one order
      and the results do not depend on it.
    - A class that locks one mutex for the whole of every method is a set of
      atomic transitions; a history lists the calls in lock order with the
      clock readings made under the lock, which a steady clock makes
      non-decreasing. The clock is assumed below [CLOCK_MAX] (about 224 years of
      uptime) and histories shorter than 2^64 calls.
    - In the reactors, system calls are modelled by their answers: the results
      of the successive invocations of a retried call, the bytes available in a
      socket, the room in its send buffer. The kernel's epoll object is a
      parameter with the documented effect of [epoll_ctl] as hypothesis. In the
      files over [Posix] the kernel is a state with a view (open descriptors,
      their flags, unread bytes), any call may fail, and the laws say what a
      call does to the view; two threads interleave between system calls.
    - In [ServerStart] the thread of a sub-reactor and the main thread meet only in
      the calls of the main thread on the sub-reactor, whose bodies hold its
      mutex; so an interleaving is determined by the rounds that the thread goes
      through before each of these calls, which a schedule lists. The kernel
      there has the descriptors of the server itself; the descriptors of clients
      come from [accept] as inputs of the main loop and are recorded ([t_accepts])
      and again when they are closed ([t_closes], [r_closes]).
    - The store is one object for all threads, and every call takes its lock. A
      connection or a reactor sees it in its own state, in which the calls of the
      other threads ([tn_others]: any calls, at clock readings in order) come
      before each of its requests; so the results on reactors and on the
      server hold whatever the others do to the store. Of the shared metrics a
      reactor has what it adds to them, and what [STATS] prints of them is left
      open; [MetricsConcurrency] treats their sharing.
    - In [Serving] a schedule picks the next step of any client or of the sweeper:
      receiving, one request (which takes the lock of the store), sending,
      closing. Every interleaving of the threads over the one store is a
      schedule.
    - The TOML library is a class ([Toml]) with the documented laws of lookup
      and conversion; the client's sockets are a class ([Socket]) whose [send]
      takes any non-empty part of the data and whose [recv] returns any
      non-empty part of what the peer has answered. In [ClientWire] the bytes on
      their way are lists, cut anywhere at both ends; the connection is not
      reset, and a schedule is fair when the server gets to the client once
      during each of the client's calls.
    - Fuel: a decoding loop consumes at least a header per round (buffer size
      plus one), a scan one byte per step (text size plus one), the sweep
      pops one record per round (heap size plus one), a notification is retried
      once per interruption, a request of the client takes at most
      [per_request] calls on its socket (one byte at least in each). The theorems
      show that the fuel suffices on every
      input. The rounds of a reactor or of the main loop are inputs, one per
      round; a run that has used them all and goes on says so ([OutOfFuel]).
    - [assert] is modelled as in a build without [NDEBUG]; the theorems show that
      none fires.

    ** Results, by property

    C1-C5 the store: refinement of the abstract map, invariant, exactness of
    sweeps, bound on the heap, TTL semantics. C6-C8 frames: the decoder decides
    the grammar, independence of chunking, round trip. C9-C10 the parser: grammar
    and round trip. C11-C12 sessions: refinement, sizes of responses. C13 the send
    buffer. C14 the metrics under any schedule of their accesses, C15 the account
    of the counters, C16 the loop of the maxima. C17 the poller's map and the kernel. C18 the
    invariant of a connection; C19 all clients over the one store. C20-C24 the
    event loop: safety, ownership of descriptors, graceful and forced shutdown,
    draining. C25 the start of the server; C26 the whole of [Run]. C27 accepting:
    budget and fair turns. C28 the main loop and the shutdown of the server.
    C29-C30 the sweeper: a cycle, and the life of the thread. C31 ownership of
    descriptors by objects. C32 making sockets. C33-C34 the wake-up channel and
    its protocol. C35 the life of the signal handler. C36-C38 the command line,
    the configuration file, and the typing of the configuration that reaches the
    server. C39 the server program as a whole. C40 the client program and the
    server among its other clients, end to end.

    ** Not modelled

    The formatting of log messages (the [fmt] library) and the calls that only
    log, which change no state of the components that make them; the
    descriptions of [errno] in the exceptions of the pollers; a client that goes
    on sending when the server has closed its connection. The memory of C++ objects: a [unique_ptr] is an option or an
    element of a list. Threads interleave at the calls that take a lock or access
    an atomic variable, not at machine instructions, which the absence of data
    races justifies and the model does not prove. Relaxed accesses are in the
    one order that every atomic object has; no method of the metrics relies on
    an order between two of them. *)

From Stdlib Require Export ZArith Lia Ascii.
From stdpp Require Export base tactics list gmap strings numbers sorting.
#[local] Open Scope Z_scope.

(** ** Byte strings

    [std::string] is a sequence of [char]; a model byte is an [ascii]. *)

Abbreviation bytes := (list ascii).

(** A C++ string literal as bytes. *)
Definition lit (s : string) : bytes := String.list_ascii_of_string s.

(** [x.size()] as a [size_t] value. *)
Definition zlen {A} (l : list A) : Z := Z.of_nat (length l).

(** The value of a [char] seen as [unsigned char]. *)
Definition byte_val (c : ascii) : Z := Z.of_N (N_of_ascii c).
Definition byte_of (z : Z) : ascii := ascii_of_N (Z.to_N (z mod 256)).

(** ** Machine integers *)

Definition U32_MOD : Z := 4294967296.
Definition U64_MOD : Z := 18446744073709551616.
Definition INT_MAX : Z := 2147483647.
Definition INT_MIN : Z := -2147483648.
Definition I64_MAX : Z := 9223372036854775807.
Definition I64_MIN : Z := -9223372036854775808.

(** Unsigned arithmetic wraps; conversion to [int] is modular. *)
Definition wrap_u32 (z : Z) : Z := z mod U32_MOD.
Definition wrap_u64 (z : Z) : Z := z mod U64_MOD.
Definition wrap_i32 (z : Z) : Z := (z - INT_MIN) mod U32_MOD + INT_MIN.

Definition fits_i64 (z : Z) : bool := (I64_MIN <=? z) && (z <=? I64_MAX).

(** ** Outcomes: values, exceptions, failed assertions, undefined behaviour *)

Inductive exn :=
  | runtime_error (what : string)
  | logic_error (what : string)
  | invalid_argument (what : string)
  | out_of_range (what : string)
  | length_error (what : string).

(** [e.what()] *)
Definition what_of (e : exn) : string :=
  match e with
  | runtime_error what | logic_error what | invalid_argument what | out_of_range what | length_error what => what
  end.

Inductive failure :=
  | Throw (e : exn)
  | AssertFailed (cond : string)
  | Undefined (why : string)
  | OutOfFuel.

Inductive outcome (A : Type) :=
  | Ret (a : A)
  | Fail (f : failure).
Arguments Ret {A} a.
Arguments Fail {A} f.

(** Code without object state returns an outcome. *)
#[export] Instance outcome_ret : MRet outcome := fun A a => Ret a.
#[export] Instance outcome_bind : MBind outcome := fun A B k o =>
  match o with
  | Ret a => k a
  | Fail f => Fail f
  end.

(** [only_throws o]: a failure of [o] is an exception. *)
Definition only_throws {A} (o : outcome A) : Prop :=
  match o with Fail (Throw _) | Ret _ => True | Fail _ => False end.

(** ** The state and failure monad

    A failing computation keeps the state it reached: C++ exceptions do not
    roll the object back. *)

Definition M (S A : Type) : Type := S -> outcome A * S.

#[export] Instance M_ret {S} : MRet (M S) := fun A a s => (Ret a, s).

#[export] Instance M_bind {S} : MBind (M S) :=
  fun A B k m s =>
    match m s with
    | (Ret a, s') => k a s'
    | (Fail f, s') => (Fail f, s')
    end.

Definition gets {S A} (f : S -> A) : M S A := fun s => (Ret (f s), s).
Definition modify {S} (f : S -> S) : M S unit := fun s => (Ret tt, f s).
Definition fail {S A} (f : failure) : M S A := fun s => (Fail f, s).
Definition throw {S A} (e : exn) : M S A := fail (Throw e).
Definition lift {S A} (o : outcome A) : M S A := fun s => (o, s).

(** [assert(cond)] of a build without [NDEBUG]. *)
Definition massert {S} (b : bool) (cond : string) : M S unit :=
  if b then mret tt else fail (AssertFailed cond).

Definition when {S} (b : bool) (m : M S unit) : M S unit :=
  if b then m else mret tt.

(** Signed 64-bit arithmetic: overflow is undefined behaviour. *)
Definition checked_i64 {S} (z : Z) : M S Z :=
  if fits_i64 z then mret z else fail (Undefined "signed integer overflow").

Lemma checked_i64_ok {S} z (s : S) :
  I64_MIN <= z <= I64_MAX -> checked_i64 z s = (Ret z, s).
Proof.
  intros Hz. unfold checked_i64, fits_i64.
  replace ((I64_MIN <=? z) && (z <=? I64_MAX)) with true by lia. done.
Qed.

(** [try { m } catch (const std::exception& e) { h(e) }]: only exceptions are
    caught, and the handler starts from the state the throw left. *)
Definition try_catch {S A} (m : M S A) (h : exn -> M S A) : M S A :=
  fun s =>
    match m s with
    | (Fail (Throw e), s') => h e s'
    | r => r
    end.

(** [catch (...) { h; throw; }] *)
Definition on_exception {S A} (m : M S A) (h : M S unit) : M S A :=
  fun s => match m s with
           | (Fail (Throw e), s') => (h;; throw e) s'
           | r => r
           end.

(** An object with a destructor lives during [m]. *)
Definition scope {S A} (m : M S A) (destroy : M S unit) : M S A :=
  a ← on_exception m destroy;
  destroy;;
  mret a.

(** ** Loops

    The body says whether to go on; a loop that uses up its fuel is an
    explicit failure, so that termination is something to prove. *)

Inductive ctl := Continue | Break.

Fixpoint loop {S} (fuel : nat) (body : M S ctl) : M S unit :=
  match fuel with
  | O => fail OutOfFuel
  | Datatypes.S n =>
      c ← body;
      match c with
      | Continue => loop n body
      | Break => mret tt
      end
  end.

(** ** Record update *)

(** [Settable R] gives the eta-expansion of a value of [R]; the update of a
    field is computed from it. *)
Class Settable (R : Type) := eta_record : R -> R.
Class Setter {R T : Type} (proj : R -> T) := upd : (T -> T) -> R -> R.
Arguments upd {R T} proj {_} f r /.

Ltac derive_setter :=
  lazymatch goal with
  | |- @Setter ?R ?T ?proj =>
      let inst := constr:(_ : Settable R) in
      let f := fresh "f" in
      let r := fresh "r" in
      change ((T -> T) -> R -> R); intros f r;
      let e := eval hnf in (inst r) in
      lazymatch eval pattern (proj r) in e with
      | ?g _ =>
          let t := eval cbv beta in (g (f (proj r))) in
          exact t
      end
  end.

#[export] Hint Extern 1 (Setter _) => derive_setter : typeclass_instances.

Declare Scope tinykv_scope.
Delimit Scope tinykv_scope with tinykv.
Notation "r <| f := v |>" := (upd f (fun _ => v) r)
  (at level 1, f at level 9, left associativity) : tinykv_scope.
Notation "r <| f ::= g |>" := (upd f g r)
  (at level 1, f at level 9, left associativity) : tinykv_scope.
#[global] Open Scope tinykv_scope.

(** Run a computation on a component of the state. *)
Definition zoom {S T A} (proj : S -> T) `{!Setter proj} (m : M T A) : M S A :=
  fun s => let '(o, t) := m (proj s) in (o, s <| proj := t |>).

#[export] Instance settable_prod {A B} : Settable (A * B) := fun p => (fst p, snd p).

(** A computation with a local variable of initial value [l]. *)
Definition with_local {S L A} (l : L) (m : M (S * L) A) : M S A :=
  fun s => let '(o, (s', _)) := m (s, l) in (o, s').

(** ** Weakest preconditions

    [wp m Q E s]: run from [s], [m] either returns [a] in a state satisfying
    [Q a] or fails with [f] in a state satisfying [E f]. *)
Definition wp {S A} (m : M S A) (Q : A -> S -> Prop) (E : failure -> S -> Prop)
    (s : S) : Prop :=
  match m s with
  | (Ret a, s') => Q a s'
  | (Fail f, s') => E f s'
  end.

#[global] Arguments wp : simpl never.

(** The exceptional postcondition of code that must not fail. *)
Definition no_fail {S} : failure -> S -> Prop := fun _ _ => False.

Section wp_rules.
Context {S : Type}.
Implicit Types s : S.

Lemma wp_ret {A} (a : A) Q E s : Q a s -> wp (mret a) Q E s.
Proof. done. Qed.

Lemma wp_bind {A B} (m : M S A) (k : A -> M S B) Q E s :
  wp m (fun a s' => wp (k a) Q E s') E s -> wp (x ← m; k x) Q E s.
Proof. unfold wp, mbind, M_bind. by destruct (m s) as [[a|f] s']. Qed.

Lemma wp_mono {A} (m : M S A) (Q Q' : A -> S -> Prop) (E E' : failure -> S -> Prop) s :
  wp m Q E s ->
  (forall a s', Q a s' -> Q' a s') -> (forall f s', E f s' -> E' f s') ->
  wp m Q' E' s.
Proof. unfold wp. destruct (m s) as [[a|f] s']; naive_solver. Qed.

Lemma wp_and {A} (m : M S A) (Q R : A -> S -> Prop) E s :
  wp m Q E s -> wp m R E s -> wp m (fun a s' => Q a s' /\ R a s') E s.
Proof. unfold wp. by destruct (m s) as [[a|f] s']. Qed.

Lemma wp_gets {A} (f : S -> A) Q E s : Q (f s) s -> wp (gets f) Q E s.
Proof. done. Qed.

Lemma wp_modify (f : S -> S) Q E s : Q tt (f s) -> wp (modify f) Q E s.
Proof. done. Qed.

Lemma wp_fail {A} (f : failure) (Q : A -> S -> Prop) E s : E f s -> wp (fail f) Q E s.
Proof. done. Qed.

Lemma wp_massert b msg Q E s : b = true -> Q tt s -> wp (massert b msg) Q E s.
Proof. by intros ->. Qed.

Lemma wp_when b (m : M S unit) Q E s :
  (b = true -> wp m Q E s) -> (b = false -> Q tt s) -> wp (when b m) Q E s.
Proof. destruct b; cbn; intros H1 H2; [by apply H1|by apply wp_ret, H2]. Qed.

Lemma wp_checked_i64 z (Q : Z -> S -> Prop) E s :
  I64_MIN <= z <= I64_MAX -> Q z s -> wp (checked_i64 z) Q E s.
Proof. intros Hz HQ. unfold wp. by rewrite checked_i64_ok. Qed.

(** The loop rule: [I] is the invariant, [mu] decreases on [Continue], and
    the fuel is enough when it exceeds the initial measure. *)
Lemma wp_loop (I Q : S -> Prop) (E : failure -> S -> Prop) (mu : S -> nat)
    fuel (body : M S ctl) s :
  I s -> (mu s < fuel)%nat ->
  (forall s, I s ->
     wp body (fun c s' => match c with
                          | Continue => I s' /\ (mu s' < mu s)%nat
                          | Break => Q s'
                          end) E s) ->
  wp (loop fuel body) (fun _ => Q) E s.
Proof.
  intros HI Hmu Hbody. revert s HI Hmu.
  induction fuel as [|n IH]; intros s HI Hmu; [lia|].
  cbn [loop]. apply wp_bind. eapply wp_mono; [by apply Hbody| |done].
  intros [|] s'; cbn; [|done]. intros [? ?]. apply IH; [done|lia].
Qed.

Lemma wp_with_local {L A} (l : L) (m : M (S * L) A) Q E s :
  wp m (fun a st => Q a st.1) (fun f st => E f st.1) (s, l) -> wp (with_local l m) Q E s.
Proof. unfold wp, with_local. by destruct (m (s, l)) as [[a|f] [s' l']]. Qed.

Lemma wp_zoom {T A} (proj : S -> T) `{!Setter proj} (m : M T A) Q E s :
  wp m (fun a t => Q a (s <| proj := t |>)) (fun f t => E f (s <| proj := t |>)) (proj s) -> wp (zoom proj m) Q E s.
Proof. unfold wp, zoom. by destruct (m (proj s)) as [[a|f] t]. Qed.

Lemma wp_run {A} (m : M S A) Q s :
  wp m Q no_fail s -> exists a s', m s = (Ret a, s') /\ Q a s'.
Proof. unfold wp, no_fail. destruct (m s) as [[a|f] s']; naive_solver. Qed.

Lemma wp_intro {A} (m : M S A) (Q : A -> S -> Prop) E a s s' :
  m s = (Ret a, s') -> Q a s' -> wp m Q E s.
Proof. unfold wp. by intros ->. Qed.
End wp_rules.

Lemma wp_try_catch {S A} (m : M S A) h (R : A -> S -> Prop) E s :
  wp m R (fun f s' => match f with Throw e => wp (h e) R E s' | _ => E f s' end) s ->
  wp (try_catch m h) R E s.
Proof. unfold wp, try_catch. by destruct (m s) as [[a|[]] s']. Qed.

Lemma wp_on_exception {S A} (m : M S A) h (R : A -> S -> Prop) E s :
  wp m R (fun f s' => match f with
                      | Throw e => wp h (fun _ s'' => E (Throw e) s'') E s'
                      | _ => E f s'
                      end) s ->
  wp (on_exception m h) R E s.
Proof.
  unfold wp, on_exception. cbv [mbind M_bind]. destruct (m s) as [[a|[]] s']; try done.
  by destruct (h s') as [[[]|f] s''].
Qed.

(** A destructor that cannot fail runs however the scope is left. *)
Lemma wp_scope {S A} (m : M S A) d (Q I : S -> Prop) (E : failure -> S -> Prop) s :
  (forall s, I s -> wp d (fun _ s' => Q s') no_fail s) ->
  wp m (fun _ s => I s) (fun f s => ((exists e, f = Throw e) /\ I s) \/ (forall e, f <> Throw e) /\ E f s) s ->
  wp (scope m d) (fun _ s => Q s) (fun f s => ((exists e, f = Throw e) /\ Q s) \/ (forall e, f <> Throw e) /\ E f s) s.
Proof.
  intros Hd Hm. unfold wp, scope, on_exception, mbind, M_bind in *. destruct (m s) as [[a|f] s1].
  - specialize (Hd s1 Hm). by destruct (d s1) as [[[]|f] s2].
  - destruct Hm as [[[e ->] HI]|[Hne HE]].
    + specialize (Hd s1 HI). destruct (d s1) as [[[]|f] s2]; [|done]. left. by split; [eexists|].
    + destruct f as [e| | |]; [by destruct (Hne e)|by right..].
Qed.

Create HintDb wp.
#[export] Hint Resolve wp_ret wp_gets wp_modify wp_checked_i64 : wp.

(** Step through straight-line monadic code. *)
Ltac wp_step :=
  lazymatch goal with
  | |- wp (mbind _ _) _ _ _ => apply wp_bind
  | |- wp (mret _) _ _ _ => apply wp_ret
  | |- wp (gets _) _ _ _ => apply wp_gets
  | |- wp (modify _) _ _ _ => apply wp_modify
  | |- wp (fail _) _ _ _ => apply wp_fail
  | |- wp (throw _) _ _ _ => apply wp_fail
  | |- wp (when _ _) _ _ _ => apply wp_when; intros ?
  | |- wp (if ?b then _ else _) _ _ _ => destruct b eqn:?
  | |- wp (match ?x with _ => _ end) _ _ _ => destruct x eqn:?
  end.
Ltac wp_steps := repeat (wp_step; cbn beta).

(** ** Frames *)

(** [keeps f m]: [m] leaves [f] of the state as it is, also when it fails. *)
Definition keeps {S X A} (f : S -> X) (m : M S A) : Prop := forall s, f (m s).2 = f s.

Section keeps_rules.
Context {S X : Type} (f : S -> X).

Lemma keeps_ret {A} (a : A) : keeps f (mret a).
Proof. done. Qed.
Lemma keeps_fail {A} e : keeps f (fail e : M S A).
Proof. done. Qed.
Lemma keeps_gets {A} (g : S -> A) : keeps f (gets g).
Proof. done. Qed.
Lemma keeps_lift {A} (o : outcome A) : keeps f (lift o).
Proof. done. Qed.
Lemma keeps_massert b cond : keeps f (massert b cond).
Proof. by destruct b. Qed.
Lemma keeps_checked_i64 z : keeps f (checked_i64 z).
Proof. unfold checked_i64. by destruct (fits_i64 z). Qed.
Lemma keeps_modify g : (forall s, f (g s) = f s) -> keeps f (modify g).
Proof. intros H s. apply H. Qed.
Lemma keeps_bind {A B} (m : M S A) (k : A -> M S B) :
  keeps f m -> (forall a, keeps f (k a)) -> keeps f (x ← m; k x).
Proof.
  intros Hm Hk s. unfold mbind, M_bind. specialize (Hm s). destruct (m s) as [[a|e] s']; cbn in *; [|done].
  by rewrite Hk.
Qed.
Lemma keeps_when b (m : M S unit) : keeps f m -> keeps f (when b m).
Proof. by destruct b. Qed.
Lemma keeps_try_catch {A} (m : M S A) h : keeps f m -> (forall e, keeps f (h e)) -> keeps f (try_catch m h).
Proof.
  intros Hm Hh s. unfold try_catch. specialize (Hm s).
  destruct (m s) as [[a|[e| | |]] s']; cbn in *; try done. by rewrite Hh.
Qed.
End keeps_rules.

Create HintDb keeps.
#[export] Hint Resolve keeps_ret keeps_fail keeps_gets keeps_lift keeps_massert keeps_checked_i64
  keeps_modify keeps_bind keeps_when
  keeps_try_catch : keeps.

Ltac keeps_step := first
  [ progress (intros; cbn beta)
  | apply keeps_bind | apply keeps_when | apply keeps_try_catch
  | solve [eauto with keeps nocore]
  | apply keeps_modify; intros; reflexivity
  | match goal with |- keeps _ (match ?x with _ => _ end) => destruct x end ].

Lemma bind_ret_inv {S A B} (m : M S A) (k : A -> M S B) b (st st' : S) :
  (x ← m; k x) st = (Ret b, st') -> exists a st1, m st = (Ret a, st1) /\ k a st1 = (Ret b, st').
Proof. unfold mbind, M_bind. destruct (m st) as [[a|e] st1]; [|done]. eauto. Qed.

(** [m] goes from a state to a related one, also when it fails. *)
Definition within {S A} (R : S -> S -> Prop) (m : M S A) : Prop := forall s, R s (m s).2.

Section within.
Context {S : Type} (R : S -> S -> Prop) `{!PreOrder R}.

Lemma within_pure {A} (m : M S A) : (forall s, (m s).2 = s) -> within R m.
Proof. intros Hm s. by rewrite Hm. Qed.

Lemma within_bind {A B} (m : M S A) (f : A -> M S B) : within R m -> (forall a, within R (f a)) -> within R (x ← m; f x).
Proof.
  intros Hm Hf s. unfold mbind, M_bind. specialize (Hm s). destruct (m s) as [[a|e] s1]; cbn in *; [|done].
  etrans; [exact Hm|apply Hf].
Qed.

Lemma within_when b (m : M S unit) : within R m -> within R (when b m).
Proof. by destruct b; [|intros _ s]. Qed.

Lemma within_try_catch {A} (m : M S A) h : within R m -> (forall e, within R (h e)) -> within R (try_catch m h).
Proof.
  intros Hm Hh s. unfold try_catch. specialize (Hm s). destruct (m s) as [[a|[e| | |]] s1]; cbn in *; try done.
  etrans; [exact Hm|apply Hh].
Qed.
End within.

(** What is known of the result, and of the step. *)
Lemma wp_within {S A} (R : S -> S -> Prop) (m : M S A) (Q : A -> S -> Prop) E s :
  within R m -> wp m Q E s -> wp m (fun a s' => Q a s' /\ R s s') (fun f s' => E f s' /\ R s s') s.
Proof. intros Hm Hwp. unfold wp in *. specialize (Hm s). by destruct (m s) as [[a|f] s']. Qed.

Lemma keeps_ret_inv {S X A} (f : S -> X) (m : M S A) a s s' :
  keeps f m -> m s = (Ret a, s') -> f s' = f s.
Proof. intros Hk Hm. specialize (Hk s). by rewrite Hm in Hk. Qed.

(** ** Generic lemmas *)

Lemma concat_insert {A B} (f : A -> list B) (l : list A) i x y new :
  l !! i = Some x -> f y ≡ₚ new ++ f x ->
  concat (f <$> <[i := y]> l) ≡ₚ new ++ concat (f <$> l).
Proof.
  revert i. induction l as [|z l IH]; intros [|i] Hi Hf; try done; cbn in *.
  - simplify_eq. by rewrite Hf, app_assoc.
  - rewrite (IH i Hi Hf). by rewrite !app_assoc, (Permutation_app_comm (f z)).
Qed.

Lemma wrap_u64_small z : 0 <= z < U64_MOD -> wrap_u64 z = z.
Proof. intros. unfold wrap_u64. by apply Z.mod_small. Qed.

Lemma wrap_u32_small z : 0 <= z < U32_MOD -> wrap_u32 z = z.
Proof. intros. unfold wrap_u32. by apply Z.mod_small. Qed.

Lemma wrap_i32_small z : INT_MIN <= z <= INT_MAX -> wrap_i32 z = z.
Proof.
  unfold wrap_i32, INT_MIN, INT_MAX, U32_MOD. intros.
  rewrite Z.mod_small; lia.
Qed.

Lemma zlen_nonneg {A} (l : list A) : 0 <= zlen l.
Proof. unfold zlen. lia. Qed.

Lemma zlen_app {A} (l k : list A) : zlen (l ++ k) = zlen l + zlen k.
Proof. unfold zlen. rewrite length_app. lia. Qed.

Lemma zlen_nil {A} : zlen (@nil A) = 0.
Proof. done. Qed.

Lemma zlen_cons {A} (x : A) l : zlen (x :: l) = 1 + zlen l.
Proof. unfold zlen. cbn [length]. lia. Qed.

Lemma filter_all {A} (P : A -> Prop) `{!forall x, Decision (P x)} (l : list A) :
  Forall P l -> filter P l = l.
Proof. induction 1 as [|x l Hx _ IH]; [done|]. by rewrite filter_cons_True, IH. Qed.

Lemma filter_none {A} (P : A -> Prop) `{!forall x, Decision (P x)} (l : list A) :
  Forall (fun x => ~ P x) l -> filter P l = [].
Proof. induction 1 as [|x l Hx _ IH]; [done|]. by rewrite filter_cons_False. Qed.

Lemma zlen_0_nil {A} (l : list A) : zlen l = 0 -> l = [].
Proof. destruct l; [done|]. rewrite zlen_cons. pose proof (zlen_nonneg l). lia. Qed.

(** Elements at the front of a list that satisfy a test, and what follows. *)
Fixpoint take_while {A} (p : A -> bool) (l : list A) : list A :=
  match l with
  | [] => []
  | x :: l' => if p x then x :: take_while p l' else []
  end.
Fixpoint drop_while {A} (p : A -> bool) (l : list A) : list A :=
  match l with
  | [] => []
  | x :: l' => if p x then drop_while p l' else l
  end.

Lemma take_drop_while {A} (p : A -> bool) l : take_while p l ++ drop_while p l = l.
Proof. induction l as [|x l IH]; cbn; [done|]. destruct (p x); cbn; by rewrite ?IH. Qed.

Lemma take_while_Forall {A} (p : A -> bool) l : Forall (fun x => p x = true) (take_while p l).
Proof. induction l as [|x l IH]; cbn; [done|]. destruct (p x) eqn:?; by constructor. Qed.

(** [l] is empty or starts with an element that fails the test. *)
Definition stops {A} (p : A -> bool) (l : list A) : Prop :=
  match l with [] => True | x :: _ => p x = false end.

Lemma drop_while_stops {A} (p : A -> bool) l : stops p (drop_while p l).
Proof. induction l as [|x l IH]; cbn; [done|]. by destruct (p x) eqn:?. Qed.

Lemma take_while_app {A} (p : A -> bool) l k :
  Forall (fun x => p x = true) l -> stops p k -> take_while p (l ++ k) = l.
Proof.
  induction 1 as [|x l Hx _ IH]; cbn; [|by rewrite Hx; intros; f_equal; auto].
  destruct k as [|y k]; cbn; [done|]. by intros ->.
Qed.

Lemma drop_while_app {A} (p : A -> bool) l k :
  Forall (fun x => p x = true) l -> stops p k -> drop_while p (l ++ k) = k.
Proof.
  induction 1 as [|x l Hx _ IH]; cbn; [|by rewrite Hx].
  destruct k as [|y k]; cbn; [done|]. by intros ->.
Qed.

Lemma length_drop_while {A} (p : A -> bool) l : (length (drop_while p l) <= length l)%nat.
Proof. induction l as [|x l IH]; cbn; [done|]. destruct (p x); cbn; lia. Qed.

Lemma byte_val_range c : 0 <= byte_val c < 256.
Proof.
  unfold byte_val. pose proof (N_ascii_bounded c). lia.
Qed.

Lemma byte_val_of z : byte_val (byte_of z) = z mod 256.
Proof.
  unfold byte_val, byte_of. pose proof (Z.mod_pos_bound z 256).
  rewrite N_ascii_embedding; lia.
Qed.

Lemma byte_of_val c : byte_of (byte_val c) = c.
Proof.
  unfold byte_of. rewrite Z.mod_small by apply byte_val_range.
  unfold byte_val. rewrite N2Z.id. apply ascii_N_embedding.
Qed.

Lemma NoDup_fmap_incl {A B} (f : A -> B) (l k : list A) :
  NoDup l -> (forall x, x ∈ l -> x ∈ k) -> NoDup (f <$> k) -> NoDup (f <$> l).
Proof.
  intros Hl Hincl Hk. apply NoDup_submseteq in Hincl; [|done].
  apply submseteq_Permutation in Hincl as [k' Hp].
  rewrite Hp, fmap_app in Hk. by apply NoDup_app in Hk as [? _].
Qed.

Lemma NoDup_Z_range (l : list Z) (n : Z) :
  NoDup l -> (forall x, x ∈ l -> 1 <= x <= n) -> zlen l <= Z.max 0 n.
Proof.
  intros Hnd Hr.
  assert (l ⊆+ seqZ 1 n) as Hs%submseteq_length.
  { apply NoDup_submseteq; [done|]. intros x Hx%Hr. apply elem_of_seqZ. lia. }
  rewrite length_seqZ in Hs. unfold zlen. lia.
Qed.
