(* ===== verification/PriorityQueue.v ===== *)
(** * std::priority_queue as an interface

    [KVStore] keeps its expiration records in a
    [std::priority_queue<ExpirationRecord, std::vector<ExpirationRecord>, ExpirationCompare>].
    The standard fixes what [top], [pop] and [push] do only up to the order of
    equivalent elements, so the store is proved against this interface and its
    laws; [sorted_queue] is one implementation that satisfies them, used to
    evaluate the model on concrete inputs. *)

From S2P Require Import Prelude.
#[local] Open Scope Z_scope.

Class PriorityQueue (A Q : Type) := {
  pq_empty : Q;
  pq_size : Q -> Z;
  pq_top : Q -> option A;
  pq_pop : Q -> Q;
  pq_push : A -> Q -> Q;
  (** construction from a container *)
  pq_from : list A -> Q;
  (** the contents, in no particular order: only specifications use it *)
  pq_elements : Q -> list A;
}.

(** [cmp x y] is [Compare{}(x, y)]: [x] has lower priority than [y]. *)
Class PriorityQueueLaws (A Q : Type) (cmp : A -> A -> bool)
    `{!PriorityQueue A Q} : Prop := {
  pq_elements_empty : pq_elements pq_empty = [];
  pq_size_elements q : pq_size q = zlen (pq_elements q);
  pq_top_None q : pq_top q = None <-> pq_elements q = [];
  pq_top_pop q x : pq_top q = Some x -> pq_elements q ≡ₚ x :: pq_elements (pq_pop q);
  pq_top_highest q x y : pq_top q = Some x -> y ∈ pq_elements q -> cmp x y = false;
  pq_elements_push x q : pq_elements (pq_push x q) ≡ₚ x :: pq_elements q;
  pq_elements_from l : pq_elements (pq_from l) ≡ₚ l;
}.

(** ** An implementation: a list sorted by priority *)

Section sorted_queue.
Context {A : Type} (cmp : A -> A -> bool).

Fixpoint sq_insert (x : A) (l : list A) : list A :=
  match l with
  | [] => [x]
  | y :: l' => if cmp x y then y :: sq_insert x l' else x :: l
  end.

Definition sq_from (l : list A) : list A := foldr sq_insert [] l.
End sorted_queue.

(** A queue whose representation invariant is part of its type. *)
Definition sq_sorted {A} (cmp : A -> A -> bool) (l : list A) : Prop :=
  StronglySorted (fun x y => cmp x y = false) l.

(** [Compare] induces a strict weak order. *)
Class WeakOrder {A} (cmp : A -> A -> bool) : Prop := {
  wo_asym x y : cmp x y = true -> cmp y x = false;
  wo_negtrans x y z : cmp x y = false -> cmp y z = false -> cmp x z = false;
}.

Section sorted_queue_facts.
Context {A : Type} (cmp : A -> A -> bool) `{!WeakOrder cmp}.

Lemma sq_insert_perm x l : sq_insert cmp x l ≡ₚ x :: l.
Proof.
  induction l as [|y l IH]; [done|]. cbn. destruct (cmp x y); [|done].
  rewrite IH. apply Permutation_swap.
Qed.

Lemma sq_insert_sorted x l : sq_sorted cmp l -> sq_sorted cmp (sq_insert cmp x l).
Proof.
  unfold sq_sorted. induction 1 as [|y l Hs IH Hall]; cbn; [repeat constructor|].
  destruct (cmp x y) eqn:Hxy; repeat constructor; auto.
  - rewrite sq_insert_perm. constructor; [by apply wo_asym|done].
  - eapply Forall_impl; [exact Hall|]. intros z Hz. by eapply wo_negtrans.
Qed.

Lemma sq_from_sorted l : sq_sorted cmp (sq_from cmp l).
Proof. induction l; cbn; [constructor|]. by apply sq_insert_sorted. Qed.

Lemma sq_from_perm l : sq_from cmp l ≡ₚ l.
Proof. induction l as [|x l IH]; cbn; [done|]. by rewrite sq_insert_perm, IH. Qed.
End sorted_queue_facts.

Record sorted_queue {A} (cmp : A -> A -> bool) : Type := SortedQueue {
  sq_list : list A;
  sq_list_sorted : sq_sorted cmp sq_list;
}.
Arguments SortedQueue {A cmp} _ _.
Arguments sq_list {A cmp} _.

Section sorted_queue_instance.
Context {A : Type} (cmp : A -> A -> bool) `{!WeakOrder cmp}.

Lemma sq_tail_sorted l : sq_sorted cmp l -> sq_sorted cmp (tail l).
Proof. destruct 1; cbn; [constructor|done]. Qed.

#[export] Instance sorted_queue_pq : PriorityQueue A (sorted_queue cmp) := {
  pq_empty := SortedQueue [] (SSorted_nil _);
  pq_size q := zlen (sq_list q);
  pq_top q := head (sq_list q);
  pq_pop q := SortedQueue (tail (sq_list q)) (sq_tail_sorted _ (sq_list_sorted _ q));
  pq_push x q := SortedQueue (sq_insert cmp x (sq_list q))
                   (sq_insert_sorted cmp x _ (sq_list_sorted _ q));
  pq_from l := SortedQueue (sq_from cmp l) (sq_from_sorted cmp l);
  pq_elements := sq_list;
}.

#[export] Instance sorted_queue_laws : PriorityQueueLaws A (sorted_queue cmp) cmp.
Proof.
  constructor; cbn; try done.
  - intros [[|x l] ?]; naive_solver.
  - intros [[|y l] ?] x; naive_solver.
  - intros [[|z l] Hs] x y; [done|]. cbn in *. intros [= ->].
    inversion Hs as [|? ? ? Hall]; subst. rewrite elem_of_cons. intros [->|Hy].
    + destruct (cmp x x) eqn:Hx; [|done]. by rewrite (wo_asym x x) in Hx.
    + rewrite Forall_forall in Hall. by apply Hall.
  - intros x [l ?]; cbn. apply sq_insert_perm.
  - intros l; cbn. apply sq_from_perm.
Qed.
End sorted_queue_instance.
