(* ===== verification/KVStore.v ===== *)
(** * KVStore: the in-memory store with TTL (core/kv_store.h, core/kv_store.cpp)

    Every public operation of the C++ class takes [m_mutex] for its whole
    body, so it is modelled as one atomic transition of [M KVStore]; operations
    that read [Clock::now()] do it under the lock and take the value read as the
    argument [now]. A [TimePoint] is the [steady_clock] tick count in
    nanoseconds. The [assert]s are those of a build without [NDEBUG]. *)

From S2P Require Import Prelude PriorityQueue.
#[local] Open Scope Z_scope.

Definition MIN_STALE_RECORDS_FOR_REBUILD : Z := 1024.
Definition MIN_HEAP_RECORDS_FOR_REBUILD : Z := 4096.

Definition TimePoint : Type := Z.

(** ** Data *)

Record InnerStats := mkInnerStats {
  st_keys : Z;
  st_persistentKeys : Z;
  st_expiringKeys : Z;
}.

Record SweepResult := mkSweepResult {
  sw_processed : Z;
  sw_removed : Z;
  sw_hasMoreExpired : bool;
  sw_heapRebuilt : bool;
}.
#[export] Instance SweepResult_settable : Settable SweepResult := fun r =>
  {| sw_processed := sw_processed r; sw_removed := sw_removed r;
     sw_hasMoreExpired := sw_hasMoreExpired r; sw_heapRebuilt := sw_heapRebuilt r |}.
Definition SweepResult_zero : SweepResult := mkSweepResult 0 0 false false.

Record Entry := mkEntry {
  e_value : bytes;
  e_expireAt : option TimePoint;
  e_generation : Z;
}.
#[export] Instance Entry_settable : Settable Entry := fun e =>
  {| e_value := e_value e; e_expireAt := e_expireAt e; e_generation := e_generation e |}.

Record ExpirationRecord := mkRecord {
  r_expireAt : TimePoint;
  r_key : bytes;
  r_generation : Z;
}.

#[export] Instance ExpirationRecord_eq_dec : EqDecision ExpirationRecord.
Proof. solve_decision. Defined.

(** [operator()(lhs, rhs)]: the earliest deadline has the highest priority. *)
Definition ExpirationCompare (lhs rhs : ExpirationRecord) : bool :=
  r_expireAt rhs <? r_expireAt lhs.

(** [DataMap::iterator] at an element: its key and its mapped value. *)
Definition DataIterator : Type := bytes * Entry.

Record KVStore {Q : Type} := mkKVStore {
  m_data : gmap bytes Entry;
  m_nextExpirationGeneration : Z;
  m_persistentKeys : Z;
  m_expiringKeys : Z;
  m_expirations : Q;
}.
Arguments KVStore Q : clear implicits.
#[export] Instance KVStore_settable {Q} : Settable (KVStore Q) := fun s =>
  {| m_data := m_data s;
     m_nextExpirationGeneration := m_nextExpirationGeneration s;
     m_persistentKeys := m_persistentKeys s;
     m_expiringKeys := m_expiringKeys s;
     m_expirations := m_expirations s |}.

#[export] Instance ExpirationCompare_weak_order : WeakOrder ExpirationCompare.
Proof. split; unfold ExpirationCompare; intros; lia. Qed.

(** [std::chrono::ceil<std::chrono::seconds>(d).count()] for nanoseconds [d]. *)
Definition NS_PER_SECOND : Z := 1000000000.
Definition ceil_seconds (d : Z) : Z :=
  let t := Z.quot d NS_PER_SECOND in
  if t * NS_PER_SECOND <? d then t + 1 else t.

(** ** Operations *)

Definition IsExpired (entry : Entry) (now : TimePoint) : bool :=
  match e_expireAt entry with
  | None => false
  | Some t => t <=? now
  end.

Definition has_expire (entry : Entry) : bool :=
  match e_expireAt entry with Some _ => true | None => false end.

Section KVStore_ops.
Context {Q : Type} `{!PriorityQueue ExpirationRecord Q}.

Definition KVStore_init : KVStore Q :=
  {| m_data := ∅; m_nextExpirationGeneration := 0;
     m_persistentKeys := 0; m_expiringKeys := 0; m_expirations := pq_empty |}.

Definition inc_persistent : M (KVStore Q) unit :=
  modify (fun s => s <| m_persistentKeys ::= fun n => wrap_u64 (n + 1) |>).
Definition dec_persistent : M (KVStore Q) unit :=
  modify (fun s => s <| m_persistentKeys ::= fun n => wrap_u64 (n - 1) |>).
Definition inc_expiring : M (KVStore Q) unit :=
  modify (fun s => s <| m_expiringKeys ::= fun n => wrap_u64 (n + 1) |>).
Definition dec_expiring : M (KVStore Q) unit :=
  modify (fun s => s <| m_expiringKeys ::= fun n => wrap_u64 (n - 1) |>).

Definition EraseEntryLocked (it : DataIterator) : M (KVStore Q) unit :=
  (if has_expire it.2 then
     n ← gets m_expiringKeys;
     massert (0 <? n) "m_expiringKeys > 0";;
     dec_expiring
   else
     n ← gets m_persistentKeys;
     massert (0 <? n) "m_persistentKeys > 0";;
     dec_persistent);;
  modify (fun s => s <| m_data ::= delete it.1 |>).

(** [!m_expirations.empty() && m_expirations.top().expireAt <= now] *)
Definition top_expired (now : TimePoint) (q : Q) : bool :=
  match pq_top q with
  | Some record => r_expireAt record <=? now
  | None => false
  end.

(** One round of the [while] of [SweepExpiredLocked]; the local [result] is
    the second component of the state. *)
Definition SweepExpiredLocked_body (now : TimePoint) (maxRecordsToProcess : Z) :
    M (KVStore Q * SweepResult) ctl :=
  st ← gets id;
  match pq_top (m_expirations st.1) with
  | None => mret Break
  | Some record =>
      if negb (sw_processed st.2 <? maxRecordsToProcess) then mret Break else
      if now <? r_expireAt record then mret Break else
      zoom fst (modify (fun s => s <| m_expirations ::= pq_pop |>));;
      zoom snd (modify (fun r => r <| sw_processed ::= fun n => wrap_u64 (n + 1) |>));;
      match m_data st.1 !! r_key record with
      | None => mret Continue
      | Some entry =>
          if negb (e_generation entry =? r_generation record) then mret Continue else
          match e_expireAt entry with
          | None => mret Continue
          | Some t =>
              if negb (t =? r_expireAt record) then mret Continue else
              zoom fst (EraseEntryLocked (r_key record, entry));;
              zoom snd (modify (fun r => r <| sw_removed ::= fun n => wrap_u64 (n + 1) |>));;
              mret Continue
          end
      end
  end.

(** Every round pops one record: the heap size plus one is enough fuel. *)
Definition SweepExpiredLocked (now : TimePoint) (maxRecordsToProcess : Z) :
    M (KVStore Q) SweepResult :=
  fuel ← gets (fun s => Datatypes.S (Z.to_nat (pq_size (m_expirations s))));
  result ← with_local SweepResult_zero
    (loop fuel (SweepExpiredLocked_body now maxRecordsToProcess);; gets snd);
  q ← gets m_expirations;
  mret (result <| sw_hasMoreExpired := top_expired now q |>).

Definition Set_ (key value : bytes) : M (KVStore Q) unit :=
  data ← gets m_data;
  match data !! key with
  | None =>
      modify (fun s => s <| m_data ::= <[key := mkEntry value None 0]> |>);;
      inc_persistent
  | Some entry =>
      when (has_expire entry) (dec_expiring;; inc_persistent);;
      modify (fun s => s <| m_data ::=
        <[key := mkEntry value None (wrap_u64 (e_generation entry + 1))]> |>)
  end.

(** The [bool] result and the out-parameter [value]: [Some v] is [true] with
    [value] assigned, [None] is [false] with [value] untouched. *)
Definition Get (now : TimePoint) (key : bytes) : M (KVStore Q) (option bytes) :=
  data ← gets m_data;
  match data !! key with
  | None => mret None
  | Some entry =>
      if IsExpired entry now then EraseEntryLocked (key, entry);; mret None
      else mret (Some (e_value entry))
  end.

Definition Del (now : TimePoint) (key : bytes) : M (KVStore Q) bool :=
  data ← gets m_data;
  match data !! key with
  | None => mret false
  | Some entry =>
      if IsExpired entry now then EraseEntryLocked (key, entry);; mret false
      else EraseEntryLocked (key, entry);; mret true
  end.

Definition Expire (now : TimePoint) (key : bytes) (seconds : Z) : M (KVStore Q) bool :=
  if seconds <=? 0 then mret false else
  data ← gets m_data;
  match data !! key with
  | None => mret false
  | Some entry =>
      if IsExpired entry now then EraseEntryLocked (key, entry);; mret false else
      when (negb (has_expire entry)) (
        n ← gets m_persistentKeys;
        massert (0 <? n) "m_persistentKeys > 0";;
        dec_persistent;;
        inc_expiring);;
      ns ← checked_i64 (seconds * NS_PER_SECOND);
      expireAt ← checked_i64 (now + ns);
      modify (fun s => s <| m_nextExpirationGeneration ::= fun g => wrap_u64 (g + 1) |>);;
      generation ← gets m_nextExpirationGeneration;
      modify (fun s => s <| m_data ::=
        <[key := mkEntry (e_value entry) (Some expireAt) generation]> |>);;
      modify (fun s => s <| m_expirations ::=
        pq_push (mkRecord expireAt key generation) |>);;
      mret true
  end.

Definition Ttl (now : TimePoint) (key : bytes) : M (KVStore Q) Z :=
  data ← gets m_data;
  match data !! key with
  | None => mret (-2)
  | Some entry =>
      if IsExpired entry now then EraseEntryLocked (key, entry);; mret (-2) else
      match e_expireAt entry with
      | None => mret (-1)
      | Some expireAt =>
          remaining ← checked_i64 (expireAt - now);
          mret (wrap_i32 (ceil_seconds remaining))
      end
  end.

Definition Size : M (KVStore Q) Z :=
  gets (fun s => wrap_u64 (m_persistentKeys s + m_expiringKeys s)).

Definition Stats : M (KVStore Q) InnerStats :=
  gets (fun s =>
    {| st_keys := wrap_u64 (m_persistentKeys s + m_expiringKeys s);
       st_persistentKeys := m_persistentKeys s;
       st_expiringKeys := m_expiringKeys s |}).

Definition ShouldRebuildExpirationHeapLocked : M (KVStore Q) bool :=
  heapSize ← gets (fun s => pq_size (m_expirations s));
  expiringKeys ← gets m_expiringKeys;
  if heapSize =? 0 then mret false else
  if expiringKeys =? 0 then mret true else
  if heapSize <? MIN_HEAP_RECORDS_FOR_REBUILD then mret false else
  massert (expiringKeys <=? heapSize) "heapSize >= m_expiringKeys";;
  let staleRecords := wrap_u64 (heapSize - expiringKeys) in
  mret ((MIN_STALE_RECORDS_FOR_REBUILD <=? staleRecords) && (expiringKeys <=? staleRecords)).

(** The record the rebuild pushes for an entry of the map. *)
Definition record_of (kv : bytes * Entry) : option ExpirationRecord :=
  match e_expireAt kv.2 with
  | None => None
  | Some t => Some (mkRecord t kv.1 (e_generation kv.2))
  end.

(** The [for] over [m_data]; [map_to_list] is one iteration order, and the
    order is forgotten by the queue built from the records. *)
Definition live_records (data : gmap bytes Entry) : list ExpirationRecord :=
  omap record_of (map_to_list data).

Definition RebuildExpirationHeapLocked : M (KVStore Q) unit :=
  expiringKeys ← gets m_expiringKeys;
  if expiringKeys =? 0 then modify (fun s => s <| m_expirations := pq_empty |>) else
  records ← gets (fun s => live_records (m_data s));
  massert (zlen records =? expiringKeys) "records.size() == m_expiringKeys";;
  modify (fun s => s <| m_expirations := pq_from records |>).

Definition SweepExpired (now : TimePoint) (maxRecordsToProcess : Z) :
    M (KVStore Q) SweepResult :=
  result ← SweepExpiredLocked now maxRecordsToProcess;
  rebuild ← ShouldRebuildExpirationHeapLocked;
  if (rebuild : bool) then
    RebuildExpirationHeapLocked;;
    q ← gets m_expirations;
    mret (result <| sw_heapRebuilt := true |> <| sw_hasMoreExpired := top_expired now q |>)
  else mret result.
End KVStore_ops.

(** Default argument of [SweepExpired]. *)
Definition DEFAULT_MAX_RECORDS : Z := 1024.
