(* ===== verification/KVStoreInv.v ===== *)
(** * The representation invariant of KVStore

    The counters count the entries of the map, every expiring entry has its
    record in the expiration heap, and the records of the heap carry pairwise
    distinct generations. The operations preserve it, none of their [assert]s
    fires, none of their integer computations overflows and the sweep loop
    ends. *)

From S2P Require Import Prelude PriorityQueue KVStore.
#[local] Open Scope Z_scope.

(** ** Counting entries by kind *)

(** Number of entries that have a deadline ([b = true]) or none. *)
Definition count_if (b : bool) (m : gmap bytes Entry) : Z :=
  Z.of_nat (size (filter (fun kv : bytes * Entry => has_expire kv.2 = b) m)).

Definition indicator (b : bool) (e : Entry) : Z := if decide (has_expire e = b) then 1 else 0.

Lemma count_if_empty b : count_if b ∅ = 0.
Proof. unfold count_if. by rewrite map_filter_empty, map_size_empty. Qed.

Lemma count_if_insert_None b k e m :
  m !! k = None -> count_if b (<[k := e]> m) = count_if b m + indicator b e.
Proof.
  intros Hk. unfold count_if, indicator. case_decide as Hb.
  - rewrite map_filter_insert_True by done.
    rewrite map_size_insert_None; [lia|]. apply map_lookup_filter_None. by left.
  - rewrite map_filter_insert_not'; [lia|done|]. intros ?. by rewrite Hk.
Qed.

Lemma count_if_delete b k e m :
  m !! k = Some e -> count_if b m = count_if b (delete k m) + indicator b e.
Proof.
  intros Hk. rewrite <-count_if_insert_None with (k := k) by apply lookup_delete_eq.
  by rewrite insert_delete_eq, insert_id.
Qed.

Lemma count_if_insert_Some b k e e' m :
  m !! k = Some e ->
  count_if b (<[k := e']> m) = count_if b m - indicator b e + indicator b e'.
Proof.
  intros Hk. rewrite <-insert_delete_eq, count_if_insert_None by apply lookup_delete_eq.
  rewrite (count_if_delete b k e m) by done. lia.
Qed.

Lemma count_if_nonneg b m : 0 <= count_if b m.
Proof. unfold count_if. lia. Qed.

Lemma count_if_pos k e m : m !! k = Some e -> 0 < count_if (has_expire e) m.
Proof.
  intros Hk. rewrite (count_if_delete _ k e m) by done.
  pose proof (count_if_nonneg (has_expire e) (delete k m)).
  unfold indicator. case_decide; [lia|done].
Qed.

Lemma count_if_total m : count_if true m + count_if false m = Z.of_nat (size m).
Proof.
  induction m as [|k e m Hk IH] using map_ind.
  - by rewrite !count_if_empty, map_size_empty.
  - rewrite !count_if_insert_None, map_size_insert_None by done.
    unfold indicator. destruct (has_expire e); repeat case_decide; try done; lia.
Qed.

(** ** The records of the live entries *)

Lemma live_records_insert k e m :
  m !! k = None ->
  live_records (<[k := e]> m) ≡ₚ omap record_of [(k, e)] ++ live_records m.
Proof.
  intros Hk. unfold live_records. rewrite map_to_list_insert by done.
  rewrite <-omap_app. done.
Qed.

Lemma zlen_live_records m : zlen (live_records m) = count_if true m.
Proof.
  induction m as [|k e m Hk IH] using map_ind.
  - unfold live_records. by rewrite map_to_list_empty, count_if_empty.
  - rewrite count_if_insert_None by done. unfold zlen in *.
    rewrite live_records_insert by done. rewrite length_app. cbn.
    unfold record_of, indicator, has_expire. cbn. destruct (e_expireAt e); cbn; case_decide; try done; cbn; lia.
Qed.

Lemma elem_of_live_records r m :
  r ∈ live_records m <->
  exists e, m !! r_key r = Some e /\ e_expireAt e = Some (r_expireAt r)
            /\ e_generation e = r_generation r.
Proof.
  unfold live_records. rewrite list_elem_of_omap. split.
  - intros ([k e] & Hin & Hr). apply elem_of_map_to_list in Hin.
    unfold record_of in Hr. cbn in Hr. destruct (e_expireAt e) eqn:?; naive_solver.
  - intros (e & Hk & Ht & Hg). exists (r_key r, e). split; [by apply elem_of_map_to_list|].
    unfold record_of. cbn. rewrite Ht, Hg. by destruct r.
Qed.

Lemma live_records_keys_NoDup m : NoDup (r_key <$> live_records m).
Proof.
  induction m as [|k e m Hk IH] using map_ind.
  - unfold live_records. rewrite map_to_list_empty. constructor.
  - rewrite live_records_insert by done. unfold record_of. cbn.
    destruct (e_expireAt e) as [t|]; cbn; [|done]. constructor; [|done].
    rewrite list_elem_of_fmap. intros (r & -> & Hr).
    apply elem_of_live_records in Hr as (e' & He' & _). congruence.
Qed.

(** ** The invariant *)

Definition CLOCK_MAX : Z := I64_MAX - INT_MAX * NS_PER_SECOND.

(** The steady clock of a process that runs for less than 224 years. *)
Definition clock_ok (now : TimePoint) : Prop := 0 <= now <= CLOCK_MAX.

Section invariant.
Context {Q : Type} `{!PriorityQueue ExpirationRecord Q}.

(** [n] bounds the number of operations so far, [now] is the clock reading of
    the latest of them. *)
Record Inv (n : Z) (now : TimePoint) (s : KVStore Q) : Prop := {
  inv_persistent : m_persistentKeys s = count_if false (m_data s);
  inv_expiring : m_expiringKeys s = count_if true (m_data s);
  inv_size : Z.of_nat (size (m_data s)) <= n;
  inv_generation : 0 <= m_nextExpirationGeneration s <= n;
  inv_live r : r ∈ live_records (m_data s) -> r ∈ pq_elements (m_expirations s);
  inv_deadline r : r ∈ live_records (m_data s) -> r_expireAt r <= now + INT_MAX * NS_PER_SECOND;
  inv_records r :
    r ∈ pq_elements (m_expirations s) -> 1 <= r_generation r <= m_nextExpirationGeneration s;
  inv_nodup : NoDup (r_generation <$> pq_elements (m_expirations s));
}.

(** A store whose counters are right is determined by its other fields. *)
Definition canon (d : gmap bytes Entry) (g : Z) (h : Q) : KVStore Q :=
  {| m_data := d; m_nextExpirationGeneration := g;
     m_persistentKeys := count_if false d; m_expiringKeys := count_if true d;
     m_expirations := h |}.

Lemma Inv_canon n now s :
  Inv n now s -> s = canon (m_data s) (m_nextExpirationGeneration s) (m_expirations s).
Proof. intros [Hp He _ _ _ _ _ _]. destruct s; cbn in *. by subst. Qed.

(** To prove something of a consistent store, prove it of [canon]. *)
Lemma Inv_elim (P : KVStore Q -> Prop) n now s :
  Inv n now s -> (forall d g h, Inv n now (canon d g h) -> P (canon d g h)) -> P s.
Proof. intros HI HP. rewrite (Inv_canon _ _ _ HI) in HI |- *. by apply HP. Qed.

Lemma Inv_mono n n' now now' s : n <= n' -> now <= now' -> Inv n now s -> Inv n' now' s.
Proof.
  intros Hn Ht [? ? ? ? ? Hd ? ?]. split; try done; try lia.
  intros r Hr%Hd. lia.
Qed.

(** Dropping or replacing entries without adding a deadline. *)
Lemma Inv_data n now d d' g h :
  Inv n now (canon d g h) ->
  (forall r, r ∈ live_records d' -> r ∈ live_records d) ->
  Z.of_nat (size d') <= n ->
  Inv n now (canon d' g h).
Proof. intros [? ? ? ? Hl Hd ? ?] Hsub ?. split; cbn in *; auto. Qed.

Lemma live_records_delete k d r : r ∈ live_records (delete k d) -> r ∈ live_records d.
Proof.
  rewrite !elem_of_live_records. intros (e & He & ?).
  apply lookup_delete_Some in He as [_ He]. eauto.
Qed.

Lemma Inv_delete n now k d g h :
  Inv n now (canon d g h) -> Inv n now (canon (delete k d) g h).
Proof.
  intros HI. eapply Inv_data; [done|apply live_records_delete|].
  pose proof (inv_size _ _ _ HI) as Hs. cbn in Hs.
  pose proof (map_subseteq_size _ _ (delete_subseteq d k)). lia.
Qed.

Lemma Inv_insert_persistent n now k e d g h :
  has_expire e = false -> Inv n now (canon d g h) -> Inv (n + 1) now (canon (<[k := e]> d) g h).
Proof.
  intros He HI. eapply Inv_data; [eapply Inv_mono; [| |exact HI]; lia| |].
  - intros r. rewrite !elem_of_live_records. intros (e' & Hk & Ht & Hg).
    apply lookup_insert_Some in Hk as [[_ <-]|[_ Hk]]; [|eauto].
    unfold has_expire in He. by rewrite Ht in He.
  - pose proof (inv_size _ _ _ HI) as Hs. cbn in Hs.
    rewrite map_size_insert. destruct (d !! k); cbn; lia.
Qed.

Context `{!PriorityQueueLaws ExpirationRecord Q ExpirationCompare}.

Lemma Inv_init now : Inv 0 now KVStore_init.
Proof.
  split; cbn; rewrite ?count_if_empty, ?map_size_empty, ?pq_elements_empty;
    try done; try lia; try apply NoDup_nil_2.
  all: intros r Hin; try (unfold live_records in Hin; rewrite map_to_list_empty in Hin);
    by apply not_elem_of_nil in Hin.
Qed.

(** Giving an entry a deadline: fresh generation, its record pushed. *)
Lemma Inv_expire n now t k e v d g h :
  d !! k = Some e -> t <= now + INT_MAX * NS_PER_SECOND ->
  Inv n now (canon d g h) ->
  Inv (n + 1) now (canon (<[k := mkEntry v (Some t) (g + 1)]> d) (g + 1)
                         (pq_push (mkRecord t k (g + 1)) h)).
Proof.
  intros Hk Ht [_ _ Hs Hg Hl Hd Hr Hnd]. cbn in *.
  assert (forall r, r ∈ live_records (<[k := mkEntry v (Some t) (g + 1)]> d) ->
            r = mkRecord t k (g + 1) \/ r ∈ live_records d) as Hlive.
  { intros [t' k' g']. rewrite !elem_of_live_records. cbn. intros (e' & Hk' & Ht' & Hg').
    apply lookup_insert_Some in Hk' as [[<- <-]|[_ Hk']]; [|eauto].
    left. cbn in *. by simplify_eq. }
  split; cbn; try done; try lia.
  - rewrite map_size_insert, Hk. cbn. lia.
  - intros r Hin. rewrite pq_elements_push, elem_of_cons. destruct (Hlive r Hin); auto.
  - intros r Hin. destruct (Hlive r Hin) as [->|?]; [done|auto].
  - intros r. rewrite pq_elements_push, elem_of_cons.
    intros [->|Hin%Hr]; cbn; lia.
  - rewrite pq_elements_push. cbn. constructor; [|done].
    rewrite list_elem_of_fmap. intros (r & Heq & Hin%Hr). cbn in *. lia.
Qed.

(** Popping a record that no live entry needs. *)
Lemma Inv_pop n now d g h r :
  pq_top h = Some r -> r ∉ live_records d ->
  Inv n now (canon d g h) -> Inv n now (canon d g (pq_pop h)).
Proof.
  intros Htop Hstale [? ? ? ? Hl Hd Hr Hnd]. cbn in *.
  apply pq_top_pop in Htop. split; cbn; try done.
  - intros r' Hr'. specialize (Hl r' Hr'). rewrite Htop, elem_of_cons in Hl.
    destruct Hl as [->|?]; done.
  - intros r' Hr'. apply Hr. rewrite Htop. by right.
  - rewrite Htop in Hnd. cbn in Hnd. by inversion Hnd.
Qed.

Lemma heap_size_bounds n now d g h :
  Inv n now (canon d g h) -> count_if true d <= pq_size h <= n.
Proof.
  intros [_ _ _ Hg Hl _ Hr Hnd]. cbn in *. rewrite pq_size_elements. split.
  - rewrite <-zlen_live_records. unfold zlen. apply inj_le, submseteq_length.
    apply NoDup_submseteq; [|done].
    eapply NoDup_fmap_1, (live_records_keys_NoDup d).
  - pose proof (NoDup_Z_range _ (g) Hnd) as Hz.
    unfold zlen in *. rewrite length_fmap in Hz.
    etrans; [apply Hz|lia].
    intros x (r & -> & Hin%Hr)%list_elem_of_fmap. done.
Qed.

Lemma Inv_rebuild n now d g h :
  Inv n now (canon d g h) -> Inv n now (canon d g (pq_from (live_records d))).
Proof.
  intros [? ? ? ? Hl Hd Hr Hnd]. cbn in *. split; cbn; try done.
  - intros r. by rewrite pq_elements_from.
  - intros r. rewrite pq_elements_from. auto.
  - rewrite pq_elements_from. eapply NoDup_fmap_incl; [|exact Hl|exact Hnd].
    eapply NoDup_fmap_1, (live_records_keys_NoDup d).
Qed.

Lemma Inv_clear_heap n now d g h :
  count_if true d = 0 -> Inv n now (canon d g h) -> Inv n now (canon d g pq_empty).
Proof.
  intros H0 [? ? ? ? Hl Hd Hr Hnd].
  assert (live_records d = []) as E by (apply zlen_0_nil; by rewrite zlen_live_records).
  split; cbn in *; rewrite ?pq_elements_empty, ?E; try done.
  all: try (intros r Hin; by apply not_elem_of_nil in Hin).
  constructor.
Qed.

(** When the top of the heap is not due, no entry is. *)
Lemma top_not_expired n now0 now d g h k e :
  Inv n now0 (canon d g h) -> top_expired now h = false ->
  d !! k = Some e -> IsExpired e now = false.
Proof.
  intros [_ _ _ _ Hl _ _ _] Htop Hk. unfold IsExpired.
  destruct (e_expireAt e) as [t|] eqn:Ht; [|done].
  assert (mkRecord t k (e_generation e) ∈ pq_elements h) as Hin.
  { apply Hl, elem_of_live_records. cbn. eauto. }
  unfold top_expired in Htop. destruct (pq_top h) as [r|] eqn:Hr.
  - eapply pq_top_highest in Hr; [|exact Hin].
    unfold ExpirationCompare in Hr. cbn in Hr. lia.
  - apply pq_top_None in Hr. rewrite Hr in Hin. by apply not_elem_of_nil in Hin.
Qed.
End invariant.
