(* ===== verification/KVStoreOps.v ===== *)
(** * What each operation of KVStore computes on a consistent store

    On a store whose counters are right ([canon]) every operation is given by
    an equation: its result and the new map, generation counter and heap. The
    equations say at once that no [assert] fires and nothing overflows. *)

From S2P Require Import Prelude PriorityQueue KVStore KVStoreInv.
#[local] Open Scope Z_scope.

Section op_equations.
Context {Q : Type} `{!PriorityQueue ExpirationRecord Q}.
Implicit Types (d : gmap bytes Entry) (h : Q).

Lemma count_if_le_size b d : count_if b d <= Z.of_nat (size d).
Proof.
  rewrite <-count_if_total. pose proof (count_if_nonneg true d).
  pose proof (count_if_nonneg false d). destruct b; lia.
Qed.

Lemma ret_canon {A} (o : outcome A) d g np ne h :
  np = count_if false d -> ne = count_if true d ->
  (o, mkKVStore Q d g np ne h) = (o, canon d g h).
Proof. by intros -> ->. Qed.

Lemma erase_canon k e d g h :
  d !! k = Some e -> Z.of_nat (size d) < U64_MOD ->
  EraseEntryLocked (k, e) (canon d g h) = (Ret tt, canon (delete k d) g h).
Proof.
  intros Hk Hsz.
  pose proof (count_if_pos _ _ _ Hk) as Hpos.
  pose proof (count_if_le_size (has_expire e) d).
  pose proof (fun b => count_if_delete b k e d Hk) as Hdel.
  pose proof (Hdel true) as Ht. pose proof (Hdel false) as Hf. unfold indicator in Ht, Hf.
  unfold EraseEntryLocked, massert, dec_expiring, dec_persistent, canon.
  unfold mbind, M_bind, gets, modify, mret, M_ret, fail. cbn.
  destruct (has_expire e) eqn:He; cbn in *;
    repeat case_decide; try done.
  - replace (0 <? count_if true d) with true by lia. cbn.
    apply ret_canon; rewrite ?wrap_u64_small by lia; lia.
  - replace (0 <? count_if false d) with true by lia. cbn.
    apply ret_canon; rewrite ?wrap_u64_small by lia; lia.
Qed.

Lemma set_canon k v d g h :
  Z.of_nat (size d) + 1 < U64_MOD ->
  Set_ k v (canon d g h) =
    (Ret tt,
     canon (<[k := mkEntry v None (match d !! k with
                                    | None => 0
                                    | Some e => wrap_u64 (e_generation e + 1)
                                    end)]> d) g h).
Proof.
  intros Hsz. pose proof (count_if_le_size true d). pose proof (count_if_le_size false d).
  pose proof (count_if_nonneg true d). pose proof (count_if_nonneg false d).
  unfold Set_, canon, when, inc_persistent, dec_expiring, mbind, M_bind, gets, modify. cbn.
  destruct (d !! k) as [e|] eqn:Hk; cbn.
  - pose proof (count_if_pos _ _ _ Hk).
    destruct (has_expire e) eqn:He; cbn; apply ret_canon;
      rewrite (count_if_insert_Some _ k e) by done; unfold indicator; cbn; rewrite He;
      repeat case_decide; try done; rewrite ?wrap_u64_small by lia; lia.
  - apply ret_canon; rewrite count_if_insert_None by done; unfold indicator; cbn;
      repeat case_decide; try done; rewrite ?wrap_u64_small by lia; lia.
Qed.

(** The shape [Get], [Del], [Expire] and [Ttl] share: missing and expired
    keys are answered with [none], an expired one is erased. *)
Lemma lookup_or_erase {A} now k d g h (none : A) (live : Entry -> M (KVStore Q) A) :
  Z.of_nat (size d) < U64_MOD ->
  (match d !! k with
   | None => mret none
   | Some e => if IsExpired e now then EraseEntryLocked (k, e);; mret none else live e
   end) (canon d g h) =
  match d !! k with
  | None => (Ret none, canon d g h)
  | Some e => if IsExpired e now then (Ret none, canon (delete k d) g h)
              else live e (canon d g h)
  end.
Proof.
  intros Hsz. destruct (d !! k) as [e|] eqn:Hk; [|done].
  destruct (IsExpired e now); [|done].
  unfold mbind, M_bind. by rewrite erase_canon.
Qed.

Lemma get_canon now k d g h :
  Z.of_nat (size d) < U64_MOD ->
  Get now k (canon d g h) =
  match d !! k with
  | None => (Ret None, canon d g h)
  | Some e => if IsExpired e now then (Ret None, canon (delete k d) g h)
              else (Ret (Some (e_value e)), canon d g h)
  end.
Proof. intros. by apply (lookup_or_erase now k d g h None). Qed.

Lemma del_canon now k d g h :
  Z.of_nat (size d) < U64_MOD ->
  Del now k (canon d g h) =
  match d !! k with
  | None => (Ret false, canon d g h)
  | Some e => (Ret (negb (IsExpired e now)), canon (delete k d) g h)
  end.
Proof.
  intros Hsz. etrans; [by apply (lookup_or_erase now k d g h false)|].
  destruct (d !! k) as [e|] eqn:Hk; [|done]. destruct (IsExpired e now); [done|].
  unfold mbind, M_bind. by rewrite erase_canon.
Qed.

Lemma ttl_canon now k d g h :
  Z.of_nat (size d) < U64_MOD ->
  (forall e t, d !! k = Some e -> e_expireAt e = Some t -> t - now <= I64_MAX) ->
  Ttl now k (canon d g h) =
  match d !! k with
  | None => (Ret (-2), canon d g h)
  | Some e =>
      if IsExpired e now then (Ret (-2), canon (delete k d) g h)
      else match e_expireAt e with
           | None => (Ret (-1), canon d g h)
           | Some t => (Ret (wrap_i32 (ceil_seconds (t - now))), canon d g h)
           end
  end.
Proof.
  intros Hsz Hfit. etrans; [by apply (lookup_or_erase now k d g h (-2))|].
  destruct (d !! k) as [e|] eqn:Hk; [|done]. destruct (IsExpired e now) eqn:Hexp; [done|].
  unfold IsExpired in Hexp. destruct (e_expireAt e) as [t|] eqn:Ht; [|done].
  specialize (Hfit e t eq_refl Ht). unfold mbind, M_bind.
  rewrite checked_i64_ok; [done|]. unfold I64_MIN. lia.
Qed.

Lemma expire_canon now k seconds d g h :
  Z.of_nat (size d) + 1 < U64_MOD -> 0 <= g < U64_MOD - 1 ->
  clock_ok now -> INT_MIN <= seconds <= INT_MAX ->
  Expire now k seconds (canon d g h) =
  if seconds <=? 0 then (Ret false, canon d g h) else
  match d !! k with
  | None => (Ret false, canon d g h)
  | Some e =>
      if IsExpired e now then (Ret false, canon (delete k d) g h) else
      let t := now + seconds * NS_PER_SECOND in
      (Ret true, canon (<[k := mkEntry (e_value e) (Some t) (g + 1)]> d) (g + 1)
                       (pq_push (mkRecord t k (g + 1)) h))
  end.
Proof.
  intros Hsz Hg Hclk Hsec. unfold Expire.
  destruct (Z.leb_spec seconds 0) as [|Hpos]; [done|].
  etrans; [apply (lookup_or_erase now k d g h false); lia|].
  destruct (d !! k) as [e|] eqn:Hk; [|done]. destruct (IsExpired e now); [done|].
  unfold clock_ok, CLOCK_MAX, INT_MIN, INT_MAX, I64_MAX, NS_PER_SECOND in *.
  pose proof (count_if_pos _ _ _ Hk).
  pose proof (count_if_le_size true d). pose proof (count_if_le_size false d).
  pose proof (count_if_nonneg true d). pose proof (count_if_nonneg false d).
  unfold canon, when, massert, inc_expiring, dec_persistent.
  unfold mbind, M_bind, gets, modify, mret, M_ret.
  destruct (has_expire e) eqn:He; cbn.
  2: replace (0 <? count_if false d) with true by lia; cbn.
  all: rewrite !checked_i64_ok by (unfold I64_MIN, I64_MAX; lia); cbn.
  all: rewrite (wrap_u64_small (g + 1)) by lia; apply ret_canon;
    rewrite (count_if_insert_Some _ k e) by done; unfold indicator; cbn; rewrite He;
    repeat case_decide; try done; rewrite ?wrap_u64_small by lia; lia.
Qed.
End op_equations.
