(* ===== verification/KVStoreSweep.v ===== *)
(** * The sweeper: SweepExpiredLocked, the heap rebuild and SweepExpired *)

From S2P Require Import Prelude PriorityQueue KVStore KVStoreInv KVStoreOps.
#[local] Open Scope Z_scope.

Section sweep.
Context {Q : Type} `{!PriorityQueue ExpirationRecord Q}
  `{!PriorityQueueLaws ExpirationRecord Q ExpirationCompare}.
Implicit Types (d : gmap bytes Entry) (h : Q).

(** What popping the record [r] does to the map: its entry goes if [r] is
    the record of a live entry, a stale record changes nothing. *)
Definition drop_record (r : ExpirationRecord) d : gmap bytes Entry :=
  if decide (r ∈ live_records d) then delete (r_key r) d else d.

Definition drop_count (r : ExpirationRecord) d : Z :=
  if decide (r ∈ live_records d) then 1 else 0.

Lemma sweep_round now maxn d g h res r :
  pq_top h = Some r -> sw_processed res < maxn -> r_expireAt r <= now ->
  Z.of_nat (size d) < U64_MOD ->
  SweepExpiredLocked_body now maxn (canon d g h, res) =
    (Ret Continue,
     (canon (drop_record r d) g (pq_pop h),
      res <| sw_processed := wrap_u64 (sw_processed res + 1) |>
          <| sw_removed := if decide (r ∈ live_records d)
                           then wrap_u64 (sw_removed res + 1) else sw_removed res |>)).
Proof.
  intros Htop Hmax Hdue Hsz. destruct res as [np nr more rebuilt]. cbn in Hmax.
  unfold SweepExpiredLocked_body, drop_record.
  cbv [mbind M_bind gets modify mret M_ret zoom upd id]. cbn.
  rewrite Htop. replace (np <? maxn) with true by lia.
  replace (now <? r_expireAt r) with false by lia. cbn.
  assert (forall P : Prop, (r ∈ live_records d <-> P) ->
    (r ∈ live_records d -> P) /\ (P -> r ∈ live_records d)) as Hiff by tauto.
  pose proof (Hiff _ (elem_of_live_records r d)) as [Hl1 Hl2]. clear Hiff.
  destruct (d !! r_key r) as [e|] eqn:Hk.
  2: { rewrite !decide_False by (intros (? & ? & _)%Hl1; congruence). done. }
  destruct (Z.eqb_spec (e_generation e) (r_generation r)) as [Hgen|Hgen]; cbn.
  2: { rewrite !decide_False by (intros (e' & ? & _ & ?)%Hl1; congruence). done. }
  destruct (e_expireAt e) as [t|] eqn:Ht.
  2: { rewrite !decide_False by (intros (e' & ? & ? & _)%Hl1; congruence). done. }
  destruct (Z.eqb_spec t (r_expireAt r)) as [->|Hne]; cbn.
  2: { rewrite !decide_False by (intros (e' & ? & ? & _)%Hl1; congruence). done. }
  rewrite !decide_True by (apply Hl2; eauto).
  change {| m_data := d; m_nextExpirationGeneration := g; m_persistentKeys := _;
            m_expiringKeys := _; m_expirations := pq_pop h |} with (canon d g (pq_pop h)).
  by rewrite erase_canon.
Qed.

Lemma drop_record_not_live r d : r ∉ live_records (drop_record r d).
Proof.
  unfold drop_record. case_decide as Hin; [|done].
  rewrite elem_of_live_records. intros (e & He & _). by rewrite lookup_delete_eq in He.
Qed.

Lemma drop_record_subseteq r d : drop_record r d ⊆ d.
Proof. unfold drop_record. case_decide; [apply delete_subseteq|done]. Qed.

Lemma drop_record_size r d :
  Z.of_nat (size (drop_record r d)) = Z.of_nat (size d) - drop_count r d.
Proof.
  unfold drop_record, drop_count. case_decide as Hin; [|lia].
  apply elem_of_live_records in Hin as (e & He & _).
  rewrite map_size_delete, He. cbn.
  pose proof (map_size_ne_0_lookup_2 d (r_key r) (ex_intro _ e He)). lia.
Qed.

Lemma drop_record_expired r now d k e :
  r_expireAt r <= now -> d !! k = Some e -> drop_record r d !! k = None ->
  IsExpired e now = true.
Proof.
  intros Hdue Hk. unfold drop_record. case_decide as Hin; [|by rewrite Hk].
  apply elem_of_live_records in Hin as (e' & He' & Ht & _).
  intros [Heq|Hd]%lookup_delete_None; [|congruence].
  assert (e = e') as -> by congruence. unfold IsExpired. rewrite Ht. lia.
Qed.

Lemma Inv_drop n now d g h r :
  pq_top h = Some r -> Inv n now (canon d g h) ->
  Inv n now (canon (drop_record r d) g (pq_pop h)).
Proof.
  intros Htop HI. eapply Inv_pop; [done|apply drop_record_not_live|].
  unfold drop_record. case_decide; [by apply Inv_delete|done].
Qed.

(** What a sweep at time [now] did so far, from [d0], [h0] to [d], [h]. *)
Record swept (now : TimePoint) d0 h0 d h (res : SweepResult) : Prop := {
  swept_subseteq : d ⊆ d0;
  swept_expired k e : d0 !! k = Some e -> d !! k = None -> IsExpired e now = true;
  swept_removed : sw_removed res = Z.of_nat (size d0) - Z.of_nat (size d);
  swept_processed : sw_processed res = pq_size h0 - pq_size h;
  swept_nonneg : 0 <= sw_processed res;
}.

Lemma swept_refl now d h : swept now d h d h SweepResult_zero.
Proof. split; cbn; try lia; try done. intros k e -> ?. done. Qed.

Lemma pq_size_pop h r : pq_top h = Some r -> pq_size (pq_pop h) = pq_size h - 1.
Proof.
  intros Hp%pq_top_pop. rewrite !pq_size_elements. unfold zlen. rewrite Hp. cbn [length]. lia.
Qed.

Lemma pq_size_nonneg h : 0 <= pq_size h.
Proof. rewrite pq_size_elements. apply zlen_nonneg. Qed.

Lemma swept_step now d0 h0 d h res r :
  swept now d0 h0 d h res -> pq_top h = Some r -> r_expireAt r <= now ->
  Z.of_nat (size d0) < U64_MOD -> pq_size h0 < U64_MOD ->
  swept now d0 h0 (drop_record r d) (pq_pop h)
    (res <| sw_processed := wrap_u64 (sw_processed res + 1) |>
         <| sw_removed := if decide (r ∈ live_records d)
                          then wrap_u64 (sw_removed res + 1) else sw_removed res |>).
Proof.
  intros [Hsub Hexp Hrem Hproc Hnn] Htop Hdue Hd Hh.
  pose proof (pq_size_pop _ _ Htop). pose proof (pq_size_nonneg (pq_pop h)).
  pose proof (map_subseteq_size _ _ Hsub).
  split; cbn.
  - etrans; [apply drop_record_subseteq|done].
  - intros k e Hk Hnone. destruct (d !! k) as [e'|] eqn:Hk'; [|eauto].
    eapply drop_record_expired; [done| |done].
    rewrite (lookup_weaken _ _ _ _ Hk' Hsub) in Hk. by simplify_eq.
  - pose proof (drop_record_size r d) as Hsz. unfold drop_count in Hsz.
    pose proof (map_subseteq_size _ _ (drop_record_subseteq r d)).
    case_decide; [|lia]. rewrite wrap_u64_small; lia.
  - rewrite wrap_u64_small; lia.
  - rewrite wrap_u64_small; lia.
Qed.

(** The record of the entry is among [rs]. *)
Definition record_in (rs : list ExpirationRecord) (kv : bytes * Entry) : bool :=
  match record_of kv with
  | None => false
  | Some r => bool_decide (r ∈ rs)
  end.

(** The entries whose record is not among [rs]. *)
Definition without_records (rs : list ExpirationRecord) d : gmap bytes Entry :=
  filter (fun kv => record_in rs kv = false) d.

Lemma lookup_without rs d k e :
  without_records rs d !! k = Some e <-> d !! k = Some e /\ record_in rs (k, e) = false.
Proof. unfold without_records. by rewrite map_lookup_filter_Some. Qed.

Lemma without_nil d : without_records [] d = d.
Proof.
  apply map_eq. intros k. apply option_eq. intros e. rewrite lookup_without.
  split; [by intros []|]. intros Hk. split; [done|].
  unfold record_in. by destruct (record_of (k, e)).
Qed.

Lemma record_of_key k e r : record_of (k, e) = Some r -> r_key r = k.
Proof. unfold record_of. cbn. destruct (e_expireAt e); [|done]. by intros [= <-]. Qed.

Lemma live_record_of r d : r ∈ live_records d <-> exists e, d !! r_key r = Some e /\ record_of (r_key r, e) = Some r.
Proof.
  rewrite elem_of_live_records. unfold record_of. cbn. destruct r as [t k g]. cbn.
  split; intros (e & Hk & He); exists e; (split; [done|]).
  - destruct He as [-> ->]. done.
  - destruct (e_expireAt e); [|done]. by injection He as -> ->.
Qed.

Lemma record_in_cons r rs k e :
  record_in (r :: rs) (k, e) = false <-> record_of (k, e) <> Some r /\ record_in rs (k, e) = false.
Proof.
  unfold record_in. destruct (record_of (k, e)) as [r'|]; [|naive_solver].
  rewrite !bool_decide_eq_false, not_elem_of_cons. naive_solver.
Qed.

(** Popping [r] takes away exactly the entry whose record is [r]. *)
Lemma drop_without r rs d :
  drop_record r (without_records rs d) = without_records (r :: rs) d.
Proof.
  apply map_eq. intros k. apply option_eq. intros e.
  rewrite lookup_without, record_in_cons. unfold drop_record. case_decide as Hin.
  - apply live_record_of in Hin as (e' & [He' Hout]%lookup_without & Hr).
    rewrite lookup_delete_Some, lookup_without. split.
    + intros (Hne & Hk & Hrs). split_and!; try done. by intros Hk'%record_of_key.
    + intros (Hk & Hne & Hrs). split_and!; try done. intros <-. congruence.
  - rewrite lookup_without. split; [|naive_solver]. intros [Hk Hrs]. split_and!; try done.
    intros Hr. apply Hin, live_record_of. pose proof (record_of_key _ _ _ Hr) as Hk'.
    exists e. rewrite Hk'. split; [|done]. by apply lookup_without.
Qed.

(** The records [popped] so far: all of them due, none later than one that is
    left, and their entries gone. *)
Record reached (now : TimePoint) d0 h0 d h (popped : list ExpirationRecord) (res : SweepResult) : Prop := {
  reached_elements : pq_elements h0 ≡ₚ popped ++ pq_elements h;
  reached_due : Forall (fun r => r_expireAt r <= now) popped;
  reached_order r r' : r ∈ popped -> r' ∈ pq_elements h -> r_expireAt r <= r_expireAt r';
  reached_data : d = without_records popped d0;
  reached_count : sw_processed res = zlen popped;
  reached_removed : sw_removed res <= sw_processed res;
}.

Lemma reached_refl now d h : reached now d h d h [] SweepResult_zero.
Proof.
  split; cbn; [done|constructor| |by rewrite without_nil|done|done].
  intros r r' Hr. by apply not_elem_of_nil in Hr.
Qed.

Lemma reached_step now d0 h0 d h popped res res' r :
  reached now d0 h0 d h popped res -> pq_top h = Some r -> r_expireAt r <= now ->
  sw_processed res' = sw_processed res + 1 -> sw_removed res' <= sw_removed res + 1 ->
  reached now d0 h0 (drop_record r d) (pq_pop h) (r :: popped) res'.
Proof.
  intros [Hel Hdue Hord Hd Hc Hrem] Htop Hr Hp Hrem'. pose proof (pq_top_pop _ _ Htop) as Hpop. split.
  - rewrite Hel, Hpop. cbn. by rewrite Permutation_middle.
  - by constructor.
  - intros r1 r2 [->|Hr1]%elem_of_cons Hr2.
    + assert (r2 ∈ pq_elements h) as Hin by (rewrite Hpop; by right).
      pose proof (pq_top_highest _ _ _ Htop Hin) as Hc'. unfold ExpirationCompare in Hc'. lia.
    + apply Hord; [done|]. rewrite Hpop. by right.
  - by rewrite Hd, drop_without.
  - rewrite zlen_cons. lia.
  - lia.
Qed.

(** A removed entry was expired at least as early as any that is left. *)
Lemma reached_earliest n now0 now d0 g h0 d h popped res k e t k' e' t' :
  Inv n now0 (canon d0 g h0) -> reached now d0 h0 d h popped res ->
  d0 !! k = Some e -> e_expireAt e = Some t -> d !! k = None ->
  d !! k' = Some e' -> e_expireAt e' = Some t' -> t <= t'.
Proof.
  intros HI [Hel _ Hord -> _ _] Hk Ht Hgone [Hk' Hout]%lookup_without Ht'.
  assert (record_of (k, e) = Some (mkRecord t k (e_generation e))) as Hr by (unfold record_of; cbn; by rewrite Ht).
  assert (record_of (k', e') = Some (mkRecord t' k' (e_generation e'))) as Hr' by (unfold record_of; cbn; by rewrite Ht').
  apply (Hord (mkRecord t k (e_generation e)) (mkRecord t' k' (e_generation e'))).
  - destruct (decide (mkRecord t k (e_generation e) ∈ popped)) as [|Hnin]; [done|].
    assert (without_records popped d0 !! k = Some e) as Hin; [|congruence].
    apply lookup_without. split; [done|]. unfold record_in. rewrite Hr. by apply bool_decide_eq_false.
  - assert (mkRecord t' k' (e_generation e') ∈ pq_elements h0) as Hin.
    { apply (inv_live _ _ _ HI), live_record_of. cbn. eauto. }
    rewrite Hel in Hin. apply elem_of_app in Hin as [Hin|]; [|done].
    unfold record_in in Hout. rewrite Hr' in Hout. by apply bool_decide_eq_false in Hout.
Qed.

(** *** How many records are due *)

Definition due_records (now : TimePoint) (rs : list ExpirationRecord) : list ExpirationRecord :=
  filter (fun r => r_expireAt r <= now) rs.

Lemma top_expired_due now h : top_expired now h = bool_decide (Exists (fun r => r_expireAt r <= now) (pq_elements h)).
Proof.
  unfold top_expired. symmetry. destruct (pq_top h) as [r|] eqn:Htop.
  - destruct (Z.leb_spec (r_expireAt r) now) as [Hle|Hgt].
    + apply bool_decide_eq_true_2, Exists_exists. exists r. split; [|done].
      rewrite (pq_top_pop _ _ Htop). by left.
    + apply bool_decide_eq_false_2. intros (r' & Hin & Hdue)%Exists_exists.
      pose proof (pq_top_highest _ _ _ Htop Hin) as Hc. unfold ExpirationCompare in Hc. lia.
  - apply pq_top_None in Htop. rewrite Htop. apply bool_decide_eq_false_2. by intros ?%Exists_nil.
Qed.

Lemma reached_all_due now maxn d0 h0 d h popped res :
  reached now d0 h0 d h popped res -> sw_processed res <= maxn ->
  (sw_processed res < maxn -> top_expired now h = false) ->
  sw_processed res = Z.min maxn (zlen (due_records now (pq_elements h0))).
Proof.
  intros [Hel Hdue _ _ Hc _] Hmax Htop.
  assert (zlen (due_records now (pq_elements h0)) =
    zlen popped + zlen (due_records now (pq_elements h))) as ->.
  { unfold due_records, zlen. rewrite Hel, filter_app, length_app.
    rewrite (filter_all _ popped) by done. lia. }
  destruct (decide (sw_processed res < maxn)) as [Hlt|].
  - specialize (Htop Hlt). rewrite top_expired_due, bool_decide_eq_false in Htop.
    apply not_Exists_Forall in Htop; [|intros ?; apply _].
    unfold due_records. rewrite (filter_none _ (pq_elements h)) by done.
    rewrite zlen_nil. lia.
  - pose proof (zlen_nonneg (due_records now (pq_elements h))). lia.
Qed.

(** The state between two rounds of the loop. *)
Definition sweep_inv n now0 now maxn d0 g h0 (st : KVStore Q * SweepResult) : Prop :=
  exists d h, st.1 = canon d g h /\ Inv n now0 st.1 /\ swept now d0 h0 d h st.2
    /\ sw_processed st.2 <= maxn
    /\ sw_hasMoreExpired st.2 = false /\ sw_heapRebuilt st.2 = false
    /\ exists popped, reached now d0 h0 d h popped st.2.

(** The three ways out of the loop leave the state alone. *)
Lemma sweep_body_break now maxn st :
  maxn <= sw_processed st.2 \/ top_expired now (m_expirations st.1) = false ->
  SweepExpiredLocked_body now maxn st = (Ret Break, st).
Proof.
  unfold SweepExpiredLocked_body, top_expired. cbv [mbind M_bind gets id]. cbn.
  destruct (pq_top (m_expirations st.1)) as [r|]; [|done].
  destruct (Z.ltb_spec (sw_processed st.2) maxn); [|done]. cbn.
  destruct (Z.ltb_spec now (r_expireAt r)); [done|]. intros [?|?]; lia.
Qed.

Lemma sweep_body_wp n now0 now maxn d0 g h0 st :
  n < U64_MOD -> Z.of_nat (size d0) <= n -> pq_size h0 <= n ->
  sweep_inv n now0 now maxn d0 g h0 st ->
  wp (SweepExpiredLocked_body now maxn)
     (fun c st' =>
        match c with
        | Continue =>
            sweep_inv n now0 now maxn d0 g h0 st' /\
            (Z.to_nat (pq_size (m_expirations st'.1)) <
             Z.to_nat (pq_size (m_expirations st.1)))%nat
        | Break =>
            sweep_inv n now0 now maxn d0 g h0 st' /\
            (sw_processed st'.2 < maxn -> top_expired now (m_expirations st'.1) = false)
        end) no_fail st.
Proof.
  intros Hn Hd0 Hh0 HI.
  destruct (decide (maxn <= sw_processed st.2)) as [Hge|Hlt].
  { eapply wp_intro; [apply sweep_body_break; by left|]. cbn. split; [done|lia]. }
  destruct (top_expired now (m_expirations st.1)) eqn:Htop.
  2: { eapply wp_intro; [apply sweep_body_break; by right|]. cbn. split; [done|by rewrite Htop]. }
  destruct HI as (d & h & Hs & HInv & Hsw & Hmax & Hmore & Hreb & popped & Hpop).
  destruct st as [s res]. cbn in *. subst s. cbn in *. unfold top_expired in Htop.
  destruct (pq_top h) as [r|] eqn:Hr; [|done].
  pose proof (map_subseteq_size _ _ (swept_subseteq _ _ _ _ _ _ Hsw)).
  pose proof (pq_size_pop _ _ Hr). pose proof (pq_size_nonneg (pq_pop h)).
  pose proof (swept_processed _ _ _ _ _ _ Hsw). pose proof (swept_nonneg _ _ _ _ _ _ Hsw).
  eapply wp_intro; [apply sweep_round; eauto; lia|]. cbn. split; [|lia].
  exists (drop_record r d), (pq_pop h). cbn. split_and!; try done.
  - by apply Inv_drop.
  - apply swept_step; try done; lia.
  - rewrite wrap_u64_small; lia.
  - exists (r :: popped). eapply reached_step; [done|done|lia| |].
    + cbn. rewrite wrap_u64_small; lia.
    + pose proof (reached_removed _ _ _ _ _ _ _ Hpop). pose proof (swept_removed _ _ _ _ _ _ Hsw).
      cbn. case_decide; [rewrite wrap_u64_small|]; lia.
Qed.

(** What a whole [SweepExpiredLocked] guarantees. *)
Lemma sweep_locked_wp n now0 now maxn d g h :
  Inv n now0 (canon d g h) -> n < U64_MOD -> 0 <= maxn ->
  wp (SweepExpiredLocked now maxn)
     (fun res s' => exists d' h', s' = canon d' g h' /\ Inv n now0 s'
        /\ swept now d h d' h' res /\ sw_processed res <= maxn
        /\ sw_hasMoreExpired res = top_expired now h' /\ sw_heapRebuilt res = false
        /\ (sw_processed res < maxn -> top_expired now h' = false)
        /\ exists popped, reached now d h d' h' popped res)
     no_fail (canon d g h).
Proof.
  intros HI Hn Hmax. pose proof (inv_size _ _ _ HI) as Hsz. cbn in Hsz.
  pose proof (heap_size_bounds _ _ _ _ _ HI) as [_ Hh].
  unfold SweepExpiredLocked. apply wp_bind, wp_gets, wp_bind, wp_with_local, wp_bind.
  eapply wp_mono.
  { eapply (wp_loop (sweep_inv n now0 now maxn d g h)
      (fun st => sweep_inv n now0 now maxn d g h st /\
         (sw_processed st.2 < maxn -> top_expired now (m_expirations st.1) = false))
      no_fail (fun st => Z.to_nat (pq_size (m_expirations st.1)))).
    - exists d, h. cbn. split_and!; try done; [apply swept_refl|]. eexists. apply reached_refl.
    - cbn. lia.
    - intros st Hst. by apply sweep_body_wp. }
  2: done.
  intros _ [s' res] [(d' & h' & Hs & HInv & Hsw & Hp & _ & Hreb & popped & Hpop) Htop]. cbn in *. subst s'.
  apply wp_gets. cbn. exists d', h'.
  split_and!; try done; [by destruct Hsw; split|]. exists popped. by destruct Hpop; split.
Qed.

(** ** Rebuilding the heap *)

(** The heap size a sweep tolerates for [live] expiring keys. *)
Definition garbage_bound (live : Z) : Z :=
  Z.max (MIN_HEAP_RECORDS_FOR_REBUILD - 1)
        (live + Z.max live (MIN_STALE_RECORDS_FOR_REBUILD - 1)).

(** When a heap of [heap] records with [live] keys that expire is rebuilt. *)
Definition wasteful (live heap : Z) : bool :=
  (0 <? heap) &&
  ((live =? 0) ||
   (MIN_HEAP_RECORDS_FOR_REBUILD <=? heap) && (MIN_STALE_RECORDS_FOR_REBUILD <=? heap - live) &&
   (live <=? heap - live)).

Lemma should_rebuild_canon n now d g h :
  Inv n now (canon d g h) -> n < U64_MOD ->
  ShouldRebuildExpirationHeapLocked (canon d g h) =
    (Ret (wasteful (count_if true d) (pq_size h)), canon d g h).
Proof.
  intros HI Hn. pose proof (heap_size_bounds _ _ _ _ _ HI) as [Hle Hle'].
  pose proof (count_if_nonneg true d). unfold wasteful.
  unfold ShouldRebuildExpirationHeapLocked, massert. cbv [mbind M_bind gets mret M_ret fail]. cbn.
  replace (count_if true d <=? pq_size h) with true by lia.
  unfold MIN_HEAP_RECORDS_FOR_REBUILD, MIN_STALE_RECORDS_FOR_REBUILD.
  rewrite wrap_u64_small by lia.
  repeat case_match; do 2 f_equal; lia.
Qed.

Lemma not_wasteful_bound live heap :
  0 <= live -> wasteful live heap = false -> heap <= garbage_bound live.
Proof.
  unfold wasteful, garbage_bound, MIN_HEAP_RECORDS_FOR_REBUILD, MIN_STALE_RECORDS_FOR_REBUILD. lia.
Qed.

Lemma rebuild_canon n now d g h :
  Inv n now (canon d g h) ->
  exists h', RebuildExpirationHeapLocked (canon d g h) = (Ret tt, canon d g h')
    /\ Inv n now (canon d g h') /\ pq_size h' = count_if true d
    /\ pq_elements h' ≡ₚ live_records d.
Proof.
  intros HI. unfold RebuildExpirationHeapLocked, massert.
  cbv [mbind M_bind gets modify mret M_ret]. cbn.
  destruct (Z.eqb_spec (count_if true d) 0) as [H0|H0].
  - exists pq_empty. split_and!; [done|by eapply Inv_clear_heap| |].
    { by rewrite H0, pq_size_elements, pq_elements_empty. }
    rewrite pq_elements_empty. by rewrite (zlen_0_nil (live_records d)) by (by rewrite zlen_live_records).
  - rewrite zlen_live_records, Z.eqb_refl. exists (pq_from (live_records d)).
    split_and!; [done|by eapply Inv_rebuild| |by rewrite pq_elements_from].
    rewrite pq_size_elements, <-zlen_live_records. unfold zlen. by rewrite pq_elements_from.
Qed.

(** A heap of live records is not due when no entry is. *)
Lemma live_heap_not_due n now0 now d g h h' :
  Inv n now0 (canon d g h) -> top_expired now h = false ->
  (forall r, r ∈ pq_elements h' -> r ∈ live_records d) -> top_expired now h' = false.
Proof.
  intros HI Htop Hlive. unfold top_expired. destruct (pq_top h') as [r|] eqn:Hr; [|done].
  assert (r ∈ pq_elements h') as Hin by (rewrite (pq_top_pop _ _ Hr); by left).
  apply Hlive, elem_of_live_records in Hin as (e & He & Ht & _).
  pose proof (top_not_expired _ _ _ _ _ _ _ _ HI Htop He) as Hexp.
  unfold IsExpired in Hexp. by rewrite Ht in Hexp.
Qed.

(** The contract of [SweepExpired]: only expired entries go, [removed] counts
    them, at most [maxn] records are looked at, [hasMoreExpired] tells whether
    the top of the heap left behind is due. *)
Lemma sweep_wp n now0 now maxn d g h :
  Inv n now0 (canon d g h) -> n < U64_MOD -> 0 <= maxn ->
  wp (SweepExpired now maxn)
     (fun res s' => exists d' h' h1, s' = canon d' g h' /\ Inv n now0 s'
        /\ swept now d h d' h1 res /\ sw_processed res <= maxn
        /\ sw_hasMoreExpired res = top_expired now h'
        /\ pq_size h' <= garbage_bound (count_if true d')
        /\ (sw_processed res < maxn -> top_expired now h' = false)
        /\ pq_size h' <= pq_size h - sw_processed res
        /\ (exists popped, reached now d h d' h1 popped res)
        /\ sw_processed res = Z.min maxn (zlen (due_records now (pq_elements h)))
        /\ sw_heapRebuilt res = wasteful (count_if true d') (pq_size h1)
        /\ pq_elements h' ≡ₚ (if sw_heapRebuilt res then live_records d' else pq_elements h1))
     no_fail (canon d g h).
Proof.
  intros HI Hn Hmax. unfold SweepExpired. apply wp_bind.
  eapply wp_mono; [by apply (sweep_locked_wp n now0)| |done].
  intros res s' (d' & h1 & -> & HI' & Hsw & Hp & Hmore & Hreb & Htop & popped & Hpop).
  pose proof (swept_processed _ _ _ _ _ _ Hsw). pose proof (count_if_nonneg true d').
  pose proof (heap_size_bounds _ _ _ _ _ HI') as [Hle _].
  pose proof (reached_all_due _ _ _ _ _ _ _ _ Hpop Hp Htop) as Hall.
  apply wp_bind. eapply wp_intro; [by eapply should_rebuild_canon|].
  destruct (wasteful (count_if true d') (pq_size h1)) eqn:Hw.
  - destruct (rebuild_canon _ _ _ _ _ HI') as (h' & Hr & HI'' & Hsz & Hlive).
    apply wp_bind. eapply wp_intro; [exact Hr|]. apply wp_bind, wp_gets, wp_ret.
    exists d', h', h1. cbn. split_and!; try done; [by destruct Hsw; split| | |lia|].
    + unfold garbage_bound. lia.
    + intros Hlt. eapply live_heap_not_due; [exact HI'|by apply Htop|]. intros r. by rewrite Hlive.
    + exists popped. by destruct Hpop; split.
  - apply wp_ret. exists d', h1, h1. rewrite Hreb. split_and!; eauto; [|lia].
    by apply not_wasteful_bound.
Qed.
End sweep.
