(* ===== verification/KVStoreSpec.v ===== *)
(** * The abstract specification of KVStore and its refinement

    Clients see a map from keys to a value and an optional deadline, in which a
    key is gone from its deadline on. Counters, generations, the heap, lazy
    deletion and the sweeper are implementation: the theorems below show that
    what clients ask about keys is answered exactly as the abstract map does. What
    [Size], [Stats] and [SweepExpired] tell is about the stored entries, whose
    specification is in [KVStoreStored]. *)

From S2P Require Import Prelude PriorityQueue KVStore KVStoreInv KVStoreOps KVStoreSweep.
#[local] Open Scope Z_scope.

(** ** Histories of operations *)

Inductive kv_op :=
  | OpSet (key value : bytes)
  | OpGet (key : bytes)
  | OpDel (key : bytes)
  | OpExpire (key : bytes) (seconds : Z)
  | OpTtl (key : bytes)
  | OpSize
  | OpStats
  | OpSweep (maxRecordsToProcess : Z).

Inductive kv_result :=
  | RUnit
  | RValue (v : option bytes)
  | RBool (b : bool)
  | RInt (i : Z)
  | RSize (n : Z)
  | RStats (st : InnerStats)
  | RSweep (r : SweepResult).

(** Arguments in the range of their C++ types. *)
Definition op_ok (op : kv_op) : Prop :=
  match op with
  | OpExpire _ seconds => INT_MIN <= seconds <= INT_MAX
  | OpSweep maxn => 0 <= maxn < U64_MOD
  | _ => True
  end.

Section exec.
Context {Q : Type} `{!PriorityQueue ExpirationRecord Q}.

(** One call, with the clock reading it makes under the lock. *)
Definition exec_op (now : TimePoint) (op : kv_op) : M (KVStore Q) kv_result :=
  match op with
  | OpSet k v => Set_ k v;; mret RUnit
  | OpGet k => r ← Get now k; mret (RValue r)
  | OpDel k => r ← Del now k; mret (RBool r)
  | OpExpire k seconds => r ← Expire now k seconds; mret (RBool r)
  | OpTtl k => r ← Ttl now k; mret (RInt r)
  | OpSize => r ← Size; mret (RSize r)
  | OpStats => r ← Stats; mret (RStats r)
  | OpSweep maxn => r ← SweepExpired now maxn; mret (RSweep r)
  end.

(** The calls of all threads, in the order they take the mutex. *)
Fixpoint run_ops (h : list (TimePoint * kv_op)) : M (KVStore Q) (list kv_result) :=
  match h with
  | [] => mret []
  | (now, op) :: h' =>
      r ← exec_op now op;
      rs ← run_ops h';
      mret (r :: rs)
  end.
End exec.

(** The clock is steady: the readings made under the lock do not decrease. *)
Fixpoint valid_history (now : TimePoint) (h : list (TimePoint * kv_op)) : Prop :=
  match h with
  | [] => True
  | (now', op) :: h' => now <= now' /\ clock_ok now' /\ op_ok op /\ valid_history now' h'
  end.

(** ** The abstract map *)

Definition spec_entry : Type := bytes * option TimePoint.

Definition alive (now : TimePoint) (x : spec_entry) : bool :=
  match x.2 with None => true | Some t => now <? t end.

Definition prune (now : TimePoint) (a : gmap bytes spec_entry) : gmap bytes spec_entry :=
  omap (fun x => if alive now x then Some x else None) a.

Definition spec_ttl (now : TimePoint) (x : option spec_entry) : Z :=
  match x with
  | None => -2
  | Some (_, None) => -1
  | Some (_, Some t) => ceil_seconds (t - now)
  end.

Definition spec_op (now : TimePoint) (op : kv_op) (a : gmap bytes spec_entry) :
    kv_result * gmap bytes spec_entry :=
  let a := prune now a in
  match op with
  | OpSet k v => (RUnit, <[k := (v, None)]> a)
  | OpGet k => (RValue (fst <$> a !! k), a)
  | OpDel k => (RBool (bool_decide (is_Some (a !! k))), delete k a)
  | OpExpire k seconds =>
      match a !! k with
      | Some (v, _) =>
          if seconds <=? 0 then (RBool false, a)
          else (RBool true, <[k := (v, Some (now + seconds * NS_PER_SECOND))]> a)
      | None => (RBool false, a)
      end
  | OpTtl k => (RInt (spec_ttl now (a !! k)), a)
  | OpSize | OpStats | OpSweep _ => (RUnit, a)
  end.

Fixpoint spec_run (h : list (TimePoint * kv_op)) (a : gmap bytes spec_entry) : list kv_result :=
  match h with
  | [] => []
  | (now, op) :: h' => let '(r, a') := spec_op now op a in r :: spec_run h' a'
  end.

(** The map after the calls. *)
Fixpoint spec_after (h : list (TimePoint * kv_op)) (a : gmap bytes spec_entry) : gmap bytes spec_entry :=
  match h with
  | [] => a
  | (now, op) :: h' => spec_after h' (spec_op now op a).2
  end.

(** The statistics and the sweep report are about the physical store: the
    abstract map does not predict them, [KVStoreStored.stored_op] does. *)
Definition observe (r : kv_result) : kv_result :=
  match r with
  | RSize _ | RStats _ | RSweep _ => RUnit
  | r => r
  end.

(** What the map of the store means at time [now]. *)
Definition abs_entry (e : Entry) : spec_entry := (e_value e, e_expireAt e).
Definition view (now : TimePoint) (d : gmap bytes Entry) : gmap bytes spec_entry :=
  prune now (abs_entry <$> d).

#[global] Arguments view : simpl never.
#[global] Arguments prune : simpl never.

(** ** Facts about pruning *)

Lemma lookup_prune now a k :
  prune now a !! k = x ← a !! k; if alive now x then Some x else None.
Proof. unfold prune. by rewrite lookup_omap. Qed.

Lemma prune_prune now now' a : now <= now' -> prune now' (prune now a) = prune now' a.
Proof.
  intros Hle. apply map_eq. intros k. rewrite !lookup_prune.
  destruct (a !! k) as [[v [t|]]|]; cbn; try done.
  unfold alive. cbn. destruct (Z.ltb_spec now t); cbn; [done|].
  by replace (now' <? t) with false by lia.
Qed.

Lemma prune_insert now k x a :
  alive now x = true -> prune now (<[k := x]> a) = <[k := x]> (prune now a).
Proof. intros Hx. unfold prune. apply omap_insert_Some. by rewrite Hx. Qed.

Lemma prune_delete now k a : prune now (delete k a) = delete k (prune now a).
Proof. unfold prune. by rewrite omap_delete. Qed.

Lemma alive_abs now e : alive now (abs_entry e) = negb (IsExpired e now).
Proof. unfold alive, IsExpired. cbn. destruct (e_expireAt e); [|done]. lia. Qed.

Lemma lookup_view now d k :
  view now d !! k =
  match d !! k with
  | None => None
  | Some e => if IsExpired e now then None else Some (abs_entry e)
  end.
Proof.
  unfold view. rewrite lookup_prune, lookup_fmap. destruct (d !! k) as [e|]; cbn; [|done].
  rewrite alive_abs. by destruct (IsExpired e now).
Qed.

Lemma view_delete now k d : view now (delete k d) = delete k (view now d).
Proof. unfold view, prune. by rewrite fmap_delete, omap_delete. Qed.

(** Deleting an expired key is invisible. *)
Lemma view_delete_expired now k e d :
  d !! k = Some e -> IsExpired e now = true -> view now (delete k d) = view now d.
Proof.
  intros Hk He. rewrite view_delete. apply delete_id. by rewrite lookup_view, Hk, He.
Qed.

Lemma view_insert now k e d :
  IsExpired e now = false -> view now (<[k := e]> d) = <[k := abs_entry e]> (view now d).
Proof.
  intros He. apply map_eq. intros k'. rewrite lookup_view.
  destruct (decide (k = k')) as [<-|Hne].
  - by rewrite !lookup_insert_eq, He.
  - by rewrite !lookup_insert_ne, lookup_view by done.
Qed.

Lemma view_swept now d d' :
  d' ⊆ d -> (forall k e, d !! k = Some e -> d' !! k = None -> IsExpired e now = true) ->
  view now d' = view now d.
Proof.
  intros Hsub Hexp. apply map_eq. intros k. rewrite !lookup_view.
  destruct (d' !! k) as [e|] eqn:Hk'.
  - by rewrite (lookup_weaken _ _ _ _ Hk' Hsub).
  - destruct (d !! k) as [e|] eqn:Hk; [|done]. by rewrite (Hexp _ _ Hk Hk').
Qed.

(** What clients can read is stored. *)
Lemma view_size now d : (size (view now d) <= size d)%nat.
Proof.
  rewrite <-!size_dom. apply subseteq_size. intros k. rewrite !elem_of_dom, lookup_view.
  destruct (d !! k); [done|]. by intros [? ?].
Qed.

Lemma view_later now now' d : now <= now' -> view now' d = prune now' (view now d).
Proof. intros. unfold view. by rewrite prune_prune. Qed.

(** ** Rounding up to seconds *)

Lemma ceil_seconds_bounds d :
  0 <= d -> ceil_seconds d * NS_PER_SECOND - NS_PER_SECOND < d <= ceil_seconds d * NS_PER_SECOND.
Proof.
  intros Hd. unfold ceil_seconds, NS_PER_SECOND.
  rewrite Z.quot_div_nonneg by lia.
  pose proof (Z.div_mod d 1000000000 ltac:(lia)).
  pose proof (Z.mod_pos_bound d 1000000000 ltac:(lia)).
  destruct (Z.ltb_spec (d / 1000000000 * 1000000000) d); lia.
Qed.

Lemma ceil_seconds_range d n :
  0 < d <= n * NS_PER_SECOND -> 1 <= ceil_seconds d <= n.
Proof.
  intros Hd. pose proof (ceil_seconds_bounds d ltac:(lia)).
  unfold NS_PER_SECOND in *. lia.
Qed.

(** ** One operation against the specification *)

Section one_op.
Context {Q : Type} `{!PriorityQueue ExpirationRecord Q}
  `{!PriorityQueueLaws ExpirationRecord Q ExpirationCompare}.

(** The store means the abstract map [a] at time [now]. *)
Definition means (now : TimePoint) (s : KVStore Q) (a : gmap bytes spec_entry) : Prop :=
  prune now a = view now (m_data s).

Lemma means_later now now' s a : now <= now' -> means now s a -> means now' s a.
Proof.
  unfold means. intros Hle H. rewrite (view_later now now') by done.
  by rewrite <-H, prune_prune.
Qed.

(** What an operation owes: the invariant, the specified answer, and a store
    that means the specified map. *)
Definition op_correct n now op a (r : kv_result) (s' : KVStore Q) : Prop :=
  Inv (n + 1) now s' /\ observe r = (spec_op now op a).1 /\ means now s' (spec_op now op a).2.

Section cases.
Context (n : Z) (now : TimePoint) (d : gmap bytes Entry) (g : Z) (h : Q)
  (a : gmap bytes spec_entry).
Hypothesis HI : Inv n now (canon d g h).
Hypothesis Hn : n + 1 < U64_MOD.
Hypothesis Hclk : clock_ok now.
Hypothesis Ha : prune now a = view now d.

Lemma size_ok : Z.of_nat (size d) + 1 < U64_MOD.
Proof. pose proof (inv_size _ _ _ HI) as H. cbn in H. lia. Qed.

Lemma Inv_same : Inv (n + 1) now (canon d g h).
Proof. eapply Inv_mono; [| |exact HI]; lia. Qed.

Lemma Inv_gone k : Inv (n + 1) now (canon (delete k d) g h).
Proof. by apply Inv_delete, Inv_same. Qed.

Lemma means_same : means now (canon d g h) (prune now a).
Proof. unfold means. by rewrite prune_prune. Qed.

Lemma means_gone k e :
  d !! k = Some e -> IsExpired e now = true ->
  means now (canon (delete k d) g h) (prune now a).
Proof.
  intros Hk He. unfold means. rewrite prune_prune by done. cbn.
  by rewrite (view_delete_expired _ _ e).
Qed.

Lemma spec_lookup k :
  prune now a !! k =
  match d !! k with
  | None => None
  | Some e => if IsExpired e now then None else Some (abs_entry e)
  end.
Proof. by rewrite Ha, lookup_view. Qed.

Lemma set_correct k v :
  wp (exec_op now (OpSet k v)) (op_correct n now (OpSet k v) a) no_fail (canon d g h).
Proof.
  apply wp_bind. eapply wp_intro; [by apply set_canon, size_ok|]. apply wp_ret.
  split_and!; [|done|].
  - by apply Inv_insert_persistent.
  - unfold means. cbn. rewrite view_insert, <-Ha, prune_insert by done.
    f_equal. by apply prune_prune.
Qed.

Lemma get_correct k :
  wp (exec_op now (OpGet k)) (op_correct n now (OpGet k) a) no_fail (canon d g h).
Proof.
  pose proof size_ok. pose proof (get_canon now k d g h ltac:(lia)) as Hget.
  apply wp_bind. unfold op_correct. cbn. rewrite spec_lookup.
  destruct (d !! k) as [e|] eqn:Hk; [destruct (IsExpired e now) eqn:He|].
  all: eapply wp_intro; [exact Hget|]; apply wp_ret; cbn; split_and!;
    eauto using Inv_same, Inv_gone, means_same, means_gone.
Qed.

Lemma del_correct k :
  wp (exec_op now (OpDel k)) (op_correct n now (OpDel k) a) no_fail (canon d g h).
Proof.
  pose proof size_ok. pose proof (del_canon now k d g h ltac:(lia)) as Hdel.
  assert (means now (canon (delete k d) g h) (delete k (prune now a))) as Hmeans.
  { unfold means. cbn. rewrite view_delete, <-Ha, prune_delete.
    f_equal. by apply prune_prune. }
  apply wp_bind. unfold op_correct. cbn. rewrite spec_lookup.
  destruct (d !! k) as [e|] eqn:Hk; (eapply wp_intro; [exact Hdel|]); apply wp_ret; cbn.
  - split_and!; [apply Inv_gone| |done]. cbn. destruct (IsExpired e now); done.
  - split_and!; [apply Inv_same|done|]. by rewrite <-(delete_id d k Hk) at 1.
Qed.

Lemma expire_correct k seconds :
  INT_MIN <= seconds <= INT_MAX ->
  wp (exec_op now (OpExpire k seconds)) (op_correct n now (OpExpire k seconds) a)
     no_fail (canon d g h).
Proof.
  intros Hsec. pose proof size_ok. pose proof (inv_generation _ _ _ HI) as Hg. cbn in Hg.
  pose proof (expire_canon now k seconds d g h ltac:(lia) ltac:(lia) Hclk Hsec) as Hexp.
  apply wp_bind. unfold op_correct. cbn. rewrite spec_lookup.
  destruct (d !! k) as [e|] eqn:Hk; [destruct (IsExpired e now) eqn:He|];
    destruct (Z.leb_spec seconds 0); (eapply wp_intro; [exact Hexp|]); apply wp_ret; cbn;
    try by (split_and!; eauto using Inv_same, Inv_gone, means_same, means_gone).
  split_and!; [|done|].
  - eapply Inv_expire; [done| |done]. unfold NS_PER_SECOND. lia.
  - unfold means. cbn. rewrite view_insert, <-Ha by (unfold IsExpired, NS_PER_SECOND; cbn; lia).
    rewrite prune_insert; [f_equal; by apply prune_prune|].
    unfold alive, NS_PER_SECOND. cbn. lia.
Qed.

Lemma ttl_in_range e t k :
  d !! k = Some e -> e_expireAt e = Some t -> t - now <= INT_MAX * NS_PER_SECOND.
Proof.
  intros Hk Ht. assert (mkRecord t k (e_generation e) ∈ live_records d) as Hin.
  { apply elem_of_live_records. cbn. eauto. }
  pose proof (inv_deadline _ _ _ HI _ Hin) as Hd. cbn in Hd. lia.
Qed.

(** [Ttl] in one equation: the remaining time fits its types. *)
Lemma ttl_answer k :
  Ttl now k (canon d g h) =
  match d !! k with
  | None => (Ret (-2), canon d g h)
  | Some e => if IsExpired e now then (Ret (-2), canon (delete k d) g h)
              else (Ret (spec_ttl now (Some (abs_entry e))), canon d g h)
  end.
Proof.
  pose proof size_ok. rewrite ttl_canon; [|lia|].
  - destruct (d !! k) as [e|] eqn:Hk; [|done]. destruct (IsExpired e now) eqn:He; [done|].
    unfold IsExpired in He. cbn. destruct (e_expireAt e) as [t|] eqn:Ht; [|done].
    pose proof (ttl_in_range e t k Hk Ht).
    pose proof (ceil_seconds_range (t - now) INT_MAX ltac:(lia)).
    rewrite wrap_i32_small; [done|]. unfold INT_MIN. lia.
  - intros e t Hk Ht. pose proof (ttl_in_range e t k Hk Ht).
    unfold INT_MAX, NS_PER_SECOND, I64_MAX in *. lia.
Qed.

Lemma ttl_correct k :
  wp (exec_op now (OpTtl k)) (op_correct n now (OpTtl k) a) no_fail (canon d g h).
Proof.
  pose proof (ttl_answer k) as Httl.
  apply wp_bind. unfold op_correct. cbn. rewrite spec_lookup.
  destruct (d !! k) as [e|] eqn:Hk; [destruct (IsExpired e now) eqn:He|].
  all: eapply wp_intro; [exact Httl|]; apply wp_ret; cbn; split_and!;
    eauto using Inv_same, Inv_gone, means_same, means_gone.
Qed.

Lemma sweep_correct maxn :
  0 <= maxn ->
  wp (exec_op now (OpSweep maxn)) (op_correct n now (OpSweep maxn) a) no_fail (canon d g h).
Proof.
  intros Hmax. apply wp_bind. eapply wp_mono.
  { apply (sweep_wp n now now maxn); [exact HI|lia|done]. }
  2: done.
  intros res s' (d' & h' & h1 & -> & HI' & [Hsub Hexp _ _ _] & _). apply wp_ret.
  split_and!; [eapply Inv_mono; [| |exact HI']; lia|done|].
  unfold means. cbn. rewrite prune_prune by done. cbn. rewrite Ha.
  by rewrite (view_swept now d d').
Qed.
End cases.

Lemma exec_op_correct n now0 now op s a :
  Inv n now0 s -> now0 <= now -> clock_ok now -> n + 1 < U64_MOD -> op_ok op ->
  means now0 s a ->
  wp (exec_op now op) (op_correct n now op a) no_fail s.
Proof.
  intros HI Hle Hclk Hn Hop Ha.
  eapply (means_later now0 now) in Ha; [|done].
  eapply (Inv_mono n n now0 now) in HI; [|lia|done].
  revert Ha. pattern s. eapply Inv_elim; [exact HI|]. clear dependent s.
  intros d g h HI Ha. unfold means in Ha. cbn in Ha.
  destruct op; cbn in Hop.
  - by apply set_correct.
  - by apply get_correct.
  - by apply del_correct.
  - by apply expire_correct.
  - by apply ttl_correct.
  - apply wp_bind, wp_gets, wp_ret. split_and!; [by apply Inv_same|done|by apply means_same].
  - apply wp_bind, wp_gets, wp_ret. split_and!; [by apply Inv_same|done|by apply means_same].
  - apply sweep_correct; [done..|lia].
Qed.

(** A history answers as the map does, and leaves a store that means the map. *)
Lemma run_ops_correct (h : list (TimePoint * kv_op)) n now (s : KVStore Q) a :
  Inv n now s -> valid_history now h -> n + zlen h < U64_MOD -> means now s a ->
  wp (run_ops h)
     (fun rs s' => observe <$> rs = spec_run h a /\
        exists now', Inv (n + zlen h) now' s' /\ means now' s' (spec_after h a) /\ now <= now' /\
          forall hi, now <= hi -> Forall (fun x => x.1 <= hi) h -> now' <= hi)
     no_fail s.
Proof.
  revert n now s a. induction h as [|[t op] h IH]; intros n now s a HI Hv Hn Ha.
  - apply wp_ret. split; [done|]. exists now. rewrite zlen_nil, Z.add_0_r. by split_and!.
  - destruct Hv as (Hle & Hclk & Hop & Hv). rewrite zlen_cons in *.
    pose proof (zlen_nonneg h). apply wp_bind.
    eapply wp_mono; [eapply (exec_op_correct n now); try done; lia| |done].
    intros r s1 (HI1 & Hr & Ha1). apply wp_bind.
    eapply wp_mono; [eapply (IH (n + 1) t); try done; lia| |done].
    intros rs s2 (Hrs & now' & HI2 & Ha2 & Hle2 & Hhi). apply wp_ret. cbn.
    destruct (spec_op t op a) as [r' a'] eqn:Hsp. cbn in *. split; [by rewrite Hr, Hrs|].
    exists now'. split; [by replace (n + (1 + zlen h)) with (n + 1 + zlen h) by lia|].
    split; [done|]. split; [lia|]. intros hi _ [Ht Hall]%Forall_cons. by apply Hhi.
Qed.
End one_op.
