(* ===== verification/KVStoreStored.v ===== *)
(** * The entries a store holds

    [KVStoreSpec] says what clients see: a map in which a key is gone from its
    deadline on. [Size], [Stats] and [SweepExpired] tell more: they count the
    entries that are stored, and an entry stays stored after its deadline until
    an operation finds it expired. Here the stored entries are a map of their
    own, with what every operation answers about it and does to it. *)

From S2P Require Import Prelude PriorityQueue KVStore KVStoreInv KVStoreOps KVStoreSweep KVStoreSpec.
#[local] Open Scope Z_scope.

(** ** The specification *)

(** An operation on [k] that finds it expired removes it. *)
Definition forget (now : TimePoint) (k : bytes) (a : gmap bytes spec_entry) : gmap bytes spec_entry :=
  match a !! k with
  | Some x => if alive now x then a else delete k a
  | None => a
  end.

Definition has_deadline (x : spec_entry) : bool :=
  match x.2 with Some _ => true | None => false end.

Definition stored_stats (a : gmap bytes spec_entry) : InnerStats :=
  {| st_keys := Z.of_nat (size a);
     st_persistentKeys := Z.of_nat (size (filter (fun kv : bytes * spec_entry => has_deadline kv.2 = false) a));
     st_expiringKeys := Z.of_nat (size (filter (fun kv : bytes * spec_entry => has_deadline kv.2 = true) a)) |}.

(** A sweep removes expired entries, those with the earliest deadlines first.
    How many it reaches depends on the stale records in its way, so that the
    result is not a function of the entries. *)
Record sweep_spec (now : TimePoint) (maxn : Z) (a : gmap bytes spec_entry) (res : SweepResult)
    (a' : gmap bytes spec_entry) : Prop := {
  ss_kept : a' ⊆ a;
  ss_removed k x : a !! k = Some x -> a' !! k = None -> alive now x = false;
  ss_earliest k v t k' v' t' :
    a !! k = Some (v, Some t) -> a' !! k = None -> a' !! k' = Some (v', Some t') -> t <= t';
  ss_count : sw_removed res = Z.of_nat (size a) - Z.of_nat (size a');
  ss_budget : 0 <= sw_removed res <= sw_processed res /\ sw_processed res <= maxn;
  ss_rest : sw_processed res < maxn -> sw_hasMoreExpired res = false;
  ss_complete k x : sw_hasMoreExpired res = false -> a' !! k = Some x -> alive now x = true;
}.

(** What [op] answers about the stored entries [a], and the entries it leaves. *)
Definition stored_op (now : TimePoint) (op : kv_op) (a : gmap bytes spec_entry)
    (r : kv_result) (a' : gmap bytes spec_entry) : Prop :=
  match op with
  | OpSet k v => r = RUnit /\ a' = <[k := (v, None)]> a
  | OpGet k => r = RValue (fst <$> prune now a !! k) /\ a' = forget now k a
  | OpDel k => r = RBool (bool_decide (is_Some (prune now a !! k))) /\ a' = delete k a
  | OpExpire k seconds =>
      if seconds <=? 0 then r = RBool false /\ a' = a else
      match prune now a !! k with
      | Some (v, _) => r = RBool true /\ a' = <[k := (v, Some (now + seconds * NS_PER_SECOND))]> a
      | None => r = RBool false /\ a' = forget now k a
      end
  | OpTtl k => r = RInt (spec_ttl now (prune now a !! k)) /\ a' = forget now k a
  | OpSize => r = RSize (Z.of_nat (size a)) /\ a' = a
  | OpStats => r = RStats (stored_stats a) /\ a' = a
  | OpSweep maxn => exists res, r = RSweep res /\ sweep_spec now maxn a res a'
  end.

Inductive stored_run : list (TimePoint * kv_op) -> gmap bytes spec_entry -> list kv_result ->
    gmap bytes spec_entry -> Prop :=
  | stored_nil a : stored_run [] a [] a
  | stored_cons now op h a r a1 rs a2 :
      stored_op now op a r a1 -> stored_run h a1 rs a2 ->
      stored_run ((now, op) :: h) a (r :: rs) a2.

(** ** The store *)

Definition stored {Q} (s : KVStore Q) : gmap bytes spec_entry := abs_entry <$> m_data s.

Lemma stored_count b d :
  Z.of_nat (size (filter (fun kv : bytes * spec_entry => has_deadline kv.2 = b) (abs_entry <$> d)))
  = count_if b d.
Proof. unfold count_if. rewrite map_filter_fmap, map_size_fmap. done. Qed.

Lemma forget_stored now k d :
  forget now k (abs_entry <$> d) =
  abs_entry <$> (match d !! k with
                 | Some e => if IsExpired e now then delete k d else d
                 | None => d
                 end).
Proof.
  unfold forget. rewrite lookup_fmap. destruct (d !! k) as [e|]; cbn; [|done].
  rewrite alive_abs. destruct (IsExpired e now); cbn; [by rewrite fmap_delete|done].
Qed.

Section stored.
Context {Q : Type} `{!PriorityQueue ExpirationRecord Q}
  `{!PriorityQueueLaws ExpirationRecord Q ExpirationCompare}.
Context (n : Z) (now : TimePoint) (d : gmap bytes Entry) (g : Z) (h : Q).
Hypothesis HI : Inv n now (canon d g h).
Hypothesis Hn : n + 1 < U64_MOD.

Definition op_stored (op : kv_op) (r : kv_result) (s' : KVStore Q) : Prop :=
  stored_op now op (abs_entry <$> d) r (stored s').

Lemma set_stored k v : wp (exec_op now (OpSet k v)) (op_stored (OpSet k v)) no_fail (canon d g h).
Proof.
  apply wp_bind. eapply wp_intro; [by eapply set_canon, size_ok|]. apply wp_ret.
  split; [done|]. unfold stored. cbn. by rewrite fmap_insert.
Qed.

Lemma get_stored k : wp (exec_op now (OpGet k)) (op_stored (OpGet k)) no_fail (canon d g h).
Proof.
  pose proof (size_ok n now d g h HI Hn). pose proof (get_canon now k d g h ltac:(lia)) as Hget.
  apply wp_bind. unfold op_stored. cbn. rewrite forget_stored, (spec_lookup now d _ eq_refl).
  destruct (d !! k) as [e|] eqn:Hk; [destruct (IsExpired e now) eqn:He|];
    (eapply wp_intro; [exact Hget|]); by apply wp_ret.
Qed.

Lemma del_stored k : wp (exec_op now (OpDel k)) (op_stored (OpDel k)) no_fail (canon d g h).
Proof.
  pose proof (size_ok n now d g h HI Hn). pose proof (del_canon now k d g h ltac:(lia)) as Hdel.
  apply wp_bind. unfold op_stored. cbn. rewrite (spec_lookup now d _ eq_refl), <-fmap_delete.
  destruct (d !! k) as [e|] eqn:Hk; (eapply wp_intro; [exact Hdel|]); apply wp_ret.
  - split; [|done]. by destruct (IsExpired e now).
  - split; [done|]. unfold stored. cbn. by rewrite (delete_id d k Hk).
Qed.

Lemma expire_stored k seconds :
  clock_ok now -> INT_MIN <= seconds <= INT_MAX ->
  wp (exec_op now (OpExpire k seconds)) (op_stored (OpExpire k seconds)) no_fail (canon d g h).
Proof.
  intros Hclk Hsec. pose proof (size_ok n now d g h HI Hn).
  pose proof (inv_generation _ _ _ HI) as Hg. cbn in Hg.
  pose proof (expire_canon now k seconds d g h ltac:(lia) ltac:(lia) Hclk Hsec) as Hexp.
  apply wp_bind. unfold op_stored. cbn. rewrite forget_stored, (spec_lookup now d _ eq_refl).
  destruct (seconds <=? 0); [eapply wp_intro; [exact Hexp|]; by apply wp_ret|].
  destruct (d !! k) as [e|] eqn:Hk; [destruct (IsExpired e now) eqn:He|];
    (eapply wp_intro; [exact Hexp|]); apply wp_ret; try done.
  split; [done|]. unfold stored. cbn. by rewrite fmap_insert.
Qed.

Lemma ttl_stored k : wp (exec_op now (OpTtl k)) (op_stored (OpTtl k)) no_fail (canon d g h).
Proof.
  pose proof (ttl_answer n now d g h HI Hn k) as Httl.
  apply wp_bind. unfold op_stored. cbn. rewrite forget_stored, (spec_lookup now d _ eq_refl).
  destruct (d !! k) as [e|] eqn:Hk; [destruct (IsExpired e now) eqn:He|];
    (eapply wp_intro; [exact Httl|]); by apply wp_ret.
Qed.

Lemma size_stored : wp (exec_op now OpSize) (op_stored OpSize) no_fail (canon d g h).
Proof.
  apply wp_bind, wp_gets, wp_ret. split; [|done]. cbn.
  pose proof (inv_size _ _ _ HI) as Hs. cbn in Hs. pose proof (count_if_total d).
  rewrite map_size_fmap, wrap_u64_small by lia. f_equal. lia.
Qed.

Lemma stats_stored : wp (exec_op now OpStats) (op_stored OpStats) no_fail (canon d g h).
Proof.
  apply wp_bind, wp_gets, wp_ret. split; [|done]. cbn. unfold stored_stats.
  pose proof (inv_size _ _ _ HI) as Hs. cbn in Hs. pose proof (count_if_total d).
  rewrite !stored_count, map_size_fmap, wrap_u64_small by lia. do 2 f_equal. lia.
Qed.

Lemma sweep_spec_reached maxn h' h1 d' res popped :
  swept now d h d' h1 res -> reached now d h d' h1 popped res ->
  sw_processed res <= maxn -> (sw_processed res < maxn -> sw_hasMoreExpired res = false) ->
  Inv n now (canon d' g h') -> sw_hasMoreExpired res = top_expired now h' ->
  sweep_spec now maxn (abs_entry <$> d) res (abs_entry <$> d').
Proof.
  intros [Hsub Hexp Hrem Hproc Hnn] Hre Hmax Hlt HI' Hmore.
  pose proof (reached_removed _ _ _ _ _ _ _ Hre).
  pose proof (map_subseteq_size _ _ Hsub).
  split; rewrite ?map_size_fmap; try done; try lia.
  - by apply map_fmap_mono.
  - intros k x Hk Hk'. rewrite lookup_fmap in Hk, Hk'. apply fmap_Some in Hk as (e & He & ->).
    apply fmap_None in Hk'. rewrite alive_abs, (Hexp _ _ He Hk'). done.
  - intros k v t k' v' t' Hk Hk' Hk2. rewrite lookup_fmap in Hk, Hk', Hk2.
    apply fmap_Some in Hk as (e & He & [= -> Ht]). apply fmap_Some in Hk2 as (e2 & He2 & [= -> Ht2]).
    apply fmap_None in Hk'. by apply (reached_earliest n now now d g h d' h1 popped res k e t k' e2 t').
  - intros k x Hf Hk. rewrite lookup_fmap in Hk. apply fmap_Some in Hk as (e & He & ->).
    rewrite alive_abs. rewrite Hmore in Hf. by rewrite (top_not_expired _ _ _ _ _ _ _ _ HI' Hf He).
Qed.

Lemma sweep_stored maxn :
  0 <= maxn -> wp (exec_op now (OpSweep maxn)) (op_stored (OpSweep maxn)) no_fail (canon d g h).
Proof.
  intros Hmax. apply wp_bind. eapply wp_mono; [apply (sweep_wp n now now maxn); [exact HI|lia|done]| |done].
  intros res s' (d' & h' & h1 & -> & HI' & Hsw & Hp & Hmore & _ & Htop & _ & (popped & Hre) & _).
  apply wp_ret. exists res. split; [done|]. eapply sweep_spec_reached; try done.
  intros Hlt. rewrite Hmore. by apply Htop.
Qed.
End stored.

Section stored_run.
Context {Q : Type} `{!PriorityQueue ExpirationRecord Q}
  `{!PriorityQueueLaws ExpirationRecord Q ExpirationCompare}.

Lemma exec_op_stored n now op (s : KVStore Q) :
  Inv n now s -> clock_ok now -> n + 1 < U64_MOD -> op_ok op ->
  wp (exec_op now op) (fun r s' => stored_op now op (stored s) r (stored s')) no_fail s.
Proof.
  intros HI Hclk Hn Hop. pattern s. eapply Inv_elim; [exact HI|]. clear dependent s. intros d g h HI.
  destruct op; cbn in Hop.
  - by apply (set_stored n).
  - by apply (get_stored n).
  - by apply (del_stored n).
  - by apply (expire_stored n).
  - by apply (ttl_stored n).
  - by apply (size_stored n).
  - by apply (stats_stored n).
  - apply (sweep_stored n); [done..|lia].
Qed.

Lemma run_ops_stored (h : list (TimePoint * kv_op)) n now (s : KVStore Q) :
  Inv n now s -> valid_history now h -> n + zlen h < U64_MOD ->
  wp (run_ops h) (fun rs s' => stored_run h (stored s) rs (stored s')) no_fail s.
Proof.
  revert n now s. induction h as [|[t op] h IH]; intros n now s HI Hv Hn.
  - apply wp_ret. constructor.
  - destruct Hv as (Hle & Hclk & Hop & Hv). rewrite zlen_cons in Hn. pose proof (zlen_nonneg h).
    apply wp_bind. eapply wp_mono; [eapply wp_and| |done].
    { eapply (exec_op_correct n now t op s (stored s)); try done. lia. }
    { apply (exec_op_stored n); try done; [eapply (Inv_mono n n now t); (done || lia)|lia]. }
    intros r s1 [(HI1 & _) Hr]. apply wp_bind.
    eapply wp_mono; [apply (IH (n + 1) t); try done; lia| |done].
    intros rs s2 Hrs. apply wp_ret. by econstructor.
Qed.
End stored_run.
