(* ===== verification/KVStoreTheorems.v ===== *)
(** * What KVStore promises *)

From S2P Require Import Prelude PriorityQueue KVStore KVStoreInv KVStoreOps KVStoreSweep KVStoreSpec KVStoreStored.
#[local] Open Scope Z_scope.

Section theorems.
Context {Q : Type} `{!PriorityQueue ExpirationRecord Q}
  `{!PriorityQueueLaws ExpirationRecord Q ExpirationCompare}.

(** C1. The store refines two maps. Every sequence of calls, made in lock order
    with a steady clock, runs to the end. What clients can ask about keys is
    answered as by the abstract map in which a key is gone from its deadline
    on: lazy deletion, generations, the heap, the sweeper and the heap rebuilds
    cannot be observed. All results, those of [Size], [Stats] and
    [SweepExpired] included, are those of the map of the stored entries, where
    an expired key counts until an operation on it or a sweep removes it; and
    that map is what the store holds in the end. *)
Theorem kv_refines_spec (h : list (TimePoint * kv_op)) :
  valid_history 0 h -> zlen h < U64_MOD ->
  exists rs s', run_ops h (KVStore_init (Q := Q)) = (Ret rs, s')
                /\ observe <$> rs = spec_run h ∅
                /\ stored_run h ∅ rs (stored s').
Proof.
  intros Hv Hlen. destruct (wp_run _ _ _ (wp_and _ _ _ _ _
    (run_ops_correct h 0 0 KVStore_init ∅ (Inv_init 0) Hv ltac:(lia) ltac:(done))
    (run_ops_stored h 0 0 KVStore_init (Inv_init 0) Hv ltac:(lia))))
    as (rs & s' & Hrun & [Hobs _] & Hst).
  exists rs, s'. by split_and!.
Qed.

(** C2. Every operation preserves the representation invariant and never
    fails: no [assert] fires, no signed overflow happens, no loop runs out of
    fuel, no empty heap is read. *)
Theorem exec_op_preserves_Inv n now0 now op (s : KVStore Q) :
  Inv n now0 s -> now0 <= now -> clock_ok now -> n + 1 < U64_MOD -> op_ok op ->
  exists r s', exec_op now op s = (Ret r, s') /\ Inv (n + 1) now s'.
Proof.
  intros HI Hle Hclk Hn Hop.
  destruct (wp_run _ _ _ (exec_op_correct n now0 now op s (abs_entry <$> m_data s)
    HI Hle Hclk Hn Hop ltac:(done))) as (r & s' & Hrun & HI' & _). eauto.
Qed.

(** C3. What [SweepExpired] does, exactly. The records it takes off the heap are
    due, as many as the budget and the due records allow, and none is later
    than a record it leaves. The entries that go are those whose own record was
    taken, all of them expired, and they are counted; a stale record takes no
    entry away. The heap is rebuilt exactly when it is wasteful; it then holds
    the records of the entries, and otherwise what was left of it.
    [hasMoreExpired] says exactly whether it holds a due record, so that
    without it no expired entry is left. The generations are not touched and
    the counters count the entries that stay. *)
Theorem sweep_exact n now0 now maxn (s : KVStore Q) :
  Inv n now0 s -> n < U64_MOD -> 0 <= maxn ->
  exists res s' popped left, SweepExpired now maxn s = (Ret res, s')
    /\ pq_elements (m_expirations s) ≡ₚ popped ++ left
    /\ Forall (fun r => r_expireAt r <= now) popped
    /\ (forall r r', r ∈ popped -> r' ∈ left -> r_expireAt r <= r_expireAt r')
    /\ zlen popped = Z.min maxn (zlen (due_records now (pq_elements (m_expirations s))))
    /\ sw_processed res = zlen popped
    /\ m_data s' = without_records popped (m_data s)
    /\ (forall k e, m_data s !! k = Some e -> m_data s' !! k = None -> IsExpired e now = true)
    /\ sw_removed res = Z.of_nat (size (m_data s)) - Z.of_nat (size (m_data s'))
    /\ sw_heapRebuilt res = wasteful (m_expiringKeys s') (zlen left)
    /\ pq_elements (m_expirations s') ≡ₚ
         (if sw_heapRebuilt res then live_records (m_data s') else left)
    /\ sw_hasMoreExpired res =
         bool_decide (Exists (fun r => r_expireAt r <= now) (pq_elements (m_expirations s')))
    /\ (sw_hasMoreExpired res = false ->
        forall k e, m_data s' !! k = Some e -> IsExpired e now = false)
    /\ m_nextExpirationGeneration s' = m_nextExpirationGeneration s
    /\ m_persistentKeys s' = count_if false (m_data s')
    /\ m_expiringKeys s' = count_if true (m_data s').
Proof.
  intros HI Hn Hmax. pose proof (Inv_canon _ _ _ HI) as Hc. rewrite Hc in HI.
  destruct (wp_run _ _ _ (sweep_wp n now0 now maxn _ _ _ HI Hn Hmax)) as
    (res & s' & Hrun & d' & h' & h1 & -> & HI' & [_ Hexp Hrem _ _] & Hp & Hmore & _
     & Htop & _ & (popped & Hre) & Hall & Hreb & Hel').
  destruct Hre as [Hel Hdue Hord Hd Hcnt _].
  exists res, (canon d' (m_nextExpirationGeneration s) h'), popped, (pq_elements h1).
  rewrite <-Hc in Hrun. rewrite pq_size_elements in Hreb.
  split_and!; try done.
  - by rewrite <-Hcnt.
  - by rewrite Hmore, top_expired_due.
  - intros Hf k e Hk. eapply top_not_expired; [exact HI'|by rewrite <-Hmore|done].
Qed.

(** C4. The expiration heap cannot fill up with stale records: after every
    [SweepExpired] it holds at most [max 4095 (e + max e 1023)] records, where
    [e] is the number of keys with a deadline. *)
Theorem sweep_bounds_heap n now0 now maxn (s : KVStore Q) :
  Inv n now0 s -> n < U64_MOD -> 0 <= maxn ->
  exists res s', SweepExpired now maxn s = (Ret res, s')
    /\ m_expiringKeys s' <= pq_size (m_expirations s')
       <= Z.max 4095 (m_expiringKeys s' + Z.max (m_expiringKeys s') 1023).
Proof.
  intros HI Hn Hmax. pose proof (Inv_canon _ _ _ HI) as Hc. rewrite Hc in HI.
  destruct (wp_run _ _ _ (sweep_wp n now0 now maxn _ _ _ HI Hn Hmax)) as
    (res & s' & Hrun & d' & h' & h1 & -> & HI' & _ & _ & _ & Hgarb & _).
  exists res, (canon d' (m_nextExpirationGeneration s) h'). rewrite <-Hc in Hrun.
  split; [done|]. split; [by apply (heap_size_bounds _ _ _ _ _ HI')|exact Hgarb].
Qed.

(** The data of a consistent store in which [k] maps to a live entry. *)
Lemma Inv_size_u64 n now (s : KVStore Q) m :
  Inv n now s -> n + m < U64_MOD -> Z.of_nat (size (m_data s)) + m < U64_MOD.
Proof. intros HI Hn. pose proof (inv_size _ _ _ HI). lia. Qed.

(** C5. [EXPIRE key seconds] on a live key: until the deadline the value is
    still readable and [Ttl] is the remaining time rounded up, hence between
    1 and [seconds]; from the deadline on [Get], [Ttl], [Del] and [Expire]
    all treat the key as missing. *)
Theorem expire_then_observe n now0 now k seconds e (s : KVStore Q) :
  Inv n now0 s -> now0 <= now -> clock_ok now -> n + 1 < U64_MOD ->
  m_data s !! k = Some e -> IsExpired e now = false -> 0 < seconds <= INT_MAX ->
  exists s', Expire now k seconds s = (Ret true, s')
    /\ forall t, now <= t -> let deadline := now + seconds * NS_PER_SECOND in
       (t < deadline ->
          (Get t k s').1 = Ret (Some (e_value e)) /\
          exists r, (Ttl t k s').1 = Ret r /\ 1 <= r <= seconds /\
                    (r - 1) * NS_PER_SECOND < deadline - t <= r * NS_PER_SECOND) /\
       (deadline <= t ->
          (Get t k s').1 = Ret None /\ (Ttl t k s').1 = Ret (-2) /\
          (Del t k s').1 = Ret false /\
          forall again, INT_MIN <= again <= INT_MAX -> clock_ok t -> n + 2 < U64_MOD ->
            (Expire t k again s').1 = Ret false).
Proof.
  intros HI Hle Hclk Hn Hk Hexp Hsec. eapply (Inv_mono n n now0 now) in HI; [|lia|done].
  revert Hk. pattern s. eapply Inv_elim; [exact HI|]. clear dependent s.
  intros d g h HI Hk. cbn in Hk.
  pose proof (Inv_size_u64 _ _ _ 1 HI Hn) as Hsz. pose proof (inv_generation _ _ _ HI) as Hg.
  cbn in Hsz, Hg. rewrite expire_canon, Hk, Hexp by (try done; unfold INT_MIN; lia).
  replace (seconds <=? 0) with false by lia. eexists. split; [done|]. intros t Ht deadline.
  set (e' := mkEntry (e_value e) (Some deadline) (g + 1)).
  set (d' := <[k := e']> d). fold deadline. fold e'. fold d'.
  assert (d' !! k = Some e') as Hk' by apply lookup_insert_eq.
  assert (size d' = size d) as Hsz' by (unfold d'; by rewrite map_size_insert, Hk).
  assert (IsExpired e' t = (deadline <=? t)) as He' by done.
  rewrite get_canon, ttl_canon, del_canon, Hk', He' by
    (try lia; intros e1 t1; rewrite Hk'; intros [= <-] [= <-];
     unfold deadline, NS_PER_SECOND, INT_MAX, I64_MAX in *; lia).
  split; intros Hd.
  - replace (deadline <=? t) with false by lia. cbn. split; [done|].
    pose proof (ceil_seconds_range (deadline - t) seconds ltac:(unfold deadline in *; lia)).
    pose proof (ceil_seconds_bounds (deadline - t) ltac:(lia)).
    eexists. split; [done|]. rewrite wrap_i32_small by (unfold INT_MIN; lia). lia.
  - replace (deadline <=? t) with true by lia. split_and!; [done..|].
    intros again Hagain Hclk' Hn'. rewrite expire_canon, Hk', He' by (done || lia).
    replace (deadline <=? t) with true by lia. by destruct (again <=? 0).
Qed.

(** [Stats] and [Size] are exact counts of the stored entries, with and
    without a deadline; the keys a client can still read are among them. *)
Theorem stats_exact n now0 now (s : KVStore Q) :
  Inv n now0 s -> n < U64_MOD ->
  exists st, Stats s = (Ret st, s)
    /\ Size s = (Ret (st_keys st), s)
    /\ st_keys st = Z.of_nat (size (m_data s))
    /\ st_persistentKeys st = count_if false (m_data s)
    /\ st_expiringKeys st = count_if true (m_data s)
    /\ st_keys st = st_persistentKeys st + st_expiringKeys st
    /\ Z.of_nat (size (view now (m_data s))) <= st_keys st.
Proof.
  intros HI Hn. pose proof (inv_size _ _ _ HI) as Hsz.
  pose proof (count_if_total (m_data s)) as Htot.
  eexists. split; [done|]. split; [done|]. cbn.
  rewrite (inv_persistent _ _ _ HI), (inv_expiring _ _ _ HI), wrap_u64_small by lia.
  split_and!; try done; try lia.
  rewrite (Z.add_comm (count_if false _)), Htot.
  apply inj_le, view_size.
Qed.
End theorems.

(** ** The theorems at work on a concrete store *)

Abbreviation ExampleStore := (KVStore (sorted_queue ExpirationCompare)).

Definition example_history : list (TimePoint * kv_op) :=
  [(0, OpSet (lit "a") (lit "1")); (0, OpExpire (lit "a") 2);
   (500000000, OpTtl (lit "a")); (600000000, OpSet (lit "b") (lit "x y"));
   (2000000000, OpSweep 1024); (2000000000, OpGet (lit "a"));
   (3000000000, OpGet (lit "b")); (3000000000, OpTtl (lit "b"))].

Lemma example_history_valid : valid_history 0 example_history.
Proof. cbn. unfold clock_ok, CLOCK_MAX, I64_MAX, INT_MAX, INT_MIN, U64_MOD, NS_PER_SECOND. lia. Qed.

Lemma kv_refines_spec_witness :
  valid_history 0 example_history /\ zlen example_history < U64_MOD /\
  spec_run example_history ∅ =
    [RUnit; RBool true; RInt 2; RUnit; RUnit; RValue None; RValue (Some (lit "x y")); RInt (-1)] /\
  exists rs s', run_ops example_history (KVStore_init : ExampleStore) = (Ret rs, s')
                /\ observe <$> rs = spec_run example_history ∅
                /\ stored_run example_history ∅ rs (stored s').
Proof.
  split; [exact example_history_valid|]. split; [vm_compute; reflexivity|].
  split; [vm_compute; reflexivity|].
  apply kv_refines_spec; [exact example_history_valid|vm_compute; reflexivity].
Defined.

(** One persistent key, [a -> 1]. *)
Definition example_store : ExampleStore :=
  canon {[lit "a" := mkEntry (lit "1") None 0]} 0 pq_empty.

Lemma example_store_Inv : Inv 1 0 example_store.
Proof. apply (Inv_insert_persistent 0); [done|]. apply (Inv_init 0). Qed.

(** The same key with a deadline one second after the epoch of the clock. *)
Definition example_expiring : ExampleStore :=
  canon (<[lit "a" := mkEntry (lit "1") (Some NS_PER_SECOND) (0 + 1)]>
           {[lit "a" := mkEntry (lit "1") None 0]}) (0 + 1)
        (pq_push (mkRecord NS_PER_SECOND (lit "a") (0 + 1)) pq_empty).

Lemma example_expiring_Inv : Inv 2 0 example_expiring.
Proof.
  apply (Inv_expire 1 0 NS_PER_SECOND (lit "a") (mkEntry (lit "1") None 0) (lit "1")
           {[lit "a" := mkEntry (lit "1") None 0]} 0 pq_empty);
    [vm_compute; reflexivity|vm_compute; discriminate|exact example_store_Inv].
Qed.

Lemma exec_op_preserves_Inv_witness :
  Inv 2 0 example_expiring /\
  exists r s', exec_op NS_PER_SECOND (OpDel (lit "a")) example_expiring = (Ret r, s')
               /\ Inv (2 + 1) NS_PER_SECOND s'.
Proof.
  split; [exact example_expiring_Inv|].
  apply (exec_op_preserves_Inv 2 0); [exact example_expiring_Inv| | | |exact I];
    vm_compute; try split; congruence.
Defined.

(** The sweep of the store with one expired key takes its only record and its
    entry. *)
Lemma sweep_exact_witness :
  Inv 2 0 example_expiring /\
  exists res s' popped left,
      SweepExpired NS_PER_SECOND DEFAULT_MAX_RECORDS example_expiring = (Ret res, s')
      /\ res = mkSweepResult 1 1 false false
      /\ pq_elements (m_expirations example_expiring) ≡ₚ popped ++ left
      /\ zlen popped = 1 /\ m_data s' = without_records popped (m_data example_expiring)
      /\ m_data s' = ∅.
Proof.
  split; [exact example_expiring_Inv|].
  destruct (sweep_exact 2 0 NS_PER_SECOND DEFAULT_MAX_RECORDS example_expiring)
    as (res & s' & popped & left & Hrun & Hel & _ & _ & Hlen & _ & Hd & _);
    [exact example_expiring_Inv|vm_compute; congruence..|].
  pose proof (f_equal fst Hrun) as Hres. vm_compute in Hres. injection Hres as <-.
  pose proof (f_equal (fun p => m_data p.2) Hrun) as Hdata. cbn [snd] in Hdata.
  exists (mkSweepResult 1 1 false false), s', popped, left.
  split_and!; [exact Hrun|reflexivity|exact Hel| |exact Hd|].
  - rewrite Hlen. vm_compute. reflexivity.
  - rewrite <-Hdata. vm_compute. reflexivity.
Defined.

Lemma sweep_bounds_heap_witness :
  Inv 2 0 example_expiring /\
  exists res s', SweepExpired 0 DEFAULT_MAX_RECORDS example_expiring = (Ret res, s')
      /\ m_expiringKeys s' <= pq_size (m_expirations s')
         <= Z.max 4095 (m_expiringKeys s' + Z.max (m_expiringKeys s') 1023).
Proof.
  split; [exact example_expiring_Inv|].
  apply (sweep_bounds_heap 2 0); [exact example_expiring_Inv| |]; vm_compute; congruence.
Defined.

Lemma expire_then_observe_witness :
  Inv 1 0 example_store /\
  exists s', Expire 7 (lit "a") 3 example_store = (Ret true, s')
      /\ forall t, 7 <= t -> let deadline := 7 + 3 * NS_PER_SECOND in
         (t < deadline ->
            (Get t (lit "a") s').1 = Ret (Some (lit "1")) /\
            exists r, (Ttl t (lit "a") s').1 = Ret r /\ 1 <= r <= 3 /\
                      (r - 1) * NS_PER_SECOND < deadline - t <= r * NS_PER_SECOND) /\
         (deadline <= t ->
            (Get t (lit "a") s').1 = Ret None /\ (Ttl t (lit "a") s').1 = Ret (-2) /\
            (Del t (lit "a") s').1 = Ret false /\
            forall again, INT_MIN <= again <= INT_MAX -> clock_ok t -> 1 + 2 < U64_MOD ->
              (Expire t (lit "a") again s').1 = Ret false).
Proof.
  split; [exact example_store_Inv|].
  apply (expire_then_observe 1 0 7 (lit "a") 3 (mkEntry (lit "1") None 0));
    [exact example_store_Inv| | | |vm_compute; reflexivity|reflexivity|];
    vm_compute; try split; congruence.
Defined.

Lemma stats_exact_witness :
  Inv 2 0 example_expiring /\ view NS_PER_SECOND (m_data example_expiring) = ∅ /\
  exists st, Stats example_expiring = (Ret st, example_expiring)
      /\ Size example_expiring = (Ret (st_keys st), example_expiring)
      /\ st_keys st = Z.of_nat (size (m_data example_expiring))
      /\ st_persistentKeys st = count_if false (m_data example_expiring)
      /\ st_expiringKeys st = count_if true (m_data example_expiring)
      /\ st_keys st = st_persistentKeys st + st_expiringKeys st
      /\ Z.of_nat (size (view NS_PER_SECOND (m_data example_expiring))) <= st_keys st.
Proof.
  split; [exact example_expiring_Inv|]. split; [vm_compute; reflexivity|].
  apply (stats_exact 2 0); [exact example_expiring_Inv|vm_compute; reflexivity].
Defined.
