(* ===== verification/FrameCodec.v ===== *)
(** * FrameCodec: length-prefixed frames (core/frame_codec.h, core/frame_codec.cpp)

    A frame is a 4-byte big-endian payload length followed by the payload.
    [Decode] works on the connection's buffer: the buffer is the state of the
    computation, and it keeps what was consumed when an exception leaves. *)

From S2P Require Import Prelude.
#[local] Open Scope Z_scope.

Definition MAX_FRAME_SIZE : Z := 1024 * 1024.
Definition HEADER_SIZE : Z := 4.

(** ** Bytes and strings *)

(** The four bytes [memcpy] copies out of [htonl(n)], on any host. *)
Definition htonl_bytes (n : Z) : bytes :=
  [byte_of (Z.shiftr n 24); byte_of (Z.shiftr n 16); byte_of (Z.shiftr n 8); byte_of n].

(** [ntohl] of the [uint32_t] whose representation is the first four bytes. *)
Definition ntohl_bytes (b : bytes) : Z :=
  match b with
  | b0 :: b1 :: b2 :: b3 :: _ =>
      Z.lor (Z.shiftl (byte_val b0) 24)
        (Z.lor (Z.shiftl (byte_val b1) 16)
           (Z.lor (Z.shiftl (byte_val b2) 8) (byte_val b3)))
  | _ => 0
  end.

(** [s.substr(pos, n)] for [pos <= s.size()], and [s.erase(0, n)]. *)
Definition substr (pos n : Z) (s : bytes) : bytes := take (Z.to_nat n) (drop (Z.to_nat pos) s).
Definition erase_front (n : Z) (s : bytes) : bytes := drop (Z.to_nat n) s.

(** [memcpy(&dst[off], src, n)]: copying past either object is undefined. *)
Definition memcpy {S} (dst : bytes) (off : Z) (src : bytes) (n : Z) : M S bytes :=
  if (off + n <=? zlen dst) && (n <=? zlen src) then
    mret (take (Z.to_nat off) dst ++ take (Z.to_nat n) src ++ drop (Z.to_nat (off + n)) dst)
  else fail (Undefined "memcpy out of bounds").

(** ** Encode *)

Definition Encode {S} (payload : bytes) : M S bytes :=
  let payloadLen := wrap_u32 (zlen payload) in
  if MAX_FRAME_SIZE <? payloadLen then throw (runtime_error "The payload is too large") else
  let frame := replicate (Z.to_nat (HEADER_SIZE + payloadLen)) Ascii.zero in
  frame ← memcpy frame 0 (htonl_bytes payloadLen) HEADER_SIZE;
  if bool_decide (payload = []) then mret frame
  else memcpy frame HEADER_SIZE payload (zlen payload).

(** ** Decode *)

(** One round of the [while]; the local vector [frames] is the second component. *)
Definition Decode_body : M (bytes * list bytes) ctl :=
  buffer ← gets fst;
  if zlen buffer <? HEADER_SIZE then mret Break else
  let payloadLen := ntohl_bytes buffer in
  if MAX_FRAME_SIZE <? payloadLen then throw (runtime_error "frame too large") else
  let totalSize := HEADER_SIZE + payloadLen in
  if zlen buffer <? totalSize then mret Break else
  modify (fun st => st <| snd ::= fun frames => frames ++ [substr HEADER_SIZE payloadLen buffer] |>);;
  modify (fun st => st <| fst ::= erase_front totalSize |>);;
  mret Continue.

(** Every round consumes at least the header: the size plus one is enough fuel. *)
Definition Decode : M bytes (list bytes) :=
  fuel ← gets (fun buffer => Datatypes.S (length buffer));
  with_local [] (loop fuel Decode_body;; gets snd).

(** The overload that first appends [size] bytes at [data]; [None] is [nullptr]. *)
Definition Decode_data (data : option bytes) (size : Z) : M bytes (list bytes) :=
  if (0 <? size) && bool_decide (data = None)
  then throw (runtime_error "decode input data is null")
  else
    (if 0 <? size then
       match data with
       | Some bs =>
           if size <=? zlen bs then modify (fun buffer => buffer ++ take (Z.to_nat size) bs)
           else fail (Undefined "append reads past its source")
       | None => mret tt
       end
     else mret tt);;
    Decode.

(** ** The grammar of a byte stream *)

(** The frame of a payload. *)
Definition frame (p : bytes) : bytes := htonl_bytes (zlen p) ++ p.
Definition frames (ps : list bytes) : bytes := concat (frame <$> ps).

#[global] Arguments frame : simpl never.
#[global] Arguments frames : simpl never.

Definition fits (p : bytes) : Prop := zlen p <= MAX_FRAME_SIZE.

(** What can be left in a buffer: the beginning of a frame, or a header that
    announces too much. *)
Definition incomplete (b : bytes) : Prop :=
  zlen b < HEADER_SIZE \/
  ntohl_bytes b <= MAX_FRAME_SIZE /\ zlen b < HEADER_SIZE + ntohl_bytes b.
Definition oversized (b : bytes) : Prop :=
  HEADER_SIZE <= zlen b /\ MAX_FRAME_SIZE < ntohl_bytes b.

(** Feeding a connection its data in the pieces [recv] returned. *)
Fixpoint feed (chunks : list bytes) : M bytes (list bytes) :=
  match chunks with
  | [] => mret []
  | c :: cs => ps ← Decode_data (Some c) (zlen c); qs ← feed cs; mret (ps ++ qs)
  end.

(** ** Header bytes *)

Lemma htonl_bytes_app n rest :
  0 <= n < U32_MOD -> ntohl_bytes (htonl_bytes n ++ rest) = n.
Proof.
  intros Hn. unfold htonl_bytes, ntohl_bytes. cbn [app].
  rewrite !byte_val_of. change 256 with (2 ^ 8). rewrite <-!Z.land_ones by lia.
  apply Z.bits_inj'. intros i Hi.
  rewrite !Z.lor_spec, !Z.shiftl_spec, !Z.land_spec, !Z.testbit_ones by lia.
  assert (32 <= i -> Z.testbit n i = false) as Hhigh.
  { intros Hi'. apply Z.testbit_false; [lia|]. rewrite Z.div_small; [done|].
    split; [lia|]. eapply Z.lt_le_trans; [apply Hn|].
    change U32_MOD with (2 ^ 32). apply Z.pow_le_mono_r; lia. }
  assert (forall m, 0 <= m ->
    Z.testbit (Z.shiftr n m) (i - m) && ((0 <=? i - m) && (i - m <? 8)) =
    Z.testbit n i && ((m <=? i) && (i <? m + 8))) as Hbyte.
  { intros m Hm. destruct (Z.leb_spec m i).
    - rewrite Z.shiftr_spec by lia. replace (i - m + m) with i by lia. f_equal. lia.
    - replace (0 <=? i - m) with false by lia. cbn. by rewrite !andb_false_r. }
  rewrite !Hbyte by lia.
  destruct (Z.ltb_spec i 32); [|by rewrite Hhigh by lia].
  destruct (Z.testbit n i); [|done]. cbn. lia.
Qed.

Lemma zlen_htonl n : zlen (htonl_bytes n) = HEADER_SIZE.
Proof. done. Qed.

Lemma zlen_frame p : zlen (frame p) = HEADER_SIZE + zlen p.
Proof. unfold frame. by rewrite zlen_app, zlen_htonl. Qed.

Lemma fits_u32 p : fits p -> 0 <= zlen p < U32_MOD.
Proof. unfold fits, MAX_FRAME_SIZE, U32_MOD. pose proof (zlen_nonneg p). lia. Qed.

Lemma ntohl_frame p rest : fits p -> ntohl_bytes (frame p ++ rest) = zlen p.
Proof. intros. unfold frame. rewrite <-app_assoc. by apply htonl_bytes_app, fits_u32. Qed.

(** The header of a buffer is decided by its first four bytes. *)
Lemma ntohl_prefix b rest : HEADER_SIZE <= zlen b -> ntohl_bytes (b ++ rest) = ntohl_bytes b.
Proof.
  unfold zlen, HEADER_SIZE. destruct b as [|? [|? [|? [|? ?]]]]; cbn; intros; done || lia.
Qed.

Lemma zlen_replicate {A} n (x : A) : 0 <= n -> zlen (replicate (Z.to_nat n) x) = n.
Proof. intros. unfold zlen. rewrite length_replicate. lia. Qed.

Lemma zlen_take {A} n (l : list A) : 0 <= n <= zlen l -> zlen (take (Z.to_nat n) l) = n.
Proof. unfold zlen. intros. rewrite length_take. lia. Qed.

Lemma zlen_drop {A} n (l : list A) :
  0 <= n <= zlen l -> zlen (drop (Z.to_nat n) l) = zlen l - n.
Proof. unfold zlen. intros. rewrite length_drop. lia. Qed.

Lemma take_zlen {A} (l : list A) : take (Z.to_nat (zlen l)) l = l.
Proof. unfold zlen. rewrite Nat2Z.id. by apply take_ge. Qed.

Lemma drop_zlen {A} (l : list A) : drop (Z.to_nat (zlen l)) l = [].
Proof. unfold zlen. rewrite Nat2Z.id. by apply drop_ge. Qed.

Lemma drop_zlen_app {A} (l k : list A) : drop (Z.to_nat (zlen l)) (l ++ k) = k.
Proof. unfold zlen. rewrite Nat2Z.id. by apply drop_app_length. Qed.

Lemma take_zlen_app {A} (l k : list A) : take (Z.to_nat (zlen l)) (l ++ k) = l.
Proof. unfold zlen. rewrite Nat2Z.id. by apply take_app_length. Qed.

(** Writing a block over the same number of bytes in the middle of an object. *)
Lemma memcpy_middle {S} (l old k src : bytes) (s : S) :
  zlen old = zlen src ->
  memcpy (l ++ old ++ k) (zlen l) src (zlen src) s = (Ret (l ++ src ++ k), s).
Proof.
  intros Hlen. unfold memcpy. rewrite !zlen_app. pose proof (zlen_nonneg k).
  replace ((_ <=? _) && (_ <=? _)) with true by lia.
  rewrite take_zlen_app, take_zlen.
  replace (zlen l + zlen src) with (zlen (l ++ old)) by (rewrite zlen_app; lia).
  by rewrite (app_assoc l old k), drop_zlen_app.
Qed.

(** ** Encode *)

Lemma encode_ok {S} p (s : S) : fits p -> Encode p s = (Ret (frame p), s).
Proof.
  intros Hp. pose proof (fits_u32 p Hp) as Hu. unfold Encode. rewrite wrap_u32_small by done.
  unfold fits in Hp. replace (MAX_FRAME_SIZE <? zlen p) with false by lia.
  replace (Z.to_nat (HEADER_SIZE + zlen p)) with (4 + Z.to_nat (zlen p))%nat
    by (unfold HEADER_SIZE; lia).
  rewrite replicate_add. cbv [mbind M_bind].
  set (body := replicate (Z.to_nat (zlen p)) Ascii.zero).
  assert (memcpy (replicate 4 Ascii.zero ++ body) 0 (htonl_bytes (zlen p)) HEADER_SIZE s
          = (Ret (htonl_bytes (zlen p) ++ body), s)) as ->
    by exact (memcpy_middle [] (replicate 4 Ascii.zero) body (htonl_bytes (zlen p)) s eq_refl).
  case_bool_decide as Hnil.
  - subst p. done.
  - pose proof (memcpy_middle (htonl_bytes (zlen p)) body [] p s) as Hcp.
    rewrite !app_nil_r in Hcp. apply Hcp. apply zlen_replicate. lia.
Qed.

Lemma encode_too_large {S} p (s : S) :
  MAX_FRAME_SIZE < zlen p < U32_MOD ->
  Encode p s = (Fail (Throw (runtime_error "The payload is too large")), s).
Proof.
  intros Hp. unfold Encode. rewrite wrap_u32_small by (unfold MAX_FRAME_SIZE in *; lia).
  by replace (MAX_FRAME_SIZE <? zlen p) with true by lia.
Qed.

(** ** Decode *)

Lemma decode_round b ps :
  Decode_body (b, ps) =
  if zlen b <? HEADER_SIZE then (Ret Break, (b, ps)) else
  if MAX_FRAME_SIZE <? ntohl_bytes b then
    (Fail (Throw (runtime_error "frame too large")), (b, ps)) else
  if zlen b <? HEADER_SIZE + ntohl_bytes b then (Ret Break, (b, ps)) else
  (Ret Continue, (erase_front (HEADER_SIZE + ntohl_bytes b) b,
                  ps ++ [substr HEADER_SIZE (ntohl_bytes b) b])).
Proof.
  unfold Decode_body. cbv [mbind M_bind gets modify]. cbn.
  destruct (zlen b <? HEADER_SIZE); [done|]. destruct (MAX_FRAME_SIZE <? ntohl_bytes b); [done|].
  by destruct (zlen b <? HEADER_SIZE + ntohl_bytes b).
Qed.

Lemma ntohl_nonneg b : 0 <= ntohl_bytes b.
Proof.
  unfold ntohl_bytes. destruct b as [|b0 [|b1 [|b2 [|b3 ?]]]]; try lia.
  pose proof (byte_val_range b0). pose proof (byte_val_range b1).
  pose proof (byte_val_range b2). pose proof (byte_val_range b3).
  rewrite !Z.lor_nonneg, !Z.shiftl_nonneg. lia.
Qed.

Lemma ntohl_header b :
  HEADER_SIZE <= zlen b -> take 4 b = htonl_bytes (ntohl_bytes b).
Proof.
  destruct b as [|b0 [|b1 [|b2 [|b3 b]]]]; unfold zlen, HEADER_SIZE; cbn [length]; try lia.
  intros _. cbn [take]. rewrite firstn_O. unfold htonl_bytes, ntohl_bytes.
  assert (forall b, 0 <= byte_val b < 2 ^ 8) as Hr by apply byte_val_range.
  assert (forall b i, 8 <= i -> Z.testbit (byte_val b) i = false) as Hhigh.
  { intros c i Hi. apply Z.testbit_false; [lia|]. rewrite Z.div_small; [done|].
    pose proof (Hr c). pose proof (Z.pow_le_mono_r 2 8 i ltac:(lia) Hi). lia. }
  assert (forall z c, (forall i, 0 <= i < 8 -> Z.testbit z i = Z.testbit (byte_val c) i) ->
            byte_of z = c) as Hbyte.
  { intros z c Hz. rewrite <-(byte_of_val c). unfold byte_of. do 2 f_equal.
    change 256 with (2 ^ 8). rewrite <-!Z.land_ones by lia. apply Z.bits_inj'. intros i Hi.
    rewrite !Z.land_spec, !Z.testbit_ones by lia.
    destruct (Z.ltb_spec i 8); [rewrite Hz by lia; done|]. by rewrite !andb_false_r. }
  f_equal; [|f_equal; [|f_equal; [|f_equal]]]; symmetry; apply Hbyte; intros i Hi;
    rewrite ?Z.shiftr_spec, !Z.lor_spec, !Z.shiftl_spec by lia.
  all: rewrite ?(Hhigh b1), ?(Hhigh b2), ?(Hhigh b3), ?(Z.testbit_neg_r _ (_ - _)) by lia.
  all: rewrite ?orb_false_r, ?orb_false_l; try (f_equal; lia).
Qed.

(** A buffer with a complete frame at its front. *)
Lemma split_frame b :
  HEADER_SIZE <= zlen b -> HEADER_SIZE + ntohl_bytes b <= zlen b ->
  let p := substr HEADER_SIZE (ntohl_bytes b) b in
  let rest := erase_front (HEADER_SIZE + ntohl_bytes b) b in
  zlen p = ntohl_bytes b /\ b = frame p ++ rest.
Proof.
  intros Hh Hb p rest. pose proof (ntohl_nonneg b).
  assert (zlen p = ntohl_bytes b) as Hp.
  { unfold p, substr. apply zlen_take. rewrite zlen_drop by (unfold HEADER_SIZE in *; lia). lia. }
  split; [done|]. unfold frame. rewrite Hp, <-ntohl_header, <-app_assoc by done.
  unfold p, rest, substr, erase_front, HEADER_SIZE.
  rewrite Z2Nat.inj_add by lia. rewrite <-drop_drop. change (Z.to_nat 4) with 4%nat.
  by rewrite take_drop, take_drop.
Qed.

Lemma frames_app ps qs : frames (ps ++ qs) = frames ps ++ frames qs.
Proof. unfold frames. by rewrite fmap_app, concat_app. Qed.

Lemma frames_snoc ps p : frames (ps ++ [p]) = frames ps ++ frame p.
Proof. rewrite frames_app. unfold frames. cbn. by rewrite app_nil_r. Qed.

Definition frame_too_large : failure := Throw (runtime_error "frame too large").

(** [Decode] always comes back, having split the buffer into whole frames and a
    remainder; the remainder decides between success and the exception. *)
Lemma decode_split b0 :
  exists ps rest, b0 = frames ps ++ rest /\ Forall fits ps /\
    ((incomplete rest /\ Decode b0 = (Ret ps, rest)) \/
     (oversized rest /\ Decode b0 = (Fail frame_too_large, rest))).
Proof.
  assert (wp Decode (fun ps rest => b0 = frames ps ++ rest /\ Forall fits ps /\ incomplete rest)
            (fun f rest => f = frame_too_large /\ oversized rest /\
               exists ps, b0 = frames ps ++ rest /\ Forall fits ps) b0) as Hwp.
  { unfold Decode. apply wp_bind, wp_gets, wp_with_local, wp_bind.
    eapply wp_mono.
    { eapply (wp_loop (fun st => b0 = frames st.2 ++ st.1 /\ Forall fits st.2)
        (fun st => b0 = frames st.2 ++ st.1 /\ Forall fits st.2 /\ incomplete st.1)
        (fun f st => f = frame_too_large /\ oversized st.1 /\
               exists ps, b0 = frames ps ++ st.1 /\ Forall fits ps)
        (fun st => length st.1)); [by split; [|constructor]|cbn; lia|].
      intros [b ps] [Hb Hps]. cbn in Hb, Hps. unfold wp. rewrite decode_round.
      destruct (Z.ltb_spec (zlen b) HEADER_SIZE); [by split_and!; try left|].
      destruct (Z.ltb_spec MAX_FRAME_SIZE (ntohl_bytes b)); [by split_and!; eauto|].
      destruct (Z.ltb_spec (zlen b) (HEADER_SIZE + ntohl_bytes b)); [by split_and!; try right|].
      destruct (split_frame b) as [Hp Hsplit]; [done..|]. cbn. split.
      - split; [by rewrite frames_snoc, <-app_assoc, <-Hsplit|].
        apply Forall_app. split; [done|]. constructor; [|done]. unfold fits. by rewrite Hp.
      - unfold erase_front. rewrite length_drop. unfold zlen, HEADER_SIZE in *.
        pose proof (ntohl_nonneg b). lia. }
    - intros _ [b ps] (? & ? & ?). by apply wp_gets.
    - done. }
  unfold wp in Hwp. destruct (Decode b0) as [[ps|f] rest].
  - destruct Hwp as (? & ? & ?). exists ps, rest. eauto 10.
  - destruct Hwp as (-> & ? & ps & ? & ?). exists ps, rest. eauto 10.
Qed.

(** A stream has one decomposition only. *)
Lemma split_unique ps qs rest rest' :
  Forall fits ps -> Forall fits qs ->
  incomplete rest \/ oversized rest -> incomplete rest' \/ oversized rest' ->
  frames ps ++ rest = frames qs ++ rest' -> ps = qs /\ rest = rest'.
Proof.
  intros Hps. revert qs. induction Hps as [|p ps Hp Hps IH]; intros qs Hqs Hr Hr' Heq.
  - destruct Hqs as [|q qs Hq Hqs]; [done|]. exfalso.
    unfold frames in Heq. cbn in Heq. rewrite <-app_assoc in Heq. subst rest.
    unfold incomplete, oversized in Hr. rewrite ntohl_frame, zlen_app, zlen_frame in Hr by done.
    unfold fits in Hq. match type of Hr with context [zlen (?l ++ rest')] =>
      pose proof (zlen_nonneg (l ++ rest')) end. pose proof (zlen_nonneg q). lia.
  - destruct Hqs as [|q qs Hq Hqs].
    + exfalso. unfold frames in Heq. cbn in Heq. rewrite <-app_assoc in Heq. subst rest'.
      unfold incomplete, oversized in Hr'. rewrite ntohl_frame, zlen_app, zlen_frame in Hr' by done.
      unfold fits in Hp. match type of Hr' with context [zlen (?l ++ rest)] =>
        pose proof (zlen_nonneg (l ++ rest)) end. pose proof (zlen_nonneg p). lia.
    + unfold frames in Heq. cbn in Heq. rewrite <-!app_assoc in Heq.
      assert (zlen p = zlen q) as Hlen.
      { pose proof (f_equal ntohl_bytes Heq) as Hh. by rewrite !ntohl_frame in Hh by done. }
      apply app_inj_1 in Heq as [Hf Heq].
      2: { pose proof (zlen_frame p). pose proof (zlen_frame q). unfold zlen in *. lia. }
      unfold frame in Hf. rewrite Hlen in Hf. apply app_inv_head in Hf.
      destruct (IH qs Hqs Hr Hr' Heq) as [-> ->]. by subst.
Qed.

(** The decoder accepts exactly the grammar. *)
Lemma decode_ok_iff b ps rest :
  Decode b = (Ret ps, rest) <-> b = frames ps ++ rest /\ Forall fits ps /\ incomplete rest.
Proof.
  destruct (decode_split b) as (qs & rest' & -> & Hqs & [[Hr ->]|[Hr ->]]).
  - split; [by intros [= <- <-]|]. intros (Heq & Hps & Hrest).
    destruct (split_unique qs ps rest' rest) as [-> ->]; eauto.
  - split; [done|]. intros (Heq & Hps & Hrest). exfalso.
    destruct (split_unique qs ps rest' rest) as [-> ->]; eauto.
    unfold incomplete, oversized, MAX_FRAME_SIZE, HEADER_SIZE in *. lia.
Qed.

Lemma decode_fail_iff b f rest :
  Decode b = (Fail f, rest) <->
  f = frame_too_large /\ oversized rest /\ exists ps, b = frames ps ++ rest /\ Forall fits ps.
Proof.
  destruct (decode_split b) as (qs & rest' & -> & Hqs & [[Hr ->]|[Hr ->]]).
  - split; [done|]. intros (-> & Hrest & ps & Heq & Hps). exfalso.
    destruct (split_unique qs ps rest' rest) as [-> ->]; eauto.
    unfold incomplete, oversized, MAX_FRAME_SIZE, HEADER_SIZE in *. lia.
  - split.
    + intros [= <- <-]. split_and!; eauto.
    + intros (-> & Hrest & ps & Heq & Hps).
      destruct (split_unique qs ps rest' rest) as [-> ->]; eauto.
Qed.

Lemma decode_data_append c b : Decode_data (Some c) (zlen c) b = Decode (b ++ c).
Proof.
  unfold Decode_data. rewrite bool_decide_eq_false_2, andb_false_r by done.
  cbv [mbind M_bind]. destruct (Z.ltb_spec 0 (zlen c)) as [|Hc].
  - rewrite Z.leb_refl, take_zlen. done.
  - pose proof (zlen_nonneg c). rewrite (zlen_0_nil c) by lia. by rewrite app_nil_r.
Qed.

(** A failing prefix makes the whole stream fail. *)
Lemma oversized_app b c : oversized b -> oversized (b ++ c).
Proof.
  unfold oversized. intros [Hb Hh]. rewrite ntohl_prefix, zlen_app by done.
  pose proof (zlen_nonneg c). lia.
Qed.

Lemma feed_ok_iff chunks b ps rest :
  incomplete b ->
  feed chunks b = (Ret ps, rest) <-> Decode (b ++ concat chunks) = (Ret ps, rest).
Proof.
  revert b ps rest. induction chunks as [|c cs IH]; intros b ps rest Hb; cbn [feed concat].
  - rewrite app_nil_r, decode_ok_iff. split.
    + intros [= <- <-]. by split_and!.
    + intros (-> & Hps & Hr). destruct (split_unique ps [] rest (frames ps ++ rest)); eauto.
      subst. done.
  - cbv [mbind M_bind]. rewrite decode_data_append, app_assoc.
    destruct (decode_split (b ++ c)) as (p1 & b1 & Hbc & Hp1 & [[Hb1 ->]|[Hb1 ->]]).
    + rewrite Hbc, <-app_assoc. setoid_rewrite decode_ok_iff.
      destruct (feed cs b1) as [[p2|f] r2] eqn:Hfeed.
      * apply IH, decode_ok_iff in Hfeed as (Heq & Hp2 & Hr2); [|done]. rewrite Heq. split.
        -- intros [= <- <-]. rewrite frames_app, <-app_assoc. split_and!; try done.
           by apply Forall_app.
        -- intros (Heq' & Hps & Hr). rewrite app_assoc, <-frames_app in Heq'.
           destruct (split_unique (p1 ++ p2) ps r2 rest) as [-> ->]; eauto.
           by apply Forall_app.
      * split; [done|]. intros (Heq & Hps & Hr). exfalso.
        destruct (decode_split (b1 ++ concat cs)) as (p2 & r2' & Heq2 & Hp2 & Hor).
        rewrite Heq2, app_assoc, <-frames_app in Heq.
        destruct (split_unique (p1 ++ p2) ps r2' rest) as [<- ->];
          [by apply Forall_app|done|destruct Hor as [[]|[]]; auto|by left|done|].
        destruct Hor as [[_ Hdec]|[Hover _]].
        -- apply IH in Hdec; [|done]. congruence.
        -- unfold incomplete, oversized, MAX_FRAME_SIZE, HEADER_SIZE in *. lia.
    + split; [done|]. intros Hdec. apply decode_ok_iff in Hdec as (Heq & Hps & Hr). exfalso.
      rewrite Hbc, <-app_assoc in Heq.
      assert (Decode (frames p1 ++ (b1 ++ concat cs)) = (Fail frame_too_large, b1 ++ concat cs)) as Hf.
      { apply decode_fail_iff. split_and!; eauto using oversized_app. }
      rewrite Heq in Hf. rewrite (proj2 (decode_ok_iff _ ps rest)) in Hf; [done|]. by split_and!.
Qed.

(** ** Theorems *)

(** C6. [Decode] is a total parser of the frame grammar: it returns [ps] and
    leaves [rest] exactly when the buffer is the frames of [ps] (each at most
    1 MiB) followed by the beginning [rest] of another frame, and it throws
    exactly when after some whole frames comes a header announcing more than
    1 MiB. It never fails otherwise: every input is parsed to the end. *)
Theorem decode_grammar b :
  (forall ps rest, Decode b = (Ret ps, rest) <->
     b = frames ps ++ rest /\ Forall fits ps /\ incomplete rest) /\
  (forall f rest, Decode b = (Fail f, rest) <->
     f = Throw (runtime_error "frame too large") /\ oversized rest /\
     exists ps, b = frames ps ++ rest /\ Forall fits ps).
Proof. split; intros; [apply decode_ok_iff|apply decode_fail_iff]. Qed.

(** C7. Whatever way TCP cuts the stream, the connection sees the same
    requests: feeding the pieces one [recv] at a time to a buffer holding an
    incomplete frame gives the payloads, and the remainder, of decoding the
    whole at once. *)
Theorem decode_chunking b chunks ps rest :
  incomplete b ->
  feed chunks b = (Ret ps, rest) <-> Decode (b ++ concat chunks) = (Ret ps, rest).
Proof. apply feed_ok_iff. Qed.

(** C8. [Encode] then [Decode] is the identity: the encodings of any payloads
    of at most 1 MiB, sent one after the other, decode to these payloads and
    leave an empty buffer. *)
Theorem encode_decode_roundtrip {S} (ps : list bytes) (s : S) :
  Forall fits ps ->
  exists fs, Forall2 (fun p f => Encode p s = (Ret f, s)) ps fs /\
             Decode (concat fs) = (Ret ps, []).
Proof.
  intros Hps. exists (frame <$> ps). split.
  - induction Hps; constructor; [by apply encode_ok|done].
  - change (concat (frame <$> ps)) with (frames ps). rewrite <-(app_nil_r (frames ps)).
    apply decode_ok_iff. split_and!; [done..|]. left. done.
Qed.

(** [Encode] on every length: up to 1 MiB it returns header and payload,
    up to 4 GiB it throws, and from 4 GiB on a length whose low 32 bits pass
    the check makes the final [memcpy] write past the end of the frame. *)
Theorem encode_by_length {S} p (s : S) :
  (zlen p <= MAX_FRAME_SIZE -> Encode p s = (Ret (htonl_bytes (zlen p) ++ p), s)) /\
  (MAX_FRAME_SIZE < zlen p < U32_MOD ->
     Encode p s = (Fail (Throw (runtime_error "The payload is too large")), s)) /\
  (U32_MOD <= zlen p -> wrap_u32 (zlen p) <= MAX_FRAME_SIZE ->
     Encode p s = (Fail (Undefined "memcpy out of bounds"), s)).
Proof.
  split_and!; [by apply encode_ok|by apply encode_too_large|]. intros Hlen Hwrap.
  unfold Encode. replace (MAX_FRAME_SIZE <? _) with false by lia.
  pose proof (Z.mod_pos_bound (zlen p) U32_MOD ltac:(done)) as Hb. unfold wrap_u32 in *.
  set (k := zlen p mod U32_MOD) in *.
  replace (Z.to_nat (HEADER_SIZE + k)) with (4 + Z.to_nat k)%nat by (unfold HEADER_SIZE; lia).
  rewrite replicate_add. cbv [mbind M_bind].
  set (body := replicate (Z.to_nat k) Ascii.zero).
  assert (memcpy (replicate 4 Ascii.zero ++ body) 0 (htonl_bytes k) HEADER_SIZE s
          = (Ret (htonl_bytes k ++ body), s)) as ->
    by exact (memcpy_middle [] (replicate 4 Ascii.zero) body (htonl_bytes k) s eq_refl).
  rewrite bool_decide_eq_false_2 by (intros ->; unfold U32_MOD in *; rewrite zlen_nil in *; lia).
  unfold memcpy. rewrite zlen_app, zlen_htonl.
  assert (zlen body = k) as -> by (apply zlen_replicate; lia).
  unfold MAX_FRAME_SIZE, U32_MOD in *.
  by replace (HEADER_SIZE + zlen p <=? HEADER_SIZE + k) with false by lia.
Qed.

(** A protocol error is not local: when a bad header arrives in the same
    [recv] as complete requests, the exception discards those requests, while
    the same bytes cut after them deliver the requests first. *)
Theorem decode_error_discards_requests ps bad :
  Forall fits ps -> oversized bad ->
  Decode (frames ps ++ bad) = (Fail (Throw (runtime_error "frame too large")), bad) /\
  feed [frames ps] [] = (Ret ps, []) /\
  Decode_data (Some bad) (zlen bad) [] =
    (Fail (Throw (runtime_error "frame too large")), bad).
Proof.
  intros Hps Hbad. split_and!.
  - apply decode_fail_iff. eauto.
  - apply feed_ok_iff; [by left|]. cbn. rewrite app_nil_r.
    apply decode_ok_iff. rewrite app_nil_r. split_and!; [done..|by left].
  - rewrite decode_data_append. apply decode_fail_iff. split_and!; [done..|].
    exists []. split; [done|constructor].
Qed.

(** ** Concrete streams *)

Lemma decode_chunking_witness :
  incomplete [] /\
  (feed [frame (lit "PING") ++ take 3 (frame (lit "GET a")); drop 3 (frame (lit "GET a"))] []
     = (Ret [lit "PING"; lit "GET a"], []) <->
   Decode ([] ++ concat [frame (lit "PING") ++ take 3 (frame (lit "GET a"));
                         drop 3 (frame (lit "GET a"))]) = (Ret [lit "PING"; lit "GET a"], [])) /\
  Decode (frame (lit "PING") ++ frame (lit "GET a")) = (Ret [lit "PING"; lit "GET a"], []).
Proof.
  split; [left; reflexivity|]. split; [|vm_compute; reflexivity].
  apply decode_chunking. left. reflexivity.
Defined.

Lemma encode_decode_roundtrip_witness :
  Forall fits [lit "SET k v"; []; lit "QUIT"] /\
  exists fs, Forall2 (fun p f => Encode p tt = (Ret f, tt)) [lit "SET k v"; []; lit "QUIT"] fs /\
             Decode (concat fs) = (Ret [lit "SET k v"; []; lit "QUIT"], []).
Proof.
  assert (Forall fits [lit "SET k v"; []; lit "QUIT"]) as H.
  { repeat constructor; vm_compute; discriminate. }
  split; [exact H|]. apply (encode_decode_roundtrip _ tt H).
Defined.

Lemma decode_error_discards_requests_witness :
  Decode (frames [lit "SET k v"] ++ htonl_bytes 1048577) =
    (Fail (Throw (runtime_error "frame too large")), htonl_bytes 1048577) /\
  feed [frames [lit "SET k v"]] [] = (Ret [lit "SET k v"], []) /\
  Decode_data (Some (htonl_bytes 1048577)) (zlen (htonl_bytes 1048577)) [] =
    (Fail (Throw (runtime_error "frame too large")), htonl_bytes 1048577).
Proof.
  apply (decode_error_discards_requests [lit "SET k v"]).
  - repeat constructor; vm_compute; discriminate.
  - split; vm_compute; [discriminate|reflexivity].
Defined.
