(* ===== verification/CommandParser.v ===== *)
(** * CommandParser: text requests (core/command_parser.h, core/command_parser.cpp)

    The index loops are kept as loops over [size_t] positions, with fuel; the
    classification functions are those of [<cctype>] in the "C" locale, the one
    in force since the program never calls [setlocale]. [char] arithmetic is on
    the byte values. *)

From S2P Require Import Prelude.
#[local] Open Scope Z_scope.

(** ** Data *)

Inductive CommandType :=
  | CT_Ping
  | CT_Set
  | CT_Get
  | CT_Del
  | CT_Expire
  | CT_Ttl
  | CT_Stats
  | CT_Quit
  | CT_Help
  | CT_Unknown.

#[export] Instance CommandType_eq_dec : EqDecision CommandType.
Proof. solve_decision. Defined.

Record Command := mkCommand {
  c_type : CommandType;
  c_key : bytes;
  c_value : bytes;
  c_seconds : Z;
  c_raw : bytes;
}.
#[export] Instance Command_settable : Settable Command := fun c =>
  {| c_type := c_type c; c_key := c_key c; c_value := c_value c;
     c_seconds := c_seconds c; c_raw := c_raw c |}.

(** [Command cmd;] with the default member initialisers. *)
Definition Command_default : Command := mkCommand CT_Unknown [] [] 0 [].

(** ** Characters *)

(** [std::isspace]: space and the five controls from tab to carriage return. *)
Definition IsSpace (ch : ascii) : bool :=
  (byte_val ch =? 32) || ((9 <=? byte_val ch) && (byte_val ch <=? 13)).

Definition IsDigit (ch : ascii) : bool := (48 <=? byte_val ch) && (byte_val ch <=? 57).

(** [std::toupper] *)
Definition toupper (ch : ascii) : ascii :=
  if (97 <=? byte_val ch) && (byte_val ch <=? 122) then byte_of (byte_val ch - 32) else ch.

(** ** Scanning loops *)

(** [while (pos < text.size() && p(text[pos])) ++pos;] *)
Fixpoint scan_forward (fuel : nat) (p : ascii -> bool) (text : bytes) (pos : nat) : outcome nat :=
  match fuel with
  | O => Fail OutOfFuel
  | S fuel =>
      match text !! pos with
      | Some ch => if p ch then scan_forward fuel p text (S pos) else Ret pos
      | None => Ret pos
      end
  end.

(** [while (end > begin && IsSpace(text[end - 1])) end--;] *)
Fixpoint scan_backward (fuel : nat) (text : bytes) (begin end_ : nat) : outcome nat :=
  match fuel with
  | O => Fail OutOfFuel
  | S fuel =>
      if (begin <? end_)%nat then
        match text !! (end_ - 1)%nat with
        | Some ch => if IsSpace ch then scan_backward fuel text begin (end_ - 1) else Ret end_
        | None => Fail (Undefined "string index out of range")
        end
      else Ret end_
  end.

(** A scan moves at most once per byte. *)
Definition scan_fuel (text : bytes) : nat := S (length text).

(** [text.substr(pos, n)] *)
Definition substr_at (pos n : nat) (text : bytes) : outcome bytes :=
  if (length text <? pos)%nat then Fail (Throw (out_of_range "basic_string::substr"))
  else Ret (take n (drop pos text)).

Definition Trim (text : bytes) : outcome bytes :=
  begin ← scan_forward (scan_fuel text) IsSpace text 0;
  end_ ← scan_backward (scan_fuel text) text begin (length text);
  substr_at begin (end_ - begin) text.

Definition UpperCopy (text : bytes) : bytes := toupper <$> text.

(** [input >> word]: skip white space, then extract up to the next one; the
    extraction fails when nothing is left. *)
Definition read_word (input : bytes) : option (bytes * bytes) :=
  match drop_while IsSpace input with
  | [] => None
  | rest => Some (take_while (negb ∘ IsSpace) rest, drop_while (negb ∘ IsSpace) rest)
  end.

(** [while (input >> word) words.push_back(word);] *)
Fixpoint SplitWords_loop (fuel : nat) (input : bytes) (words : list bytes) : outcome (list bytes) :=
  match fuel with
  | O => Fail OutOfFuel
  | S fuel =>
      match read_word input with
      | None => Ret words
      | Some (word, rest) => SplitWords_loop fuel rest (words ++ [word])
      end
  end.

Definition SplitWords (text : bytes) : outcome (list bytes) :=
  SplitWords_loop (scan_fuel text) text [].

(** The [for] that skips [word_count] words: [None] is the early [return ""]. *)
Fixpoint skip_words (text : bytes) (word_count : nat) (pos : nat) : outcome (option nat) :=
  match word_count with
  | O => Ret (Some pos)
  | S n =>
      pos ← scan_forward (scan_fuel text) IsSpace text pos;
      if (pos =? length text)%nat then Ret None else
      pos ← scan_forward (scan_fuel text) (negb ∘ IsSpace) text pos;
      skip_words text n pos
  end.

Definition RestAfterNWords (text : bytes) (word_count : nat) : outcome bytes :=
  skipped ← skip_words text word_count 0;
  match skipped with
  | None => Ret []
  | Some pos =>
      pos ← scan_forward (scan_fuel text) IsSpace text pos;
      if (pos =? length text)%nat then Ret [] else
      rest ← substr_at pos (length text) text;
      Trim rest
  end.

(** The [for] over the digits with the [long long] accumulator; [None] is the
    early [return false]. *)
Fixpoint ParsePositiveInt_loop (text : bytes) (result : Z) : outcome (option Z) :=
  match text with
  | [] => Ret (Some result)
  | ch :: text =>
      if negb (IsDigit ch) then Ret None else
      let result := result * 10 + (byte_val ch - 48) in
      if negb (fits_i64 result) then Fail (Undefined "signed integer overflow") else
      if INT_MAX <? result then Ret None else
      ParsePositiveInt_loop text result
  end.

(** The [bool] result and the out-parameter [value]. *)
Definition ParsePositiveInt (text : bytes) : outcome (option Z) :=
  if bool_decide (text = []) then Ret None else
  result ← ParsePositiveInt_loop text 0;
  match result with
  | None => Ret None
  | Some result => if result <=? 0 then Ret None else Ret (Some (wrap_i32 result))
  end.

Definition MakeUnknow (raw : bytes) : Command :=
  Command_default <| c_type := CT_Unknown |> <| c_raw := raw |>.

(** [parts[i]] *)
Definition at_ (parts : list bytes) (i : nat) : outcome bytes :=
  match parts !! i with
  | Some p => Ret p
  | None => Fail (Undefined "vector index out of range")
  end.

(** The lambda [FillBasicCmd] followed by the [? cmd : MakeUnknow(line)] of its
    callers; it captures [cmd] and [parts]. *)
Definition FillBasicCmd (cmd : Command) (parts : list bytes) (type : CommandType)
    (expectedArgCount : nat) (line : bytes) : outcome Command :=
  if negb (length parts =? expectedArgCount)%nat then Ret (MakeUnknow line) else
  let cmd := cmd <| c_type := type |> in
  if (2 <=? expectedArgCount)%nat then key ← at_ parts 1; Ret (cmd <| c_key := key |>)
  else Ret cmd.

(** The second half of [ParseCommand], from the upper-cased operation on; [text]
    is the trimmed line, [parts] its words and [part0] the first of them. *)
Definition ParseCommand_op (cmd : Command) (line text : bytes) (parts : list bytes)
    (part0 : bytes) : outcome Command :=
  let op := UpperCopy part0 in
  let argsCount := length parts in
  if bool_decide (op = lit "PING") then FillBasicCmd cmd parts CT_Ping 1 line else
  if bool_decide (op = lit "STATS") then FillBasicCmd cmd parts CT_Stats 1 line else
  if bool_decide (op = lit "QUIT") then FillBasicCmd cmd parts CT_Quit 1 line else
  if bool_decide (op = lit "HELP") then FillBasicCmd cmd parts CT_Help 1 line else
  if bool_decide (op = lit "GET") then FillBasicCmd cmd parts CT_Get 2 line else
  if bool_decide (op = lit "DEL") then FillBasicCmd cmd parts CT_Del 2 line else
  if bool_decide (op = lit "TTL") then FillBasicCmd cmd parts CT_Ttl 2 line else
  if bool_decide (op = lit "SET") then
    if (argsCount <? 3)%nat then Ret (MakeUnknow line) else
    value ← RestAfterNWords text 2;
    if bool_decide (value = []) then Ret (MakeUnknow line) else
    key ← at_ parts 1;
    Ret (cmd <| c_type := CT_Set |> <| c_key := key |> <| c_value := value |>)
  else if bool_decide (op = lit "EXPIRE") then
    if negb (argsCount =? 3)%nat then Ret (MakeUnknow line) else
    arg ← at_ parts 2;
    seconds ← ParsePositiveInt arg;
    match seconds with
    | None => Ret (MakeUnknow line)
    | Some seconds =>
        key ← at_ parts 1;
        Ret (cmd <| c_type := CT_Expire |> <| c_key := key |> <| c_seconds := seconds |>)
    end
  else Ret cmd.

Definition ParseCommand (line : bytes) : outcome Command :=
  let cmd := Command_default <| c_raw := line |> in
  text ← Trim line;
  if bool_decide (text = []) then Ret cmd else
  parts ← SplitWords text;
  match parts with
  | [] => Ret cmd
  | part0 :: _ => ParseCommand_op cmd line text parts part0
  end.
