(* ===== verification/CommandGrammar.v ===== *)
(** * The request language and its parser

    The language of requests is given by a grammar ([denotes]) that says
    nothing about scanning: words separated by white space, case-insensitive
    command names, a value that runs to the end of the line. [ParseCommand] is
    shown to decide it. *)

From S2P Require Import Prelude CommandParser.
#[local] Open Scope Z_scope.

(** ** Lexical structure *)

Definition spaces (s : bytes) : Prop := Forall (fun c => IsSpace c = true) s.
Definition nonspaces (s : bytes) : Prop := Forall (fun c => (negb ∘ IsSpace) c = true) s.
Definition word (w : bytes) : Prop := w <> [] /\ nonspaces w.
(** Neither the first nor the last byte is white space. *)
Definition trimmed (t : bytes) : Prop := stops IsSpace t /\ stops IsSpace (reverse t).

(** A line is a list of words surrounded by white space. *)
Inductive fields : bytes -> list bytes -> Prop :=
  | fields_nil s : spaces s -> fields s []
  | fields_cons s w rest ws :
      spaces s -> word w -> stops (negb ∘ IsSpace) rest -> fields rest ws ->
      fields (s ++ w ++ rest) (w :: ws).

Definition is_trim (text t : bytes) : Prop :=
  exists l r, text = l ++ t ++ r /\ spaces l /\ spaces r /\ trimmed t.

(** ** The request language *)

Inductive request :=
  | ReqPing
  | ReqStats
  | ReqQuit
  | ReqHelp
  | ReqGet (key : bytes)
  | ReqDel (key : bytes)
  | ReqTtl (key : bytes)
  | ReqSet (key value : bytes)
  | ReqExpire (key : bytes) (seconds : Z).

#[export] Instance request_eq_dec : EqDecision request.
Proof. solve_decision. Defined.

(** The command object a request stands for. *)
Definition to_command (line : bytes) (r : request) : Command :=
  match r with
  | ReqPing => mkCommand CT_Ping [] [] 0 line
  | ReqStats => mkCommand CT_Stats [] [] 0 line
  | ReqQuit => mkCommand CT_Quit [] [] 0 line
  | ReqHelp => mkCommand CT_Help [] [] 0 line
  | ReqGet k => mkCommand CT_Get k [] 0 line
  | ReqDel k => mkCommand CT_Del k [] 0 line
  | ReqTtl k => mkCommand CT_Ttl k [] 0 line
  | ReqSet k v => mkCommand CT_Set k v 0 line
  | ReqExpire k n => mkCommand CT_Expire k [] n line
  end.

(** The number a digit string denotes. *)
Definition decimal (ds : bytes) : Z := foldl (fun n c => n * 10 + (byte_val c - 48)) 0 ds.
Definition is_digits (ds : bytes) : Prop := ds <> [] /\ Forall (fun c => IsDigit c = true) ds.

(** The line is one of the given words, in any case, followed by [args]. *)
Definition named (name : string) (line : bytes) (args : list bytes) : Prop :=
  exists op, fields line (op :: args) /\ UpperCopy op = lit name.

Definition set_line (line k v : bytes) : Prop :=
  exists s0 op s1 s2 s3,
    line = s0 ++ op ++ s1 ++ k ++ s2 ++ v ++ s3 /\
    UpperCopy op = lit "SET" /\ word op /\ word k /\ v <> [] /\ trimmed v /\
    s1 <> [] /\ s2 <> [] /\ spaces s0 /\ spaces s1 /\ spaces s2 /\ spaces s3.

Definition denotes (line : bytes) (r : request) : Prop :=
  match r with
  | ReqPing => named "PING" line []
  | ReqStats => named "STATS" line []
  | ReqQuit => named "QUIT" line []
  | ReqHelp => named "HELP" line []
  | ReqGet k => named "GET" line [k]
  | ReqDel k => named "DEL" line [k]
  | ReqTtl k => named "TTL" line [k]
  | ReqSet k v => set_line line k v
  | ReqExpire k n =>
      exists ds, named "EXPIRE" line [k; ds] /\ is_digits ds /\ decimal ds = n /\ 1 <= n <= INT_MAX
  end.

(** ** The scanning loops *)

Lemma scan_forward_app fuel p pre rest :
  (length rest < fuel)%nat ->
  scan_forward fuel p (pre ++ rest) (length pre) = Ret (length (pre ++ take_while p rest)).
Proof.
  revert pre rest. induction fuel as [|fuel IH]; intros pre rest Hf; [lia|]. cbn [scan_forward].
  rewrite lookup_app_r, Nat.sub_diag by done. destruct rest as [|c rest]; cbn.
  - by rewrite app_nil_r.
  - destruct (p c); [|by rewrite app_nil_r].
    replace (S (length pre)) with (length (pre ++ [c])) by (rewrite length_app; cbn; lia).
    change (c :: rest) with ([c] ++ rest). rewrite app_assoc. cbn in Hf.
    rewrite IH by lia. by rewrite <-app_assoc.
Qed.

(** With the whole text's fuel, from a position inside the text. *)
Lemma scan_text p pre rest :
  scan_forward (scan_fuel (pre ++ rest)) p (pre ++ rest) (length pre)
  = Ret (length (pre ++ take_while p rest)).
Proof. apply scan_forward_app. unfold scan_fuel. rewrite length_app. lia. Qed.

Lemma reverse_snoc' {A} (l : list A) x : reverse (l ++ [x]) = x :: reverse l.
Proof. apply reverse_snoc. Qed.

(** The backward scan stops after the last byte that is not white space. *)
Lemma scan_backward_ok fuel pre mid post :
  (length mid < fuel)%nat ->
  exists t r, mid = t ++ r /\ spaces r /\ stops IsSpace (reverse t) /\
    scan_backward fuel (pre ++ mid ++ post) (length pre) (length (pre ++ mid))
    = Ret (length (pre ++ t)).
Proof.
  revert mid post. induction fuel as [|fuel IH]; intros mid post Hf; [lia|]. cbn [scan_backward].
  destruct mid as [|c mid _] using rev_ind.
  - exists [], []. rewrite !(app_nil_r pre), Nat.ltb_irrefl. split_and!; try done. constructor.
  - rewrite !length_app in *. cbn [length] in *.
    replace (length pre <? _)%nat with true by (symmetry; apply Nat.ltb_lt; lia).
    replace (length pre + (length mid + 1) - 1)%nat with (length (pre ++ mid))
      by (rewrite length_app; lia).
    rewrite <-app_assoc. rewrite (app_assoc pre mid). rewrite lookup_app_r, Nat.sub_diag by done.
    cbn. destruct (IsSpace c) eqn:Hc.
    + destruct (IH mid (c :: post)) as (t & r & -> & Hr & Ht & Heq); [lia|].
      exists t, (r ++ [c]). rewrite <-(app_assoc pre), Heq, <-app_assoc.
      split_and!; try done. apply Forall_app. split; [done|by repeat constructor].
    + exists (mid ++ [c]), []. rewrite app_nil_r. split_and!; try done.
      * constructor.
      * by rewrite reverse_snoc'.
      * rewrite !length_app. cbn. by f_equal.
Qed.

(** ** Trim *)

Lemma stops_suffix {A} (p : A -> bool) (l r : list A) :
  stops p (l ++ r) -> l <> [] -> stops p l.
Proof. by destruct l. Qed.

Lemma spaces_stops s : spaces s -> stops IsSpace s -> s = [].
Proof. destruct 1 as [|c s Hc]; [done|]. cbn. congruence. Qed.

Lemma stops_app {A} (p : A -> bool) (l r : list A) : stops p l -> l <> [] -> stops p (l ++ r).
Proof. by destruct l. Qed.

Lemma Trim_is_trim text : exists t, Trim text = Ret t /\ is_trim text t.
Proof.
  unfold Trim. set (l := take_while IsSpace text). set (m := drop_while IsSpace text).
  pose proof (take_drop_while IsSpace text) as Heq. fold l m in Heq.
  pose proof (scan_text IsSpace [] text :
    scan_forward (scan_fuel text) IsSpace text 0 = Ret (length (take_while IsSpace text))) as ->.
  cbn [mbind outcome_bind]. fold l.
  destruct (scan_backward_ok (scan_fuel text) l m []) as (t & r & Hm & Hr & Ht & Hb).
  { unfold scan_fuel. rewrite <-Heq, length_app. lia. }
  rewrite app_nil_r, Heq in Hb. rewrite Hb.
  exists t. split.
  - unfold substr_at. replace (length text <? length l)%nat with false.
    2: { symmetry. apply Nat.ltb_ge. rewrite <-Heq, length_app. lia. }
    assert (drop (length l) text = t ++ r) as -> by (rewrite <-Heq, drop_app_length; exact Hm).
    cbn [mbind outcome_bind]. rewrite length_app.
    replace (length l + length t - length l)%nat with (length t) by lia.
    by rewrite take_app_length.
  - exists l, r. rewrite <-Heq, Hm. split_and!; try done.
    + apply take_while_Forall.
    + split; [|done]. destruct t as [|c t]; [done|].
      pose proof (drop_while_stops IsSpace text) as Hs. fold m in Hs. by rewrite Hm in Hs.
Qed.

Lemma is_trim_nil text : is_trim text [] -> spaces text.
Proof. intros (l & r & -> & Hl & Hr & _). by apply Forall_app. Qed.

Lemma spaces_reverse s : spaces s -> spaces (reverse s).
Proof. unfold spaces. by rewrite Forall_reverse. Qed.

(** A text that does not start with a space determines what is before it. *)
Lemma split_at_spaces l l' m m' :
  spaces l -> spaces l' -> stops IsSpace m -> stops IsSpace m' ->
  l ++ m = l' ++ m' -> l = l' /\ m = m'.
Proof.
  intros Hl Hl' Hm Hm' Heq.
  assert (l = l') as <-.
  { rewrite <-(take_while_app IsSpace l m), <-(take_while_app IsSpace l' m') by done. by rewrite Heq. }
  by apply app_inv_head in Heq.
Qed.

Lemma is_trim_unique text t t' : is_trim text t -> is_trim text t' -> t = t'.
Proof.
  intros (l & r & -> & Hl & Hr & Ht1 & Ht2) (l' & r' & Heq & Hl' & Hr' & Ht1' & Ht2').
  destruct (decide (t = [])) as [->|Hne], (decide (t' = [])) as [->|Hne']; [done|..].
  - symmetry. apply spaces_stops; [|done]. cbn in Heq.
    assert (spaces (l' ++ t' ++ r')) as Hall by (rewrite <-Heq; by apply Forall_app).
    apply Forall_app in Hall as [_ Hall]. by apply Forall_app in Hall as [Hall _].
  - apply spaces_stops; [|done]. cbn in Heq.
    assert (spaces (l ++ t ++ r)) as Hall by (rewrite Heq; by apply Forall_app).
    apply Forall_app in Hall as [_ Hall]. by apply Forall_app in Hall as [Hall _].
  - apply split_at_spaces in Heq as [_ Heq]; try done; [|by apply stops_app..].
    apply (f_equal reverse) in Heq. rewrite !reverse_app in Heq.
    apply split_at_spaces in Heq as [_ Heq]; try done; [|by apply spaces_reverse..].
    by apply (inj reverse) in Heq.
Qed.

Lemma Trim_iff text t : Trim text = Ret t <-> is_trim text t.
Proof.
  destruct (Trim_is_trim text) as (t' & Heq & Ht'). rewrite Heq. split.
  - by intros [= <-].
  - intros Ht. f_equal. by eapply is_trim_unique.
Qed.

(** ** Words *)

Lemma word_stops w rest : word w -> stops IsSpace (w ++ rest).
Proof.
  intros [Hne Hw]. destruct Hw as [|c w Hc]; [done|]. cbn in *. by destruct (IsSpace c).
Qed.

Lemma word_trimmed w : word w -> stops IsSpace (reverse w).
Proof.
  intros [Hne Hw]. destruct w as [|c w _] using rev_ind; [done|]. rewrite reverse_snoc'. cbn.
  apply Forall_app in Hw as [_ Hc]. inversion Hc as [|? ? Hc' _]. cbn in Hc'.
  by destruct (IsSpace c).
Qed.

Lemma read_word_spaces s : spaces s -> read_word s = None.
Proof.
  intros Hs. unfold read_word. rewrite <-(app_nil_r s).
  by rewrite (drop_while_app IsSpace s []).
Qed.

Lemma read_word_app s w rest :
  spaces s -> word w -> stops (negb ∘ IsSpace) rest ->
  read_word (s ++ w ++ rest) = Some (w, rest).
Proof.
  intros Hs Hw Hrest. unfold read_word.
  rewrite drop_while_app by (try done; by apply word_stops).
  destruct Hw as [Hne Hw]. destruct w as [|c w]; [done|]. cbn [app].
  change (c :: w ++ rest) with ((c :: w) ++ rest).
  by rewrite take_while_app, drop_while_app.
Qed.

Lemma fields_exists text : exists ws, fields text ws.
Proof.
  induction text as [text IH] using (induction_ltof1 _ (@length ascii)). unfold ltof in IH.
  set (s := take_while IsSpace text). set (m := drop_while IsSpace text).
  pose proof (take_drop_while IsSpace text : s ++ m = text) as Heq.
  assert (spaces s) as Hs by apply take_while_Forall.
  pose proof (drop_while_stops IsSpace text : stops IsSpace m) as Hm.
  destruct (decide (m = [])) as [Hnil|Hne].
  { exists []. rewrite <-Heq, Hnil, app_nil_r. by constructor. }
  set (w := take_while (negb ∘ IsSpace) m). set (rest := drop_while (negb ∘ IsSpace) m).
  pose proof (take_drop_while (negb ∘ IsSpace) m : w ++ rest = m) as Hmeq.
  assert (word w) as Hw.
  { split; [|apply take_while_Forall]. unfold w. destruct m as [|c m']; [done|]. cbn in *.
    by rewrite Hm. }
  destruct (IH rest) as [ws Hws].
  { rewrite <-Heq, <-Hmeq, !length_app. destruct Hw as [Hw _]. destruct w; [done|]. cbn. lia. }
  exists (w :: ws). rewrite <-Heq, <-Hmeq. constructor; try done. apply drop_while_stops.
Qed.

Lemma split_loop_fields text ws acc fuel :
  fields text ws -> (length text < fuel)%nat -> SplitWords_loop fuel text acc = Ret (acc ++ ws).
Proof.
  intros Hf. revert acc fuel. induction Hf as [s Hs|s w rest ws Hs Hw Hrest _ IH];
    intros acc [|fuel] Hfuel; try lia; cbn [SplitWords_loop].
  - by rewrite read_word_spaces, app_nil_r.
  - rewrite read_word_app by done. rewrite !length_app in Hfuel. destruct w; [by destruct Hw|].
    cbn in Hfuel. rewrite IH by lia. by rewrite <-app_assoc.
Qed.

Lemma SplitWords_iff text ws : SplitWords text = Ret ws <-> fields text ws.
Proof.
  destruct (fields_exists text) as [ws' Hws'].
  assert (forall ws, fields text ws -> SplitWords text = Ret ws) as Hok.
  { intros ws1 Hws1. unfold SplitWords. rewrite (split_loop_fields _ ws1) by
      (done || unfold scan_fuel; lia). done. }
  split; [|apply Hok]. rewrite (Hok ws') by done. by intros [= <-].
Qed.

(** White space around a line does not change its words. *)
Lemma fields_spaces_l s text ws : spaces s -> fields text ws -> fields (s ++ text) ws.
Proof.
  intros Hs Hf. destruct Hf.
  - constructor. by apply Forall_app.
  - rewrite app_assoc. constructor; try done. by apply Forall_app.
Qed.

Lemma spaces_stop_word s : spaces s -> stops (negb ∘ IsSpace) s.
Proof. destruct 1 as [|c s Hc]; cbn; [done|]. by rewrite Hc. Qed.

Lemma fields_spaces_r text s ws : spaces s -> fields text ws -> fields (text ++ s) ws.
Proof.
  intros Hs Hf. induction Hf as [s0 Hs0|s0 w rest ws Hs0 Hw Hrest Hf IH].
  - constructor. by apply Forall_app.
  - rewrite <-!app_assoc. constructor; try done. destruct rest; [|done].
    by apply spaces_stop_word.
Qed.

Lemma fields_trim line t ws : is_trim line t -> fields t ws -> fields line ws.
Proof.
  intros (l & r & -> & Hl & Hr & _) Hf. by apply fields_spaces_l, fields_spaces_r.
Qed.

(** ** RestAfterNWords *)

Lemma skip_word pre s w rest n :
  spaces s -> word w -> stops (negb ∘ IsSpace) rest ->
  skip_words (pre ++ s ++ w ++ rest) (S n) (length pre)
  = skip_words (pre ++ s ++ w ++ rest) n (length (pre ++ s ++ w)).
Proof.
  intros Hs Hw Hrest. cbn [skip_words]. rewrite scan_text, take_while_app by
    (try done; by apply word_stops).
  cbn [mbind outcome_bind]. replace (length _ =? length _)%nat with false.
  2: { symmetry. apply Nat.eqb_neq. destruct Hw as [Hne _]. destruct w; [done|].
       rewrite !length_app. cbn. lia. }
  rewrite !app_assoc. rewrite <-(app_assoc (pre ++ s) w), scan_text, take_while_app by
    (try done; apply Hw).
  cbn [mbind outcome_bind]. done.
Qed.

Lemma RestAfter2_ok s0 w0 s1 w1 rest t :
  spaces s0 -> word w0 -> spaces s1 -> s1 <> [] -> word w1 -> stops (negb ∘ IsSpace) rest ->
  is_trim rest t ->
  RestAfterNWords (s0 ++ w0 ++ s1 ++ w1 ++ rest) 2 = Ret t.
Proof.
  intros Hs0 Hw0 Hs1 Hne Hw1 Hrest Ht. unfold RestAfterNWords.
  pose proof (skip_word [] s0 w0 (s1 ++ w1 ++ rest) 1) as Hsk. cbn [app length] in Hsk.
  rewrite Hsk by (done || (apply stops_app; [by apply spaces_stop_word|done])). clear Hsk.
  pose proof (skip_word (s0 ++ w0) s1 w1 rest 0) as Hsk. rewrite <-!app_assoc in Hsk.
  rewrite Hsk by done. clear Hsk. cbn [skip_words mbind outcome_bind].
  set (pre := s0 ++ w0 ++ s1 ++ w1).
  replace (s0 ++ w0 ++ s1 ++ w1 ++ rest) with (pre ++ rest)
    by (unfold pre; by rewrite <-!app_assoc).
  rewrite scan_text. cbn [mbind outcome_bind].
  pose proof (take_drop_while IsSpace rest) as Heq.
  set (l := take_while IsSpace rest) in *. set (m := drop_while IsSpace rest) in *.
  assert (is_trim m t) as Hm.
  { destruct (Trim_is_trim m) as (t' & _ & l' & r' & Hm & Hl' & Hr' & Ht').
    assert (is_trim rest t') as Hrt.
    { exists (l ++ l'), r'. rewrite <-Heq, Hm, <-!app_assoc. split_and!; try done.
      apply Forall_app. split; [apply take_while_Forall|done]. }
    rewrite (is_trim_unique _ _ _ Ht Hrt). by exists l', r'. }
  rewrite <-Heq, !length_app. destruct (Nat.eqb_spec (length pre + length l)
    (length pre + (length l + length m))) as [Hlen|Hlen].
  - destruct m; [|cbn in Hlen; lia]. f_equal. eapply is_trim_unique; [|exact Hm].
    exists [], []. split_and!; [done|constructor|constructor|by split].
  - unfold substr_at. rewrite !length_app. replace (_ <? _)%nat with false
      by (symmetry; apply Nat.ltb_ge; lia).
    rewrite (app_assoc pre l m), <-(length_app pre l), drop_app_length, take_ge by lia. cbn [mbind outcome_bind].
    by apply Trim_iff.
Qed.

(** ** ParsePositiveInt *)

Lemma digit_range c : IsDigit c = true -> 0 <= byte_val c - 48 <= 9.
Proof. unfold IsDigit. lia. Qed.

Definition digits_from (r : Z) (ds : bytes) : Z :=
  foldl (fun n c => n * 10 + (byte_val c - 48)) r ds.

Lemma digits_from_ge ds r :
  Forall (fun c => IsDigit c = true) ds -> 0 <= r -> r <= digits_from r ds.
Proof.
  intros Hds. revert r. induction Hds as [|c ds Hc _ IH]; intros r Hr; [done|].
  apply digit_range in Hc. unfold digits_from in *. cbn.
  etrans; [|apply IH]; lia.
Qed.

Lemma parse_loop_ok ds r :
  0 <= r <= INT_MAX ->
  exists o, ParsePositiveInt_loop ds r = Ret o /\
    forall z, o = Some z <->
      Forall (fun c => IsDigit c = true) ds /\ digits_from r ds = z /\ z <= INT_MAX.
Proof.
  revert r. induction ds as [|c ds IH]; intros r Hr; cbn [ParsePositiveInt_loop].
  - exists (Some r). split; [done|]. intros z. split.
    + intros [= <-]. split_and!; [constructor|done|lia].
    + by intros (_ & <- & _).
  - destruct (IsDigit c) eqn:Hc; cbn [negb].
    2: { exists None. split; [done|]. intros z. split; [done|].
         intros (Hall & _). inversion Hall. congruence. }
    pose proof (digit_range c Hc) as Hd. unfold fits_i64.
    replace (negb _) with false by (unfold I64_MIN, I64_MAX, INT_MAX in *; lia).
    destruct (Z.ltb_spec INT_MAX (r * 10 + (byte_val c - 48))) as [Hbig|Hok].
    + exists None. split; [done|]. intros z. split; [done|]. intros (Hall & <- & Hle).
      inversion Hall as [|? ? _ Hds]. exfalso.
      pose proof (digits_from_ge ds (r * 10 + (byte_val c - 48)) Hds ltac:(lia)).
      unfold digits_from in *. cbn in Hle. lia.
    + destruct (IH (r * 10 + (byte_val c - 48))) as (o & -> & Ho); [lia|].
      exists o. split; [done|]. intros z. rewrite Ho, Forall_cons.
      unfold digits_from. cbn. tauto.
Qed.

Lemma ParsePositiveInt_ok ds :
  exists o, ParsePositiveInt ds = Ret o /\
    forall n, o = Some n <-> is_digits ds /\ decimal ds = n /\ 1 <= n <= INT_MAX.
Proof.
  unfold ParsePositiveInt, is_digits. case_bool_decide as Hnil.
  { exists None. split; [done|]. intros n. split; [done|]. by intros ([Hne _] & _). }
  destruct (parse_loop_ok ds 0) as (o & -> & Ho); [done|]. cbn [mbind outcome_bind].
  destruct o as [z|].
  - destruct (proj1 (Ho z) eq_refl) as (Hds & Hz & Hle).
    change (decimal ds = z) in Hz.
    destruct (Z.leb_spec z 0).
    + exists None. split; [done|]. intros n. split; [done|]. intros (_ & <- & ?). lia.
    + exists (Some z). rewrite wrap_i32_small by (unfold INT_MIN; lia). split; [done|].
      intros n. split; [intros [= <-]; split_and!; try done; lia|].
      by intros (_ & <- & _); f_equal.
  - exists None. split; [done|]. intros n. split; [done|]. intros ([_ Hds] & Hn & ?).
    apply Ho. split_and!; [done|exact Hn|lia].
Qed.

(** ** ParseCommand *)

Lemma fields_unique line ws ws' : fields line ws -> fields line ws' -> ws = ws'.
Proof. rewrite <-!SplitWords_iff. congruence. Qed.

Lemma fields_nil_inv ws : fields [] ws -> ws = [].
Proof.
  intros Hf. apply (fields_unique []); [done|]. constructor. constructor.
Qed.

Definition blank_command (line : bytes) : Command := Command_default <| c_raw := line |>.

(** Every line has words and a trimmed text, on which the dispatch works. *)
Lemma parse_line line ws :
  fields line ws ->
  exists text, is_trim line text /\ fields text ws /\
    ParseCommand line =
      match ws with
      | [] => Ret (MakeUnknow line)
      | op :: _ => ParseCommand_op (blank_command line) line text ws op
      end.
Proof.
  intros Hf. destruct (Trim_is_trim line) as (text & Htrim & Ht).
  destruct (fields_exists text) as [ws' Hf'].
  rewrite (fields_unique line ws ws') in * by (done || by eapply fields_trim).
  exists text. split_and!; try done. unfold ParseCommand. rewrite Htrim. cbn [mbind outcome_bind].
  case_bool_decide as Hnil.
  - subst text. by rewrite (fields_nil_inv ws').
  - rewrite (proj2 (SplitWords_iff text ws') Hf'). by destruct ws'.
Qed.

(** Decide the comparisons of a known operation name. *)
Ltac decide_op :=
  repeat first [rewrite bool_decide_eq_true_2 by reflexivity
               |rewrite bool_decide_eq_false_2 by discriminate].

(** *** Completeness *)

Lemma set_complete line k v :
  set_line line k v -> ParseCommand line = Ret (to_command line (ReqSet k v)).
Proof.
  intros (s0 & op & s1 & s2 & s3 & Hline & Hop & Hwop & Hwk & Hv & [Hv1 Hv2] & Hn1 & Hn2
          & Hs0 & Hs1 & Hs2 & Hs3).
  assert (stops (negb ∘ IsSpace) (s2 ++ v ++ s3)) as Hst2
    by (apply stops_app; [by apply spaces_stop_word|done]).
  assert (is_trim (s2 ++ v) v) as Hvtrim.
  { exists s2, []. rewrite app_nil_r. split_and!; [done..|constructor|done]. }
  destruct (fields_exists (s2 ++ v ++ s3)) as [ws Hws].
  assert (ws <> []) as Hwsne.
  { intros ->. inversion Hws as [s Hs|]. subst s. apply Forall_app in Hs as [_ Hs].
    apply Forall_app in Hs as [Hs _]. by apply Hv, spaces_stops. }
  assert (fields line (op :: k :: ws)) as Hf.
  { subst line. constructor; [done..| |].
    - apply stops_app; [by apply spaces_stop_word|done].
    - by constructor. }
  destruct (parse_line _ _ Hf) as (text & Ht & _ & ->).
  assert (is_trim line (op ++ s1 ++ k ++ s2 ++ v)) as Ht'.
  { exists s0, s3. rewrite Hline, <-!app_assoc. split_and!; try done. split; [by apply word_stops|].
    rewrite !app_assoc, reverse_app. apply stops_app; [done|]. by destruct v using rev_ind;
      [|rewrite reverse_snoc']. }
  rewrite (is_trim_unique _ _ _ Ht Ht'). unfold ParseCommand_op. rewrite Hop. decide_op.
  destruct ws as [|w ws]; [done|].
  replace (length _ <? 3)%nat with false by (cbn; done).
  pose proof (RestAfter2_ok [] op s1 k (s2 ++ v) v) as Hrest. cbn [app] in Hrest.
  rewrite Hrest; try done; [|constructor|by apply stops_app; [apply spaces_stop_word|]].
  cbn [mbind outcome_bind]. rewrite bool_decide_eq_false_2 by done. done.
Qed.

Lemma parse_complete line r : denotes line r -> ParseCommand line = Ret (to_command line r).
Proof.
  destruct r as [| | | |k|k|k|k v|k n]; cbn [denotes].
  8: apply set_complete.
  8: { intros (ds & (op & Hf & Hop) & Hds & Hn & Hr).
       destruct (parse_line _ _ Hf) as (text & _ & _ & ->).
       unfold ParseCommand_op. rewrite Hop. decide_op. cbn [length Nat.eqb negb at_ lookup].
       destruct (ParsePositiveInt_ok ds) as (o & Hp & Ho). cbn. rewrite Hp.
       by rewrite (proj2 (Ho n)). }
  all: intros (op & Hf & Hop); destruct (parse_line _ _ Hf) as (text & _ & _ & ->);
    unfold ParseCommand_op; rewrite Hop; decide_op; reflexivity.
Qed.

(** *** Soundness *)

Lemma word_not_spaces w s : word w -> spaces (w ++ s) -> False.
Proof.
  intros Hw Hs. apply (word_stops w s) in Hw as Hst. destruct Hw as [Hne _].
  apply spaces_stops in Hs; [|done]. by apply app_nil in Hs as [? _].
Qed.

(** White space that must separate. *)
Lemma separator_ne s w rest : stops (negb ∘ IsSpace) (s ++ w ++ rest) -> word w -> s <> [].
Proof.
  intros Hst Hw ->. cbn in Hst. apply (word_stops w rest) in Hw as Hsp.
  destruct Hw as [Hne _]. destruct w as [|c w]; [done|]. cbn in *. by rewrite Hsp in Hst.
Qed.

Lemma set_decompose text op k x ws :
  fields text (op :: k :: x :: ws) ->
  exists s0 s1 s2 s3 v,
    text = s0 ++ op ++ s1 ++ k ++ s2 ++ v ++ s3 /\ RestAfterNWords text 2 = Ret v /\
    word op /\ word k /\ v <> [] /\ trimmed v /\ s1 <> [] /\ s2 <> [] /\
    spaces s0 /\ spaces s1 /\ spaces s2 /\ spaces s3.
Proof.
  intros Hf. inversion Hf as [|s0 ? rest0 ? Hs0 Hop Hst0 Hf0]; subst.
  inversion Hf0 as [|s1 ? rest1 ? Hs1 Hk Hst1 Hf1]; subst.
  inversion Hf1 as [|s2 ? rest2 ? Hs2 Hx Hst2 Hf2]; subst.
  apply separator_ne in Hst0 as Hne1; [|done].
  destruct (Trim_is_trim (s2 ++ x ++ rest2)) as (v & _ & Hv).
  pose proof Hv as (s2' & s3 & Hrest & Hs2' & Hs3 & Htr).
  assert (v <> []) as Hvne.
  { intros ->. apply is_trim_nil, Forall_app in Hv as [_ Hv]. by eapply word_not_spaces. }
  exists s0, s1, s2', s3, v. rewrite <-Hrest. split_and!; try done.
  - by apply RestAfter2_ok.
  - intros ->. rewrite Hrest in Hst1. destruct Htr as [Htr _]. destruct v as [|c v]; [done|].
    cbn in *. by rewrite Htr in Hst1.
Qed.

Lemma set_line_intro line text op k x ws :
  is_trim line text -> fields text (op :: k :: x :: ws) -> UpperCopy op = lit "SET" ->
  exists v, RestAfterNWords text 2 = Ret v /\ v <> [] /\ set_line line k v.
Proof.
  intros (l & r & -> & Hl & Hr & _) Hf Hop.
  destruct (set_decompose _ _ _ _ _ Hf) as (s0 & s1 & s2 & s3 & v & -> & Hrest & ? & ? & ? & ? &
    ? & ? & ? & ? & ? & ?).
  exists v. split_and!; [done..|]. exists (l ++ s0), op, s1, s2, (s3 ++ r).
  rewrite <-!app_assoc. split_and!; try done; by apply Forall_app.
Qed.

(** The answer of [FillBasicCmd] without and with a key. *)
Lemma fill_1 line op args ty :
  FillBasicCmd (blank_command line) (op :: args) ty 1 line
  = Ret (if bool_decide (args = []) then mkCommand ty [] [] 0 line else MakeUnknow line).
Proof. by destruct args. Qed.

Lemma fill_2 line op args ty :
  FillBasicCmd (blank_command line) (op :: args) ty 2 line
  = Ret (match args with [k] => mkCommand ty k [] 0 line | _ => MakeUnknow line end).
Proof. by destruct args as [|k [|]]. Qed.

Lemma parse_sound line :
  exists c, ParseCommand line = Ret c /\
    (c = MakeUnknow line \/ exists r, denotes line r /\ c = to_command line r).
Proof.
  destruct (fields_exists line) as [ws Hf].
  destruct (parse_line _ _ Hf) as (text & Ht & Hft & ->).
  destruct ws as [|op args]; [eauto|]. unfold ParseCommand_op.
  rewrite !fill_1, !fill_2.
  (* requests without arguments *)
  do 4 (case_bool_decide as Hop;
    [eexists; split; [reflexivity|]; case_bool_decide; [right|by left]; subst args;
     first [exists ReqPing; split; [by exists op|done]
           |exists ReqStats; split; [by exists op|done]
           |exists ReqQuit; split; [by exists op|done]
           |exists ReqHelp; split; [by exists op|done]]|clear Hop]).
  (* requests about a key *)
  do 3 (case_bool_decide as Hop;
    [eexists; split; [reflexivity|]; destruct args as [|k [|]]; [by left|right|by left];
     first [exists (ReqGet k); split; [by exists op|done]
           |exists (ReqDel k); split; [by exists op|done]
           |exists (ReqTtl k); split; [by exists op|done]]|clear Hop]).
  case_bool_decide as Hop.
  { destruct args as [|k [|x ws]]; [by eauto..|].
    destruct (set_line_intro _ _ _ _ _ _ Ht Hft Hop) as (v & Hrest & Hv & Hset).
    cbn [length Nat.ltb Nat.leb at_ lookup]. rewrite Hrest. cbn [mbind outcome_bind].
    rewrite bool_decide_eq_false_2 by done. eexists. split; [reflexivity|]. right.
    by exists (ReqSet k v). }
  clear Hop. case_bool_decide as Hop; [|by eauto].
  destruct args as [|k [|ds [|]]]; [by eauto..| |by eauto].
  destruct (ParsePositiveInt_ok ds) as (o & Hp & Ho).
  cbn. rewrite Hp. destruct o as [n|]; [|by eauto].
  destruct (proj1 (Ho n) eq_refl) as (Hds & Hn & Hr).
  eexists. split; [reflexivity|]. right. exists (ReqExpire k n). split; [|done].
  exists ds. split_and!; try (done || lia). by exists op.
Qed.

Lemma to_command_known line r : c_type (to_command line r) <> CT_Unknown.
Proof. by destruct r. Qed.

Lemma parse_iff line r : ParseCommand line = Ret (to_command line r) <-> denotes line r.
Proof.
  split; [|apply parse_complete]. intros Hp.
  destruct (parse_sound line) as (c & Hc & [->|(r' & Hr' & ->)]); rewrite Hc in Hp.
  - injection Hp as Hp. by destruct r.
  - assert (r' = r) as <-; [|done]. injection Hp as Hp. by destruct r', r; simplify_eq/=.
Qed.

Lemma parse_unknown_iff line :
  ParseCommand line = Ret (MakeUnknow line) <-> forall r, ~ denotes line r.
Proof.
  split.
  - intros Hp r Hr%parse_complete. rewrite Hp in Hr. by destruct r.
  - intros Hno. destruct (parse_sound line) as (c & -> & [->|(r & Hr & _)]); [done|].
    by destruct (Hno r).
Qed.
