(* ===== verification/CommandExecutor.v ===== *)
(** * CommandExecutor: running a parsed request (core/command_executor.h, core/command_executor.cpp)

    Responses follow the convention of the header: [+xxx] for success, [$xxx]
    for strings and numbers, [$nil] for an empty result, [-ERR xxx] for errors. *)

From S2P Require Import Prelude PriorityQueue KVStore CommandParser.
#[local] Open Scope Z_scope.

(** ** [std::to_string] of an integer of at most 64 bits

    Twenty digits are enough for every 64-bit value. *)

Definition digit_char (d : Z) : ascii := byte_of (48 + d).

Fixpoint decimal_digits (fuel : nat) (n : Z) (acc : bytes) : bytes :=
  match fuel with
  | O => acc
  | S fuel =>
      let acc := digit_char (n mod 10) :: acc in
      if n / 10 =? 0 then acc else decimal_digits fuel (n / 10) acc
  end.

Definition to_string (z : Z) : bytes :=
  if z <? 0 then lit "-" ++ decimal_digits 20 (- z) [] else decimal_digits 20 z [].

(** ** Execute *)

(** The line feed of the literal's escape sequence. *)
Definition newline : bytes := [byte_of 10].

Definition helpText : bytes :=
  lit "Supported commands:" ++ newline ++
  lit "  PING" ++ newline ++
  lit "  SET <key> <value>" ++ newline ++
  lit "  GET <key>" ++ newline ++
  lit "  DEL <key>" ++ newline ++
  lit "  EXPIRE <key> <seconds>" ++ newline ++
  lit "  TTL <key>" ++ newline ++
  lit "  STATS" ++ newline ++
  lit "  HELP" ++ newline ++
  lit "  QUIT".

Section Execute.
Context {Q : Type} `{!PriorityQueue ExpirationRecord Q}.

(** At most one store operation runs, and [now] is the clock it reads. *)
Definition Execute (now : TimePoint) (command : Command) : M (KVStore Q) bytes :=
  match c_type command with
  | CT_Ping => mret (lit "+PONG")
  | CT_Set => Set_ (c_key command) (c_value command);; mret (lit "+OK")
  | CT_Get =>
      value ← Get now (c_key command);
      match value with
      | Some value => mret (lit "$" ++ value)
      | None => mret (lit "$nil")
      end
  | CT_Del =>
      ok ← Del now (c_key command);
      if (ok : bool) then mret (lit "+OK") else mret (lit "$nil")
  | CT_Expire =>
      ok ← Expire now (c_key command) (c_seconds command);
      if (ok : bool) then mret (lit "+OK") else mret (lit "$nil")
  | CT_Ttl =>
      ttl ← Ttl now (c_key command);
      mret (lit "$" ++ to_string ttl)
  | CT_Stats =>
      stats ← Stats;
      mret (lit "+keys=" ++ to_string (st_keys stats) ++
            lit ",persistent=" ++ to_string (st_persistentKeys stats) ++
            lit ",expiring=" ++ to_string (st_expiringKeys stats))
  | CT_Quit => mret (lit "+BYE")
  | CT_Help => mret helpText
  | CT_Unknown => mret (lit "-ERR unknown command")
  end.
End Execute.
