(* ===== verification/CommandTheorems.v ===== *)
(** * What the request language promises: parsing, answering, sizes *)

From S2P Require Import Prelude PriorityQueue KVStore KVStoreInv KVStoreOps KVStoreSweep KVStoreSpec FrameCodec CommandParser CommandGrammar CommandExecutor.
#[local] Open Scope Z_scope.

(** ** Decimal numbers *)

Lemma byte_val_digit d : 0 <= d <= 9 -> byte_val (digit_char d) = 48 + d.
Proof. intros. unfold digit_char. rewrite byte_val_of, Z.mod_small; lia. Qed.

Lemma decimal_snoc ds d : decimal (ds ++ [d]) = decimal ds * 10 + (byte_val d - 48).
Proof. unfold decimal. by rewrite foldl_app. Qed.

Lemma decimal_digits_ok fuel n acc :
  (0 < fuel)%nat -> 0 <= n < 10 ^ Z.of_nat fuel ->
  exists ds, decimal_digits fuel n acc = ds ++ acc /\ is_digits ds /\ decimal ds = n
             /\ (length ds <= fuel)%nat.
Proof.
  revert n acc. induction fuel as [|fuel IH]; intros n acc Hf Hn; [lia|]. cbn [decimal_digits].
  pose proof (Z.mod_pos_bound n 10 ltac:(lia)) as Hm. pose proof (Z.div_mod n 10 ltac:(lia)) as Hdm.
  assert (byte_val (digit_char (n mod 10)) = 48 + n mod 10) as Hd by (apply byte_val_digit; lia).
  assert (IsDigit (digit_char (n mod 10)) = true) as Hisd by (unfold IsDigit; rewrite Hd; lia).
  destruct (Z.eqb_spec (n / 10) 0) as [H0|H0].
  - exists [digit_char (n mod 10)]. split_and!; [done|by split; [|repeat constructor]| |cbn; lia].
    change [digit_char (n mod 10)] with ([] ++ [digit_char (n mod 10)]).
    rewrite decimal_snoc, Hd. change (decimal []) with 0. lia.
  - rewrite Nat2Z.inj_succ, Z.pow_succ_r in Hn by lia.
    destruct fuel as [|fuel]; [cbn in Hn; lia|].
    destruct (IH (n / 10) (digit_char (n mod 10) :: acc)) as (ds & -> & [Hne Hds] & Hdec & Hlen).
    { lia. } { split; [apply Z.div_pos; lia|apply Z.div_lt_upper_bound; lia]. }
    exists (ds ++ [digit_char (n mod 10)]). rewrite <-app_assoc. split_and!.
    + done.
    + split; [by destruct ds|]. apply Forall_app. split; [done|by repeat constructor].
    + rewrite decimal_snoc, Hd, Hdec. lia.
    + rewrite length_app. cbn. lia.
Qed.

Lemma to_string_digits n :
  0 <= n < U64_MOD -> is_digits (to_string n) /\ decimal (to_string n) = n
                      /\ zlen (to_string n) <= 20.
Proof.
  intros Hn. unfold to_string. replace (n <? 0) with false by lia.
  destruct (decimal_digits_ok 20 n []) as (ds & -> & Hds & Hdec & Hlen); [lia| |].
  { change (10 ^ Z.of_nat 20) with 100000000000000000000. unfold U64_MOD in Hn. lia. }
  rewrite app_nil_r. split_and!; try done. unfold zlen. lia.
Qed.

Lemma decimal_digits_length fuel n acc :
  (length (decimal_digits fuel n acc) <= fuel + length acc)%nat.
Proof.
  revert n acc. induction fuel as [|fuel IH]; intros n acc; cbn [decimal_digits]; [lia|].
  destruct (n / 10 =? 0); [cbn; lia|]. etrans; [apply IH|]. cbn. lia.
Qed.

Lemma to_string_length z : zlen (to_string z) <= 21.
Proof.
  unfold to_string, zlen. pose proof (decimal_digits_length 20 z []) as H1.
  pose proof (decimal_digits_length 20 (- z) []) as H2. cbn [length] in *.
  destruct (z <? 0); [rewrite length_app; cbn [length lit String.list_ascii_of_string]|]; lia.
Qed.

(** ** Writing requests *)

Definition space : bytes := lit " ".

Definition render (r : request) : bytes :=
  match r with
  | ReqPing => lit "PING"
  | ReqStats => lit "STATS"
  | ReqQuit => lit "QUIT"
  | ReqHelp => lit "HELP"
  | ReqGet k => lit "GET" ++ space ++ k
  | ReqDel k => lit "DEL" ++ space ++ k
  | ReqTtl k => lit "TTL" ++ space ++ k
  | ReqSet k v => lit "SET" ++ space ++ k ++ space ++ v
  | ReqExpire k n => lit "EXPIRE" ++ space ++ k ++ space ++ to_string n
  end.

(** The requests that can be written: keys are words, values have no white
    space around them, times are positive [int]s. *)
Definition request_ok (r : request) : Prop :=
  match r with
  | ReqPing | ReqStats | ReqQuit | ReqHelp => True
  | ReqGet k | ReqDel k | ReqTtl k => word k
  | ReqSet k v => word k /\ v <> [] /\ trimmed v
  | ReqExpire k n => word k /\ 1 <= n <= INT_MAX
  end.

Lemma spaces_space : spaces space.
Proof. repeat constructor. Qed.

Lemma word_lit s : bool_decide (lit s <> [] /\ nonspaces (lit s)) = true -> word (lit s).
Proof. intros H. by apply bool_decide_eq_true in H. Qed.

Lemma digits_word ds : is_digits ds -> word ds.
Proof.
  intros [Hne Hds]. split; [done|]. eapply Forall_impl; [exact Hds|].
  intros c Hc. cbn. unfold IsDigit, IsSpace in *. lia.
Qed.

Lemma fields_word w : word w -> fields w [w].
Proof.
  intros Hw. pose proof (fields_cons [] w [] []) as H. cbn in H. rewrite app_nil_r in H.
  apply H; try done; repeat constructor.
Qed.

Lemma fields_word_cons w s rest ws :
  word w -> spaces s -> s <> [] -> fields rest ws -> fields (w ++ s ++ rest) (w :: ws).
Proof.
  intros Hw Hs Hne Hf. apply (fields_cons []); [constructor|done| |by apply fields_spaces_l].
  apply stops_app; [by apply spaces_stop_word|done].
Qed.

#[local] Hint Resolve fields_word fields_word_cons spaces_space digits_word : core.

Lemma render_denotes r : request_ok r -> denotes (render r) r.
Proof.
  assert (space <> []) as Hsp by done.
  assert (forall s, bool_decide (lit s <> [] /\ nonspaces (lit s)) = true -> fields (lit s) [lit s])
    as Hlit by (intros; apply fields_word; by apply word_lit).
  destruct r as [| | | |k|k|k|k v|k n]; cbn [request_ok denotes render]; intros Hok.
  1-4: eexists; split; [by apply Hlit|done].
  1: exists (lit "GET"). 2: exists (lit "DEL"). 3: exists (lit "TTL").
  1-3: split; [|done]; apply fields_word_cons; [by apply word_lit|done..|by apply fields_word].
  - destruct Hok as (Hk & Hv & Ht). exists [], (lit "SET"), space, space, [].
    rewrite app_nil_r. split_and!; try done; try (by apply word_lit); constructor.
  - destruct Hok as (Hk & Hn). destruct (to_string_digits n) as (Hd & Hdec & _).
    { unfold INT_MAX, U64_MOD in *. lia. }
    exists (to_string n). split_and!; try done; try lia.
    exists (lit "EXPIRE"). split; [|done].
    apply fields_word_cons; [by apply word_lit|done..|].
    apply fields_word_cons; [done..|]. by apply fields_word, digits_word.
Qed.

(** ** Theorems on the parser *)

(** C9. [ParseCommand] decides the request language: it always returns, it
    returns the command object of a request exactly for the lines that denote
    the request, and the [Unknown] command exactly for the lines that denote
    none; in particular no line denotes two requests. *)
Theorem parse_decides_grammar line :
  (forall r, ParseCommand line = Ret (to_command line r) <-> denotes line r) /\
  (ParseCommand line = Ret (MakeUnknow line) <-> forall r, ~ denotes line r) /\
  (exists c, ParseCommand line = Ret c /\
     (c = MakeUnknow line \/ exists r, c = to_command line r)).
Proof.
  split_and!.
  - intros r. apply parse_iff.
  - apply parse_unknown_iff.
  - destruct (parse_sound line) as (c & Hc & [->|(r & _ & ->)]); eauto.
Qed.

(** C10. Writing a request and parsing it back is the identity, for every
    request whose key is a word, whose value has no surrounding white space
    (inner white space is kept byte for byte) and whose time is a positive
    [int]. *)
Theorem parse_render_roundtrip r :
  request_ok r -> ParseCommand (render r) = Ret (to_command (render r) r).
Proof. intros Hr. by apply parse_complete, render_denotes. Qed.

(** [ParsePositiveInt] is exact: it accepts precisely the non-empty digit
    strings, of any length, whose value is in [1, INT_MAX], returns that value,
    and the [long long] accumulator never overflows. *)
Theorem parse_positive_int_exact text :
  exists o, ParsePositiveInt text = Ret o /\
    forall n, o = Some n <->
      text <> [] /\ Forall (fun c => IsDigit c = true) text /\ decimal text = n /\ 1 <= n <= INT_MAX.
Proof.
  destruct (ParsePositiveInt_ok text) as (o & Ho & Hiff). exists o. split; [done|].
  intros n. rewrite Hiff. unfold is_digits. tauto.
Qed.

Lemma parse_render_roundtrip_witness :
  request_ok (ReqSet (lit "k") (lit "a  b")) /\
  ParseCommand (lit "SET k a  b") =
    Ret (mkCommand CT_Set (lit "k") (lit "a  b") 0 (lit "SET k a  b")).
Proof.
  assert (request_ok (ReqSet (lit "k") (lit "a  b"))) as H.
  { split_and!; [|done|by split]. split; [done|]. repeat constructor. }
  split; [exact H|]. exact (parse_render_roundtrip _ H).
Defined.

(** ** Parsing at work *)

Example parse_set : ParseCommand (lit "  sEt k  a  b ") =
  Ret (mkCommand CT_Set (lit "k") (lit "a  b") 0 (lit "  sEt k  a  b ")).
Proof. vm_compute. reflexivity. Qed.
Example parse_expire : ParseCommand (lit "expire k 0012") =
  Ret (mkCommand CT_Expire (lit "k") [] 12 (lit "expire k 0012")).
Proof. vm_compute. reflexivity. Qed.
Example parse_expire_big : ParseCommand (lit "expire k 2147483648") =
  Ret (mkCommand CT_Unknown [] [] 0 (lit "expire k 2147483648")).
Proof. vm_compute. reflexivity. Qed.
