(* ===== verification/RequestSpec.v ===== *)
(** * Answering requests: text in, text out

    A server is a map with deadlines that answers lines of text. The answers of
    the C++ pipeline [ParseCommand] / [Execute] / [KVStore] are shown to be those
    of this abstract server, and to fit in a frame. *)

From S2P Require Import Prelude PriorityQueue KVStore KVStoreInv KVStoreOps KVStoreSweep KVStoreSpec FrameCodec CommandParser CommandGrammar CommandExecutor CommandTheorems.
#[local] Open Scope Z_scope.

(** ** The abstract server *)

Abbreviation spec_map := (gmap bytes spec_entry).

(** The store operation behind a request, if there is one. *)
Definition request_op (r : request) : option kv_op :=
  match r with
  | ReqGet k => Some (OpGet k)
  | ReqDel k => Some (OpDel k)
  | ReqTtl k => Some (OpTtl k)
  | ReqSet k v => Some (OpSet k v)
  | ReqExpire k n => Some (OpExpire k n)
  | ReqStats => Some OpStats
  | ReqPing | ReqQuit | ReqHelp => None
  end.

Definition stats_text (st : InnerStats) : bytes :=
  lit "+keys=" ++ to_string (st_keys st) ++
  lit ",persistent=" ++ to_string (st_persistentKeys st) ++
  lit ",expiring=" ++ to_string (st_expiringKeys st).

(** How a result of the store is written. *)
Definition response_of (res : kv_result) : bytes :=
  match res with
  | RUnit => lit "+OK"
  | RValue (Some v) => lit "$" ++ v
  | RValue None => lit "$nil"
  | RBool true => lit "+OK"
  | RBool false => lit "$nil"
  | RInt i => lit "$" ++ to_string i
  | RStats st => stats_text st
  | RSize _ | RSweep _ => []
  end.

Definition fixed_response (r : request) : bytes :=
  match r with
  | ReqPing => lit "+PONG"
  | ReqQuit => lit "+BYE"
  | ReqHelp => helpText
  | _ => []
  end.

(** [resp] is a right answer to [r] at time [now] when the keys are [a]. The
    statistics count what is stored, at least the keys that can be read. *)
Definition right_answer (now : TimePoint) (a : spec_map) (r : request) (resp : bytes) : Prop :=
  match request_op r with
  | None => resp = fixed_response r
  | Some OpStats =>
      exists p e, resp = stats_text (mkInnerStats (p + e) p e) /\ 0 <= p /\ 0 <= e /\
                  Z.of_nat (size (prune now a)) <= p + e < U64_MOD
  | Some op => resp = response_of (spec_op now op a).1
  end.

Definition next_map (now : TimePoint) (a : spec_map) (r : request) : spec_map :=
  match request_op r with
  | None => a
  | Some op => (spec_op now op a).2
  end.

Inductive serves : spec_map -> list (TimePoint * bytes) -> list bytes -> Prop :=
  | serves_nil a : serves a [] []
  | serves_request a now line r resp h resps :
      denotes line r -> right_answer now a r resp -> serves (next_map now a r) h resps ->
      serves a ((now, line) :: h) (resp :: resps)
  | serves_unknown a now line h resps :
      (forall r, ~ denotes line r) -> serves a h resps ->
      serves a ((now, line) :: h) (lit "-ERR unknown command" :: resps).

(** The clock readings of a session. *)
Fixpoint steady (now : TimePoint) (h : list (TimePoint * bytes)) : Prop :=
  match h with
  | [] => True
  | (now', _) :: h' => now <= now' /\ clock_ok now' /\ steady now' h'
  end.

(** ** The pipeline *)

Section pipeline.
Context {Q : Type} `{!PriorityQueue ExpirationRecord Q}.

(** Parsing one payload and executing it. *)
Definition answer (now : TimePoint) (line : bytes) : M (KVStore Q) bytes :=
  cmd ← lift (ParseCommand line);
  Execute now cmd.

Fixpoint session (h : list (TimePoint * bytes)) : M (KVStore Q) (list bytes) :=
  match h with
  | [] => mret []
  | (now, line) :: h' =>
      resp ← answer now line;
      resps ← session h';
      mret (resp :: resps)
  end.

(** Executing a request is its store operation, and the answer is written from
    the result. *)
Lemma Execute_request now line r op s :
  request_op r = Some op ->
  Execute now (to_command line r) s = (res ← exec_op now op; mret (response_of res)) s.
Proof.
  intros Hop. destruct r; simplify_eq/=; unfold exec_op, Execute; cbn;
    cbv [mbind M_bind mret M_ret].
  - done.
  - destruct (Get now key s) as [[[v|]|f] s']; done.
  - destruct (Del now key s) as [[[]|f] s']; done.
  - destruct (Ttl now key s) as [[i|f] s']; done.
  - destruct (Set_ key value s) as [[i|f] s']; done.
  - destruct (Expire now key seconds s) as [[[]|f] s']; done.
Qed.

Lemma Execute_fixed now line r s :
  request_op r = None -> Execute now (to_command line r) s = (Ret (fixed_response r), s).
Proof. by destruct r. Qed.

Lemma answer_request now line r s :
  denotes line r -> answer now line s = Execute now (to_command line r) s.
Proof.
  intros Hr%parse_complete. unfold answer, lift. cbv [mbind M_bind]. by rewrite Hr.
Qed.

Lemma answer_unknown now line s :
  (forall r, ~ denotes line r) -> answer now line s = (Ret (lit "-ERR unknown command"), s).
Proof.
  intros Hno%parse_unknown_iff. unfold answer, lift. cbv [mbind M_bind]. by rewrite Hno.
Qed.
End pipeline.

(** ** One request *)

Section refinement.
Context {Q : Type} `{!PriorityQueue ExpirationRecord Q}
  `{!PriorityQueueLaws ExpirationRecord Q ExpirationCompare}.

Lemma exec_op_observe now op (s s' : KVStore Q) res :
  (forall maxn, op <> OpSweep maxn) -> op <> OpSize -> op <> OpStats ->
  exec_op now op s = (Ret res, s') -> observe res = res.
Proof.
  unfold exec_op. intros Hsw Hsz Hst. cbv [mbind M_bind mret M_ret].
  destruct op; try done; [..|by destruct (Hsw maxRecordsToProcess)];
    match goal with |- context [match ?m s with _ => _ end] => destruct (m s) as [[x|f] s1] end;
    by intros [= <- <-].
Qed.

Lemma request_op_ok line r op : denotes line r -> request_op r = Some op -> op_ok op.
Proof.
  destruct r; cbn; intros Hr [= <-]; try done. destruct Hr as (ds & _ & _ & _ & Hn).
  cbn. unfold INT_MIN. lia.
Qed.

Lemma stats_answer n now (s : KVStore Q) a :
  Inv n now s -> n < U64_MOD -> means now s a ->
  wp (Execute now (to_command [] ReqStats)) (fun resp s' => s' = s /\ right_answer now a ReqStats resp)
     no_fail s.
Proof.
  intros HI Hn Ha. apply wp_bind, wp_gets, wp_ret. split; [done|].
  pose proof (count_if_total (m_data s)) as Htot. pose proof (inv_size _ _ _ HI) as Hsz.
  pose proof (count_if_nonneg true (m_data s)). pose proof (count_if_nonneg false (m_data s)).
  cbn. rewrite (inv_persistent _ _ _ HI), (inv_expiring _ _ _ HI), wrap_u64_small by lia.
  eexists _, _. split; [reflexivity|]. split_and!; [done..| |lia].
  rewrite Ha. pose proof (view_size now (m_data s)). lia.
Qed.

(** The answer is right and the store means the next map. *)
Definition answered (now : TimePoint) (line : bytes) (a : spec_map) (resp : bytes)
    (s' : KVStore Q) : Prop :=
  (exists r, denotes line r /\ right_answer now a r resp /\ means now s' (next_map now a r)) \/
  ((forall r, ~ denotes line r) /\ resp = lit "-ERR unknown command" /\ means now s' a).

Lemma request_correct n now line r (s : KVStore Q) a :
  denotes line r -> Inv n now s -> clock_ok now -> n + 1 < U64_MOD -> means now s a ->
  wp (answer now line) (fun resp s' => Inv (n + 1) now s' /\ answered now line a resp s') no_fail s.
Proof.
  intros Hr HI Hclk Hn Ha. assert (Inv (n + 1) now s) as HI1 by (eapply Inv_mono; [| |done]; lia).
  unfold wp. rewrite (answer_request now line r) by done.
  destruct (request_op r) as [op|] eqn:Hop.
  2: { rewrite Execute_fixed by done. split; [done|]. left. exists r. split; [done|].
       unfold right_answer, next_map. by rewrite Hop. }
  destruct (decide (r = ReqStats)) as [->|Hstats].
  - destruct (wp_run _ _ _ (stats_answer n now s a HI ltac:(lia) Ha)) as (resp & s' & Hrun & -> & Hresp).
    assert (Execute now (to_command line ReqStats) s = (Ret resp, s)) as -> by exact Hrun.
    split; [done|]. left. exists ReqStats. split_and!; try done.
    unfold next_map, means. cbn. by rewrite prune_prune.
  - rewrite (Execute_request now line r op) by done.
    destruct (wp_run _ _ _ (exec_op_correct n now now op s a HI ltac:(lia) Hclk Hn
      (request_op_ok _ _ _ Hr Hop) Ha)) as (res & s' & Hrun & HI' & Hres & Hm).
    cbv [mbind M_bind]. rewrite Hrun. cbv [mret M_ret]. split; [done|]. left. exists r. split; [done|].
    rewrite (exec_op_observe now op s s') in Hres by (done || by destruct r; simplify_eq/=).
    unfold right_answer, next_map. rewrite Hop, Hres. by destruct r; simplify_eq/=.
Qed.

Lemma answer_correct n now0 now line (s : KVStore Q) a :
  Inv n now0 s -> now0 <= now -> clock_ok now -> n + 1 < U64_MOD -> means now0 s a ->
  wp (answer now line) (fun resp s' => Inv (n + 1) now s' /\ answered now line a resp s') no_fail s.
Proof.
  intros HI Hle Hclk Hn Ha. eapply (means_later now0 now) in Ha; [|done].
  eapply (Inv_mono n n now0 now) in HI; [|lia|done].
  destruct (parse_sound line) as (c & Hc & [->|(r & Hr & _)]).
  - pose proof (proj1 (parse_unknown_iff line) Hc) as Hno. unfold wp. rewrite answer_unknown by done.
    split; [eapply Inv_mono; [| |done]; lia|]. by right.
  - by apply (request_correct n now line r).
Qed.

Lemma session_correct h n now (s : KVStore Q) a :
  Inv n now s -> steady now h -> n + zlen h < U64_MOD -> means now s a ->
  wp (session h) (fun resps _ => serves a h resps) no_fail s.
Proof.
  revert n now s a. induction h as [|[t line] h IH]; intros n now s a HI Hst Hn Ha; cbn.
  { apply wp_ret. constructor. }
  destruct Hst as (Hle & Hclk & Hst). rewrite zlen_cons in Hn. pose proof (zlen_nonneg h).
  apply wp_bind. eapply wp_mono; [by eapply (answer_correct n now); try done; lia| |done].
  intros resp s1 [HI1 [(r & Hr & Hresp & Hm)|(Hno & -> & Hm)]]; apply wp_bind;
    (eapply wp_mono; [eapply (IH (n + 1) t); try done; lia| |done]);
    intros resps s2 Hs; apply wp_ret; [by apply (serves_request a t line r)|by constructor].
Qed.
End refinement.

(** ** Sizes *)

(** Values that came in a frame leave room for the rest of their request. *)
Definition small (a : spec_map) : Prop := map_Forall (fun _ x => zlen x.1 + 6 <= MAX_FRAME_SIZE) a.

Lemma zlen_pos {A} (l : list A) : l <> [] -> 1 <= zlen l.
Proof. destruct l; [done|]. rewrite zlen_cons. pose proof (zlen_nonneg l). lia. Qed.

Lemma set_line_size line k v : set_line line k v -> zlen v + 6 <= zlen line.
Proof.
  intros (s0 & op & s1 & s2 & s3 & -> & Hop & _ & [Hk _] & _ & _ & H1 & H2 & _).
  rewrite !zlen_app. apply zlen_pos in Hk, H1, H2.
  assert (zlen op = 3) as -> by (apply (f_equal zlen) in Hop; unfold UpperCopy, zlen in *;
    by rewrite length_fmap in Hop).
  pose proof (zlen_nonneg s0). pose proof (zlen_nonneg s3). lia.
Qed.

Lemma small_empty : small ∅.
Proof. unfold small. apply map_Forall_empty. Qed.

Lemma small_prune now a : small a -> small (prune now a).
Proof.
  intros Ha k x. rewrite lookup_prune. destruct (a !! k) as [y|] eqn:Hk; [|done]. cbn.
  destruct (alive now y); [|done]. intros [= <-]. by apply (Ha k).
Qed.

Lemma small_next now a line r :
  small a -> denotes line r -> fits line -> small (next_map now a r).
Proof.
  intros Ha Hr Hfit. apply (small_prune now) in Ha as Hp. unfold next_map.
  destruct r as [| | | |k|k|k|k v|k n]; cbn [request_op spec_op snd]; try done.
  - by apply map_Forall_delete.
  - apply map_Forall_insert_2; [|done]. apply set_line_size in Hr. unfold fits in Hfit. cbn. lia.
  - destruct (prune now a !! k) as [[v t]|] eqn:Hk; [|done]. destruct (n <=? 0); [done|].
    apply map_Forall_insert_2; [|done]. by apply (Hp _ _ Hk).
Qed.

Lemma right_answer_fits now a line r resp :
  small a -> denotes line r -> right_answer now a r resp -> fits resp.
Proof.
  intros Ha Hr Hans. apply (small_prune now) in Ha.
  assert (forall b, fits (response_of (RBool b))) as Hbool by by intros [].
  unfold right_answer, fits in *. destruct r as [| | | |k|k|k|k v|k n]; cbn [request_op spec_op fst] in *.
  1, 3, 4: by subst.
  - destruct Hans as (p & e & -> & _). unfold stats_text. cbn [st_keys st_persistentKeys st_expiringKeys].
    rewrite !zlen_app. change (zlen (lit "+keys=")) with 6. change (zlen (lit ",persistent=")) with 12.
    change (zlen (lit ",expiring=")) with 10. pose proof (to_string_length (p + e)).
    pose proof (to_string_length p). pose proof (to_string_length e).
    unfold MAX_FRAME_SIZE. lia.
  - subst. destruct (prune now a !! k) as [[v t]|] eqn:Hk; [|done]. cbn [fst response_of fmap option_fmap option_map].
    rewrite zlen_app. change (zlen (lit "$")) with 1. apply Ha in Hk. cbn in Hk. lia.
  - subst. apply Hbool.
  - subst. cbn [response_of]. rewrite zlen_app. change (zlen (lit "$")) with 1.
    pose proof (to_string_length (spec_ttl now (prune now a !! k))). unfold MAX_FRAME_SIZE. lia.
  - by subst.
  - subst. destruct (prune now a !! k) as [[v t]|]; [|done]. destruct (n <=? 0); apply Hbool.
Qed.

Lemma serves_fits a h resps :
  serves a h resps -> small a -> Forall (fun x => fits x.2) h -> Forall fits resps.
Proof.
  induction 1 as [a|a now line r resp h resps Hr Hans _ IH|a now line h resps _ _ IH];
    intros Ha Hh; inversion Hh as [|? ? Hline Hh']; subst; constructor.
  - by eapply right_answer_fits.
  - apply IH; [by eapply small_next|done].
  - done.
  - by apply IH.
Qed.

(** ** Theorems *)

Section theorems.
Context {Q : Type} `{!PriorityQueue ExpirationRecord Q}
  `{!PriorityQueueLaws ExpirationRecord Q ExpirationCompare}.

(** C11. The whole pipeline refines the abstract server: any sequence of lines,
    parsed, executed and answered at clock readings that do not decrease, runs
    to the end without an exception, an assertion or an overflow, and every
    answer is the one the abstract map with deadlines gives, malformed requests
    being answered by the error and leaving the keys alone. *)
Theorem session_refines_spec h :
  steady 0 h -> zlen h < U64_MOD ->
  exists resps s', session h (KVStore_init (Q := Q)) = (Ret resps, s') /\ serves ∅ h resps.
Proof.
  intros Hst Hn.
  destruct (wp_run _ _ _ (session_correct h 0 0 KVStore_init ∅ (Inv_init 0) Hst ltac:(lia)
    ltac:(done))) as (resps & s' & Hrun & Hs). eauto.
Qed.

(** C12. The server can always answer: when every request came in a frame of
    at most 1 MiB, every response fits in a frame, so encoding a response never
    throws. A value stored from a request is at least six bytes shorter than
    the request, and its [GET] response only one byte longer than the value. *)
Theorem responses_fit h :
  steady 0 h -> zlen h < U64_MOD -> Forall (fun x => fits x.2) h ->
  exists resps s', session h (KVStore_init (Q := Q)) = (Ret resps, s') /\
    Forall (fun resp => exists f, forall S (s : S), Encode resp s = (Ret f, s)) resps.
Proof.
  intros Hst Hn Hfit.
  destruct (wp_run _ _ _ (session_correct h 0 0 KVStore_init ∅ (Inv_init 0) Hst ltac:(lia)
    ltac:(done))) as (resps & s' & Hrun & Hs).
  exists resps, s'. split; [done|]. apply serves_fits in Hs; [|exact small_empty|done].
  eapply Forall_impl; [exact Hs|]. intros resp Hresp. exists (frame resp).
  intros S s. by apply encode_ok.
Qed.

(** A [GET] answer tells a stored value from a missing key, and two stored
    values apart, except that the value [nil] reads like a missing key. *)
Theorem get_answer_ambiguity now k1 k2 raw1 raw2 e1 (s1 s2 : KVStore Q) :
  m_data s1 !! k1 = Some e1 -> IsExpired e1 now = false ->
  let get k raw s := (Execute now (mkCommand CT_Get k [] 0 raw) s).1 in
  (m_data s2 !! k2 = None -> get k1 raw1 s1 = get k2 raw2 s2 <-> e_value e1 = lit "nil") /\
  (forall e2, m_data s2 !! k2 = Some e2 -> IsExpired e2 now = false ->
     get k1 raw1 s1 = get k2 raw2 s2 <-> e_value e1 = e_value e2).
Proof.
  intros Hk1 He1. cbn. unfold Execute, Get. cbn. cbv [mbind M_bind gets]. rewrite Hk1, He1. cbn.
  split.
  - intros Hk2. rewrite Hk2. cbn. split; [by intros [= ->]|by intros ->].
  - intros e2 Hk2 He2. rewrite Hk2, He2. cbn. split; [by intros [= ->]|by intros ->].
Qed.
End theorems.

(** ** A session *)

Abbreviation SessionStore := (KVStore (sorted_queue ExpirationCompare)).

Definition example_session : list (TimePoint * bytes) :=
  [(0, lit "SET k a  b"); (0, lit " expire k 2 "); (1, lit "ttl k");
   (1999999999, lit "GET k"); (2000000000, lit "GET k"); (2000000001, lit "STATS");
   (2000000002, lit "SETX k v")].

Definition example_answers : list bytes :=
  [lit "+OK"; lit "+OK"; lit "$2"; lit "$a  b"; lit "$nil";
   lit "+keys=0,persistent=0,expiring=0"; lit "-ERR unknown command"].

Lemma example_session_steady : steady 0 example_session.
Proof. cbn. unfold clock_ok. repeat split; vm_compute; congruence. Qed.

Lemma session_refines_spec_witness :
  steady 0 example_session /\
  (exists resps s', session example_session (KVStore_init : SessionStore) = (Ret resps, s') /\
     serves ∅ example_session resps) /\
  (session example_session (KVStore_init : SessionStore)).1 = Ret example_answers.
Proof.
  split_and!; [exact example_session_steady| |vm_compute; reflexivity].
  apply (session_refines_spec example_session example_session_steady). reflexivity.
Defined.

Lemma responses_fit_witness :
  exists resps s', session example_session (KVStore_init : SessionStore) = (Ret resps, s') /\
    Forall (fun resp => exists f, forall S (s : S), Encode resp s = (Ret f, s)) resps.
Proof.
  apply (responses_fit example_session example_session_steady); [reflexivity|].
  repeat constructor; vm_compute; discriminate.
Defined.

Lemma get_answer_ambiguity_witness :
  let s : SessionStore := KVStore_init <| m_data := {[lit "k" := mkEntry (lit "nil") None 0]} |> in
  (Execute 0 (mkCommand CT_Get (lit "k") [] 0 []) s).1 =
  (Execute 0 (mkCommand CT_Get (lit "other") [] 0 []) s).1.
Proof.
  intros s.
  apply (proj1 (get_answer_ambiguity 0 (lit "k") (lit "other") [] [] (mkEntry (lit "nil") None 0) s s
    eq_refl eq_refl) eq_refl). reflexivity.
Defined.
