(* ===== verification/OutputBuffer.v ===== *)
(** * OutputBuffer: the per-connection send queue (net/output_buffer.h, net/output_buffer.cpp)

    A byte string with a read offset; the consumed prefix is dropped lazily.
    [m_storage] is the contents of the string, [m_readPos] the offset. The
    buffer is shown to be a first-in first-out byte queue whose memory stays
    proportional to what is pending. *)

From S2P Require Import Prelude.
#[local] Open Scope Z_scope.

Definition COMPACT_THRESHOLD : Z := 64 * 1024.

Record OutputBuffer := mkOutputBuffer {
  m_storage : bytes;
  m_readPos : Z;
}.
#[export] Instance OutputBuffer_settable : Settable OutputBuffer := fun b =>
  {| m_storage := m_storage b; m_readPos := m_readPos b |}.

Definition OutputBuffer_init : OutputBuffer := mkOutputBuffer [] 0.

(** The bytes from the pointer [m_storage.data() + m_readPos] on. *)
Definition Data (b : OutputBuffer) : bytes := drop (Z.to_nat (m_readPos b)) (m_storage b).

Definition BufSize (b : OutputBuffer) : Z := wrap_u64 (zlen (m_storage b) - m_readPos b).

Definition Empty (b : OutputBuffer) : bool := BufSize b =? 0.

Definition Clear : M OutputBuffer unit :=
  modify (fun b => b <| m_storage := [] |> <| m_readPos := 0 |>).

Definition CompactIfNeed : M OutputBuffer unit :=
  b ← gets id;
  if m_readPos b <? COMPACT_THRESHOLD then mret tt else
  if m_readPos b <? zlen (m_storage b) / 2 then mret tt else
  modify (fun b => b <| m_storage ::= drop (Z.to_nat (m_readPos b)) |>);;
  modify (fun b => b <| m_readPos := 0 |>).

Definition Append (data : bytes) : M OutputBuffer unit :=
  if bool_decide (data = []) then mret tt else
  CompactIfNeed;;
  modify (fun b => b <| m_storage ::= fun s => s ++ data |>).

Definition Consume (n : Z) : M OutputBuffer unit :=
  size ← gets BufSize;
  if size <? n then throw (out_of_range "OutputBuffer::Consume exceeds pending bytes") else
  modify (fun b => b <| m_readPos ::= fun p => wrap_u64 (p + n) |>);;
  b ← gets id;
  if m_readPos b =? zlen (m_storage b) then Clear else CompactIfNeed.

(** ** Invariant *)

(** The offset is inside the storage, the storage fits in memory, and the
    consumed prefix is below the threshold or less than half of the storage. *)
Record BufInv (b : OutputBuffer) : Prop := mkBufInv {
  buf_pos : 0 <= m_readPos b;
  buf_inside : m_readPos b = 0 \/ m_readPos b < zlen (m_storage b);
  buf_fits : zlen (m_storage b) < U64_MOD;
  buf_garbage : m_readPos b < COMPACT_THRESHOLD \/ m_readPos b < zlen (m_storage b) / 2;
}.

Lemma BufInv_init : BufInv OutputBuffer_init.
Proof. split; cbn; unfold U64_MOD, COMPACT_THRESHOLD; rewrite ?zlen_nil; lia. Qed.

Lemma zlen_drop' {A} n (l : list A) : 0 <= n <= zlen l -> zlen (drop (Z.to_nat n) l) = zlen l - n.
Proof. unfold zlen. intros. rewrite length_drop. lia. Qed.

Lemma size_data b : BufInv b -> BufSize b = zlen (Data b) /\ zlen (Data b) = zlen (m_storage b) - m_readPos b.
Proof.
  intros [Hp Hin Hf _]. pose proof (zlen_nonneg (m_storage b)).
  unfold BufSize, Data. rewrite zlen_drop', wrap_u64_small by lia. lia.
Qed.

Lemma empty_data b : BufInv b -> Empty b = bool_decide (Data b = []).
Proof.
  intros HI. unfold Empty. destruct (size_data b HI) as [-> _].
  case_bool_decide as Hd; [by rewrite Hd|]. apply Z.eqb_neq. by intros ?%zlen_0_nil.
Qed.

Lemma compact_ok b :
  0 <= m_readPos b <= zlen (m_storage b) -> zlen (m_storage b) < U64_MOD ->
  exists b', CompactIfNeed b = (Ret tt, b') /\ Data b' = Data b
    /\ 0 <= m_readPos b' <= m_readPos b /\ zlen (m_storage b') <= zlen (m_storage b)
    /\ (m_readPos b < zlen (m_storage b) -> m_readPos b' < zlen (m_storage b'))
    /\ (m_readPos b' < COMPACT_THRESHOLD \/ m_readPos b' < zlen (m_storage b') / 2).
Proof.
  intros Hp Hf. unfold CompactIfNeed, Data. cbv [mbind M_bind gets modify id]. cbn.
  destruct (Z.ltb_spec (m_readPos b) COMPACT_THRESHOLD); [exists b; split_and!; auto; lia|].
  destruct (Z.ltb_spec (m_readPos b) (zlen (m_storage b) / 2)); [exists b; split_and!; auto; lia|].
  eexists. split; [reflexivity|]. cbn. rewrite zlen_drop' by lia. rewrite drop_0.
  unfold COMPACT_THRESHOLD in *. split_and!; try done; lia.
Qed.

Lemma append_ok b data :
  BufInv b -> zlen (m_storage b) + zlen data < U64_MOD ->
  exists b', Append data b = (Ret tt, b') /\ BufInv b' /\ Data b' = Data b ++ data
    /\ zlen (m_storage b') <= zlen (m_storage b) + zlen data.
Proof.
  intros HI Hfit. pose proof HI as [Hp Hin Hf Hg]. pose proof (zlen_nonneg (m_storage b)) as Hnn.
  unfold Append. case_bool_decide as Hnil.
  { subst data. rewrite app_nil_r, zlen_nil. exists b. split_and!; try done. lia. }
  assert (0 < zlen data) as Hd.
  { destruct data; [done|]. rewrite zlen_cons. pose proof (zlen_nonneg data). lia. }
  destruct (compact_ok b) as (b1 & Hc & Hdata & Hp1 & Hs1 & Hlt & Hg1); [lia|done|].
  cbv [mbind M_bind modify]. rewrite Hc. eexists. split; [reflexivity|].
  assert (m_readPos b1 <= zlen (m_storage b1)) as Hle.
  { destruct Hin as [H0|H0]; [pose proof (zlen_nonneg (m_storage b1)); lia|]. specialize (Hlt H0). lia. }
  rewrite <-Hdata. unfold Data. cbn. rewrite drop_app_le by (unfold zlen in *; lia).
  rewrite zlen_app. split_and!; [|done|lia].
  split; cbn; rewrite ?zlen_app; try lia.
  destruct Hg1 as [|Hg1]; [by left|right].
  eapply Z.lt_le_trans; [exact Hg1|]. apply Z.div_le_mono; lia.
Qed.

Lemma consume_ok b n :
  BufInv b -> 0 <= n <= zlen (Data b) ->
  exists b', Consume n b = (Ret tt, b') /\ BufInv b' /\ Data b' = drop (Z.to_nat n) (Data b)
    /\ zlen (m_storage b') <= zlen (m_storage b).
Proof.
  intros HI Hn. pose proof HI as [Hp Hin Hf Hg]. destruct (size_data b HI) as [Hsz Hdl].
  unfold Consume. cbv [mbind M_bind gets modify id]. rewrite Hsz.
  replace (zlen (Data b) <? n) with false by lia. cbn.
  rewrite wrap_u64_small by lia.
  destruct (Z.eqb_spec (m_readPos b + n) (zlen (m_storage b))) as [Heq|Hne].
  - eexists. split; [reflexivity|]. cbn. split_and!.
    + split; cbn; unfold U64_MOD, COMPACT_THRESHOLD; rewrite ?zlen_nil; lia.
    + symmetry. apply drop_ge. unfold zlen in *. lia.
    + rewrite zlen_nil. apply zlen_nonneg.
  - destruct (compact_ok (mkOutputBuffer (m_storage b) (m_readPos b + n))) as
      (b1 & Hc & Hdata & Hp1 & Hs1 & Hlt & Hg1); cbn in *; [lia|done|].
    exists b1. rewrite Hc. split_and!; [done|split; lia| |done].
    rewrite Hdata. unfold Data. cbn. rewrite drop_drop. f_equal. lia.
Qed.

Lemma consume_too_much b n :
  BufInv b -> zlen (Data b) < n ->
  Consume n b = (Fail (Throw (out_of_range "OutputBuffer::Consume exceeds pending bytes")), b).
Proof.
  intros HI Hn. destruct (size_data b HI) as [Hsz _]. unfold Consume.
  cbv [mbind M_bind gets]. rewrite Hsz. by replace (zlen (Data b) <? n) with true by lia.
Qed.

(** ** Histories of a buffer *)

Inductive buf_op :=
  | BufAppend (data : bytes)
  | BufConsume (n : Z)
  | BufClear.

Definition exec_buf (op : buf_op) : M OutputBuffer unit :=
  match op with
  | BufAppend data => Append data
  | BufConsume n => Consume n
  | BufClear => Clear
  end.

(** A queue of bytes; consuming more than it holds is the error. *)
Definition spec_buf (op : buf_op) (q : bytes) : bool * bytes :=
  match op with
  | BufAppend data => (true, q ++ data)
  | BufConsume n => if n <=? zlen q then (true, drop (Z.to_nat n) q) else (false, q)
  | BufClear => (true, [])
  end.

Definition buf_op_ok (op : buf_op) (b : OutputBuffer) : Prop :=
  match op with
  | BufAppend data => zlen (m_storage b) + zlen data < U64_MOD
  | BufConsume n => 0 <= n
  | BufClear => True
  end.

(** C13. The buffer is a first-in first-out byte queue: from any reachable
    representation, [Append], [Consume] and [Clear] change the pending bytes as
    the queue does, [Consume] of more than is pending throws and changes
    nothing, and [Data], [Size] and [Empty] report the queue; whether and when
    the storage is compacted cannot be observed. *)
Theorem buffer_is_queue op b :
  BufInv b -> buf_op_ok op b ->
  let '(ok, q') := spec_buf op (Data b) in
  exists b', exec_buf op b =
      (if ok then Ret tt else Fail (Throw (out_of_range "OutputBuffer::Consume exceeds pending bytes")), b')
    /\ BufInv b' /\ Data b' = q' /\ BufSize b' = zlen q' /\ Empty b' = bool_decide (q' = []).
Proof.
  intros HI Hop.
  assert (forall r q' b', exec_buf op b = (r, b') -> BufInv b' -> Data b' = q' ->
    exists b', exec_buf op b = (r, b') /\ BufInv b' /\ Data b' = q' /\ BufSize b' = zlen q'
      /\ Empty b' = bool_decide (q' = [])) as Hshow.
  { intros r q' b' Hrun HI' <-. exists b'. destruct (size_data b' HI') as [Hsz _].
    split_and!; [done..|exact Hsz|by apply empty_data]. }
  destruct op as [data|n|]; cbn [spec_buf buf_op_ok] in *.
  - destruct (append_ok b data HI Hop) as (b' & Hr & HI' & Hd & _). eauto.
  - destruct (Z.leb_spec n (zlen (Data b))).
    + destruct (consume_ok b n HI) as (b' & Hr & HI' & Hd & _); [lia|]. eauto.
    + eapply Hshow; [by apply consume_too_much|done..].
  - eapply Hshow; [done|exact BufInv_init|done].
Qed.

(** Lazy compaction wastes little: a reachable buffer holds fewer than
    [max 64K pending] consumed bytes, so its storage is below
    [pending + max 64K pending]. *)
Theorem buffer_memory_bound b :
  BufInv b ->
  m_readPos b < Z.max COMPACT_THRESHOLD (zlen (Data b)) /\
  zlen (m_storage b) < zlen (Data b) + Z.max COMPACT_THRESHOLD (zlen (Data b)).
Proof.
  intros HI. destruct (size_data b HI) as [_ Hd]. destruct HI as [Hp Hin Hf Hg].
  pose proof (zlen_nonneg (m_storage b)). unfold COMPACT_THRESHOLD in *.
  pose proof (Z.div_mod (zlen (m_storage b)) 2 ltac:(lia)).
  pose proof (Z.mod_pos_bound (zlen (m_storage b)) 2 ltac:(lia)). lia.
Qed.

Lemma buffer_is_queue_witness :
  let b := mkOutputBuffer (lit "xxhello") 2 in
  BufInv b /\
  (exists b', Consume 9 b =
     (Fail (Throw (out_of_range "OutputBuffer::Consume exceeds pending bytes")), b')
     /\ BufInv b' /\ Data b' = lit "hello" /\ BufSize b' = 5 /\ Empty b' = false).
Proof.
  intros b. assert (BufInv b) as HI.
  { split; cbn; [lia|right; reflexivity|reflexivity|left; reflexivity]. }
  split; [exact HI|]. exact (buffer_is_queue (BufConsume 9) b HI ltac:(cbn; lia)).
Defined.

Lemma buffer_memory_bound_witness :
  BufInv (mkOutputBuffer (lit "xxhello") 2) /\
  m_readPos (mkOutputBuffer (lit "xxhello") 2) < Z.max COMPACT_THRESHOLD 5 /\
  zlen (lit "xxhello") < 5 + Z.max COMPACT_THRESHOLD 5.
Proof.
  assert (BufInv (mkOutputBuffer (lit "xxhello") 2)) as HI.
  { split; cbn; [lia|right; reflexivity|reflexivity|left; reflexivity]. }
  split; [exact HI|]. exact (buffer_memory_bound _ HI).
Defined.
