(* ===== verification/ServerMetrics.v ===== *)
(** * ServerMetrics: counters shared by all threads (observability/server_metrics.h, observability/server_metrics.cpp)

    Every counter is an atomic [uint64_t] used with relaxed ordering. A method is
    the sequence of its accesses to the counters ([atomic_op]), one element per
    access, the compare-exchange loop of [UpdateMaximum] included. [alone] runs
    the sequence in one thread, as the other components call the methods;
    [metrics_step] at the end of the file lets any number of threads take turns
    access by access, each attempt of an exchange being a step of its own. *)

From S2P Require Import Prelude.
#[local] Open Scope Z_scope.

(** [ServerMetrics] and its [Snapshot]; all counters are [uint64_t]. *)
Record ServerMetrics := mkServerMetrics {
  m_acceptedConnections : Z;
  m_closedConnections : Z;
  m_activeConnections : Z;
  m_bytesReceived : Z;
  m_bytesSent : Z;
  m_framesReceived : Z;
  m_commandsProcessed : Z;
  m_commandErrors : Z;
  m_protocolErrors : Z;
  m_slowClientDisconnects : Z;
  m_readPauseTransitions : Z;
  m_readResumeTransitions : Z;
  m_sweeperRuns : Z;
  m_expiredKeysRemoved : Z;
  m_forcedShutdownConnections : Z;
  m_maximumPendingWriteBytes : Z;
  m_commandLatencyCount : Z;
  m_commandLatencyTotalNanoseconds : Z;
  m_commandLatencyMaximumNanoseconds : Z;
  m_commandLatencyBuckets : list Z;
}.
#[export] Instance ServerMetrics_settable : Settable ServerMetrics := fun s =>
  {| m_acceptedConnections := m_acceptedConnections s;
     m_closedConnections := m_closedConnections s;
     m_activeConnections := m_activeConnections s;
     m_bytesReceived := m_bytesReceived s;
     m_bytesSent := m_bytesSent s;
     m_framesReceived := m_framesReceived s;
     m_commandsProcessed := m_commandsProcessed s;
     m_commandErrors := m_commandErrors s;
     m_protocolErrors := m_protocolErrors s;
     m_slowClientDisconnects := m_slowClientDisconnects s;
     m_readPauseTransitions := m_readPauseTransitions s;
     m_readResumeTransitions := m_readResumeTransitions s;
     m_sweeperRuns := m_sweeperRuns s;
     m_expiredKeysRemoved := m_expiredKeysRemoved s;
     m_forcedShutdownConnections := m_forcedShutdownConnections s;
     m_maximumPendingWriteBytes := m_maximumPendingWriteBytes s;
     m_commandLatencyCount := m_commandLatencyCount s;
     m_commandLatencyTotalNanoseconds := m_commandLatencyTotalNanoseconds s;
     m_commandLatencyMaximumNanoseconds := m_commandLatencyMaximumNanoseconds s;
     m_commandLatencyBuckets := m_commandLatencyBuckets s |}.

Record ServerMetricsSnapshot := mkServerMetricsSnapshot {
  acceptedConnections : Z;
  closedConnections : Z;
  activeConnections : Z;
  bytesReceived : Z;
  bytesSent : Z;
  framesReceived : Z;
  commandsProcessed : Z;
  commandErrors : Z;
  protocolErrors : Z;
  slowClientDisconnects : Z;
  readPauseTransitions : Z;
  readResumeTransitions : Z;
  sweeperRuns : Z;
  expiredKeysRemoved : Z;
  forcedShutdownConnections : Z;
  maximumPendingWriteBytes : Z;
  commandLatencyCount : Z;
  commandLatencyTotalNanoseconds : Z;
  commandLatencyMaximumNanoseconds : Z;
  commandLatencyBuckets : list Z;
}.
#[export] Instance ServerMetricsSnapshot_settable : Settable ServerMetricsSnapshot := fun s =>
  {| acceptedConnections := acceptedConnections s;
     closedConnections := closedConnections s;
     activeConnections := activeConnections s;
     bytesReceived := bytesReceived s;
     bytesSent := bytesSent s;
     framesReceived := framesReceived s;
     commandsProcessed := commandsProcessed s;
     commandErrors := commandErrors s;
     protocolErrors := protocolErrors s;
     slowClientDisconnects := slowClientDisconnects s;
     readPauseTransitions := readPauseTransitions s;
     readResumeTransitions := readResumeTransitions s;
     sweeperRuns := sweeperRuns s;
     expiredKeysRemoved := expiredKeysRemoved s;
     forcedShutdownConnections := forcedShutdownConnections s;
     maximumPendingWriteBytes := maximumPendingWriteBytes s;
     commandLatencyCount := commandLatencyCount s;
     commandLatencyTotalNanoseconds := commandLatencyTotalNanoseconds s;
     commandLatencyMaximumNanoseconds := commandLatencyMaximumNanoseconds s;
     commandLatencyBuckets := commandLatencyBuckets s |}.

Definition ServerMetrics_init : ServerMetrics :=
  mkServerMetrics 0 0 0 0 0 0 0 0 0 0 0 0 0 0 0 0 0 0 0 (replicate 7 0).

Definition LATENCY_UPPER_BOUNDS_NS : list Z := [10000; 50000; 100000; 500000; 1000000; 5000000].

(** ** Atomic operations *)

(** The scalar counters. *)
Inductive counter :=
  | K_acceptedConnections
  | K_closedConnections
  | K_activeConnections
  | K_bytesReceived
  | K_bytesSent
  | K_framesReceived
  | K_commandsProcessed
  | K_commandErrors
  | K_protocolErrors
  | K_slowClientDisconnects
  | K_readPauseTransitions
  | K_readResumeTransitions
  | K_sweeperRuns
  | K_expiredKeysRemoved
  | K_forcedShutdownConnections
  | K_maximumPendingWriteBytes
  | K_commandLatencyCount
  | K_commandLatencyTotalNanoseconds
  | K_commandLatencyMaximumNanoseconds.

Definition load (k : counter) (s : ServerMetrics) : Z :=
  match k with
  | K_acceptedConnections => m_acceptedConnections s
  | K_closedConnections => m_closedConnections s
  | K_activeConnections => m_activeConnections s
  | K_bytesReceived => m_bytesReceived s
  | K_bytesSent => m_bytesSent s
  | K_framesReceived => m_framesReceived s
  | K_commandsProcessed => m_commandsProcessed s
  | K_commandErrors => m_commandErrors s
  | K_protocolErrors => m_protocolErrors s
  | K_slowClientDisconnects => m_slowClientDisconnects s
  | K_readPauseTransitions => m_readPauseTransitions s
  | K_readResumeTransitions => m_readResumeTransitions s
  | K_sweeperRuns => m_sweeperRuns s
  | K_expiredKeysRemoved => m_expiredKeysRemoved s
  | K_forcedShutdownConnections => m_forcedShutdownConnections s
  | K_maximumPendingWriteBytes => m_maximumPendingWriteBytes s
  | K_commandLatencyCount => m_commandLatencyCount s
  | K_commandLatencyTotalNanoseconds => m_commandLatencyTotalNanoseconds s
  | K_commandLatencyMaximumNanoseconds => m_commandLatencyMaximumNanoseconds s
  end.

Definition store (k : counter) (g : Z -> Z) (s : ServerMetrics) : ServerMetrics :=
  match k with
  | K_acceptedConnections => s <| m_acceptedConnections ::= g |>
  | K_closedConnections => s <| m_closedConnections ::= g |>
  | K_activeConnections => s <| m_activeConnections ::= g |>
  | K_bytesReceived => s <| m_bytesReceived ::= g |>
  | K_bytesSent => s <| m_bytesSent ::= g |>
  | K_framesReceived => s <| m_framesReceived ::= g |>
  | K_commandsProcessed => s <| m_commandsProcessed ::= g |>
  | K_commandErrors => s <| m_commandErrors ::= g |>
  | K_protocolErrors => s <| m_protocolErrors ::= g |>
  | K_slowClientDisconnects => s <| m_slowClientDisconnects ::= g |>
  | K_readPauseTransitions => s <| m_readPauseTransitions ::= g |>
  | K_readResumeTransitions => s <| m_readResumeTransitions ::= g |>
  | K_sweeperRuns => s <| m_sweeperRuns ::= g |>
  | K_expiredKeysRemoved => s <| m_expiredKeysRemoved ::= g |>
  | K_forcedShutdownConnections => s <| m_forcedShutdownConnections ::= g |>
  | K_maximumPendingWriteBytes => s <| m_maximumPendingWriteBytes ::= g |>
  | K_commandLatencyCount => s <| m_commandLatencyCount ::= g |>
  | K_commandLatencyTotalNanoseconds => s <| m_commandLatencyTotalNanoseconds ::= g |>
  | K_commandLatencyMaximumNanoseconds => s <| m_commandLatencyMaximumNanoseconds ::= g |>
  end.

(** A method is the sequence of the accesses it makes to shared counters; the
    operations that work on a value read before find it in the local variable
    [current] of the thread. The plain [store] is part of the language of
    [std::atomic] although the methods do without it: that no update is lost
    is a property of the methods, not of the language. *)
Inductive atomic_op :=
  | FetchAdd (k : counter) (n : Z)              (* k.fetch_add(n) *)
  | FetchSub (k : counter) (n : Z)              (* k.fetch_sub(n) *)
  | FetchAddBucket (i : nat)                    (* m_commandLatencyBuckets[i].fetch_add(1) *)
  | LoadCurrent (k : counter)                   (* current = k.load() *)
  | StoreCurrent (k : counter) (g : Z -> Z)     (* k.store(g(current)) *)
  | ExchangeLoop (k : counter) (candidate : Z).
    (* while (candidate > current && !k.compare_exchange_weak(current, candidate)) {} *)

(** [fetch_add] and [fetch_sub] wrap around. *)
Definition add_u64 (n x : Z) : Z := wrap_u64 (x + n).
Definition sub_u64 (n x : Z) : Z := wrap_u64 (x - n).
Definition add_bucket (i : nat) (s : ServerMetrics) : ServerMetrics :=
  s <| m_commandLatencyBuckets ::= alter (add_u64 1) i |>.

(** [compare_exchange]: whether it succeeded, and what [expected] then holds. *)
Definition compare_exchange (k : counter) (expected desired : Z) : M ServerMetrics (bool * Z) :=
  current ← gets (load k);
  if current =? expected
  then modify (store k (fun _ => desired));; mret (true, expected)
  else mret (false, current).

Fixpoint exchange_loop (fuel : nat) (k : counter) (candidate current : Z) : M ServerMetrics Z :=
  match fuel with
  | O => fail OutOfFuel
  | S fuel =>
      if candidate <=? current then mret current else
      r ← compare_exchange k current candidate;
      match r with
      | (true, seen) => mret seen
      | (false, seen) => exchange_loop fuel k candidate seen
      end
  end.

(** The operations of one thread that nobody interferes with; an exchange then
    fails at most once, and the loop needs two turns. *)
Definition run_op (a : atomic_op) (current : Z) : M ServerMetrics Z :=
  match a with
  | FetchAdd k n => modify (store k (add_u64 n));; mret current
  | FetchSub k n => modify (store k (sub_u64 n));; mret current
  | FetchAddBucket i => modify (add_bucket i);; mret current
  | LoadCurrent k => gets (load k)
  | StoreCurrent k g => modify (store k (fun _ => g current));; mret current
  | ExchangeLoop k candidate => exchange_loop 2 k candidate current
  end.

Fixpoint run_ops_from (current : Z) (ops : list atomic_op) : M ServerMetrics unit :=
  match ops with
  | [] => mret tt
  | a :: ops => current ← run_op a current; run_ops_from current ops
  end.

Definition alone (ops : list atomic_op) : M ServerMetrics unit := run_ops_from 0 ops.

(** ** The operations of each method *)

Definition fetch_add (k : counter) (n : Z) : list atomic_op := [FetchAdd k n].
Definition fetch_sub (k : counter) (n : Z) : list atomic_op := [FetchSub k n].

Definition UpdateMaximum (target : counter) (candidate : Z) : list atomic_op :=
  [LoadCurrent target; ExchangeLoop target candidate].

Definition OnConnectionAccepted_ops : list atomic_op :=
  fetch_add K_acceptedConnections 1 ++ fetch_add K_activeConnections 1.
Definition OnConnectionClosed_ops : list atomic_op :=
  fetch_add K_closedConnections 1 ++ fetch_sub K_activeConnections 1.
Definition AddBytesReceived_ops (n : Z) : list atomic_op := fetch_add K_bytesReceived n.
Definition AddBytesSent_ops (n : Z) : list atomic_op := fetch_add K_bytesSent n.
Definition AddFramesReceived_ops (n : Z) : list atomic_op := fetch_add K_framesReceived n.
Definition OnCommandProcessed_ops : list atomic_op := fetch_add K_commandsProcessed 1.
Definition OnCommandError_ops : list atomic_op := fetch_add K_commandErrors 1.
Definition OnProtocolError_ops : list atomic_op := fetch_add K_protocolErrors 1.
Definition OnSlowClientDisconnected_ops : list atomic_op := fetch_add K_slowClientDisconnects 1.
Definition OnReadPaused_ops : list atomic_op := fetch_add K_readPauseTransitions 1.
Definition OnReadResumed_ops : list atomic_op := fetch_add K_readResumeTransitions 1.
Definition OnSweeperRun_ops (removedKeys : Z) : list atomic_op :=
  fetch_add K_sweeperRuns 1 ++ fetch_add K_expiredKeysRemoved removedKeys.
Definition AddForcedShutdownConnections_ops (n : Z) : list atomic_op :=
  fetch_add K_forcedShutdownConnections n.
Definition ObservePendingWriteBytes_ops (n : Z) : list atomic_op :=
  UpdateMaximum K_maximumPendingWriteBytes n.

(** [while (bucketIndex < bounds.size() && latencyNs > bounds[bucketIndex]) ++bucketIndex;] *)
Fixpoint bucket_index (bounds : list Z) (latencyNs : Z) : nat :=
  match bounds with
  | [] => 0
  | b :: bounds => if b <? latencyNs then S (bucket_index bounds latencyNs) else 0
  end.

Definition RecordCommandLatency_ops (latency : Z) : list atomic_op :=
  let latencyNs := if 0 <? latency then latency else 0 in
  fetch_add K_commandLatencyCount 1 ++
  fetch_add K_commandLatencyTotalNanoseconds latencyNs ++
  UpdateMaximum K_commandLatencyMaximumNanoseconds latencyNs ++
  [FetchAddBucket (bucket_index LATENCY_UPPER_BOUNDS_NS latencyNs)].

(** ** The methods as one thread calls them *)

Definition OnConnectionAccepted : M ServerMetrics unit := alone OnConnectionAccepted_ops.
Definition OnConnectionClosed : M ServerMetrics unit := alone OnConnectionClosed_ops.
Definition AddBytesReceived (n : Z) : M ServerMetrics unit := alone (AddBytesReceived_ops n).
Definition AddBytesSent (n : Z) : M ServerMetrics unit := alone (AddBytesSent_ops n).
Definition AddFramesReceived (n : Z) : M ServerMetrics unit := alone (AddFramesReceived_ops n).
Definition OnCommandProcessed : M ServerMetrics unit := alone OnCommandProcessed_ops.
Definition OnCommandError : M ServerMetrics unit := alone OnCommandError_ops.
Definition OnProtocolError : M ServerMetrics unit := alone OnProtocolError_ops.
Definition OnSlowClientDisconnected : M ServerMetrics unit := alone OnSlowClientDisconnected_ops.
Definition OnReadPaused : M ServerMetrics unit := alone OnReadPaused_ops.
Definition OnReadResumed : M ServerMetrics unit := alone OnReadResumed_ops.
Definition OnSweeperRun (removedKeys : Z) : M ServerMetrics unit := alone (OnSweeperRun_ops removedKeys).
Definition AddForcedShutdownConnections (n : Z) : M ServerMetrics unit :=
  alone (AddForcedShutdownConnections_ops n).
Definition ObservePendingWriteBytes (n : Z) : M ServerMetrics unit :=
  alone (ObservePendingWriteBytes_ops n).
Definition RecordCommandLatency (latency : Z) : M ServerMetrics unit :=
  alone (RecordCommandLatency_ops latency).

(** [Snapshot] reads the counters one after the other; here with nobody in between. *)
Definition Snapshot : M ServerMetrics ServerMetricsSnapshot :=
  gets (fun s =>
    {| acceptedConnections := m_acceptedConnections s;
       closedConnections := m_closedConnections s;
       activeConnections := m_activeConnections s;
       bytesReceived := m_bytesReceived s;
       bytesSent := m_bytesSent s;
       framesReceived := m_framesReceived s;
       commandsProcessed := m_commandsProcessed s;
       commandErrors := m_commandErrors s;
       protocolErrors := m_protocolErrors s;
       slowClientDisconnects := m_slowClientDisconnects s;
       readPauseTransitions := m_readPauseTransitions s;
       readResumeTransitions := m_readResumeTransitions s;
       sweeperRuns := m_sweeperRuns s;
       expiredKeysRemoved := m_expiredKeysRemoved s;
       forcedShutdownConnections := m_forcedShutdownConnections s;
       maximumPendingWriteBytes := m_maximumPendingWriteBytes s;
       commandLatencyCount := m_commandLatencyCount s;
       commandLatencyTotalNanoseconds := m_commandLatencyTotalNanoseconds s;
       commandLatencyMaximumNanoseconds := m_commandLatencyMaximumNanoseconds s;
       commandLatencyBuckets := m_commandLatencyBuckets s |}).

(** ** Threads

    A thread is its variable [current] and the operations it has still to do.
    Relaxed operations on one atomic object still take a single total order,
    and no method reads one counter to decide about another, so a step is one
    access to one counter. [weak] says whether [compare_exchange_weak] may fail
    although it finds the value it expects. *)

Record metric_thread := mkThread {
  t_current : Z;
  t_ops : list atomic_op;
}.

Record metrics_state := mkMetricsState {
  ms_metrics : ServerMetrics;
  ms_threads : list metric_thread;
}.

Inductive thread_step (weak : bool) : ServerMetrics -> metric_thread -> ServerMetrics -> metric_thread -> Prop :=
  | ts_fetch_add s cur k n ops :
      thread_step weak s (mkThread cur (FetchAdd k n :: ops)) (store k (add_u64 n) s) (mkThread cur ops)
  | ts_fetch_sub s cur k n ops :
      thread_step weak s (mkThread cur (FetchSub k n :: ops)) (store k (sub_u64 n) s) (mkThread cur ops)
  | ts_bucket s cur i ops :
      thread_step weak s (mkThread cur (FetchAddBucket i :: ops)) (add_bucket i s) (mkThread cur ops)
  | ts_load s cur k ops :
      thread_step weak s (mkThread cur (LoadCurrent k :: ops)) s (mkThread (load k s) ops)
  | ts_store s cur k g ops :
      thread_step weak s (mkThread cur (StoreCurrent k g :: ops)) (store k (fun _ => g cur) s) (mkThread cur ops)
  | ts_leave s cur k c ops :
      c <= cur ->
      thread_step weak s (mkThread cur (ExchangeLoop k c :: ops)) s (mkThread cur ops)
  | ts_exchange s cur k c ops :
      cur < c -> load k s = cur ->
      thread_step weak s (mkThread cur (ExchangeLoop k c :: ops)) (store k (fun _ => c) s) (mkThread cur ops)
  | ts_exchange_fails s cur k c ops :
      cur < c -> weak = true \/ load k s <> cur ->
      thread_step weak s (mkThread cur (ExchangeLoop k c :: ops)) s (mkThread (load k s) (ExchangeLoop k c :: ops)).

Inductive metrics_step (weak : bool) : metrics_state -> metrics_state -> Prop :=
  | metrics_turn s ts i t s' t' :
      ts !! i = Some t -> thread_step weak s t s' t' ->
      metrics_step weak (mkMetricsState s ts) (mkMetricsState s' (<[i := t']> ts)).

Definition metrics_done (g : metrics_state) : Prop := Forall (fun t => t_ops t = []) (ms_threads g).
