(* ===== verification/MetricsTheorems.v ===== *)
(** * Counters under concurrency: what ServerMetrics promises *)

From S2P Require Import Prelude ServerMetrics.
#[local] Open Scope Z_scope.

(** ** Counters as fields *)

#[export] Instance counter_eq_dec : EqDecision counter.
Proof. solve_decision. Defined.

Lemma load_store k g s : load k (store k g s) = g (load k s).
Proof. by destruct k. Qed.

Lemma load_store_ne k k' g s : k <> k' -> load k (store k' g s) = load k s.
Proof. by destruct k, k'. Qed.

Lemma store_store k g h s : store k g (store k h s) = store k (g ∘ h) s.
Proof. by destruct k. Qed.

Lemma store_comm k k' g h s : k <> k' -> store k g (store k' h s) = store k' h (store k g s).
Proof. by destruct k, k'. Qed.

Lemma store_ext k g h s : g (load k s) = h (load k s) -> store k g s = store k h s.
Proof. destruct k; cbn; by intros ->. Qed.

Lemma store_id k s : store k id s = s.
Proof. by destruct k, s. Qed.

Lemma buckets_store k g s : m_commandLatencyBuckets (store k g s) = m_commandLatencyBuckets s.
Proof. by destruct k. Qed.

(** ** Methods as lists of atomic operations *)

(** The read-modify-write operations on the shared counters. *)
Inductive rmw :=
  | RmwAdd (k : counter) (n : Z)
  | RmwMax (k : counter) (n : Z)
  | RmwBucket (i : nat).

Definition run_rmw (s : ServerMetrics) (p : rmw) : ServerMetrics :=
  match p with
  | RmwAdd k n => store k (add_u64 n) s
  | RmwMax k n => store k (Z.max n) s
  | RmwBucket i => add_bucket i s
  end.

Definition run_rmws (ps : list rmw) (s : ServerMetrics) : ServerMetrics := foldl run_rmw s ps.

(** A maximum is only maximised, a count only added to. *)
Definition is_max (k : counter) : bool :=
  bool_decide (k = K_maximumPendingWriteBytes \/ k = K_commandLatencyMaximumNanoseconds).
Definition rmw_ok (p : rmw) : Prop :=
  match p with
  | RmwAdd k _ => is_max k = false
  | RmwMax k _ => is_max k = true
  | RmwBucket i => (i < 7)%nat
  end.

Inductive metric_call :=
  | CallConnectionAccepted
  | CallConnectionClosed
  | CallBytesReceived (n : Z)
  | CallBytesSent (n : Z)
  | CallFramesReceived (n : Z)
  | CallCommandProcessed
  | CallCommandError
  | CallProtocolError
  | CallSlowClientDisconnected
  | CallReadPaused
  | CallReadResumed
  | CallSweeperRun (removedKeys : Z)
  | CallForcedShutdownConnections (n : Z)
  | CallPendingWriteBytes (n : Z)
  | CallCommandLatency (latency : Z).

Definition exec_call (c : metric_call) : M ServerMetrics unit :=
  match c with
  | CallConnectionAccepted => OnConnectionAccepted
  | CallConnectionClosed => OnConnectionClosed
  | CallBytesReceived n => AddBytesReceived n
  | CallBytesSent n => AddBytesSent n
  | CallFramesReceived n => AddFramesReceived n
  | CallCommandProcessed => OnCommandProcessed
  | CallCommandError => OnCommandError
  | CallProtocolError => OnProtocolError
  | CallSlowClientDisconnected => OnSlowClientDisconnected
  | CallReadPaused => OnReadPaused
  | CallReadResumed => OnReadResumed
  | CallSweeperRun n => OnSweeperRun n
  | CallForcedShutdownConnections n => AddForcedShutdownConnections n
  | CallPendingWriteBytes n => ObservePendingWriteBytes n
  | CallCommandLatency l => RecordCommandLatency l
  end.

Fixpoint exec_calls (cs : list metric_call) : M ServerMetrics unit :=
  match cs with
  | [] => mret tt
  | c :: cs => exec_call c;; exec_calls cs
  end.

(** A latency is recorded as zero when the clock went backwards. *)
Definition latency_ns (latency : Z) : Z := Z.max 0 latency.

Definition call_rmws (c : metric_call) : list rmw :=
  match c with
  | CallConnectionAccepted => [RmwAdd K_acceptedConnections 1; RmwAdd K_activeConnections 1]
  | CallConnectionClosed => [RmwAdd K_closedConnections 1; RmwAdd K_activeConnections (-1)]
  | CallBytesReceived n => [RmwAdd K_bytesReceived n]
  | CallBytesSent n => [RmwAdd K_bytesSent n]
  | CallFramesReceived n => [RmwAdd K_framesReceived n]
  | CallCommandProcessed => [RmwAdd K_commandsProcessed 1]
  | CallCommandError => [RmwAdd K_commandErrors 1]
  | CallProtocolError => [RmwAdd K_protocolErrors 1]
  | CallSlowClientDisconnected => [RmwAdd K_slowClientDisconnects 1]
  | CallReadPaused => [RmwAdd K_readPauseTransitions 1]
  | CallReadResumed => [RmwAdd K_readResumeTransitions 1]
  | CallSweeperRun n => [RmwAdd K_sweeperRuns 1; RmwAdd K_expiredKeysRemoved n]
  | CallForcedShutdownConnections n => [RmwAdd K_forcedShutdownConnections n]
  | CallPendingWriteBytes n => [RmwMax K_maximumPendingWriteBytes n]
  | CallCommandLatency l =>
      [RmwAdd K_commandLatencyCount 1; RmwAdd K_commandLatencyTotalNanoseconds (latency_ns l);
       RmwMax K_commandLatencyMaximumNanoseconds (latency_ns l);
       RmwBucket (bucket_index LATENCY_UPPER_BOUNDS_NS (latency_ns l))]
  end.

Definition calls_rmws (cs : list metric_call) : list rmw := concat (call_rmws <$> cs).

(** Sequences of operations run one after the other; [current] is local to each. *)
Lemma run_ops_cons cur a ops s cur' s1 :
  run_op a cur s = (Ret cur', s1) -> run_ops_from cur (a :: ops) s = run_ops_from cur' ops s1.
Proof. intros Ha. cbn [run_ops_from]. unfold mbind, M_bind. by rewrite Ha. Qed.

Lemma exchange_loop_alone k c s :
  exists cur, exchange_loop 2 k c (load k s) s = (Ret cur, run_rmw s (RmwMax k c)).
Proof.
  cbn [exchange_loop]. destruct (Z.leb_spec c (load k s)) as [Hle|Hgt].
  - eexists. cbv [mret M_ret]. do 2 f_equal. rewrite <-(store_id k s) at 1. apply store_ext. cbn. lia.
  - unfold compare_exchange. cbv [mbind M_bind gets modify]. rewrite Z.eqb_refl. cbn.
    eexists. f_equal. apply store_ext. lia.
Qed.

Lemma update_maximum_ops cur k c ops s :
  exists cur', run_ops_from cur (UpdateMaximum k c ++ ops) s =
               run_ops_from cur' ops (run_rmw s (RmwMax k c)).
Proof.
  destruct (exchange_loop_alone k c s) as [cur' Hx]. exists cur'. unfold UpdateMaximum. cbn [app].
  erewrite run_ops_cons by done. by apply run_ops_cons.
Qed.

Lemma update_maximum_rmw k c s : alone (UpdateMaximum k c) s = (Ret tt, run_rmw s (RmwMax k c)).
Proof.
  unfold alone. destruct (update_maximum_ops 0 k c [] s) as [cur' H].
  rewrite app_nil_r in H. by rewrite H.
Qed.

Lemma latency_ns_if l : (if 0 <? l then l else 0) = latency_ns l.
Proof. unfold latency_ns. destruct (Z.ltb_spec 0 l); lia. Qed.

Lemma exec_call_rmws c s : exec_call c s = (Ret tt, run_rmws (call_rmws c) s).
Proof.
  destruct c; try done; cbn [exec_call].
  - unfold ObservePendingWriteBytes, ObservePendingWriteBytes_ops. by rewrite update_maximum_rmw.
  - unfold RecordCommandLatency, RecordCommandLatency_ops, alone. rewrite latency_ns_if.
    unfold fetch_add. cbn [app]. do 2 (erewrite run_ops_cons by done).
    edestruct update_maximum_ops as [cur' ->]. done.
Qed.

Lemma exec_calls_rmws cs s : exec_calls cs s = (Ret tt, run_rmws (calls_rmws cs) s).
Proof.
  revert s. induction cs as [|c cs IH]; intros s; [done|]. cbn [exec_calls].
  cbv [mbind M_bind]. rewrite exec_call_rmws, IH. unfold run_rmws, calls_rmws. cbn.
  by rewrite foldl_app.
Qed.

Lemma bucket_index_bound bounds l : (bucket_index bounds l <= length bounds)%nat.
Proof. induction bounds as [|b bounds IH]; cbn; [done|]. destruct (b <? l); lia. Qed.

Lemma calls_rmws_ok cs : Forall rmw_ok (calls_rmws cs).
Proof.
  unfold calls_rmws. induction cs as [|c cs IH]; cbn; [constructor|]. apply Forall_app.
  split; [|done]. destruct c; cbn [call_rmws]; repeat (apply Forall_cons; split); try done; try apply Forall_nil_2.
  pose proof (bucket_index_bound LATENCY_UPPER_BOUNDS_NS (latency_ns latency)) as H.
  change (length LATENCY_UPPER_BOUNDS_NS) with 6%nat in H. cbn [rmw_ok]. lia.
Qed.

(** ** Atomic operations commute *)

Lemma wrap_add_l x n : wrap_u64 (wrap_u64 x + n) = wrap_u64 (x + n).
Proof. unfold wrap_u64. apply Zplus_mod_idemp_l. Qed.

Lemma rmw_comm p q s :
  rmw_ok p -> rmw_ok q -> run_rmw (run_rmw s p) q = run_rmw (run_rmw s q) p.
Proof.
  destruct p as [k n|k n|i], q as [k' n'|k' n'|i']; cbn [rmw_ok run_rmw]; intros Hp Hq.
  - destruct (decide (k = k')) as [<-|Hne]; [|by apply store_comm].
    rewrite !store_store. apply store_ext. cbn. unfold add_u64. rewrite !wrap_add_l. f_equal. lia.
  - apply store_comm. congruence.
  - by destruct k.
  - apply store_comm. congruence.
  - destruct (decide (k = k')) as [<-|Hne]; [|by apply store_comm].
    rewrite !store_store. apply store_ext. cbn. lia.
  - by destruct k.
  - by destruct k'.
  - by destruct k'.
  - destruct (decide (i = i')) as [<-|Hne]; [done|]. unfold add_bucket. cbn. f_equal.
    apply list_eq. intros j. rewrite !list_lookup_alter. by repeat case_decide; simplify_eq.
Qed.

Lemma run_rmws_perm ps qs s :
  Forall rmw_ok ps -> ps ≡ₚ qs -> run_rmws ps s = run_rmws qs s.
Proof.
  intros Hok Hp. revert s Hok. induction Hp as [|p ps qs _ IH|p q ps|ps qs rs Hp1 IH1 _ IH2];
    intros s Hok; unfold run_rmws in *.
  - done.
  - cbn. inversion Hok. by apply IH.
  - cbn. inversion Hok as [|? ? Hq Hok']. inversion Hok'. by rewrite rmw_comm.
  - rewrite IH1 by done. apply IH2. by rewrite <-Hp1.
Qed.

(** ** Totals *)

Definition added (k : counter) (p : rmw) : Z :=
  match p with RmwAdd k' n => if bool_decide (k = k') then n else 0 | _ => 0 end.
Definition total (k : counter) (ps : list rmw) : Z := foldr (fun p n => added k p + n) 0 ps.

Definition observed (k : counter) (p : rmw) : Z :=
  match p with RmwMax k' n => if bool_decide (k = k') then n else 0 | _ => 0 end.
Definition biggest (k : counter) (ps : list rmw) : Z := foldr (fun p n => Z.max (observed k p) n) 0 ps.

Lemma biggest_nonneg k ps : 0 <= biggest k ps.
Proof. unfold biggest. induction ps as [|p ps IH]; cbn [foldr]; lia. Qed.

Lemma biggest_app k ps qs : biggest k (ps ++ qs) = Z.max (biggest k ps) (biggest k qs).
Proof.
  pose proof (biggest_nonneg k qs) as Hq. unfold biggest in *.
  induction ps as [|p ps IH]; cbn [app foldr]; lia.
Qed.

Definition hits (i : nat) (ps : list rmw) : Z :=
  foldr (fun p n => (match p with RmwBucket j => if bool_decide (i = j) then 1 else 0 | _ => 0 end) + n) 0 ps.

Lemma total_app k ps qs : total k (ps ++ qs) = total k ps + total k qs.
Proof. unfold total. induction ps as [|p ps IH]; cbn; [done|]. rewrite IH. lia. Qed.

Lemma run_rmws_total k ps s :
  is_max k = false -> Forall rmw_ok ps -> 0 <= load k s < U64_MOD ->
  load k (run_rmws ps s) = wrap_u64 (load k s + total k ps).
Proof.
  intros Hk Hok. unfold run_rmws. revert s.
  induction Hok as [|p ps Hp _ IH]; intros s Hs; cbn [foldl].
  - unfold total. cbn. rewrite Z.add_0_r. by rewrite wrap_u64_small.
  - assert (load k (run_rmw s p) = wrap_u64 (load k s + added k p)) as Hone.
    { destruct p as [k' n|k' n|i]; cbn [run_rmw added].
      - case_bool_decide as Hkk; [subst; by rewrite load_store|].
        rewrite load_store_ne, Z.add_0_r by done. by rewrite wrap_u64_small.
      - rewrite load_store_ne, Z.add_0_r by (cbn in Hp; congruence). by rewrite wrap_u64_small.
      - rewrite Z.add_0_r, wrap_u64_small by done. by destruct k. }
    rewrite IH; rewrite Hone.
    + rewrite wrap_add_l. unfold total. cbn. f_equal. fold (total k ps). lia.
    + apply Z.mod_pos_bound. done.
Qed.

Lemma run_rmws_biggest k ps s :
  is_max k = true -> Forall rmw_ok ps -> 0 <= load k s ->
  load k (run_rmws ps s) = Z.max (load k s) (biggest k ps).
Proof.
  intros Hk Hok. unfold run_rmws. revert s.
  induction Hok as [|p ps Hp _ IH]; intros s Hs; cbn [foldl].
  - unfold biggest. cbn. lia.
  - assert (load k (run_rmw s p) = Z.max (load k s) (observed k p)) as Hone.
    { destruct p as [k' n|k' n|i]; cbn [run_rmw observed].
      - rewrite load_store_ne by (cbn in Hp; congruence). lia.
      - case_bool_decide as Hkk; [subst; rewrite load_store; lia|].
        rewrite load_store_ne by done. lia.
      - rewrite Z.max_l by lia. by destruct k. }
    rewrite IH; rewrite Hone; [unfold biggest; cbn; fold (biggest k ps)|]; lia.
Qed.

Lemma run_rmws_hits i ps s n :
  m_commandLatencyBuckets s !! i = Some n -> 0 <= n < U64_MOD ->
  m_commandLatencyBuckets (run_rmws ps s) !! i = Some (wrap_u64 (n + hits i ps)).
Proof.
  unfold run_rmws. revert s n. induction ps as [|p ps IH]; intros s n Hi Hn; cbn [foldl].
  - unfold hits. cbn. by rewrite Z.add_0_r, wrap_u64_small.
  - unfold hits. cbn [foldr]. fold (hits i ps). destruct p as [k m|k m|j]; cbn [run_rmw].
    1, 2: rewrite (IH _ n) by (by rewrite ?buckets_store); do 2 f_equal; lia.
    case_bool_decide as Hij.
    + subst j. rewrite (IH _ (wrap_u64 (n + 1))).
      * rewrite wrap_add_l. do 2 f_equal. lia.
      * cbn. by rewrite list_lookup_alter_eq, Hi.
      * by apply Z.mod_pos_bound.
    + rewrite (IH _ n); [do 2 f_equal; lia| |done]. cbn. by rewrite list_lookup_alter_ne.
Qed.

(** ** Latency classes *)

Definition call_latency (c : metric_call) : option Z :=
  match c with CallCommandLatency l => Some (latency_ns l) | _ => None end.
Definition latencies (cs : list metric_call) : list Z := omap call_latency cs.

(** Class [i] is above the bound before it and at most its own bound. *)
Definition in_class (i : nat) (l : Z) : bool :=
  match i with O => true | S j => match LATENCY_UPPER_BOUNDS_NS !! j with Some b => b <? l | None => false end end
  && match LATENCY_UPPER_BOUNDS_NS !! i with Some b => l <=? b | None => true end.

Lemma bucket_index_class i l : bool_decide (i = bucket_index LATENCY_UPPER_BOUNDS_NS l) = in_class i l.
Proof.
  unfold in_class. pose proof (bucket_index_bound LATENCY_UPPER_BOUNDS_NS l) as Hb.
  change (length LATENCY_UPPER_BOUNDS_NS) with 6%nat in Hb.
  destruct (decide (i < 7)%nat) as [Hi|Hi].
  - unfold LATENCY_UPPER_BOUNDS_NS.
    do 7 (destruct i as [|i]; [cbn; rewrite ?(Z.leb_antisym _ l);
      repeat match goal with |- context [?a <? l] => destruct (Z.ltb_spec a l) end;
      first [done|exfalso; lia]|]). lia.
  - rewrite bool_decide_eq_false_2 by lia. destruct i as [|j]; [lia|].
    by rewrite (lookup_ge_None_2 LATENCY_UPPER_BOUNDS_NS j) by (cbn; lia).
Qed.

Lemma biggest_call c :
  biggest K_commandLatencyMaximumNanoseconds (call_rmws c) =
  match call_latency c with Some l => l | None => 0 end.
Proof.
  destruct c; try done. cbn [call_latency]. unfold biggest. cbn [call_rmws foldr observed].
  rewrite bool_decide_eq_true_2 by done. unfold latency_ns. lia.
Qed.

Lemma active_call c :
  total K_activeConnections (call_rmws c) =
  total K_acceptedConnections (call_rmws c) - total K_closedConnections (call_rmws c).
Proof. by destruct c. Qed.

Lemma count_call c :
  total K_commandLatencyCount (call_rmws c) =
  match call_latency c with Some _ => 1 | None => 0 end.
Proof. by destruct c. Qed.

Lemma hits_calls i cs :
  hits i (calls_rmws cs) = zlen (filter (fun l => in_class i l = true) (latencies cs)).
Proof.
  assert (forall ps qs, hits i (ps ++ qs) = hits i ps + hits i qs) as Happ.
  { intros ps qs. unfold hits. induction ps as [|p ps IH]; cbn; [done|]. rewrite IH. lia. }
  unfold calls_rmws, latencies. induction cs as [|c cs IH]; [done|].
  cbn [fmap list_fmap concat]. rewrite Happ, IH.
  destruct c; try done. cbn [call_rmws call_latency omap list_omap].
  rewrite filter_cons. unfold hits at 1. cbn [foldr].
  rewrite bucket_index_class. destruct (in_class i (latency_ns latency)); case_decide; try done.
  by rewrite zlen_cons.
Qed.

(** ** The loop of UpdateMaximum under contention

    Every thread runs [UpdateMaximum(target, candidate)] on the same atomic.
    [compare_exchange_weak] may fail although the value is the expected one;
    a failure loads the value it saw. *)

Inductive um_pc :=
  | UmLoad
  | UmTest (current : Z)
  | UmExchange (current : Z)
  | UmDone.

#[export] Instance um_pc_eq_dec : EqDecision um_pc.
Proof. solve_decision. Defined.

Record um_state := mkUm {
  um_target : Z;
  um_threads : list (Z * um_pc);
}.

Inductive um_step : um_state -> um_state -> Prop :=
  | um_load v ts i c :
      ts !! i = Some (c, UmLoad) ->
      um_step (mkUm v ts) (mkUm v (<[i := (c, UmTest v)]> ts))
  | um_leave v ts i c cur :
      ts !! i = Some (c, UmTest cur) -> c <= cur ->
      um_step (mkUm v ts) (mkUm v (<[i := (c, UmDone)]> ts))
  | um_try v ts i c cur :
      ts !! i = Some (c, UmTest cur) -> cur < c ->
      um_step (mkUm v ts) (mkUm v (<[i := (c, UmExchange cur)]> ts))
  | um_success v ts i c :
      ts !! i = Some (c, UmExchange v) ->
      um_step (mkUm v ts) (mkUm c (<[i := (c, UmDone)]> ts))
  | um_fail v ts i c cur :
      ts !! i = Some (c, UmExchange cur) ->
      um_step (mkUm v ts) (mkUm v (<[i := (c, UmTest v)]> ts)).

Definition um_start (v : Z) (cs : list Z) : um_state := mkUm v ((fun c => (c, UmLoad)) <$> cs).

(** What a thread knows about the target, which only grows. *)
Definition um_thread_ok (v : Z) (t : Z * um_pc) : Prop :=
  match t.2 with
  | UmLoad => True
  | UmTest cur => cur <= v
  | UmExchange cur => cur <= v /\ cur < t.1
  | UmDone => t.1 <= v
  end.

Definition um_inv (v0 : Z) (cs : list Z) (s : um_state) : Prop :=
  (um_threads s).*1 = cs /\ v0 <= um_target s /\ (um_target s = v0 \/ um_target s ∈ cs) /\
  Forall (um_thread_ok (um_target s)) (um_threads s).

Lemma um_thread_ok_mono v v' t : v <= v' -> um_thread_ok v t -> um_thread_ok v' t.
Proof. destruct t as [c [|cur|cur|]]; unfold um_thread_ok; cbn; lia. Qed.

Lemma fst_insert (ts : list (Z * um_pc)) i c pc pc' :
  ts !! i = Some (c, pc) -> (<[i := (c, pc')]> ts).*1 = ts.*1.
Proof. intros Hi. rewrite list_fmap_insert. apply list_insert_id. by rewrite list_lookup_fmap, Hi. Qed.

Lemma um_step_inv v0 cs s s' : um_inv v0 cs s -> um_step s s' ->
  um_inv v0 cs s' /\ um_target s <= um_target s'.
Proof.
  intros (Hcs & Hv0 & Hv & Hts) Hstep. unfold um_inv.
  destruct Hstep as [v ts i c Hi|v ts i c cur Hi Hle|v ts i c cur Hi Hlt|v ts i c Hi|v ts i c cur Hi];
    cbn [um_target um_threads] in *; rewrite (fst_insert _ _ _ _ _ Hi);
    pose proof (Forall_lookup_1 _ _ _ _ Hts Hi) as Hok; unfold um_thread_ok in Hok; cbn in Hok.
  4: { split_and!; try done; try lia.
       - right. rewrite <-Hcs. apply list_elem_of_fmap. exists (c, UmExchange v).
         split; [done|]. by eapply list_elem_of_lookup_2.
       - apply Forall_insert; [|unfold um_thread_ok; cbn; lia].
         eapply Forall_impl; [exact Hts|]. intros t. apply um_thread_ok_mono. lia. }
  all: split_and!; try done; apply Forall_insert; [done|unfold um_thread_ok; cbn; lia].
Qed.

Lemma um_reachable_inv v0 cs s : rtc um_step (um_start v0 cs) s -> um_inv v0 cs s.
Proof.
  intros Hr. remember (um_start v0 cs) as s0 eqn:Hs0.
  assert (um_inv v0 cs s0) as H0.
  { subst. unfold um_inv, um_start. cbn. split_and!; [|lia|by left|].
    - rewrite <-list_fmap_compose. apply list_fmap_id.
    - apply Forall_fmap, Forall_forall. done. }
  clear Hs0. induction Hr as [s|s s1 s2 Hs _ IH]; [done|].
  apply IH. by eapply um_step_inv.
Qed.

(** *** Termination when exchanges do not fail spuriously *)

Inductive um_strong_step : um_state -> um_state -> Prop :=
  | um_strong s s' :
      um_step s s' ->
      (forall i c, um_threads s !! i = Some (c, UmExchange (um_target s)) ->
         um_threads s' !! i <> Some (c, UmTest (um_target s))) ->
      um_strong_step s s'.

(** Steps a thread can still make while nobody changes the target, once more
    when what it read is out of date. *)
Definition um_rank (v : Z) (t : Z * um_pc) : nat :=
  match t.2 with
  | UmLoad => 3
  | UmTest cur => if bool_decide (cur = v) then 2 else 5
  | UmExchange cur => if bool_decide (cur = v) then 1 else 4
  | UmDone => 0
  end.
Definition um_pending (t : Z * um_pc) : nat := match t.2 with UmDone => 0 | _ => 1 end.

Definition um_measure (s : um_state) : nat :=
  sum_list_with (um_rank (um_target s)) (um_threads s) +
  (5 * length (um_threads s) + 1) * sum_list_with um_pending (um_threads s).

Lemma sum_list_insert {A} (f : A -> nat) (l : list A) i x y :
  l !! i = Some x -> (sum_list_with f (<[i := y]> l) + f x = sum_list_with f l + f y)%nat.
Proof.
  intros Hi. rewrite <-(take_drop_middle l i x Hi) at 2. pose proof (lookup_lt_Some _ _ _ Hi).
  rewrite insert_take_drop by done. rewrite !sum_list_with_app. cbn. lia.
Qed.

Lemma sum_rank_bound v ts : (sum_list_with (um_rank v) ts <= 5 * length ts)%nat.
Proof.
  induction ts as [|[c [|cur|cur|]] ts IH]; cbn [sum_list_with length]; try lia;
    unfold um_rank at 1; cbn; try case_bool_decide; lia.
Qed.

Lemma um_strong_decreases s s' : um_strong_step s s' -> (um_measure s' < um_measure s)%nat.
Proof.
  intros [? ? Hstep Hstrong]. unfold um_measure.
  destruct Hstep as [v ts i c Hi|v ts i c cur Hi Hle|v ts i c cur Hi Hlt|v ts i c Hi|v ts i c cur Hi];
    cbn [um_target um_threads] in *; rewrite length_insert;
    match goal with |- context [<[i := ?y]> ts] =>
      pose proof (sum_list_insert (um_rank v) ts i _ y Hi) as Hr;
      pose proof (sum_list_insert um_pending ts i _ y Hi) as Hp end;
    pose proof (sum_rank_bound c (<[i := (c, UmDone)]> ts)) as Hb; rewrite length_insert in Hb;
    repeat match goal with H : context [sum_list_with ?f ?l] |- _ =>
      let x := fresh "x" in set (x := sum_list_with f l) in *; clearbody x end;
    unfold um_rank, um_pending in Hr, Hp; cbn [snd] in Hr, Hp.
  - rewrite bool_decide_eq_true_2 in Hr by done. nia.
  - destruct (bool_decide (cur = v)); nia.
  - destruct (bool_decide (cur = v)); nia.
  - nia.
  - assert (cur <> v) as Hne.
    { intros ->. apply (Hstrong i c Hi). apply list_lookup_insert_eq. by eapply lookup_lt_Some. }
    rewrite bool_decide_eq_false_2, bool_decide_eq_true_2 in Hr by done. nia.
Qed.

(** A thread that is not done can always move. *)
Lemma um_progress s :
  Exists (fun t => t.2 <> UmDone) (um_threads s) -> exists s', um_strong_step s s'.
Proof.
  destruct s as [v ts]. cbn. intros ([c pc] & Hin & Hpc)%Exists_exists.
  apply list_elem_of_lookup in Hin as [i Hi]. cbn in Hpc.
  assert (forall y, ts !! i = Some (c, pc) -> (forall cur, pc = UmExchange cur -> y.2 <> UmTest v) ->
    forall j c', ts !! j = Some (c', UmExchange v) -> <[i := y]> ts !! j <> Some (c', UmTest v)) as Hns.
  { intros y _ Hy j c' Hj. destruct (decide (i = j)) as [<-|Hne].
    - rewrite list_lookup_insert_eq by (by eapply lookup_lt_Some). intros [= ->].
      rewrite Hi in Hj. injection Hj as -> ->. by apply (Hy v).
    - rewrite list_lookup_insert_ne by done. congruence. }
  destruct pc as [|cur|cur|]; [| | |done].
  - eexists. split; [by apply um_load|]. cbn. by apply Hns.
  - destruct (Z.le_gt_cases c cur); eexists;
      (split; [first [eapply um_leave; [exact Hi|lia]|eapply um_try; [exact Hi|lia]]|]);
      cbn; by apply Hns.
  - destruct (decide (cur = v)) as [->|Hne].
    + eexists. split; [by apply um_success|]. cbn. by apply Hns.
    + eexists. split; [by eapply um_fail|]. cbn. intros j c' Hj.
      destruct (decide (i = j)) as [<-|Hij]; [congruence|].
      rewrite list_lookup_insert_ne by done. congruence.
Qed.

Lemma max_list_spec v0 cs v :
  v0 <= v -> (v = v0 \/ v ∈ cs) -> Forall (fun c => c <= v) cs -> v = foldr Z.max v0 cs.
Proof.
  intros Hv0 Hv Hcs. apply Z.le_antisymm.
  - destruct Hv as [->|Hin]; clear Hcs.
    + clear. induction cs as [|c cs IH]; cbn; lia.
    + induction Hin; cbn; lia.
  - clear Hv. induction Hcs; cbn; lia.
Qed.

(** ** Theorems *)

(** C15. The account after any calls: every counter is the sum modulo 2^64 of
    what was reported, [active] is [accepted - closed], the maxima are the
    largest values reported, the [i]-th latency bucket counts exactly the
    latencies of its class, and the buckets add up to the latency count. *)
Theorem metrics_account cs :
  exists s, exec_calls cs ServerMetrics_init = (Ret tt, s) /\
    (forall k, is_max k = false -> load k s = wrap_u64 (total k (calls_rmws cs))) /\
    m_activeConnections s = wrap_u64 (m_acceptedConnections s - m_closedConnections s) /\
    (forall k, is_max k = true -> load k s = biggest k (calls_rmws cs)) /\
    m_commandLatencyMaximumNanoseconds s = foldr Z.max 0 (latencies cs) /\
    m_commandLatencyCount s = wrap_u64 (zlen (latencies cs)) /\
    (forall i, (i < 7)%nat -> m_commandLatencyBuckets s !! i =
       Some (wrap_u64 (zlen (filter (fun l => in_class i l = true) (latencies cs))))).
Proof.
  eexists. split; [apply exec_calls_rmws|].
  assert (forall k, is_max k = false -> load k (run_rmws (calls_rmws cs) ServerMetrics_init)
    = wrap_u64 (total k (calls_rmws cs))) as Htot.
  { intros k Hk. rewrite run_rmws_total; [|done|apply calls_rmws_ok|by destruct k].
    f_equal. by destruct k. }
  assert (forall k, is_max k = true -> load k (run_rmws (calls_rmws cs) ServerMetrics_init)
    = biggest k (calls_rmws cs)) as Hbig.
  { intros k Hk. rewrite run_rmws_biggest; [|done|apply calls_rmws_ok|by destruct k].
    replace (load k ServerMetrics_init) with 0 by (by destruct k).
    pose proof (biggest_nonneg k (calls_rmws cs)). lia. }
  split_and!; [done| |done| | |].
  - pose proof (Htot K_activeConnections eq_refl) as Ha.
    pose proof (Htot K_acceptedConnections eq_refl) as Hacc.
    pose proof (Htot K_closedConnections eq_refl) as Hcl. cbn in Ha, Hacc, Hcl.
    rewrite Ha, Hacc, Hcl. unfold wrap_u64. rewrite <-Zminus_mod. f_equal. clear.
    unfold calls_rmws. induction cs as [|c cs IH]; [done|]. cbn [fmap list_fmap concat].
    rewrite !total_app, IH, active_call. lia.
  - transitivity (biggest K_commandLatencyMaximumNanoseconds (calls_rmws cs));
      [exact (Hbig K_commandLatencyMaximumNanoseconds eq_refl)|].
    unfold calls_rmws, latencies. clear. induction cs as [|c cs IH]; [done|].
    cbn [fmap list_fmap concat omap list_omap]. rewrite biggest_app, IH.
    pose proof (biggest_nonneg K_commandLatencyMaximumNanoseconds (concat (call_rmws <$> cs))) as Hnn.
    rewrite IH in Hnn. rewrite biggest_call. destruct (call_latency c); [done|]. by apply Z.max_r.
  - pose proof (Htot K_commandLatencyCount eq_refl) as Hc. cbn in Hc. rewrite Hc. f_equal. clear.
    unfold calls_rmws, latencies. induction cs as [|c cs IH]; [done|].
    cbn [fmap list_fmap concat omap list_omap]. rewrite total_app, IH, count_call.
    destruct (call_latency c); [by rewrite zlen_cons|done].
  - intros i Hi. rewrite (run_rmws_hits i _ _ 0); [|by apply lookup_replicate|done].
    by rewrite hits_calls.
Qed.

(** C16. [UpdateMaximum] is right under contention: with any number of threads
    racing on one target, the target only grows, never exceeds the candidates,
    is at least the candidate of every thread that returned, and is the maximum
    once all have; when exchanges do not fail without a reason, every schedule
    is finite and ends only when all threads have returned. *)
Theorem update_maximum_concurrent v0 cs :
  (forall s, rtc um_step (um_start v0 cs) s ->
     v0 <= um_target s /\
     (forall s', um_step s s' -> um_target s <= um_target s') /\
     (forall i c, um_threads s !! i = Some (c, UmDone) -> c <= um_target s) /\
     (Forall (fun t => t.2 = UmDone) (um_threads s) -> um_target s = foldr Z.max v0 cs)) /\
  well_founded (fun s' s => um_strong_step s s') /\
  (forall s, (forall s', ~ um_strong_step s s') -> Forall (fun t => t.2 = UmDone) (um_threads s)).
Proof.
  split_and!.
  - intros s Hr%um_reachable_inv. pose proof Hr as (Hcs & Hv0 & Hv & Hts).
    assert (forall t, t ∈ um_threads s -> t.2 = UmDone -> t.1 <= um_target s) as Hdone.
    { intros [c pc] Hin Hpc. cbn in Hpc. subst pc.
      by apply (proj1 (Forall_forall _ _) Hts (c, UmDone)). }
    split_and!; [done| | |].
    + intros s' Hs. by eapply um_step_inv.
    + intros i c Hi. apply (Hdone (c, UmDone)); [|done]. by eapply list_elem_of_lookup_2.
    + intros Hall. apply max_list_spec; [done..|]. rewrite <-Hcs. apply Forall_fmap, Forall_forall.
      intros t Hin. apply Hdone; [done|]. by apply (proj1 (Forall_forall _ _) Hall).
  - apply (well_founded_lt_compat _ um_measure). intros s' s. apply um_strong_decreases.
  - intros s Hstuck. apply Forall_forall. intros t Hin. destruct (decide (t.2 = UmDone)); [done|].
    destruct (um_progress s) as [s' Hs']; [|by destruct (Hstuck s')].
    apply Exists_exists. eauto.
Qed.
