(* ===== verification/MetricsConcurrency.v ===== *)
(** * MetricsConcurrency: the counters under any schedule of their accesses

    Every thread makes its metric calls one after the other, every access to a
    counter is a step, and between two accesses of a thread the others make
    theirs. The theorem is proved with an account of the effects the threads
    have had so far; it rests on every read-modify-write being one access and
    on the exchange of [UpdateMaximum] comparing before it stores. *)

From S2P Require Import Prelude ServerMetrics MetricsTheorems.
#[local] Open Scope Z_scope.

(** ** The threads of some calls *)

Definition call_ops (c : metric_call) : list atomic_op :=
  match c with
  | CallConnectionAccepted => OnConnectionAccepted_ops
  | CallConnectionClosed => OnConnectionClosed_ops
  | CallBytesReceived n => AddBytesReceived_ops n
  | CallBytesSent n => AddBytesSent_ops n
  | CallFramesReceived n => AddFramesReceived_ops n
  | CallCommandProcessed => OnCommandProcessed_ops
  | CallCommandError => OnCommandError_ops
  | CallProtocolError => OnProtocolError_ops
  | CallSlowClientDisconnected => OnSlowClientDisconnected_ops
  | CallReadPaused => OnReadPaused_ops
  | CallReadResumed => OnReadResumed_ops
  | CallSweeperRun n => OnSweeperRun_ops n
  | CallForcedShutdownConnections n => AddForcedShutdownConnections_ops n
  | CallPendingWriteBytes n => ObservePendingWriteBytes_ops n
  | CallCommandLatency l => RecordCommandLatency_ops l
  end.

Definition thread_of (cs : list metric_call) : metric_thread :=
  mkThread 0 (concat (call_ops <$> cs)).
Definition metrics_start (css : list (list metric_call)) (s : ServerMetrics) : metrics_state :=
  mkMetricsState s (thread_of <$> css).

(** ** The effect of a thread's operations *)

Definition effect (a : atomic_op) : option rmw :=
  match a with
  | FetchAdd k n => Some (RmwAdd k n)
  | FetchSub k n => Some (RmwAdd k (- n))
  | FetchAddBucket i => Some (RmwBucket i)
  | ExchangeLoop k c => Some (RmwMax k c)
  | LoadCurrent _ | StoreCurrent _ _ => None
  end.
Definition effects (ops : list atomic_op) : list rmw := omap effect ops.

(** Only a maximum is exchanged, directly after it was loaded, and nothing is
    stored without a comparison. *)
Inductive ops_ok : list atomic_op -> Prop :=
  | ok_nil : ops_ok []
  | ok_add k n ops : is_max k = false -> ops_ok ops -> ops_ok (FetchAdd k n :: ops)
  | ok_sub k n ops : is_max k = false -> ops_ok ops -> ops_ok (FetchSub k n :: ops)
  | ok_bucket i ops : (i < 7)%nat -> ops_ok ops -> ops_ok (FetchAddBucket i :: ops)
  | ok_max k c ops : is_max k = true -> ops_ok ops -> ops_ok (LoadCurrent k :: ExchangeLoop k c :: ops).
#[local] Hint Constructors ops_ok : core.

(** A thread in the loop has read a value the maximum does not fall below. *)
Definition thread_ok (s : ServerMetrics) (t : metric_thread) : Prop :=
  match t_ops t with
  | ExchangeLoop k _ :: ops => is_max k = true /\ t_current t <= load k s /\ ops_ok ops
  | ops => ops_ok ops
  end.

Lemma ops_ok_thread s cur ops : ops_ok ops -> thread_ok s (mkThread cur ops).
Proof. unfold thread_ok. by destruct 1; cbn; auto. Qed.
#[local] Hint Resolve ops_ok_thread : core.

Lemma ops_ok_app ops ops' : ops_ok ops -> ops_ok ops' -> ops_ok (ops ++ ops').
Proof. induction 1; cbn; auto. Qed.

Lemma call_ops_ok c : ops_ok (call_ops c).
Proof.
  destruct c; try (repeat constructor; fail). cbn [call_ops]. unfold RecordCommandLatency_ops.
  pose proof (bucket_index_bound LATENCY_UPPER_BOUNDS_NS (if 0 <? latency then latency else 0)) as H.
  change (length LATENCY_UPPER_BOUNDS_NS) with 6%nat in H. apply ok_add; [done|]. apply ok_add; [done|].
  apply ok_max; [done|]. apply ok_bucket; [lia|constructor].
Qed.

Lemma calls_ops_ok cs : ops_ok (concat (call_ops <$> cs)).
Proof.
  induction cs as [|c cs IH]; [constructor|]. apply ops_ok_app; [apply call_ops_ok|done].
Qed.

Lemma effects_call c : effects (call_ops c) = call_rmws c.
Proof.
  destruct c; try done. cbn [call_ops]. unfold RecordCommandLatency_ops. by rewrite latency_ns_if.
Qed.

Lemma effects_calls cs : effects (concat (call_ops <$> cs)) = calls_rmws cs.
Proof.
  unfold calls_rmws. induction cs as [|c cs IH]; [done|]. cbn. unfold effects in *.
  rewrite omap_app, IH. f_equal. apply effects_call.
Qed.

(** ** One step *)

Lemma load_rmw_mono k p s :
  is_max k = true -> rmw_ok p -> load k s <= load k (run_rmw s p).
Proof.
  intros Hk. destruct p as [k' n|k' n|i]; cbn [rmw_ok run_rmw]; intros Hp.
  - rewrite load_store_ne by congruence. done.
  - destruct (decide (k = k')) as [<-|Hne]; [rewrite load_store; lia|by rewrite load_store_ne].
  - by destruct k.
Qed.

Lemma thread_ok_mono s p t : rmw_ok p -> thread_ok s t -> thread_ok (run_rmw s p) t.
Proof.
  unfold thread_ok. intros Hp. destruct (t_ops t) as [|[] ops]; try done.
  intros (Hk & Hcur & Hops). split_and!; try done. pose proof (load_rmw_mono k p s Hk Hp). lia.
Qed.

(** A step has no effect, or the one that is next in the thread. *)
Inductive stepped (s : ServerMetrics) (t : metric_thread) : ServerMetrics -> metric_thread -> Prop :=
  | stepped_silent t' :
      effects (t_ops t) = effects (t_ops t') -> thread_ok s t' -> stepped s t s t'
  | stepped_effect p t' :
      effects (t_ops t) = p :: effects (t_ops t') -> rmw_ok p -> thread_ok (run_rmw s p) t' ->
      stepped s t (run_rmw s p) t'.

Lemma thread_step_stepped weak s t s' t' :
  thread_ok s t -> thread_step weak s t s' t' -> stepped s t s' t'.
Proof.
  intros Hok Hstep.
  destruct Hstep as [s cur k n ops|s cur k n ops|s cur i ops|s cur k ops|s cur k g ops
    |s cur k c ops Hle|s cur k c ops Hlt Hcur|s cur k c ops Hlt Hfail];
    unfold thread_ok in Hok; cbn [t_ops t_current] in Hok.
  - inversion Hok; subst. apply (stepped_effect _ _ (RmwAdd k n)); auto.
  - inversion Hok; subst. replace (store k (sub_u64 n) s) with (run_rmw s (RmwAdd k (- n))).
    + apply stepped_effect; auto.
    + cbn. apply store_ext. done.
  - inversion Hok; subst. apply (stepped_effect _ _ (RmwBucket i)); auto.
  - inversion Hok; subst. apply stepped_silent; [done|]. unfold thread_ok. cbn. split_and!; (done || lia).
  - inversion Hok.
  - destruct Hok as (Hk & Hcur & Hok). assert (run_rmw s (RmwMax k c) = s) as Heq.
    { cbn. rewrite <-(store_id k s) at 2. apply store_ext. cbn. lia. }
    rewrite <-Heq at 2. apply stepped_effect; auto.
  - destruct Hok as (Hk & _ & Hok). replace (store k (fun _ => c) s) with (run_rmw s (RmwMax k c)).
    + apply stepped_effect; auto.
    + cbn. apply store_ext. lia.
  - destruct Hok as (Hk & _ & Hok). apply stepped_silent; [done|]. unfold thread_ok. cbn. split_and!; (done || lia).
Qed.

(** ** The account of all threads *)

(** [dn] are the effects so far; what the threads still have to do completes them. *)
Record Account (all : list rmw) (s0 : ServerMetrics) (g : metrics_state) (dn : list rmw) : Prop := {
  ac_metrics : ms_metrics g = run_rmws dn s0;
  ac_total : dn ++ concat ((fun t => effects (t_ops t)) <$> ms_threads g) ≡ₚ all;
  ac_threads : Forall (thread_ok (ms_metrics g)) (ms_threads g);
}.

Lemma effects_insert {A B} (f : A -> list B) (ts : list A) i t t' p :
  ts !! i = Some t -> f t = p ++ f t' ->
  concat (f <$> ts) ≡ₚ p ++ concat (f <$> <[i := t']> ts).
Proof.
  intros Hi Hf. rewrite <-(concat_insert f (<[i := t']> ts) i t' t p).
  - by rewrite list_insert_insert_eq, list_insert_id.
  - apply list_lookup_insert_eq. by eapply lookup_lt_Some.
  - by rewrite Hf.
Qed.

Lemma account_step weak all s0 g g' dn :
  Account all s0 g dn -> metrics_step weak g g' -> exists dn', Account all s0 g' dn'.
Proof.
  intros Hac Hstep0. destruct Hstep0 as [s ts i t s' t' Hi Hstep]. destruct Hac as [Hm Htot Hts]. cbn in *.
  pose proof (Forall_lookup_1 _ _ _ _ Hts Hi) as Hok.
  destruct (thread_step_stepped _ _ _ _ _ Hok Hstep) as [t' Heff Hok'|p t' Heff Hp Hok'].
  - exists dn. split; cbn; [done| |by apply Forall_insert].
    rewrite <-Htot. f_equiv. symmetry. by apply (effects_insert _ _ _ _ _ [] Hi).
  - exists (dn ++ [p]). split; cbn.
    + unfold run_rmws. by rewrite foldl_app, Hm.
    + rewrite <-Htot, <-app_assoc. f_equiv. symmetry. by apply effects_insert with (p := [p]) (t := t).
    + apply Forall_insert; [|done]. eapply Forall_impl; [exact Hts|]. intros u. by apply thread_ok_mono.
Qed.

Lemma account_start css s0 :
  Account (calls_rmws (concat css)) s0 (metrics_start css s0) [].
Proof.
  split; cbn; [done| |].
  - rewrite <-list_fmap_compose. unfold calls_rmws. induction css as [|cs css IH]; [done|].
    cbn. rewrite fmap_app, concat_app, <-IH. f_equiv. by rewrite effects_calls.
  - apply Forall_fmap, Forall_forall. intros cs _. apply ops_ok_thread, calls_ops_ok.
Qed.

Lemma account_reachable weak css s0 g :
  rtc (metrics_step weak) (metrics_start css s0) g ->
  exists dn, Account (calls_rmws (concat css)) s0 g dn.
Proof.
  intros Hr. pose proof (account_start css s0) as Hac.
  remember (metrics_start css s0) as g0 eqn:Hg. clear Hg. revert Hac. generalize (@nil rmw).
  induction Hr as [|g1 g2 g3 Hs _ IH]; intros dn Hac; [eauto|].
  destruct (account_step _ _ _ _ _ _ Hac Hs) as [dn' Hac']. eauto.
Qed.

(** ** Termination

    Every access that is not a failed exchange leaves a thread with less to do;
    an exchange that fails for a reason leaves the thread up to date. *)

Definition stale (s : ServerMetrics) (t : metric_thread) : nat :=
  match t_ops t with
  | ExchangeLoop k _ :: _ => if bool_decide (t_current t = load k s) then 0 else 1
  | _ => 0
  end.
Definition work (t : metric_thread) : nat := length (t_ops t).
Definition metrics_measure (g : metrics_state) : nat :=
  let n := length (ms_threads g) in
  sum_list_with work (ms_threads g) * S n + sum_list_with (stale (ms_metrics g)) (ms_threads g).

Lemma stale_bound s ts : (sum_list_with (stale s) ts <= length ts)%nat.
Proof.
  induction ts as [|t ts IH]; cbn; [done|]. unfold stale at 1.
  destruct (t_ops t) as [|[] ?]; try case_bool_decide; lia.
Qed.

Lemma strong_step_measures s t s' t' :
  thread_step false s t s' t' ->
  (work t' < work t)%nat \/ (s' = s /\ work t' = work t /\ (stale s t' < stale s t)%nat).
Proof.
  unfold work. destruct 1 as [| | | | | |s cur k c ops Hlt Hcur|s cur k c ops Hlt [|Hne]];
    cbn; try (left; lia); try done.
  right. split_and!; try done. unfold stale. cbn.
  rewrite bool_decide_eq_true_2, bool_decide_eq_false_2 by congruence. lia.
Qed.

Lemma metrics_measure_decreases g g' :
  metrics_step false g g' -> (metrics_measure g' < metrics_measure g)%nat.
Proof.
  intros [s ts i t s' t' Hi Hstep]. unfold metrics_measure. cbn. rewrite length_insert.
  pose proof (sum_list_insert work ts i t t' Hi) as Hw.
  destruct (strong_step_measures _ _ _ _ Hstep) as [Hlt|(-> & Heq & Hlt)].
  - pose proof (stale_bound s' (<[i:=t']> ts)) as Hb. rewrite length_insert in Hb. nia.
  - pose proof (sum_list_insert (stale s) ts i t t' Hi) as Hs. nia.
Qed.

Lemma metrics_progress g : ~ metrics_done g -> exists g', metrics_step false g g'.
Proof.
  destruct g as [s ts]. unfold metrics_done. cbn. intros Hnd.
  apply not_Forall_Exists in Hnd; [|intros ?; apply _].
  apply Exists_exists in Hnd as ([cur ops] & [i Hi]%list_elem_of_lookup & Hops). cbn in Hops.
  destruct ops as [|[k n|k n|j|k|k h|k c] ops]; [done|..];
    try (eexists; eapply metrics_turn; [exact Hi|constructor]; fail).
  destruct (Z.le_gt_cases c cur); [eexists; eapply metrics_turn; [exact Hi|by apply ts_leave]|].
  destruct (decide (load k s = cur)); eexists; (eapply metrics_turn; [exact Hi|]).
  - by apply ts_exchange.
  - apply ts_exchange_fails; auto.
Qed.

(** ** Theorem *)

(** The effects the threads have still to bring about. *)
Definition remaining (g : metrics_state) : list rmw :=
  concat ((fun t => effects (t_ops t)) <$> ms_threads g).

Lemma remaining_done g : metrics_done g -> remaining g = [].
Proof.
  destruct g as [s ts]. unfold metrics_done, remaining. cbn.
  induction 1 as [|[cur ops] ts Ht _ IH]; [done|]. cbn in *. by rewrite Ht, IH.
Qed.

(** C14. No update is lost under concurrency. Any number of threads make their
    metric calls at the same time, their accesses to the counters alternating
    in any way and exchanges failing as they please. At every moment the
    counters hold exactly the updates of the calls that no thread has still to
    make, each made once; when all threads have returned, the counters are
    those of all calls made by one thread, in whatever order. When exchanges do
    not fail without a reason no schedule goes on for ever, and until all
    threads have returned one can go on. *)
Theorem metrics_interleaving weak css s0 g :
  rtc (metrics_step weak) (metrics_start css s0) g ->
  (exists made, made ++ remaining g ≡ₚ calls_rmws (concat css) /\ ms_metrics g = run_rmws made s0) /\
  (metrics_done g -> forall cs, cs ≡ₚ concat css -> exec_calls cs s0 = (Ret tt, ms_metrics g)) /\
  Acc (fun g' g => metrics_step false g g') g /\
  (~ metrics_done g -> exists g', metrics_step false g g').
Proof.
  intros Hr. destruct (account_reachable _ _ _ _ Hr) as [dn [Hm Htot _]].
  split_and!; [by eauto| |apply (well_founded_lt_compat _ metrics_measure);
    intros; by apply metrics_measure_decreases|apply metrics_progress].
  intros Hdone%remaining_done cs Hcs. rewrite exec_calls_rmws, Hm. f_equal.
  apply run_rmws_perm; [apply calls_rmws_ok|]. unfold calls_rmws in *.
  rewrite Hcs, <-Htot. unfold remaining in Hdone. by rewrite Hdone, app_nil_r.
Qed.

(** Two threads observe 30 and 50 bytes while a third accepts a connection: the
    thread with 30 exchanges first, and the exchange of the thread with 50, who
    had read 0 as well, fails once. *)
Lemma metrics_interleaving_witness :
  let css := [[CallPendingWriteBytes 30]; [CallPendingWriteBytes 50]; [CallConnectionAccepted]] in
  exists g, rtc (metrics_step false) (metrics_start css ServerMetrics_init) g /\ metrics_done g /\
    exec_calls (concat css) ServerMetrics_init = (Ret tt, ms_metrics g) /\
    m_maximumPendingWriteBytes (ms_metrics g) = 50 /\ m_activeConnections (ms_metrics g) = 1.
Proof.
  intros css.
  assert (forall s ts i t s' t' g, ts !! i = Some t -> thread_step false s t s' t' ->
    rtc (metrics_step false) (mkMetricsState s' (<[i := t']> ts)) g ->
    rtc (metrics_step false) (mkMetricsState s ts) g) as Hturn.
  { intros. eapply rtc_l; [by eapply metrics_turn|done]. }
  assert (exists g, rtc (metrics_step false) (metrics_start css ServerMetrics_init) g /\ metrics_done g /\
    m_maximumPendingWriteBytes (ms_metrics g) = 50 /\ m_activeConnections (ms_metrics g) = 1)
    as (g & Hr & Hd & Hmax & Hact).
  { eexists. split.
    - unfold css, metrics_start, thread_of. cbn.
      eapply (Hturn _ _ 0%nat); [done|apply ts_load|].
      eapply (Hturn _ _ 2%nat); [done|apply ts_fetch_add|].
      eapply (Hturn _ _ 1%nat); [done|apply ts_load|].
      eapply (Hturn _ _ 0%nat); [done|by apply ts_exchange|].
      eapply (Hturn _ _ 1%nat); [done|apply ts_exchange_fails; [done|by right]|].
      eapply (Hturn _ _ 2%nat); [done|apply ts_fetch_add|].
      eapply (Hturn _ _ 1%nat); [done|by apply ts_exchange|]. apply rtc_refl.
    - split; [|done]. repeat constructor. }
  exists g. split_and!; try done.
  destruct (metrics_interleaving false css ServerMetrics_init g Hr) as (_ & H & _).
  by apply H.
Defined.
