(* ===== verification/Poller.v ===== *)
(** * Poller: I/O readiness behind one interface
      (net/poll/io_event.h, poller.h, poller_common.cpp, poll_poller.cpp, epoll_poller.cpp, poller_factory.cpp)

    [IoEvent] is a set of bits. The class [Poller] is the C++ abstract class:
    what its clients rely on is stated in [PollerLaws], which both back ends are
    shown to satisfy, whatever the kernel answers. The native event bits and the
    [epoll] instance in the kernel are parameters. *)

From S2P Require Import Prelude.
#[local] Open Scope Z_scope.

(** ** IoEvent *)

(** [enum class IoEvent : std::uint32_t] *)
Abbreviation IoEvent := Z (only parsing).

Definition IoEvent_None : IoEvent := 0.
Definition IoEvent_Read : IoEvent := Z.shiftl 1 0.
Definition IoEvent_Write : IoEvent := Z.shiftl 1 1.
Definition IoEvent_Error : IoEvent := Z.shiftl 1 2.
Definition IoEvent_Hangup : IoEvent := Z.shiftl 1 3.

Definition IoEvent_or (left right : IoEvent) : IoEvent := Z.lor left right.
Definition IoEvent_and (left right : IoEvent) : IoEvent := Z.land left right.
Definition HasIoEvent (events expected : IoEvent) : bool := negb (Z.land events expected =? 0).

Record ReadyEvent := mkReadyEvent {
  re_fd : Z;
  re_events : IoEvent;
}.

(** ** poller_common *)

Definition ValidateInterests {S} (fd : Z) (interests : IoEvent) : M S unit :=
  if fd <? 0 then throw (invalid_argument "Poller fd must be non-negative") else
  let hasRead := HasIoEvent interests IoEvent_Read in
  let hasWrite := HasIoEvent interests IoEvent_Write in
  if negb hasRead && negb hasWrite
  then throw (invalid_argument "Poller interests must contain Read or Write")
  else mret tt.

Definition ToTimeoutMilliseconds (timeout : Z) : Z :=
  let count := timeout in
  if count <? 0 then -1 else
  let maxTimeout := INT_MAX in
  if maxTimeout <? count then INT_MAX else wrap_i32 count.

(** ** The interface *)

Class Poller (P : Type) := {
  poller_Add : Z -> IoEvent -> M P unit;
  poller_Modity : Z -> IoEvent -> M P unit;
  poller_Remove : Z -> M P unit;
}.

(** What is registered, and what the operations owe. A failure is always an
    exception, and leaves the registrations as they were. *)
Class PollerLaws (P : Type) `{!Poller P} := {
  registered : P -> gmap Z IoEvent;
  poller_ok : P -> Prop;
  add_law fd i p : poller_ok p ->
    wp (poller_Add fd i)
       (fun _ p' => poller_ok p' /\ 0 <= fd /\ registered p !! fd = None /\
          registered p' = <[fd := i]> (registered p))
       (fun f p' => poller_ok p' /\ registered p' = registered p /\ exists e, f = Throw e) p;
  modity_law fd i p : poller_ok p ->
    wp (poller_Modity fd i)
       (fun _ p' => poller_ok p' /\ is_Some (registered p !! fd) /\
          registered p' = <[fd := i]> (registered p))
       (fun f p' => poller_ok p' /\ registered p' = registered p /\ exists e, f = Throw e) p;
  remove_law fd p : poller_ok p ->
    wp (poller_Remove fd)
       (fun _ p' => poller_ok p' /\ registered p' = delete fd (registered p))
       (fun f p' => poller_ok p' /\ registered p' = registered p /\ exists e, f = Throw e) p;
}.

(** ** System calls that wait

    A blocking call is modelled by the results of its successive invocations;
    [do ... while (result < 0 && errno == EINTR)] takes the first that was not
    interrupted. *)

Inductive syscall (A : Type) :=
  | SysOk (a : A)
  | SysInterrupted
  | SysError (errno : Z).
Arguments SysOk {A} a.
Arguments SysInterrupted {A}.
Arguments SysError {A} errno.

Fixpoint retry_eintr {A} (answers : list (syscall A)) : outcome (A + Z) :=
  match answers with
  | [] => Fail OutOfFuel
  | SysOk a :: _ => Ret (inl a)
  | SysError e :: _ => Ret (inr e)
  | SysInterrupted :: answers => retry_eintr answers
  end.

(** ** poll(2) *)

Section PollPoller.
Context (POLLIN POLLPRI POLLOUT POLLERR POLLHUP POLLNVAL : Z).

Record PollPoller := mkPollPoller {
  pp_interests : gmap Z IoEvent;
}.
#[export] Instance PollPoller_settable : Settable PollPoller := fun p =>
  {| pp_interests := pp_interests p |}.

Definition PollPoller_init : PollPoller := mkPollPoller ∅.

Definition PollPoller_Add (fd : Z) (interests : IoEvent) : M PollPoller unit :=
  ValidateInterests fd interests;;
  m ← gets pp_interests;
  match m !! fd with
  | Some _ => throw (logic_error "PollPoller fd is already registerred")
  | None => modify (fun p => p <| pp_interests ::= <[fd := interests]> |>)
  end.

Definition PollPoller_Modity (fd : Z) (interests : IoEvent) : M PollPoller unit :=
  ValidateInterests fd interests;;
  m ← gets pp_interests;
  match m !! fd with
  | None => throw (logic_error "PollPoller cannot modify unknown fd")
  | Some _ => modify (fun p => p <| pp_interests ::= <[fd := interests]> |>)
  end.

Definition PollPoller_Remove (fd : Z) : M PollPoller unit :=
  modify (fun p => p <| pp_interests ::= delete fd |>).

(** [static_cast<short>(result | static_cast<short>(POLLIN))]: the bits are
    below 2^15, so that [short] arithmetic does not change them. *)
Definition PollPoller_ToNativeEvents (interests : IoEvent) : Z :=
  let result := 0 in
  let result := if HasIoEvent interests IoEvent_Read then Z.lor result POLLIN else result in
  if HasIoEvent interests IoEvent_Write then Z.lor result POLLOUT else result.

Definition has_bit (events bit : Z) : bool := negb (Z.land events bit =? 0).

Definition PollPoller_FromNativeEvents (nativeEvents : Z) : IoEvent :=
  let result := IoEvent_None in
  let result := if has_bit nativeEvents POLLIN || has_bit nativeEvents POLLPRI
                then IoEvent_or result IoEvent_Read else result in
  let result := if has_bit nativeEvents POLLOUT
                then IoEvent_or result IoEvent_Write else result in
  let result := if has_bit nativeEvents POLLERR || has_bit nativeEvents POLLNVAL
                then IoEvent_or result IoEvent_Error else result in
  if has_bit nativeEvents POLLHUP then IoEvent_or result IoEvent_Hangup else result.

(** The [pollfd] array: descriptors with the events asked for. *)
Definition poll_fds (p : PollPoller) : list (Z * Z) :=
  (fun x => (x.1, PollPoller_ToNativeEvents x.2)) <$> map_to_list (pp_interests p).

(** The descriptors with non-zero [revents], in array order. *)
Definition poll_ready (x : Z * Z) (revents : Z) : option ReadyEvent :=
  if revents =? 0 then None else Some (mkReadyEvent x.1 (PollPoller_FromNativeEvents revents)).

(** [poll] answers with its result and the [revents] it wrote, one for each
    element of the array. [nfds_t] is 64 bits wide, as on Linux. *)
Definition PollPoller_Wait (answers : list (syscall (Z * list Z))) :
    M PollPoller (list ReadyEvent) :=
  pollFds ← gets poll_fds;
  if U64_MOD - 1 <? zlen pollFds then throw (length_error "too many file descriptors for poll") else
  result ← lift (retry_eintr answers);
  match result with
  | inr _ => throw (runtime_error "Poll failed")
  | inl (result, revents) =>
      if result =? 0 then mret [] else
      mret (omap (fun x => poll_ready x.1 x.2) (zip pollFds revents))
  end.

#[export] Instance PollPoller_poller : Poller PollPoller := {
  poller_Add := PollPoller_Add;
  poller_Modity := PollPoller_Modity;
  poller_Remove := PollPoller_Remove;
}.
End PollPoller.

(** ** epoll(7) *)

Inductive epoll_op := EPOLL_CTL_ADD | EPOLL_CTL_MOD | EPOLL_CTL_DEL.

Definition INITIAL_EVENT_CAPACITY : Z := 64.
Definition MAX_EVENT_CAPACITY : Z := 4096.

Section EpollPoller.
(** The kernel's [epoll] instance and [epoll_ctl] on it; [None] is the errno of
    a failed call. *)
Context {K : Type} (epoll_ctl : epoll_op -> Z -> Z -> K -> option Z * K).
Context (EPOLLIN EPOLLPRI EPOLLOUT EPOLLERR EPOLLHUP EPOLLRDHUP : Z).

(** [m_epollFd] gives access to the kernel object [ep_kernel];
    [ep_capacity] is [m_nativeEvents.size()]. *)
Record EpollPoller := mkEpollPoller {
  ep_interests : gmap Z IoEvent;
  ep_capacity : Z;
  ep_kernel : K;
}.
#[export] Instance EpollPoller_settable : Settable EpollPoller := fun p =>
  {| ep_interests := ep_interests p; ep_capacity := ep_capacity p; ep_kernel := ep_kernel p |}.

(** The constructor, given what [epoll_create1] returned. *)
Definition EpollPoller_init (created : option K) : outcome EpollPoller :=
  match created with
  | None => Fail (Throw (runtime_error "epoll_create1 failed"))
  | Some k => Ret (mkEpollPoller ∅ INITIAL_EVENT_CAPACITY k)
  end.

(** [::epoll_ctl(...) < 0] *)
Definition ctl_fails (op : epoll_op) (fd events : Z) : M EpollPoller bool :=
  k ← gets ep_kernel;
  let '(err, k') := epoll_ctl op fd events k in
  modify (fun p => p <| ep_kernel := k' |>);;
  mret (match err with Some _ => true | None => false end).

Definition EpollPoller_ToNativeEvents (interests : IoEvent) : Z :=
  let result := 0 in
  let result := if HasIoEvent interests IoEvent_Read then Z.lor result EPOLLIN else result in
  let result := if HasIoEvent interests IoEvent_Write then Z.lor result EPOLLOUT else result in
  Z.lor result EPOLLRDHUP.

Definition EpollPoller_FromNativeEvents (nativeEvents : Z) : IoEvent :=
  let result := IoEvent_None in
  let result := if has_bit nativeEvents EPOLLIN || has_bit nativeEvents EPOLLPRI
                then IoEvent_or result IoEvent_Read else result in
  let result := if has_bit nativeEvents EPOLLOUT
                then IoEvent_or result IoEvent_Write else result in
  let result := if has_bit nativeEvents EPOLLERR
                then IoEvent_or result IoEvent_Error else result in
  if has_bit nativeEvents EPOLLHUP || has_bit nativeEvents EPOLLRDHUP
  then IoEvent_or result IoEvent_Hangup else result.

(** In the texts of the exceptions the description of [errno] is left out: whether
    a system call fails is a parameter here, but not for which reason. *)
Definition EpollPoller_Add (fd : Z) (interests : IoEvent) : M EpollPoller unit :=
  ValidateInterests fd interests;;
  m ← gets ep_interests;
  match m !! fd with
  | Some _ => throw (logic_error "EpollPoller fd is already registered")
  | None =>
      modify (fun p => p <| ep_interests ::= <[fd := interests]> |>);;
      failed ← ctl_fails EPOLL_CTL_ADD fd (EpollPoller_ToNativeEvents interests);
      if (failed : bool) then
        modify (fun p => p <| ep_interests ::= delete fd |>);;
        throw (runtime_error "epoll_ctl EPOLL_CRL_ADD failed")
      else mret tt
  end.

Definition EpollPoller_Modity (fd : Z) (interests : IoEvent) : M EpollPoller unit :=
  ValidateInterests fd interests;;
  m ← gets ep_interests;
  match m !! fd with
  | None => throw (logic_error "EpollPoller cannot modify unknown fd")
  | Some _ =>
      failed ← ctl_fails EPOLL_CTL_MOD fd (EpollPoller_ToNativeEvents interests);
      if (failed : bool) then throw (runtime_error "epoll_ctl EPOLL_CTL_MOD failed")
      else modify (fun p => p <| ep_interests ::= <[fd := interests]> |>)
  end.

Definition EpollPoller_Remove (fd : Z) : M EpollPoller unit :=
  m ← gets ep_interests;
  match m !! fd with
  | None => mret tt
  | Some _ =>
      failed ← ctl_fails EPOLL_CTL_DEL fd 0;
      if (failed : bool) then throw (runtime_error "epoll_ctl EPOLL_CTL_DEL failed")
      else modify (fun p => p <| ep_interests ::= delete fd |>)
  end.

(** [epoll_wait] answers with the descriptors and events it wrote to the array
    of [ep_capacity] elements. *)
Definition EpollPoller_Wait (answers : list (syscall (list (Z * Z)))) :
    M EpollPoller (list ReadyEvent) :=
  result ← lift (retry_eintr answers);
  match result with
  | inr _ => throw (runtime_error "epoll_wait failed")
  | inl events =>
      let readyEvents :=
        (fun x => mkReadyEvent x.1 (EpollPoller_FromNativeEvents x.2)) <$> events in
      capacity ← gets ep_capacity;
      when ((zlen events =? capacity) && (capacity <? MAX_EVENT_CAPACITY)) (
        modify (fun p => p <| ep_capacity := Z.min (capacity * 2) MAX_EVENT_CAPACITY |>));;
      mret readyEvents
  end.

#[export] Instance EpollPoller_poller : Poller EpollPoller := {
  poller_Add := EpollPoller_Add;
  poller_Modity := EpollPoller_Modity;
  poller_Remove := EpollPoller_Remove;
}.
End EpollPoller.

(** ** PollerFactory *)

Inductive PollerBackend := PB_Auto | PB_Poll | PB_Epoll.
Inductive poller_kind := KindPoll | KindEpoll.

(** [linux] says whether [__linux__] is defined. The [throw] at the end of the
    function is not reached: the [switch] returns or throws for every backend. *)
Definition CreatePoller (linux : bool) (backend : PollerBackend) : outcome poller_kind :=
  match backend with
  | PB_Auto => Ret (if linux then KindEpoll else KindPoll)
  | PB_Poll => Ret KindPoll
  | PB_Epoll =>
      if linux then Ret KindEpoll
      else Fail (Throw (invalid_argument "epoll backend is only available on linux"))
  end.
