(* ===== verification/PollerTheorems.v ===== *)
(** * Both back ends implement the Poller interface *)

From S2P Require Import Prelude Poller.
#[local] Open Scope Z_scope.

Lemma wp_validate {S} fd i (Q : unit -> S -> Prop) (E : failure -> S -> Prop) s :
  (0 <= fd -> HasIoEvent i IoEvent_Read || HasIoEvent i IoEvent_Write = true -> Q tt s) ->
  (forall e, E (Throw e) s) -> wp (ValidateInterests fd i) Q E s.
Proof.
  intros HQ HE. unfold ValidateInterests. destruct (Z.ltb_spec fd 0); [apply HE|].
  destruct (HasIoEvent i IoEvent_Read), (HasIoEvent i IoEvent_Write); cbn;
    [by apply wp_ret, HQ..|apply HE].
Qed.

(** ** poll *)

#[export] Program Instance PollPoller_laws : PollerLaws PollPoller := {
  registered := pp_interests;
  poller_ok := fun _ => True;
}.
Next Obligation.
  intros fd i p _. unfold poller_Add. cbn. unfold PollPoller_Add.
  apply wp_bind, wp_validate; [intros Hfd _|intros e; by eauto].
  apply wp_bind, wp_gets. destruct (pp_interests p !! fd) eqn:Hp.
  - apply wp_fail. by eauto.
  - apply wp_modify. by split_and!.
Qed.
Next Obligation.
  intros fd i p _. unfold poller_Modity. cbn. unfold PollPoller_Modity.
  apply wp_bind, wp_validate; [intros Hfd _|intros e; by eauto].
  apply wp_bind, wp_gets. destruct (pp_interests p !! fd) eqn:Hp.
  - apply wp_modify. split_and!; [done|by eauto|done].
  - apply wp_fail. by eauto.
Qed.
Next Obligation. intros fd p _. by apply wp_modify. Qed.

(** ** epoll *)

Section epoll.
Context {K : Type} (epoll_ctl : epoll_op -> Z -> Z -> K -> option Z * K).
Context (EPOLLIN EPOLLPRI EPOLLOUT EPOLLERR EPOLLHUP EPOLLRDHUP : Z).

(** The interest list of the kernel object, and what epoll_ctl(2) documents: a
    successful call adds, changes or removes the descriptor, and a failed call
    changes nothing. *)
Context (interest_list : K -> gmap Z Z).
Definition ctl_documented : Prop := forall op fd ev k,
  match epoll_ctl op fd ev k with
  | (Some _, k') => interest_list k' = interest_list k
  | (None, k') =>
      interest_list k' =
        match op with
        | EPOLL_CTL_ADD | EPOLL_CTL_MOD => <[fd := ev]> (interest_list k)
        | EPOLL_CTL_DEL => delete fd (interest_list k)
        end
  end.

Abbreviation ToNative := (EpollPoller_ToNativeEvents EPOLLIN EPOLLOUT EPOLLRDHUP).

(** The map of the object mirrors the kernel. *)
Definition mirrors (p : EpollPoller (K := K)) : Prop :=
  interest_list (ep_kernel p) = ToNative <$> ep_interests p.

#[local] Instance epoll_inst : Poller (EpollPoller (K := K)) :=
  EpollPoller_poller epoll_ctl EPOLLIN EPOLLOUT EPOLLRDHUP.

Hypothesis Hctl : ctl_documented.

Lemma wp_ctl op fd ev (Q : bool -> EpollPoller -> Prop) E p :
  (forall k', interest_list k' = match op with
     | EPOLL_CTL_ADD | EPOLL_CTL_MOD => <[fd := ev]> (interest_list (ep_kernel p))
     | EPOLL_CTL_DEL => delete fd (interest_list (ep_kernel p)) end ->
     Q false (p <| ep_kernel := k' |>)) ->
  (forall k', interest_list k' = interest_list (ep_kernel p) -> Q true (p <| ep_kernel := k' |>)) ->
  wp (ctl_fails epoll_ctl op fd ev) Q E p.
Proof.
  intros Hok Hfail. unfold ctl_fails. apply wp_bind, wp_gets.
  pose proof (Hctl op fd ev (ep_kernel p)) as Hdoc.
  destruct (epoll_ctl op fd ev (ep_kernel p)) as [[e|] k'];
    apply wp_bind, wp_modify, wp_ret; auto.
Qed.

(** What an operation owes: it mirrors the kernel afterwards in any case. *)
Lemma epoll_add fd i p : mirrors p ->
  wp (poller_Add fd i)
     (fun _ p' => mirrors p' /\ 0 <= fd /\ ep_interests p !! fd = None /\
        ep_interests p' = <[fd := i]> (ep_interests p))
     (fun f p' => mirrors p' /\ ep_interests p' = ep_interests p /\ exists e, f = Throw e) p.
Proof.
  intros Hm. unfold poller_Add. cbn. unfold EpollPoller_Add.
  apply wp_bind, wp_validate; [intros Hfd _|intros e; by eauto].
  apply wp_bind, wp_gets. destruct (ep_interests p !! fd) eqn:Hp; [apply wp_fail; by eauto|].
  apply wp_bind, wp_modify, wp_bind, wp_ctl; intros k' Hk'; cbn in Hk'; cbn iota.
  - apply wp_ret. split_and!; try done. unfold mirrors. cbn. by rewrite Hk', Hm, fmap_insert.
  - apply wp_bind, wp_modify, wp_fail. cbn. rewrite delete_insert_id by done.
    split_and!; [|done|eauto]. unfold mirrors. cbn. by rewrite Hk'.
Qed.

Lemma epoll_modity fd i p : mirrors p ->
  wp (poller_Modity fd i)
     (fun _ p' => mirrors p' /\ is_Some (ep_interests p !! fd) /\
        ep_interests p' = <[fd := i]> (ep_interests p))
     (fun f p' => mirrors p' /\ ep_interests p' = ep_interests p /\ exists e, f = Throw e) p.
Proof.
  intros Hm. unfold poller_Modity. cbn. unfold EpollPoller_Modity.
  apply wp_bind, wp_validate; [intros Hfd _|intros e; by eauto].
  apply wp_bind, wp_gets. destruct (ep_interests p !! fd) eqn:Hp; [|apply wp_fail; by eauto].
  apply wp_bind, wp_ctl; intros k' Hk'; cbn in Hk'; cbn iota.
  - apply wp_modify. split_and!; [|by eauto|done]. unfold mirrors. cbn. by rewrite Hk', Hm, fmap_insert.
  - apply wp_fail. cbn. split_and!; [|done|eauto]. unfold mirrors. cbn. by rewrite Hk'.
Qed.

Lemma epoll_remove fd p : mirrors p ->
  wp (poller_Remove fd)
     (fun _ p' => mirrors p' /\ ep_interests p' = delete fd (ep_interests p))
     (fun f p' => mirrors p' /\ ep_interests p' = ep_interests p /\ exists e, f = Throw e) p.
Proof.
  intros Hm. unfold poller_Remove. cbn. unfold EpollPoller_Remove.
  apply wp_bind, wp_gets. destruct (ep_interests p !! fd) eqn:Hp.
  - apply wp_bind, wp_ctl; intros k' Hk'; cbn in Hk'; cbn iota.
    + apply wp_modify. split; [|done]. unfold mirrors. cbn. by rewrite Hk', Hm, fmap_delete.
    + apply wp_fail. cbn. split_and!; [|done|eauto]. unfold mirrors. cbn. by rewrite Hk'.
  - apply wp_ret. by rewrite delete_id.
Qed.

#[export] Instance EpollPoller_laws : PollerLaws (EpollPoller (K := K)) := {|
  registered := ep_interests;
  poller_ok := mirrors;
  add_law := epoll_add;
  modity_law := epoll_modity;
  remove_law := epoll_remove;
|}.
End epoll.

(** ** Histories *)

Inductive poller_op :=
  | PollerAdd (fd : Z) (i : IoEvent)
  | PollerModity (fd : Z) (i : IoEvent)
  | PollerRemove (fd : Z).

Definition exec_poller {P} `{!Poller P} (op : poller_op) : M P unit :=
  match op with
  | PollerAdd fd i => poller_Add fd i
  | PollerModity fd i => poller_Modity fd i
  | PollerRemove fd => poller_Remove fd
  end.

(** The caller goes on after an exception. *)
Fixpoint run_poller {P} `{!Poller P} (ops : list poller_op) (p : P) : P :=
  match ops with
  | [] => p
  | op :: ops => run_poller ops (exec_poller op p).2
  end.

Lemma exec_poller_ok {P} `{!Poller P, !PollerLaws P} op (p : P) :
  poller_ok p -> poller_ok (exec_poller op p).2.
Proof.
  intros Hp. destruct op as [fd i|fd i|fd]; cbn [exec_poller].
  - pose proof (add_law fd i p Hp) as H. unfold wp in H.
    by destruct (poller_Add fd i p) as [[]]; destruct H.
  - pose proof (modity_law fd i p Hp) as H. unfold wp in H.
    by destruct (poller_Modity fd i p) as [[]]; destruct H.
  - pose proof (remove_law fd p Hp) as H. unfold wp in H.
    by destruct (poller_Remove fd p) as [[]]; destruct H.
Qed.

Lemma run_poller_ok {P} `{!Poller P, !PollerLaws P} ops (p : P) : poller_ok p -> poller_ok (run_poller ops p).
Proof.
  revert p. induction ops as [|op ops IH]; intros p Hp; cbn; [done|].
  by apply IH, exec_poller_ok.
Qed.

(** ** Waiting *)

Lemma retry_answered {A} n (a : A) rest :
  retry_eintr (replicate n SysInterrupted ++ SysOk a :: rest) = Ret (inl a).
Proof. by induction n. Qed.

Lemma elem_of_omap_zip {A B C} (f : A * B -> option C) (l : list A) (k : list B) c :
  c ∈ omap f (zip l k) <-> exists i a b, l !! i = Some a /\ k !! i = Some b /\ f (a, b) = Some c.
Proof.
  rewrite list_elem_of_omap. split.
  - intros ([a b] & Hin & Hf). apply list_elem_of_lookup in Hin as [i Hi].
    apply lookup_zip_Some in Hi as [Ha Hb]. eauto 10.
  - intros (i & a & b & Ha & Hb & Hf). exists (a, b). split; [|done].
    apply list_elem_of_lookup. exists i. by apply lookup_zip_Some.
Qed.

Lemma NoDup_omap_zip {A B C D} (f : A * B -> option C) (g : C -> D) (h : A -> D) l (k : list B) :
  (forall a b c, f (a, b) = Some c -> g c = h a) -> NoDup (h <$> l) ->
  NoDup (g <$> omap f (zip l k)).
Proof.
  intros Hg. revert k. induction l as [|a l IH]; intros [|b k] Hnd; cbn; try apply NoDup_nil_2.
  apply NoDup_cons in Hnd as [Hnin Hnd]. destruct (f (a, b)) as [c|] eqn:Hf; [|by apply IH].
  cbn. apply NoDup_cons. split; [|by apply IH].
  intros (c' & Hc & (i & a' & b' & Ha' & _ & Hf')%elem_of_omap_zip)%list_elem_of_fmap.
  apply Hnin. rewrite <-(Hg _ _ _ Hf), Hc, (Hg _ _ _ Hf'). apply list_elem_of_fmap.
  exists a'. split; [done|]. by eapply list_elem_of_lookup_2.
Qed.

(** ** Theorems *)

(** C17. The epoll back end is exception safe: whatever the kernel refuses, the
    descriptors and events in its map are those in the kernel's interest list,
    after any sequence of [Add], [Modity] and [Remove], failed ones included. *)
Theorem epoll_mirrors_kernel {K} epoll_ctl EPOLLIN EPOLLOUT EPOLLRDHUP
    (interest_list : K -> gmap Z Z) ops p :
  ctl_documented epoll_ctl interest_list ->
  mirrors EPOLLIN EPOLLOUT EPOLLRDHUP interest_list p ->
  let p' := run_poller (Poller0 := EpollPoller_poller epoll_ctl EPOLLIN EPOLLOUT EPOLLRDHUP) ops p in
  interest_list (ep_kernel p') =
    EpollPoller_ToNativeEvents EPOLLIN EPOLLOUT EPOLLRDHUP <$> ep_interests p'.
Proof.
  intros Hctl Hp. apply (run_poller_ok (PollerLaws0 := EpollPoller_laws epoll_ctl EPOLLIN EPOLLOUT
    EPOLLRDHUP interest_list Hctl) ops p Hp).
Qed.

(** [PollPoller::Wait] retries while interrupted and then reports exactly
    the registered descriptors for which the kernel returned events, each once,
    with the translated events. *)
Theorem poll_wait_exact POLLIN POLLPRI POLLOUT POLLERR POLLHUP POLLNVAL n result revents rest p :
  result <> 0 -> length revents = length (poll_fds POLLIN POLLOUT p) ->
  zlen (poll_fds POLLIN POLLOUT p) < U64_MOD ->
  exists evs,
    PollPoller_Wait POLLIN POLLPRI POLLOUT POLLERR POLLHUP POLLNVAL
      (replicate n SysInterrupted ++ SysOk (result, revents) :: rest) p = (Ret evs, p) /\
    NoDup (re_fd <$> evs) /\
    forall ev, ev ∈ evs <->
      exists i x r, poll_fds POLLIN POLLOUT p !! i = Some x /\ revents !! i = Some r /\ r <> 0 /\
        is_Some (pp_interests p !! x.1) /\
        ev = mkReadyEvent x.1
               (PollPoller_FromNativeEvents POLLIN POLLPRI POLLOUT POLLERR POLLHUP POLLNVAL r).
Proof.
  intros Hres Hlen Hmax. eexists. split; [|split].
  - unfold PollPoller_Wait, lift. cbv [mbind M_bind gets]. rewrite retry_answered.
    replace (U64_MOD - 1 <? _) with false by lia.
    by rewrite (proj2 (Z.eqb_neq result 0) Hres).
  - eapply (NoDup_omap_zip _ re_fd fst).
    + intros a b c. unfold poll_ready. cbn. destruct (b =? 0); [done|]. by intros [= <-].
    + unfold poll_fds. rewrite <-list_fmap_compose.
      rewrite (list_fmap_ext _ fst) by done. apply NoDup_fst_map_to_list.
  - intros ev. rewrite elem_of_omap_zip. unfold poll_ready. cbn. split.
    + intros (i & x & r & Hx & Hr & Hev). exists i, x, r.
      destruct (Z.eqb_spec r 0); [done|]. injection Hev as <-. split_and!; try done.
      unfold poll_fds in Hx. rewrite list_lookup_fmap in Hx.
      destruct (map_to_list (pp_interests p) !! i) as [[fd e]|] eqn:Hi; [|done].
      injection Hx as <-. cbn. exists e. apply elem_of_map_to_list. by eapply list_elem_of_lookup_2.
    + intros (i & x & r & Hx & Hr & Hr0 & _ & ->). exists i, x, r. split_and!; [done..|].
      by rewrite (proj2 (Z.eqb_neq r 0) Hr0).
Qed.

(** The native events mean the same to both back ends: readable or urgent
    data is [Read], writable [Write], an error (for poll also an invalid
    descriptor) [Error], a hangup (for epoll also the peer's half-close)
    [Hangup], and nothing else is reported. *)
Theorem native_events_translate IN PRI OUT ERR HUP NVAL RDHUP ev :
  let p := PollPoller_FromNativeEvents IN PRI OUT ERR HUP NVAL ev in
  let e := EpollPoller_FromNativeEvents IN PRI OUT ERR HUP RDHUP ev in
  HasIoEvent p IoEvent_Read = has_bit ev IN || has_bit ev PRI /\
  HasIoEvent p IoEvent_Write = has_bit ev OUT /\
  HasIoEvent p IoEvent_Error = has_bit ev ERR || has_bit ev NVAL /\
  HasIoEvent p IoEvent_Hangup = has_bit ev HUP /\
  HasIoEvent e IoEvent_Read = has_bit ev IN || has_bit ev PRI /\
  HasIoEvent e IoEvent_Write = has_bit ev OUT /\
  HasIoEvent e IoEvent_Error = has_bit ev ERR /\
  HasIoEvent e IoEvent_Hangup = has_bit ev HUP || has_bit ev RDHUP /\
  0 <= p < 16 /\ 0 <= e < 16.
Proof.
  cbn zeta. unfold PollPoller_FromNativeEvents, EpollPoller_FromNativeEvents.
  destruct (has_bit ev IN || has_bit ev PRI), (has_bit ev OUT), (has_bit ev ERR),
    (has_bit ev NVAL), (has_bit ev HUP), (has_bit ev RDHUP); by vm_compute.
Qed.

(** ** A concrete kernel *)

(** An interest list that refuses descriptor 7. *)
Definition example_ctl (op : epoll_op) (fd ev : Z) (k : gmap Z Z) : option Z * gmap Z Z :=
  if fd =? 7 then (Some 9, k) else
  (None, match op with EPOLL_CTL_ADD | EPOLL_CTL_MOD => <[fd := ev]> k | EPOLL_CTL_DEL => delete fd k end).

Lemma epoll_mirrors_kernel_witness :
  let p' := run_poller (Poller0 := EpollPoller_poller example_ctl 1 4 8192)
              [PollerAdd 5 1; PollerAdd 7 1; PollerModity 5 3; PollerRemove 6]
              (mkEpollPoller ∅ 64 ∅) in
  ep_kernel p' = EpollPoller_ToNativeEvents 1 4 8192 <$> ep_interests p' /\
  ep_interests p' = {[5 := 3]} /\ ep_kernel p' = {[5 := 8197]}.
Proof.
  split; [|split; vm_compute; reflexivity].
  apply (epoll_mirrors_kernel example_ctl 1 4 8192 id).
  - intros op fd ev k. unfold example_ctl, id. destruct (fd =? 7); [reflexivity|].
    destruct op; reflexivity.
  - unfold mirrors. cbn. symmetry. apply fmap_empty.
Defined.

Lemma poll_wait_exact_witness :
  exists evs,
    PollPoller_Wait 1 2 4 8 16 32 [SysInterrupted; SysOk (1, [17])] (mkPollPoller {[5 := 1]})
      = (Ret evs, mkPollPoller {[5 := 1]}) /\ mkReadyEvent 5 9 ∈ evs.
Proof.
  destruct (poll_wait_exact 1 2 4 8 16 32 1 1 [17] [] (mkPollPoller {[5 := 1]})) as (evs & Hw & _ & Hin).
  - discriminate.
  - vm_compute. reflexivity.
  - vm_compute. reflexivity.
  - exists evs. split; [exact Hw|]. apply Hin. exists 0%nat, (5, 1), 17.
    split_and!; [vm_compute; reflexivity..|discriminate|exists 1; vm_compute; reflexivity|].
    vm_compute. reflexivity.
Defined.
