(* ===== verification/StatsReport.v ===== *)
(** * The STATS report: averages, percentiles, text
      (observability/server_metrics.cpp, net/sub_reactor.cpp)

    [double] is IEEE binary64 with rounding to nearest, computed by the
    executable specification of the Standard Library; [std::fixed] with
    [setprecision(2)] prints the exact value rounded to two decimals. *)

From Stdlib Require Import Floats.SpecFloat.
From S2P Require Import Prelude PriorityQueue KVStore ServerMetrics CommandExecutor.
#[local] Open Scope Z_scope.

(** ** binary64 *)

Definition prec : Z := 53.
Definition emax : Z := 1024.
Definition double : Type := spec_float.

(** [static_cast<double>(n)] for a [uint64_t], and an integral literal. *)
Definition of_u64 (n : Z) : double := binary_normalize prec emax n 0 false.
Definition ddiv (x y : double) : double := SFdiv prec emax x y.
Definition dmul (x y : double) : double := SFmul prec emax x y.

(** A decimal literal [p / q] is the nearest double, as is the quotient. *)
Definition literal (p q : Z) : double := ddiv (of_u64 p) (of_u64 q).

(** [ceil(x)] as an integer, for a finite [x]. *)
Definition dceil (x : double) : Z :=
  match x with
  | S754_finite s m e =>
      let m := if s then - Z.pos m else Z.pos m in
      if 0 <=? e then m * 2 ^ e else - (- m / 2 ^ (- e))
  | _ => 0
  end.

(** ** Text *)

(** [p / q] to the nearest integer, ties to even. *)
Definition round_half_even (p q : Z) : Z :=
  let d := p / q in
  let r := p mod q in
  if 2 * r <? q then d else
  if q <? 2 * r then d + 1 else
  if Z.even d then d else d + 1.

(** [stream << std::fixed << std::setprecision(2) << x] for a finite [x >= 0]. *)
Definition format_fixed2 (x : double) : bytes :=
  let hundredths :=
    match x with
    | S754_finite _ m e =>
        if 0 <=? e then Z.pos m * 2 ^ e * 100 else round_half_even (Z.pos m * 100) (2 ^ (- e))
    | _ => 0
    end in
  to_string (hundredths / 100) ++ lit "." ++
  [digit_char (hundredths / 10 mod 10); digit_char (hundredths mod 10)].

(** ** The report *)

Definition AverageCommandLatencyMicroseconds (s : ServerMetricsSnapshot) : double :=
  if commandLatencyCount s =? 0 then S754_zero false else
  let totalMicroseconds := ddiv (of_u64 (commandLatencyTotalNanoseconds s)) (of_u64 1000) in
  ddiv totalMicroseconds (of_u64 (commandLatencyCount s)).

Definition upperBoundsUs : list Z := [10; 50; 100; 500; 1000; 5000].

(** The [for] over the buckets with the running sum. *)
Fixpoint percentile_scan (bounds buckets : list Z) (accumulated targetRank : Z) : bytes :=
  match bounds, buckets with
  | bound :: bounds, bucket :: buckets =>
      let accumulated := wrap_u64 (accumulated + bucket) in
      if targetRank <=? accumulated then to_string bound
      else percentile_scan bounds buckets accumulated targetRank
  | _, _ => lit ">5000"
  end.

Definition target_rank (count : Z) (percentile : double) : Z :=
  wrap_u64 (dceil (dmul (of_u64 count) percentile)).

Definition EstimatePercentileBucketUs (snapshot : ServerMetricsSnapshot) (percentile : double) : bytes :=
  if commandLatencyCount snapshot =? 0 then lit "0" else
  let targetRank := target_rank (commandLatencyCount snapshot) percentile in
  percentile_scan upperBoundsUs (commandLatencyBuckets snapshot) 0 targetRank.

Definition stats_report (storeStats : InnerStats) (metrics : ServerMetricsSnapshot) : bytes :=
  let averageLatencyUs := AverageCommandLatencyMicroseconds metrics in
  let maximumLatencyUs := ddiv (of_u64 (commandLatencyMaximumNanoseconds metrics)) (of_u64 1000) in
  let p95UpperUs := EstimatePercentileBucketUs metrics (literal 95 100) in
  let p99UpperUs := EstimatePercentileBucketUs metrics (literal 99 100) in
  lit "+keys=" ++ to_string (st_keys storeStats) ++
  lit ",persistent=" ++ to_string (st_persistentKeys storeStats) ++
  lit ",expiring=" ++ to_string (st_expiringKeys storeStats) ++
  lit ",connections_active=" ++ to_string (activeConnections metrics) ++
  lit ",connections_accepted=" ++ to_string (acceptedConnections metrics) ++
  lit ",connections_closed=" ++ to_string (closedConnections metrics) ++
  lit ",bytes_received=" ++ to_string (bytesReceived metrics) ++
  lit ",bytes_sent=" ++ to_string (bytesSent metrics) ++
  lit ",frames_received=" ++ to_string (framesReceived metrics) ++
  lit ",commands=" ++ to_string (commandsProcessed metrics) ++
  lit ",command_errors=" ++ to_string (commandErrors metrics) ++
  lit ",protocol_errors=" ++ to_string (protocolErrors metrics) ++
  lit ",slow_clients=" ++ to_string (slowClientDisconnects metrics) ++
  lit ",read_pauses=" ++ to_string (readPauseTransitions metrics) ++
  lit ",read_resumes=" ++ to_string (readResumeTransitions metrics) ++
  lit ",expired_removed=" ++ to_string (expiredKeysRemoved metrics) ++
  lit ",max_pending_write_bytes=" ++ to_string (maximumPendingWriteBytes metrics) ++
  lit ",latency_avg_us=" ++ format_fixed2 averageLatencyUs ++
  lit ",latency_max_us=" ++ format_fixed2 maximumLatencyUs ++
  lit ",latency_p95_upper_us=" ++ p95UpperUs ++
  lit ",latency_p99_upper_us=" ++ p99UpperUs.

#[global] Arguments stats_report : simpl never.

Example literal_095 : literal 95 100 = S754_finite false 8556839292003942 (-53).
Proof. vm_compute. reflexivity. Qed.
Example literal_099 : literal 99 100 = S754_finite false 8917127262193582 (-53).
Proof. vm_compute. reflexivity. Qed.
Example rank_20 : target_rank 20 (literal 95 100) = 19.
Proof. vm_compute. reflexivity. Qed.
Example format_example : format_fixed2 (ddiv (of_u64 123456) (of_u64 1000)) = lit "123.46".
Proof. vm_compute. reflexivity. Qed.
