(* ===== verification/SubReactor.v ===== *)
(** * SubReactor: one event loop and its connections (net/sub_reactor.h, net/sub_reactor.cpp)

    The handlers of a connection run in the reactor's thread; they share the
    store and the metrics with the other threads and the poller with nobody. The
    calls that the other threads make on the store are inputs: they come before
    the requests, each of which takes the lock of the store once.
    A [Connection&] is the component [x_conn] of the state the handlers run on,
    and is put back into [m_clients] by the event loop. System calls are
    modelled by what they answer; logging is left out. *)

From S2P Require Import Prelude PriorityQueue KVStore KVStoreSpec FrameCodec CommandParser CommandExecutor OutputBuffer ServerMetrics StatsReport Poller.
#[local] Open Scope Z_scope.

(** ** Options and state (common/server_info.h) *)

Record NetworkOptions := mkNetworkOptions {
  maxReadBufferBytes : Z;
  writeHighWatermarkBytes : Z;
  writeLowWatermarkBytes : Z;
  writeHardLimitBytes : Z;
  maxWriteBytesPerEvent : Z;
  maxAcceptsPerEvent : Z;
}.

Definition NetworkOptions_default : NetworkOptions :=
  mkNetworkOptions (1024 * 1024 + 4) (1024 * 1024) (512 * 1024) (4 * 1024 * 1024) (64 * 1024) 64.

Inductive ServerState := Created | Running | Draining | Stopped.

#[export] Instance ServerState_eq_dec : EqDecision ServerState.
Proof. solve_decision. Defined.

Record Connection := mkConnection {
  fd : Z;
  readBuffer : bytes;
  writeBuffer : OutputBuffer;
  readPaused : bool;
  closeAfterWrite : bool;
  closed : bool;
  registeredEvents : IoEvent;
}.
#[export] Instance Connection_settable : Settable Connection := fun c =>
  {| fd := fd c; readBuffer := readBuffer c; writeBuffer := writeBuffer c;
     readPaused := readPaused c; closeAfterWrite := closeAfterWrite c; closed := closed c;
     registeredEvents := registeredEvents c |}.

(** The constructor and the default member initialisers. *)
Definition Connection_init (clientFd : Z) : Connection :=
  mkConnection clientFd [] OutputBuffer_init false false false IoEvent_None.

(** ** What the connection handlers work on *)

Record Ctx {Q P : Type} := mkCtx {
  x_store : KVStore Q;
  x_metrics : ServerMetrics;
  x_poller : P;
  x_conn : Connection;
}.
Arguments Ctx Q P : clear implicits.
Arguments mkCtx {Q P}.
#[export] Instance Ctx_settable {Q P} : Settable (Ctx Q P) := fun x =>
  {| x_store := x_store x; x_metrics := x_metrics x; x_poller := x_poller x; x_conn := x_conn x |}.

(** ** Answers of the socket calls *)

Definition EAGAIN : Z := 11.
Definition EWOULDBLOCK : Z := EAGAIN.

(** [recv]: the bytes available in the socket, empty at the end of the stream. *)
Abbreviation recv_answers := (list (syscall bytes)).
(** [send]: how many bytes the socket has room for. *)
Abbreviation send_answers := (list (syscall Z)).

(** What comes before a command: the calls that the other threads make on the
    shared store, with the clock they read; then the clock read by the store and
    the elapsed time measured, for the command itself. *)
Record turn := mkTurn {
  tn_others : list (TimePoint * kv_op);
  tn_tick : TimePoint * Z;
}.
Abbreviation ticks := (nat -> turn).

Section handlers.
Context {Q : Type} `{!PriorityQueue ExpirationRecord Q}.
Context {P : Type} `{!Poller P}.
Context (m_networkOptions : NetworkOptions).

Abbreviation H := (M (Ctx Q P)).

Definition conn_gets {A} (f : Connection -> A) : H A := gets (fun x => f (x_conn x)).
Definition conn_modify (f : Connection -> Connection) : H unit :=
  modify (fun x => x <| x_conn ::= f |>).
Definition metric (m : M ServerMetrics unit) : H unit := zoom x_metrics m.
(** A member call on [conn.writeBuffer]. *)
Definition write_buffer {A} (m : M OutputBuffer A) : H A :=
  zoom x_conn (zoom writeBuffer m).

Definition MarkClosed : H unit :=
  conn_modify (fun c => c <| closed := true |> <| readPaused := false |>
    <| closeAfterWrite := false |> <| readBuffer := [] |>);;
  write_buffer Clear.

Definition UpdateReadBackPressure : H unit :=
  conn ← conn_gets id;
  if closeAfterWrite conn || closed conn then mret tt else
  let pendingBytes := BufSize (writeBuffer conn) in
  if readPaused conn then
    when (pendingBytes <=? writeLowWatermarkBytes m_networkOptions) (
      conn_modify (fun c => c <| readPaused := false |>);;
      metric OnReadResumed)
  else
    when (writeHighWatermarkBytes m_networkOptions <=? pendingBytes) (
      conn_modify (fun c => c <| readPaused := true |>);;
      metric OnReadPaused).

Definition QueueResponse (response : bytes) : H bool :=
  encoded ← try_catch (frame ← Encode response; mret (Some frame)) (fun _ => mret None);
  match encoded with
  | None => MarkClosed;; mret false
  | Some frame =>
      pendingBytes ← conn_gets (fun c => BufSize (writeBuffer c));
      let hardLimit := writeHardLimitBytes m_networkOptions in
      if (hardLimit <? pendingBytes) || (wrap_u64 (hardLimit - pendingBytes) <? zlen frame) then
        metric OnSlowClientDisconnected;;
        MarkClosed;;
        mret false
      else
        write_buffer (Append frame);;
        size ← conn_gets (fun c => BufSize (writeBuffer c));
        metric (ObservePendingWriteBytes size);;
        UpdateReadBackPressure;;
        mret true
  end.

Definition RejectOversizedReadBuffer : H unit :=
  queued ← QueueResponse (lit "-ERR request buffer too large");
  if (queued : bool) then conn_modify (fun c => c <| closeAfterWrite := true |>)
  else MarkClosed.

Definition BuildStatsResponse : H bytes :=
  storeStats ← zoom x_store Stats;
  metrics ← zoom x_metrics Snapshot;
  mret (stats_report storeStats metrics).

(** [tick] is the clock the store reads and the elapsed time in nanoseconds. *)
Definition ProcessPayload (tick : TimePoint * Z) (payload : bytes) : H bool :=
  cmd ← lift (ParseCommand payload);
  metric OnCommandProcessed;;
  when (bool_decide (c_type cmd = CT_Unknown)) (metric OnCommandError);;
  response ← (if bool_decide (c_type cmd = CT_Stats) then BuildStatsResponse
              else zoom x_store (Execute tick.1 cmd));
  metric (RecordCommandLatency tick.2);;
  queued ← QueueResponse response;
  if negb queued then mret false else
  if bool_decide (c_type cmd = CT_Quit) then
    conn_modify (fun c => c <| closeAfterWrite := true |>);;
    mret false
  else mret true.

(** The other threads call the store, which takes its lock for each call. *)
Definition others_call (calls : list (TimePoint * kv_op)) : H unit :=
  zoom x_store (run_ops calls);; mret tt.

(** [for (const auto& payload : payloads) if (!ProcessPayload(conn, payload)) return;] *)
Fixpoint process_payloads (clock : ticks) (i : nat) (payloads : list bytes) : H unit :=
  match payloads with
  | [] => mret tt
  | payload :: payloads =>
      others_call (tn_others (clock i));;
      go_on ← ProcessPayload (tn_tick (clock i)) payload;
      if (go_on : bool) then process_payloads clock (S i) payloads else mret tt
  end.

(** [std::array<char, 16 * 1024> temp] *)
Definition READ_CHUNK : Z := 16 * 1024.

(** A decoder exception is caught; [None] is the [catch] branch. *)
Definition decode_received (data : bytes) : H (option (list bytes)) :=
  try_catch
    (payloads ← zoom x_conn (zoom readBuffer (Decode_data (Some data) (zlen data)));
     mret (Some payloads))
    (fun _ => mret None).

Definition HandleClientRead (clock : ticks) (answers : recv_answers) : H unit :=
  conn ← conn_gets id;
  if closed conn || readPaused conn || closeAfterWrite conn then mret tt else
  if maxReadBufferBytes m_networkOptions <=? zlen (readBuffer conn)
  then RejectOversizedReadBuffer else
  let availableBytes := wrap_u64 (maxReadBufferBytes m_networkOptions - zlen (readBuffer conn)) in
  let readSize := Z.min READ_CHUNK availableBytes in
  received ← lift (retry_eintr answers);
  match received with
  | inr errno =>
      if (errno =? EAGAIN) || (errno =? EWOULDBLOCK) then mret tt else MarkClosed
  | inl available =>
      let data := take (Z.to_nat readSize) available in
      if zlen data =? 0 then
        MarkClosed;;
        conn_modify (fun c => c <| readPaused := true |> <| closeAfterWrite := true |>);;
        empty ← conn_gets (fun c => Empty (writeBuffer c));
        when empty MarkClosed
      else
        metric (AddBytesReceived (zlen data));;
        decoded ← decode_received data;
        match decoded with
        | None =>
            metric OnProtocolError;;
            queued ← QueueResponse (lit "-ERR protocol error");
            when queued (conn_modify (fun c => c <| closeAfterWrite := true |>))
        | Some payloads =>
            metric (AddFramesReceived (zlen payloads));;
            process_payloads clock 0 payloads
        end
  end.

Definition HandleClientWrite (answers : send_answers) : H unit :=
  conn ← conn_gets id;
  if closed conn then mret tt else
  if Empty (writeBuffer conn) then
    UpdateReadBackPressure;;
    closing ← conn_gets closeAfterWrite;
    when closing MarkClosed
  else
    let bytesToWrite := Z.min (BufSize (writeBuffer conn)) (maxWriteBytesPerEvent m_networkOptions) in
    written ← lift (retry_eintr answers);
    match written with
    | inl room =>
        let written := Z.min room bytesToWrite in
        if 0 <? written then
          metric (AddBytesSent written);;
          write_buffer (Consume written);;
          UpdateReadBackPressure;;
          conn ← conn_gets id;
          when (Empty (writeBuffer conn) && closeAfterWrite conn) MarkClosed
        else MarkClosed
    | inr errno =>
        if (errno =? EAGAIN) || (errno =? EWOULDBLOCK) then mret tt else MarkClosed
    end.

Definition DesiredEvents (conn : Connection) : IoEvent :=
  if closed conn then IoEvent_None else
  let interests := IoEvent_None in
  let interests := if negb (readPaused conn) && negb (closeAfterWrite conn)
                   then IoEvent_or interests IoEvent_Read else interests in
  if negb (Empty (writeBuffer conn)) then IoEvent_or interests IoEvent_Write else interests.

Definition RefreshConnectionInterest : H unit :=
  conn ← conn_gets id;
  if closed conn then mret tt else
  UpdateReadBackPressure;;
  conn ← conn_gets id;
  if closeAfterWrite conn && Empty (writeBuffer conn) then MarkClosed else
  let desired := DesiredEvents conn in
  if desired =? IoEvent_None then MarkClosed else
  if desired =? registeredEvents conn then mret tt else
  zoom x_poller (poller_Modity (fd conn) desired);;
  conn_modify (fun c => c <| registeredEvents := desired |>).
End handlers.
