(* ===== verification/SubReactorInv.v ===== *)
(** * Connections: invariant and the effect of the handlers *)

From S2P Require Import Prelude PriorityQueue KVStore KVStoreInv KVStoreSpec FrameCodec CommandParser CommandGrammar CommandExecutor CommandTheorems RequestSpec OutputBuffer ServerMetrics MetricsTheorems StatsReport Poller SubReactor.
#[local] Open Scope Z_scope.

(** ** Options and connections *)

(** The relations between the limits that a valid configuration has. *)
Record options_ok (o : NetworkOptions) : Prop := mkOptionsOk {
  opt_read : 0 < maxReadBufferBytes o < 2 ^ 62;
  opt_low : 0 <= writeLowWatermarkBytes o;
  opt_high : writeLowWatermarkBytes o < writeHighWatermarkBytes o;
  opt_hard : writeHighWatermarkBytes o <= writeHardLimitBytes o < 2 ^ 62;
  opt_write : 0 < maxWriteBytesPerEvent o;
}.

(** What is still to be sent on a connection. *)
Definition pending (c : Connection) : bytes := Data (writeBuffer c).

Definition backpressure_ok (o : NetworkOptions) (c : Connection) : Prop :=
  if readPaused c then writeLowWatermarkBytes o < zlen (pending c)
  else zlen (pending c) < writeHighWatermarkBytes o.

(** The state [MarkClosed] leaves. *)
Definition closed_conn (c : Connection) : Connection :=
  mkConnection (fd c) [] OutputBuffer_init false false true (registeredEvents c).

Record ConnOK (o : NetworkOptions) (c : Connection) : Prop := mkConnOK {
  co_buffer : BufInv (writeBuffer c);
  co_pending : zlen (pending c) <= writeHardLimitBytes o;
  co_read : zlen (readBuffer c) <= maxReadBufferBytes o;
  co_closed : closed c = true -> c = closed_conn c;
  co_active : closed c = false -> closeAfterWrite c = false ->
    incomplete (readBuffer c) /\ backpressure_ok o c;
}.

Lemma closed_conn_ok o c : options_ok o -> ConnOK o (closed_conn c).
Proof.
  intros Ho. destruct Ho. split; try done.
  - exact BufInv_init.
  - change (zlen (pending (closed_conn c))) with 0. lia.
  - change (zlen (readBuffer (closed_conn c))) with 0. lia.
Qed.

Lemma Connection_init_ok o cfd : options_ok o -> ConnOK o (Connection_init cfd).
Proof.
  intros Ho. destruct Ho. split; try done.
  - exact BufInv_init.
  - change (zlen (pending (Connection_init cfd))) with 0. lia.
  - change (zlen (readBuffer (Connection_init cfd))) with 0. lia.
  - intros _ _. split; [by left|]. change (0 < writeHighWatermarkBytes o). lia.
Qed.

(** Room for a frame in the address space. *)
Lemma storage_room o b n :
  options_ok o -> BufInv b -> zlen (Data b) + n <= writeHardLimitBytes o -> 0 <= n ->
  zlen (m_storage b) + n < U64_MOD.
Proof.
  intros Ho HI Hn Hn0. destruct Ho as [_ _ _ [_ Hhard] _]. destruct (size_data b HI) as [_ Hd].
  destruct HI as [Hp Hin Hf Hg]. unfold COMPACT_THRESHOLD, U64_MOD in *.
  pose proof (Z.div_mod (zlen (m_storage b)) 2 ltac:(lia)).
  pose proof (Z.mod_pos_bound (zlen (m_storage b)) 2 ltac:(lia)). lia.
Qed.

(** ** Back pressure *)

(** What [UpdateReadBackPressure] makes of a connection. *)
Definition bp_conn (o : NetworkOptions) (c : Connection) : Connection :=
  if closeAfterWrite c || closed c then c else
  let n := zlen (pending c) in
  if readPaused c then (if n <=? writeLowWatermarkBytes o then c <| readPaused := false |> else c)
  else (if writeHighWatermarkBytes o <=? n then c <| readPaused := true |> else c).

Lemma bp_conn_same o c :
  pending (bp_conn o c) = pending c /\ writeBuffer (bp_conn o c) = writeBuffer c /\
  readBuffer (bp_conn o c) = readBuffer c /\ closed (bp_conn o c) = closed c /\
  closeAfterWrite (bp_conn o c) = closeAfterWrite c /\ fd (bp_conn o c) = fd c /\
  registeredEvents (bp_conn o c) = registeredEvents c.
Proof. unfold bp_conn, pending. by repeat case_match. Qed.

Lemma bp_conn_ok o c :
  options_ok o -> closed c = false -> closeAfterWrite c = false -> backpressure_ok o (bp_conn o c).
Proof.
  intros [_ Hlow Hhigh _ _] Hcl Hcw. destruct c as [f rb wb [] cw cl re]; cbn in Hcl, Hcw; subst;
    unfold bp_conn, backpressure_ok, pending; cbn.
  - destruct (Z.leb_spec (zlen (Data wb)) (writeLowWatermarkBytes o)); cbn; lia.
  - destruct (Z.leb_spec (writeHighWatermarkBytes o) (zlen (Data wb))); cbn; lia.
Qed.

(** A connection whose queue grew or shrank, put right by the back pressure. *)
Lemma bp_restores o c :
  options_ok o -> BufInv (writeBuffer c) -> zlen (pending c) <= writeHardLimitBytes o ->
  zlen (readBuffer c) <= maxReadBufferBytes o -> closed c = false ->
  (closeAfterWrite c = false -> incomplete (readBuffer c)) ->
  ConnOK o (bp_conn o c).
Proof.
  intros Ho Hb Hp Hr Hcl Hinc.
  destruct (bp_conn_same o c) as (Hpe & Hwb & Hrb & Hcl' & Hcw' & _ & _).
  split; rewrite ?Hpe, ?Hwb, ?Hrb, ?Hcl'; try done; [by rewrite Hcl|].
  rewrite Hcw'. intros _ Hcw. split; [by apply Hinc|by apply bp_conn_ok].
Qed.

Section effects.
Context {Q : Type} `{!PriorityQueue ExpirationRecord Q}.
Context {P : Type} `{!Poller P}.
Context (o : NetworkOptions).
Hypothesis Ho : options_ok o.

Lemma zoom_ret {S T A} (proj : S -> T) `{!Setter proj} (m : M T A) a t s :
  m (proj s) = (Ret a, t) -> zoom proj m s = (Ret a, s <| proj := t |>).
Proof. unfold zoom. by intros ->. Qed.

Lemma wp_metric (m : M ServerMetrics unit) (R : unit -> Ctx Q P -> Prop) E x c :
  (forall s, m s = exec_call c s) ->
  (forall m', R tt (x <| x_metrics := m' |>)) -> wp (metric m) R E x.
Proof.
  intros Hm HR. unfold wp, metric, zoom. rewrite Hm, exec_call_rmws. apply HR.
Qed.

Lemma markclosed_eq (x : Ctx Q P) : MarkClosed x = (Ret tt, x <| x_conn ::= closed_conn |>).
Proof. done. Qed.

Lemma wp_markclosed (R : unit -> Ctx Q P -> Prop) E x :
  R tt (x <| x_conn ::= closed_conn |>) -> wp MarkClosed R E x.
Proof. unfold wp. by rewrite markclosed_eq. Qed.

(** Only the metrics and the connection changed. *)
Definition with_conn (x : Ctx Q P) (m' : ServerMetrics) (c' : Connection) : Ctx Q P :=
  mkCtx (x_store x) m' (x_poller x) c'.

Lemma wp_backpressure (R : unit -> Ctx Q P -> Prop) E x :
  BufInv (writeBuffer (x_conn x)) ->
  (forall m', R tt (with_conn x m' (bp_conn o (x_conn x)))) ->
  wp (UpdateReadBackPressure o) R E x.
Proof.
  intros Hb HR. destruct x as [s m p c]. unfold with_conn, bp_conn in HR. cbn in HR, Hb.
  unfold UpdateReadBackPressure. apply wp_bind, wp_gets. cbn [x_conn id].
  destruct (size_data _ Hb) as [-> _]. unfold pending in HR.
  destruct (closeAfterWrite c || closed c); [apply wp_ret, (HR m)|].
  destruct (readPaused c); apply wp_when; intros Hc; rewrite Hc in HR; try apply (HR m);
    apply wp_bind, wp_modify.
  - apply (wp_metric _ _ _ _ CallReadResumed); [done|]. intros m'. apply HR.
  - apply (wp_metric _ _ _ _ CallReadPaused); [done|]. intros m'. apply HR.
Qed.

(** ** QueueResponse *)

(** The response is queued, or the client is too slow or the response too
    large and the connection is dropped. *)
Definition queued (c : Connection) (resp : bytes) (ok : bool) (c' : Connection) : Prop :=
  (ok = true /\ fits resp /\ zlen (pending c) + zlen (frame resp) <= writeHardLimitBytes o /\
   exists b', BufInv b' /\ Data b' = pending c ++ frame resp /\
              c' = bp_conn o (c <| writeBuffer := b' |>)) \/
  (ok = false /\ (MAX_FRAME_SIZE < zlen resp \/
                  writeHardLimitBytes o < zlen (pending c) + zlen (frame resp)) /\
   c' = closed_conn c).

Lemma wp_write_buffer {A} (m : M OutputBuffer A) a b' (R : A -> Ctx Q P -> Prop) E x :
  m (writeBuffer (x_conn x)) = (Ret a, b') ->
  R a (x <| x_conn ::= fun c => c <| writeBuffer := b' |> |>) -> wp (write_buffer m) R E x.
Proof.
  intros Hm HR. unfold wp, write_buffer.
  erewrite zoom_ret; [|by apply zoom_ret]. exact HR.
Qed.

Lemma encode_option resp (x : Ctx Q P) :
  zlen resp < U32_MOD ->
  try_catch (frame ← Encode resp; mret (Some frame)) (fun _ => mret None) x
  = (Ret (if zlen resp <=? MAX_FRAME_SIZE then Some (frame resp) else None), x).
Proof.
  intros Hlen. unfold try_catch. cbv [mbind M_bind]. pose proof (zlen_nonneg resp).
  destruct (Z.leb_spec (zlen resp) MAX_FRAME_SIZE).
  - by rewrite encode_ok.
  - by rewrite encode_too_large.
Qed.

Lemma queue_response_wp resp (x : Ctx Q P) :
  BufInv (writeBuffer (x_conn x)) -> zlen (pending (x_conn x)) <= writeHardLimitBytes o ->
  zlen resp < U32_MOD ->
  wp (QueueResponse o resp)
     (fun ok x' => exists m' c', x' = with_conn x m' c' /\ queued (x_conn x) resp ok c') no_fail x.
Proof.
  intros Hb Hp Hlen. destruct x as [s m p c]. cbn in Hb, Hp. unfold QueueResponse.
  apply wp_bind. unfold wp at 1. rewrite encode_option by done.
  destruct (Z.leb_spec (zlen resp) MAX_FRAME_SIZE) as [Hfit|Hbig].
  2: { apply wp_bind, wp_markclosed, wp_ret. exists m, (closed_conn c). split; [done|]. right. eauto. }
  apply wp_bind, wp_gets. cbn [x_conn]. destruct (size_data _ Hb) as [-> _].
  change (Data (writeBuffer c)) with (pending c).
  pose proof (opt_hard _ Ho) as Hh. pose proof (zlen_nonneg (pending c)).
  pose proof (zlen_nonneg resp). pose proof (zlen_frame resp) as Hf.
  rewrite wrap_u64_small by (unfold U64_MOD; lia).
  replace (writeHardLimitBytes o <? zlen (pending c)) with false by lia. cbn [orb].
  destruct (Z.ltb_spec (writeHardLimitBytes o - zlen (pending c)) (zlen (frame resp))) as [Hover|Hroom].
  - apply wp_bind, (wp_metric _ _ _ _ CallSlowClientDisconnected); [done|]. intros m'.
    apply wp_bind, wp_markclosed, wp_ret. exists m', (closed_conn c). split; [done|]. right.
    split_and!; try done. right. lia.
  - destruct (append_ok (writeBuffer c) (frame resp) Hb) as (b' & Hap & Hb' & Hd & _).
    { apply (storage_room o); [done|done|unfold pending in *; lia|apply zlen_nonneg]. }
    apply wp_bind, (wp_write_buffer _ tt b'); [done|]. apply wp_bind, wp_gets.
    apply wp_bind, (wp_metric _ _ _ _ (CallPendingWriteBytes (BufSize b'))); [done|]. intros m1.
    apply wp_bind, wp_backpressure; [done|]. intros m2. apply wp_ret.
    eexists m2, _. split; [reflexivity|]. left.
    split; [done|]. split; [done|]. split; [lia|]. by exists b'.
Qed.
End effects.
