(* ===== verification/SubReactorRequests.v ===== *)
(** * Requests on a connection: from received frames to queued answers *)

From Stdlib Require Import Floats.SpecFloat.
From S2P Require Import Prelude PriorityQueue KVStore KVStoreInv KVStoreSpec FrameCodec CommandParser CommandGrammar CommandExecutor CommandTheorems RequestSpec OutputBuffer ServerMetrics MetricsTheorems StatsReport Poller SubReactor SubReactorInv.
#[local] Open Scope Z_scope.

(** ** Sizes of reports *)

Lemma format_fixed2_length x : zlen (format_fixed2 x) <= 24.
Proof.
  unfold format_fixed2. set (h := match x with S754_finite _ _ _ => _ | _ => _ end).
  rewrite !zlen_app. pose proof (to_string_length (h / 100)).
  change (zlen (lit ".")) with 1. rewrite !zlen_cons, zlen_nil. lia.
Qed.

Lemma percentile_length bounds buckets acc rank :
  zlen (percentile_scan bounds buckets acc rank) <= 21.
Proof.
  revert buckets acc. induction bounds as [|b bounds IH]; intros [|x buckets] acc; cbn [percentile_scan];
    try (change (zlen (lit ">5000")) with 5; lia).
  destruct (rank <=? wrap_u64 (acc + x)); [apply to_string_length|apply IH].
Qed.

Lemma estimate_length s p : zlen (EstimatePercentileBucketUs s p) <= 21.
Proof.
  unfold EstimatePercentileBucketUs. destruct (commandLatencyCount s =? 0); [change (zlen (lit "0")) with 1; lia|].
  apply percentile_length.
Qed.

(** Compute the lengths of literals and bound those of numbers. *)
Ltac bound_text :=
  repeat match goal with
  | |- context [zlen (lit ?s)] =>
      let v := eval vm_compute in (zlen (lit s)) in change (zlen (lit s)) with v
  | |- context [zlen (to_string ?z)] =>
      let H := fresh in pose proof (to_string_length z) as H; revert H;
      generalize (zlen (to_string z)); intros ? ?
  end.

Lemma stats_report_fits st m : fits (stats_report st m).
Proof.
  unfold fits, stats_report. rewrite !zlen_app. bound_text.
  pose proof (format_fixed2_length (AverageCommandLatencyMicroseconds m)).
  pose proof (format_fixed2_length (ddiv (of_u64 (commandLatencyMaximumNanoseconds m)) (of_u64 1000))).
  pose proof (estimate_length m (literal 95 100)). pose proof (estimate_length m (literal 99 100)).
  unfold MAX_FRAME_SIZE. lia.
Qed.

(** ** The abstract server behind a connection *)

(** When the command of a turn is executed. *)
Definition turn_time (t : turn) : TimePoint := (tn_tick t).1.

(** One request: [STATS] is answered by the report, everything else as in
    [right_answer]. *)
Inductive server_step (now : TimePoint) (a : spec_map) (line : bytes) : bytes -> spec_map -> Prop :=
  | step_request r resp :
      denotes line r -> r <> ReqStats -> right_answer now a r resp ->
      server_step now a line resp (next_map now a r)
  | step_stats st m :
      denotes line ReqStats -> st_keys st = st_persistentKeys st + st_expiringKeys st ->
      Z.of_nat (size (prune now a)) <= st_keys st ->
      server_step now a line (stats_report st m) (prune now a)
  | step_unknown :
      (forall r, ~ denotes line r) ->
      server_step now a line (lit "-ERR unknown command") a.

(** A batch: before each request the other threads have called the store. *)
Inductive server_run (clock : ticks) : nat -> spec_map -> list bytes -> list bytes -> spec_map -> Prop :=
  | run_nil i a : server_run clock i a [] [] a
  | run_cons i a line lines resp resps a1 a2 :
      server_step (turn_time (clock i)) (spec_after (tn_others (clock i)) a) line resp a1 ->
      server_run clock (S i) a1 lines resps a2 ->
      server_run clock i a (line :: lines) (resp :: resps) a2.

Lemma server_step_fits now a line resp a' :
  server_step now a line resp a' -> small a -> fits line -> fits resp /\ small a'.
Proof.
  intros [r resp' Hr _ Hans|st m Hr _ _|Hno] Ha Hfit.
  - split; [by eapply right_answer_fits|by eapply small_next].
  - split; [apply stats_report_fits|by apply small_prune].
  - done.
Qed.

(** The values that other threads store came in frames too. *)
Definition op_small (op : kv_op) : Prop :=
  match op with OpSet _ v => zlen v + 6 <= MAX_FRAME_SIZE | _ => True end.

Lemma small_spec_op now op a : small a -> op_small op -> small (spec_op now op a).2.
Proof.
  intros Ha Hop. apply (small_prune now) in Ha as Hp.
  destruct op as [k v|k|k|k n|k| | |n]; cbn [spec_op snd]; try done.
  - by apply map_Forall_insert_2.
  - by apply map_Forall_delete.
  - destruct (prune now a !! k) as [[v t]|] eqn:Hk; [|done]. destruct (n <=? 0); [done|].
    apply map_Forall_insert_2; [|done]. by apply (Hp _ _ Hk).
Qed.

Lemma small_after h a : small a -> Forall (fun x => op_small x.2) h -> small (spec_after h a).
Proof.
  intros Ha Hh. revert a Ha. induction Hh as [|[t op] h Hop _ IH]; intros a Ha; [done|].
  cbn [spec_after]. by apply IH, small_spec_op.
Qed.

(** A turn after [now]: the clock that the store reads does not go back. *)
Record turn_ok (now : TimePoint) (t : turn) : Prop := mkTurnOk {
  tn_history : valid_history now (tn_others t);
  tn_before : Forall (fun x => x.1 <= turn_time t) (tn_others t);
  tn_small : Forall (fun x => op_small x.2) (tn_others t);
  tn_later : now <= turn_time t;
  tn_clock : clock_ok (turn_time t);
}.

Definition ticks_ok (now : TimePoint) (clock : ticks) (i : nat) : Prop :=
  forall j, (i <= j)%nat -> turn_ok now (clock j) /\
    forall k, (j < k)%nat -> turn_ok (turn_time (clock j)) (clock k).

Lemma ticks_ok_next now clock i : ticks_ok now clock i -> ticks_ok (turn_time (clock i)) clock (S i).
Proof.
  intros H j Hj. destruct (H j ltac:(lia)) as (_ & Hmono). split; [|done].
  destruct (H i ltac:(lia)) as (_ & Hi). apply Hi. lia.
Qed.

(** The calls on the store in [k] turns from the [i]-th on. *)
Fixpoint store_calls (clock : ticks) (i k : nat) : Z :=
  match k with
  | O => 0
  | S k => zlen (tn_others (clock i)) + 1 + store_calls clock (S i) k
  end.

Lemma store_calls_nonneg clock i k : 0 <= store_calls clock i k.
Proof.
  revert i. induction k as [|k IH]; intros i; cbn [store_calls]; [lia|].
  specialize (IH (S i)). pose proof (zlen_nonneg (tn_others (clock i))). lia.
Qed.

Lemma store_calls_mono clock i k k' : (k <= k')%nat -> store_calls clock i k <= store_calls clock i k'.
Proof.
  intros Hk. revert i k Hk. induction k' as [|k' IH]; intros i [|k] Hk; cbn [store_calls]; [lia|lia| |].
  - pose proof (store_calls_nonneg clock (S i) k'). pose proof (zlen_nonneg (tn_others (clock i))). lia.
  - specialize (IH (S i) k ltac:(lia)). lia.
Qed.

(** The others make at most [b] calls before a request. *)
Lemma store_calls_le clock b i k :
  (forall j, zlen (tn_others (clock j)) <= b) -> store_calls clock i k <= (b + 1) * Z.of_nat k.
Proof.
  intros Hb. revert i. induction k as [|k IH]; intros i; cbn [store_calls]; [lia|].
  specialize (IH (S i)). specialize (Hb i). lia.
Qed.

Section requests.
Context {Q : Type} `{!PriorityQueue ExpirationRecord Q}
  `{!PriorityQueueLaws ExpirationRecord Q ExpirationCompare}.
Context {P : Type} `{!Poller P}.
Context (o : NetworkOptions).
Hypothesis Ho : options_ok o.

(** The store is consistent and means the keys [a], whose values came in frames. *)
Definition StoreOK (n : Z) (now : TimePoint) (a : spec_map) (s : KVStore Q) : Prop :=
  Inv n now s /\ means now s a /\ small a.

(** The calls of the other threads. *)
Lemma others_wp n now t a (x : Ctx Q P) :
  StoreOK n now a (x_store x) -> turn_ok now t -> n + zlen (tn_others t) < U64_MOD ->
  wp (others_call (tn_others t))
     (fun _ x' => exists s' now', x' = x <| x_store := s' |> /\ now' <= turn_time t /\
        StoreOK (n + zlen (tn_others t)) now' (spec_after (tn_others t) a) s') no_fail x.
Proof.
  intros (HI & Hm & Hs) [Hh Hb Hsm Hl _] Hn. unfold others_call. apply wp_bind, wp_zoom.
  eapply wp_mono; [by apply (run_ops_correct (tn_others t) n now (x_store x) a)| |done].
  intros rs s' (_ & now' & HI' & Hm' & _ & Hhi). apply wp_ret. exists s', now'.
  split; [done|]. split; [by apply Hhi|]. split; [done|]. split; [done|]. by apply small_after.
Qed.

Lemma wp_metric_call (m : M ServerMetrics unit) c (R : unit -> Ctx Q P -> Prop) E x :
  (forall s, m s = exec_call c s) ->
  (forall m', R tt (with_conn x m' (x_conn x))) -> wp (metric m) R E x.
Proof. intros Hm HR. apply (wp_metric m R E x c Hm). exact HR. Qed.

(** Parsing and executing on the shared store, from [answer_correct]. *)
Lemma execute_wp n now0 now line cmd a (x : Ctx Q P) :
  ParseCommand line = Ret cmd ->
  StoreOK n now0 a (x_store x) -> now0 <= now -> clock_ok now -> n + 1 < U64_MOD -> fits line ->
  c_type cmd <> CT_Stats ->
  wp (zoom x_store (Execute now cmd))
     (fun resp x' => exists s' a', x' = x <| x_store := s' |> /\ StoreOK (n + 1) now a' s' /\
        server_step now a line resp a') no_fail x.
Proof.
  intros Hc (HI & Hm & Hsm) Hle Hclk Hn Hfit Hst.
  pose proof (answer_correct n now0 now line (x_store x) a HI Hle Hclk Hn Hm) as Hans.
  unfold wp, answer, lift in Hans. cbv [mbind M_bind] in Hans. rewrite Hc in Hans.
  unfold wp, zoom. destruct (Execute now cmd (x_store x)) as [[resp|f] s']; [|done].
  destruct Hans as [HI' [(r & Hr & Hresp & Hm')|(Hno & -> & Hm')]].
  - exists s', (next_map now a r).
    assert (server_step now a line resp (next_map now a r)) as Hstep.
    { constructor; try done. intros ->. apply parse_complete in Hr.
      rewrite Hc in Hr. injection Hr as ->. by apply Hst. }
    split; [done|]. split; [|done]. split; [done|]. split; [done|].
    by apply (server_step_fits _ _ _ _ _ Hstep).
  - exists s', a. split; [done|]. split; [done|]. by constructor.
Qed.

Lemma stats_wp n now0 now line a (x : Ctx Q P) :
  denotes line ReqStats ->
  StoreOK n now0 a (x_store x) -> now0 <= now -> n + 1 < U64_MOD ->
  wp BuildStatsResponse
     (fun resp x' => exists a', x' = x /\ StoreOK (n + 1) now a' (x_store x) /\
        server_step now a line resp a') no_fail x.
Proof.
  intros Hr (HI & Hm & Hsm) Hle Hn. unfold BuildStatsResponse.
  assert (Inv (n + 1) now (x_store x)) as HI' by (eapply Inv_mono; [| |exact HI]; lia).
  apply (means_later now0 now) in Hm; [|done].
  apply wp_bind. eapply wp_intro; [by apply zoom_ret|]. apply wp_bind.
  eapply wp_intro; [by apply zoom_ret|]. apply wp_ret. exists (prune now a).
  destruct x as [s m p c]. cbn in *. split; [done|].
  pose proof (count_if_total (m_data s)) as Htot. pose proof (inv_size _ _ _ HI) as Hsz.
  pose proof (inv_persistent _ _ _ HI) as Hpk. pose proof (inv_expiring _ _ _ HI) as Hek.
  split.
  - split_and!; [done| |by apply small_prune]. unfold means. by rewrite prune_prune.
  - apply step_stats; [done|cbn|cbn]; rewrite Hpk, Hek, wrap_u64_small by lia; [lia|].
    rewrite Hm. pose proof (view_size now (m_data s)). lia.
Qed.

(** The state after a payload was answered with [resp]. *)
Definition payload_effect (c : Connection) (line resp : bytes) (go_on : bool) (c' : Connection) : Prop :=
  (go_on = true /\ ~ denotes line ReqQuit /\ queued o c resp true c') \/
  (go_on = false /\ denotes line ReqQuit /\
   exists c1, queued o c resp true c1 /\ c' = c1 <| closeAfterWrite := true |>) \/
  (go_on = false /\ queued o c resp false c').

Lemma parse_type line cmd :
  ParseCommand line = Ret cmd ->
  (c_type cmd = CT_Quit <-> denotes line ReqQuit) /\ (c_type cmd = CT_Stats -> denotes line ReqStats).
Proof.
  intros Hc. destruct (parse_sound line) as (c & Hc' & Hor). rewrite Hc in Hc'.
  injection Hc' as <-. split; [split|].
  - intros Ht. destruct Hor as [->|(r & Hr & ->)]; [done|]. by destruct r.
  - intros Hq%parse_complete. rewrite Hc in Hq. by injection Hq as ->.
  - intros Ht. destruct Hor as [->|(r & Hr & ->)]; [done|]. by destruct r.
Qed.

Lemma process_payload_wp n now0 tick line a (x : Ctx Q P) :
  StoreOK n now0 a (x_store x) -> now0 <= tick.1 -> clock_ok tick.1 -> n + 1 < U64_MOD -> fits line ->
  BufInv (writeBuffer (x_conn x)) -> zlen (pending (x_conn x)) <= writeHardLimitBytes o ->
  wp (ProcessPayload o tick line)
     (fun go_on x' => exists s' a' m' c' resp, x' = mkCtx s' m' (x_poller x) c' /\
        StoreOK (n + 1) tick.1 a' s' /\ server_step tick.1 a line resp a' /\
        payload_effect (x_conn x) line resp go_on c') no_fail x.
Proof.
  intros HS Hle Hclk Hn Hfit Hb Hp. destruct x as [s m p c]. cbn in HS, Hb, Hp.
  destruct (parse_sound line) as (cmd & Hc & _). unfold ProcessPayload.
  apply wp_bind. eapply wp_intro; [by unfold lift; rewrite Hc|].
  apply wp_bind, (wp_metric_call _ CallCommandProcessed); [done|]. intros m1.
  apply wp_bind. eapply (wp_mono _ (fun _ x' => exists m2, x' = mkCtx s m2 p c) _ no_fail no_fail).
  { apply wp_when; intros _; [|by eexists].
    apply (wp_metric_call _ CallCommandError); [done|]. intros m2. by eexists. }
  2: done.
  intros _ _ [m2 ->]. apply wp_bind.
  eapply (wp_mono _ (fun resp x' => exists s' a', x' = mkCtx s' m2 p c /\
    StoreOK (n + 1) tick.1 a' s' /\ server_step tick.1 a line resp a') _ no_fail no_fail).
  { case_bool_decide as Hst.
    - eapply wp_mono; [eapply (stats_wp n now0 tick.1 line a); try done;
        by apply (parse_type _ _ Hc)| |done].
      intros resp x' (a' & -> & HS' & Hstep). by exists s, a'.
    - eapply wp_mono; [by eapply (execute_wp n now0 tick.1 line cmd a)| |done].
      intros resp x' (s' & a' & -> & HS' & Hstep). by exists s', a'. }
  2: done.
  intros resp _ (s' & a' & -> & HS' & Hstep).
  assert (zlen resp < U32_MOD) as Hresp.
  { apply fits_u32. destruct HS as (_ & _ & Hsm). by eapply server_step_fits. }
  apply wp_bind, (wp_metric_call _ (CallCommandLatency tick.2)); [done|]. intros m3. apply wp_bind.
  eapply wp_mono; [by apply (queue_response_wp o Ho)| |done].
  intros ok x' (m4 & c' & -> & Hq). destruct ok; cbn [negb].
  2: { apply wp_ret. exists s', a', m4, c', resp. split_and!; try done. by right; right. }
  pose proof (parse_type _ _ Hc) as [Hquit _]. case_bool_decide as Ht.
  - apply wp_bind, wp_modify, wp_ret. eexists s', a', m4, _, resp. split; [reflexivity|].
    split_and!; try done. right; left. split_and!; [done|by apply Hquit|]. by exists c'.
  - apply wp_ret. exists s', a', m4, c', resp. split_and!; try done. left.
    split_and!; [done|by rewrite <-Hquit|done].
Qed.

(** ** A batch of requests *)

(** A connection that can take requests. *)
Record Taking (c : Connection) : Prop := mkTaking {
  tk_buffer : BufInv (writeBuffer c);
  tk_pending : zlen (pending c) <= writeHardLimitBytes o;
  tk_open : closed c = false;
  tk_stay : closeAfterWrite c = false;
  tk_pressure : backpressure_ok o c;
}.

(** Everything but the send queue and the back-pressure flag is as before. *)
Definition same_conn (c c' : Connection) : Prop :=
  fd c' = fd c /\ registeredEvents c' = registeredEvents c /\ readBuffer c' = readBuffer c /\
  closed c' = closed c.

(** What became of the connection after answering [lines] with [resps], [rest]
    being left unanswered: it is gone when the answers do not fit under the hard
    limit; otherwise they are queued in order, and requests are left only after
    a [QUIT], which makes the connection close once the queue is sent. *)
Definition batch_effect (c : Connection) (lines rest resps : list bytes) (c' : Connection) : Prop :=
  (writeHardLimitBytes o < zlen (pending c ++ frames resps) /\ c' = closed_conn c) \/
  (zlen (pending c ++ frames resps) <= writeHardLimitBytes o /\ same_conn c c' /\
   BufInv (writeBuffer c') /\ pending c' = pending c ++ frames resps /\
   ((rest = [] /\ closeAfterWrite c' = false /\ backpressure_ok o c' /\
     Forall (fun l => ~ denotes l ReqQuit) lines) \/
    (closeAfterWrite c' = true /\ exists before quit, lines = before ++ [quit] /\
       denotes quit ReqQuit /\ Forall (fun l => ~ denotes l ReqQuit) before))).

Lemma queued_true c resp c' :
  Taking c -> queued o c resp true c' ->
  Taking c' /\ same_conn c c' /\ pending c' = pending c ++ frame resp /\
  zlen (pending c ++ frame resp) <= writeHardLimitBytes o.
Proof.
  intros [Hb Hp Hcl Hcw Hbp] [(_ & _ & Hroom & b' & Hb' & Hd & ->)|(? & _)]; [|done].
  destruct (bp_conn_same o (c <| writeBuffer := b' |>)) as (Hpe & Hwb & Hrb & Hcl' & Hcw' & Hfd & Hre).
  rewrite zlen_app. split_and!; [split| |by rewrite Hpe|done].
  - by rewrite Hwb.
  - rewrite Hpe. change (pending (c <| writeBuffer := b' |>)) with (Data b'). by rewrite Hd, zlen_app.
  - by rewrite Hcl'.
  - by rewrite Hcw'.
  - by apply bp_conn_ok.
  - split_and!; [by rewrite Hfd|by rewrite Hre|by rewrite Hrb|by rewrite Hcl'].
Qed.

Lemma closed_conn_same c c' : same_conn c c' -> closed_conn c' = closed_conn c.
Proof. intros (Hfd & Hre & _). unfold closed_conn. by rewrite Hfd, Hre. Qed.

Lemma batch_step c c1 line resp lines rest resps c' :
  Taking c -> queued o c resp true c1 -> ~ denotes line ReqQuit ->
  batch_effect c1 lines rest resps c' ->
  batch_effect c (line :: lines) rest (resp :: resps) c'.
Proof.
  intros Hc Hq Hnq Heff. destruct (queued_true _ _ _ Hc Hq) as (_ & Hsame & Hpe & _).
  assert (pending c ++ frames (resp :: resps) = pending c1 ++ frames resps) as Heq.
  { rewrite Hpe. unfold frames. cbn. by rewrite app_assoc. }
  unfold batch_effect. rewrite Heq. destruct Heff as [[Hover ->]|(Hfit & Hs & Hb & Hp & Hend)].
  - left. split; [done|]. by apply closed_conn_same.
  - right. split_and!; try done.
    { destruct Hs as (? & ? & ? & ?), Hsame as (? & ? & ? & ?). split_and!; congruence. }
    destruct Hend as [(-> & ? & ? & Hall)|(? & before & quit & -> & ? & ?)]; [left|right].
    + split_and!; try done. by constructor.
    + split; [done|]. exists (line :: before), quit. split_and!; try done. by constructor.
Qed.

Lemma process_payloads_wp clock i payloads n now a (x : Ctx Q P) :
  StoreOK n now a (x_store x) -> ticks_ok now clock i ->
  n + store_calls clock i (length payloads) < U64_MOD ->
  Forall fits payloads -> Taking (x_conn x) ->
  wp (process_payloads o clock i payloads)
     (fun _ x' => exists lines rest resps a' now' s' m' c',
        payloads = lines ++ rest /\ x' = mkCtx s' m' (x_poller x) c' /\
        now <= now' /\ StoreOK (n + store_calls clock i (length payloads)) now' a' s' /\
        server_run clock i a lines resps a' /\
        (now' = now \/ exists j, now' = turn_time (clock j)) /\
        batch_effect (x_conn x) lines rest resps c') no_fail x.
Proof.
  revert i n now a x. induction payloads as [|line payloads IH];
    intros i n now a x HS Ht Hn Hfit Hc; cbn [process_payloads].
  - apply wp_ret. exists [], [], [], a, now, (x_store x), (x_metrics x), (x_conn x).
    cbn [length store_calls]. rewrite Z.add_0_r. destruct x as [s m p c]. cbn in *.
    split_and!; try done; [constructor|by left|].
    right. unfold frames. cbn. rewrite app_nil_r. destruct Hc. split_and!; try done. by left.
  - inversion Hfit as [|? ? Hline Hfit']; subst. cbn [length store_calls] in *.
    pose proof (store_calls_nonneg clock (S i) (length payloads)). pose proof (zlen_nonneg (tn_others (clock i))).
    destruct (Ht i) as [Hturn _]; [done|].
    apply wp_bind. eapply wp_mono; [by eapply (others_wp n now (clock i) a x); [| |lia]| |done].
    intros _ _ (s0 & now0 & -> & Hnow0 & HS0).
    destruct x as [s m p c]. cbn in Hc. change ((mkCtx s m p c) <| x_store := s0 |>) with (mkCtx s0 m p c).
    apply wp_bind. eapply wp_mono; [eapply (process_payload_wp _ now0 (tn_tick (clock i)) line _ (mkCtx s0 m p c));
      [exact HS0|exact Hnow0|apply Hturn|lia|exact Hline|apply Hc|apply Hc]| |done].
    intros go_on _ (s1 & a1 & m1 & c1 & resp & -> & HS1 & Hstep & Heff). cbn [x_conn x_poller] in *.
    change ((tn_tick (clock i)).1) with (turn_time (clock i)) in *. pose proof (tn_later _ _ Hturn).
    set (n1 := n + zlen (tn_others (clock i)) + 1) in *.
    replace (n + (zlen (tn_others (clock i)) + 1 + store_calls clock (S i) (length payloads)))
      with (n1 + store_calls clock (S i) (length payloads)) in * by lia.
    assert (StoreOK (n1 + store_calls clock (S i) (length payloads)) (turn_time (clock i)) a1 s1) as HSn.
    { destruct HS1 as (HI & Hm1 & Hs1). split; [|done].
      eapply (Inv_mono n1); [|reflexivity|exact HI]. lia. }
    destruct Heff as [(-> & Hnq & Hq)|[(-> & Hquit & c2 & Hq & ->)|(-> & Hq)]].
    + eapply wp_mono; [apply (IH (S i) n1 (turn_time (clock i)) a1); cbn; try done;
        [by eapply ticks_ok_next|by apply (queued_true _ _ _ Hc Hq)]| |done].
      intros _ _ (lines & rest & resps & a' & now' & s' & m' & c' & -> & -> & Hle' & HS' & Hrun
        & Hj & Hb). cbn in Hb.
      exists (line :: lines), rest, (resp :: resps), a', now', s', m', c'.
      split_and!; try done; [lia|by eapply run_cons| |by eapply batch_step].
      right. destruct Hj as [->|?]; [by exists i|done].
    + apply wp_ret. exists [line], payloads, [resp], a1, (turn_time (clock i)). eexists s1, m1, _.
      split_and!; try done; [by eapply run_cons; [|constructor]|by right; exists i|].
      destruct (queued_true _ _ _ Hc Hq) as ([] & Hsame & Hpe & Hfits). right.
      assert (frames [resp] = frame resp) as -> by (unfold frames; cbn; by rewrite app_nil_r).
      split_and!; try done. right. split; [done|]. exists [], line. split_and!; try done.
    + apply wp_ret. exists [line], payloads, [resp], a1, (turn_time (clock i)). eexists s1, m1, _.
      split_and!; try done; [by eapply run_cons; [|constructor]|by right; exists i|].
      destruct Hq as [(? & _)|(_ & Hor & ->)]; [done|]. left. split; [|done].
      assert (frames [resp] = frame resp) as -> by (unfold frames; cbn; by rewrite app_nil_r).
      rewrite zlen_app. destruct Hor as [Hbig|Hover]; [|lia]. exfalso.
      destruct HS0 as (_ & _ & Hsm).
      destruct (server_step_fits _ _ _ _ _ Hstep Hsm Hline) as [Hf _]. unfold fits in Hf. lia.
Qed.
End requests.
