(* ===== verification/SubReactorHandlers.v ===== *)
(** * The event handlers of a connection *)

From S2P Require Import Prelude PriorityQueue KVStore KVStoreInv KVStoreSpec FrameCodec CommandParser CommandGrammar CommandExecutor CommandTheorems RequestSpec OutputBuffer ServerMetrics MetricsTheorems StatsReport Poller SubReactor SubReactorInv SubReactorRequests.
#[local] Open Scope Z_scope.

Section handlers_ok.
Context {Q : Type} `{!PriorityQueue ExpirationRecord Q}
  `{!PriorityQueueLaws ExpirationRecord Q ExpirationCompare}.
Context {P : Type} `{!Poller P}.
Context (o : NetworkOptions).
Hypothesis Ho : options_ok o.

(** ** Reading *)

(** The bytes one [recv] delivers. *)
Definition received (c : Connection) (available : bytes) : bytes :=
  take (Z.to_nat (Z.min READ_CHUNK (maxReadBufferBytes o - zlen (readBuffer c)))) available.

Definition reading (c : Connection) : bool :=
  negb (closed c || readPaused c || closeAfterWrite c).

(** The error response is queued and the connection closes after it, or it does
    not fit and the connection is closed. *)
Definition rejected (c : Connection) (resp : bytes) (c' : Connection) : Prop :=
  (zlen (pending c ++ frame resp) <= writeHardLimitBytes o /\ same_conn c c' /\
   BufInv (writeBuffer c') /\ pending c' = pending c ++ frame resp /\ closeAfterWrite c' = true) \/
  (writeHardLimitBytes o < zlen (pending c ++ frame resp) /\ c' = closed_conn c).

(** What reading does to a connection that reads, for each answer of [recv];
    [run] says how the requests found were served. *)
Definition read_effect (run : list bytes -> list bytes -> Prop) (c : Connection)
    (answer : bytes + Z) (c' : Connection) : Prop :=
  if maxReadBufferBytes o <=? zlen (readBuffer c)
  then rejected c (lit "-ERR request buffer too large") c' else
  match answer with
  | inr errno => c' = if errno =? EAGAIN then c else closed_conn c
  | inl available =>
      let data := received c available in
      if bool_decide (data = []) then c' = closed_conn c else
      match Decode (readBuffer c ++ data) with
      | (Fail _, rest) => rejected (c <| readBuffer := rest |>) (lit "-ERR protocol error") c'
      | (Ret payloads, rest) => exists lines left resps,
          payloads = lines ++ left /\ run lines resps /\
          batch_effect o (c <| readBuffer := rest |>) lines left resps c'
      end
  end.

Lemma rejected_ok c resp c' :
  zlen (readBuffer c) <= maxReadBufferBytes o -> closed c = false -> rejected c resp c' -> ConnOK o c'.
Proof.
  intros Hr Hcl [(Hfit & (_ & _ & Hrb & Hcl') & Hb & Hp & Hcw)|(_ & ->)].
  2: by apply closed_conn_ok.
  split; rewrite ?Hp, ?Hrb; try done; [rewrite Hcl', Hcl; done|].
  rewrite Hcw. done.
Qed.

Lemma queue_reject resp c (x : Ctx Q P) :
  x_conn x = c -> Taking o c \/ (BufInv (writeBuffer c) /\ zlen (pending c) <= writeHardLimitBytes o
    /\ closed c = false /\ closeAfterWrite c = false /\ backpressure_ok o c) -> fits resp ->
  wp (QueueResponse o resp)
     (fun ok x' => exists m' c1, x' = with_conn x m' c1 /\
        if (ok : bool) then rejected c resp (c1 <| closeAfterWrite := true |>)
        else writeHardLimitBytes o < zlen (pending c ++ frame resp) /\ c1 = closed_conn c) no_fail x.
Proof.
  intros Hx Htk Hfit. assert (Taking o c) as Hc by (destruct Htk as [?|(? & ? & ? & ? & ?)]; [done|by split]).
  eapply wp_mono; [apply (queue_response_wp o Ho);
    [rewrite Hx; apply Hc|rewrite Hx; apply Hc|by apply fits_u32]| |done].
  rewrite Hx. intros ok x' (m' & c1 & -> & Hq). exists m', c1. split; [done|]. destruct ok.
  - destruct (queued_true o Ho _ _ _ Hc Hq) as ([] & Hs & Hp & Hr). left.
    split_and!; try done; apply Hs.
  - destruct Hq as [(? & _)|(_ & Hor & ->)]; [done|]. split; [|done]. rewrite zlen_app.
    destruct Hor as [Hbig|]; [|done]. unfold fits in Hfit. lia.
Qed.

Lemma decode_received_eq data (x : Ctx Q P) :
  exists ps rest, readBuffer (x_conn x) ++ data = frames ps ++ rest /\ Forall fits ps /\
    ((incomplete rest /\ Decode (readBuffer (x_conn x) ++ data) = (Ret ps, rest) /\
      decode_received data x = (Ret (Some ps), x <| x_conn ::= fun c => c <| readBuffer := rest |> |>)) \/
     (Decode (readBuffer (x_conn x) ++ data) = (Fail frame_too_large, rest) /\
      decode_received data x = (Ret None, x <| x_conn ::= fun c => c <| readBuffer := rest |> |>))).
Proof.
  destruct x as [s m p c]. cbn [x_conn].
  destruct (decode_split (readBuffer c ++ data)) as (ps & rest & Hb & Hfit & Hor).
  exists ps, rest. split; [done|]. split; [done|].
  assert (Decode_data (Some data) (zlen data) (readBuffer c) = Decode (readBuffer c ++ data)) as Hd
    by apply decode_data_append.
  destruct Hor as [[Hinc Hdec]|[_ Hdec]]; [left|right]; split_and!; try done;
    rewrite Hdec in Hd; unfold decode_received, try_catch;
    cbv [mbind M_bind zoom]; cbn [x_conn readBuffer]; rewrite Hd; done.
Qed.

Lemma frames_count ps : 4 * zlen ps <= zlen (frames ps).
Proof.
  induction ps as [|p ps IH]; [done|]. unfold frames in *. cbn [fmap list_fmap concat].
  rewrite zlen_cons, zlen_app, zlen_frame. pose proof (zlen_nonneg p). unfold HEADER_SIZE. lia.
Qed.

Lemma received_bound c available :
  zlen (readBuffer c) < maxReadBufferBytes o ->
  zlen (readBuffer c ++ received c available) <= maxReadBufferBytes o.
Proof.
  intros Hlt. unfold received. rewrite zlen_app. unfold zlen at 2. rewrite length_take.
  unfold READ_CHUNK. lia.
Qed.

(** The state a handler leaves: the poller and the descriptor are untouched. *)
Definition handled (x : Ctx Q P) (s' : KVStore Q) (m' : ServerMetrics) (c' : Connection)
    (x' : Ctx Q P) : Prop :=
  x' = mkCtx s' m' (x_poller x) c'.

(** [HandleClientRead] up to the loop over the payloads, which it returns. *)
Definition receive (answers : recv_answers) : M (Ctx Q P) (list bytes) :=
  conn ← conn_gets id;
  if closed conn || readPaused conn || closeAfterWrite conn then mret [] else
  if maxReadBufferBytes o <=? zlen (readBuffer conn)
  then RejectOversizedReadBuffer o;; mret [] else
  let availableBytes := wrap_u64 (maxReadBufferBytes o - zlen (readBuffer conn)) in
  let readSize := Z.min READ_CHUNK availableBytes in
  received ← lift (retry_eintr answers);
  match received with
  | inr errno =>
      if (errno =? EAGAIN) || (errno =? EWOULDBLOCK) then mret [] else MarkClosed;; mret []
  | inl available =>
      let data := take (Z.to_nat readSize) available in
      if zlen data =? 0 then
        MarkClosed;;
        conn_modify (fun c => c <| readPaused := true |> <| closeAfterWrite := true |>);;
        empty ← conn_gets (fun c => Empty (writeBuffer c));
        when empty MarkClosed;;
        mret []
      else
        metric (AddBytesReceived (zlen data));;
        decoded ← decode_received data;
        match decoded with
        | None =>
            metric OnProtocolError;;
            queued ← QueueResponse o (lit "-ERR protocol error");
            when queued (conn_modify (fun c => c <| closeAfterWrite := true |>));;
            mret []
        | Some payloads =>
            metric (AddFramesReceived (zlen payloads));;
            mret payloads
        end
  end.

Lemma bind_assoc {S A B C} (m : M S A) (f : A -> M S B) (g : B -> M S C) s :
  (y ← (x ← m; f x); g y) s = (x ← m; y ← f x; g y) s.
Proof. cbv [mbind M_bind]. by destruct (m s) as [[a|e] s']. Qed.

Lemma bind_ext {S A B} (m : M S A) (f g : A -> M S B) s :
  (forall a s', f a s' = g a s') -> (x ← m; f x) s = (x ← m; g x) s.
Proof. intros H. cbv [mbind M_bind]. by destruct (m s) as [[a|e] s']. Qed.

Lemma bind_unit {S} (m : M S unit) s : m s = (m;; mret tt) s.
Proof. cbv [mbind M_bind mret M_ret]. by destruct (m s) as [[[]|e] s']. Qed.

(** The handler is the reception followed by the loop. *)
Lemma read_split clock answers (x : Ctx Q P) :
  HandleClientRead o clock answers x = (ps ← receive answers; process_payloads o clock 0 ps) x.
Proof.
  unfold HandleClientRead, receive. rewrite bind_assoc. apply bind_ext. clear x. intros c x.
  destruct (closed c || readPaused c || closeAfterWrite c); [done|].
  destruct (maxReadBufferBytes o <=? zlen (readBuffer c)).
  { by rewrite bind_assoc, bind_unit. }
  cbn zeta. rewrite bind_assoc. apply bind_ext. clear x. intros [available|errno] x.
  2: { destruct (_ || _); [done|]. by rewrite bind_assoc, bind_unit. }
  destruct (zlen _ =? 0).
  { do 3 (rewrite bind_assoc; apply bind_ext; intros). by rewrite bind_assoc, bind_unit. }
  do 2 (rewrite bind_assoc; apply bind_ext; intros). destruct a0 as [ps|]; rewrite bind_assoc.
  - by apply bind_ext.
  - apply bind_ext; intros. rewrite bind_assoc. apply bind_ext; intros. by rewrite bind_assoc, bind_unit.
Qed.

(** What one [recv] does to a connection that reads; [ps] are the complete
    payloads found. *)
Definition receive_effect (c : Connection) (answer : bytes + Z) (ps : list bytes) (c' : Connection) : Prop :=
  if maxReadBufferBytes o <=? zlen (readBuffer c)
  then ps = [] /\ rejected c (lit "-ERR request buffer too large") c' else
  match answer with
  | inr errno => ps = [] /\ c' = if errno =? EAGAIN then c else closed_conn c
  | inl available =>
      let data := received c available in
      if bool_decide (data = []) then ps = [] /\ c' = closed_conn c else
      match Decode (readBuffer c ++ data) with
      | (Fail _, rest) => ps = [] /\ rejected (c <| readBuffer := rest |>) (lit "-ERR protocol error") c'
      | (Ret payloads, rest) => ps = payloads /\ c' = c <| readBuffer := rest |>
      end
  end.

Lemma reading_open c : reading c = true -> closed c = false /\ readPaused c = false /\ closeAfterWrite c = false.
Proof. unfold reading. by destruct (closed c), (readPaused c), (closeAfterWrite c). Qed.

Lemma receive_wp answers answer (x : Ctx Q P) :
  ConnOK o (x_conn x) -> retry_eintr answers = Ret answer -> reading (x_conn x) = true ->
  wp (receive answers)
     (fun ps x' => exists m' c', handled x (x_store x) m' c' x' /\ receive_effect (x_conn x) answer ps c') no_fail x.
Proof.
  intros Hc Hans Hrd. destruct x as [s m p c]. cbn in Hc, Hrd.
  destruct (reading_open c Hrd) as (Hcl & Hrp & Hcw). destruct (co_active _ _ Hc Hcl Hcw) as [Hinc Hbp].
  assert (Taking o c) as Htk by (split; try done; apply Hc).
  unfold receive. apply wp_bind, wp_gets. cbn [x_conn id]. rewrite Hcl, Hrp, Hcw. cbn [orb].
  unfold receive_effect. cbn [x_conn].
  destruct (Z.leb_spec (maxReadBufferBytes o) (zlen (readBuffer c))) as [Hfull|Hroom].
  { unfold RejectOversizedReadBuffer. apply wp_bind, wp_bind.
    eapply wp_mono; [apply (queue_reject _ c); [done|by left|done]| |done].
    intros ok x' (m' & c1 & -> & Hq). destruct ok.
    - apply wp_modify, wp_ret. by eexists m', _.
    - destruct Hq as [Hover ->]. apply wp_markclosed, wp_ret. eexists m', _. split; [reflexivity|].
      split; [done|]. by right. }
  apply wp_bind. eapply wp_intro; [unfold lift; by rewrite Hans|].
  destruct answer as [available|errno].
  2: { change (errno =? EWOULDBLOCK) with (errno =? EAGAIN). rewrite orb_diag.
       destruct (errno =? EAGAIN); [apply wp_ret|apply wp_bind, wp_markclosed, wp_ret]; by eexists m, _. }
  rewrite wrap_u64_small by (destruct Ho; pose proof (zlen_nonneg (readBuffer c)); unfold U64_MOD; lia).
  fold (received c available). set (data := received c available).
  case_bool_decide as Hdata.
  { rewrite Hdata. cbn [zlen length Z.of_nat Z.eqb]. apply wp_bind, wp_markclosed.
    apply wp_bind, wp_modify, wp_bind, wp_gets, wp_bind. apply wp_when; [|done]. intros _.
    apply wp_markclosed, wp_ret. by eexists m, _. }
  replace (zlen data =? 0) with false.
  2: { symmetry. apply Z.eqb_neq. by intros ?%zlen_0_nil. }
  apply wp_bind, (wp_metric_call _ (CallBytesReceived (zlen data))); [done|]. intros m1.
  unfold with_conn. cbn [x_conn x_store x_poller].
  destruct (decode_received_eq data (mkCtx s m1 p c)) as (ps & rest & Hsplit & Hfits & Hor).
  cbn [x_conn] in Hsplit, Hor. apply wp_bind.
  destruct Hor as [(Hinc' & Hdec & Hrun)|(Hdec & Hrun)]; rewrite Hdec;
    (eapply wp_intro; [exact Hrun|]).
  - apply wp_bind, (wp_metric_call _ (CallFramesReceived (zlen ps))); [done|]. intros m2.
    apply wp_ret. by eexists m2, _.
  - apply wp_bind, (wp_metric_call _ CallProtocolError); [done|]. intros m2.
    apply wp_bind. eapply wp_mono; [apply (queue_reject _ (c <| readBuffer := rest |>)); [done| |done]| |done].
    { right. split_and!; try done; apply Hc. }
    intros ok x' (m' & c1 & -> & Hq). apply wp_bind. destruct ok; cbn [when].
    + apply wp_modify, wp_ret. by eexists m', _.
    + destruct Hq as [Hover ->]. apply wp_ret, wp_ret. eexists m', _. split; [reflexivity|]. split; [done|]. by right.
Qed.

(** The calls on the store while an event is handled: a buffer holds no more
    requests than bytes. *)
Definition event_calls (clock : ticks) : Z := store_calls clock 0 (Z.to_nat (maxReadBufferBytes o)).

Lemma handle_read_wp clock answers answer n now a (x : Ctx Q P) :
  ConnOK o (x_conn x) -> StoreOK n now a (x_store x) -> ticks_ok now clock 0 ->
  n + event_calls clock < U64_MOD -> retry_eintr answers = Ret answer ->
  reading (x_conn x) = true ->
  wp (HandleClientRead o clock answers)
     (fun _ x' => exists a' now' s' m' c', handled x s' m' c' x' /\
        now <= now' /\ StoreOK (n + event_calls clock) now' a' s' /\
        (now' = now \/ exists j, now' = turn_time (clock j)) /\
        read_effect (fun lines resps => server_run clock 0 a lines resps a') (x_conn x) answer c')
     no_fail x.
Proof.
  intros Hc HS Ht Hn Hans Hrd. unfold wp. rewrite read_split. apply wp_bind.
  eapply wp_mono; [by eapply receive_wp| |done]. intros ps x1 (m1 & c1 & -> & Heff). destruct x as [s m p c].
  cbn in Hc, HS, Hrd. cbn [x_store x_poller x_conn] in *.
  destruct (reading_open c Hrd) as (Hcl & Hrp & Hcw). destruct (co_active _ _ Hc Hcl Hcw) as [Hinc Hbp].
  assert (forall n', 0 <= n' <= event_calls clock -> forall now1 a1 s1, StoreOK (n + n') now1 a1 s1 ->
    StoreOK (n + event_calls clock) now1 a1 s1) as Hcalls.
  { intros n' Hn' now1 a1 s1 [HI Hm]. split; [|done]. eapply (Inv_mono (n + n')); [|reflexivity|exact HI]. lia. }
  assert (forall c', read_effect (fun lines resps => server_run clock 0 a lines resps a) c answer c' ->
    wp (process_payloads o clock 0 []) (fun _ x' => exists a' now' s' m' c'',
      handled (mkCtx s m p c) s' m' c'' x' /\ now <= now' /\ StoreOK (n + event_calls clock) now' a' s' /\
      (now' = now \/ exists j, now' = turn_time (clock j)) /\
      read_effect (fun lines resps => server_run clock 0 a lines resps a') c answer c'') no_fail (mkCtx s m1 p c')) as Hnone.
  { intros c' He. apply wp_ret. exists a, now, s, m1, c'. split_and!; [done|done| |by left|done].
    apply (Hcalls 0); [split; [done|apply store_calls_nonneg]|by rewrite Z.add_0_r]. }
  unfold receive_effect in Heff. unfold read_effect in *.
  destruct (Z.leb_spec (maxReadBufferBytes o) (zlen (readBuffer c))) as [Hfull|Hroom].
  { destruct Heff as [-> Hr]. by apply Hnone. }
  destruct answer as [available|errno]; [|destruct Heff as [-> ->]; by apply Hnone].
  case_bool_decide; [destruct Heff as [-> ->]; by apply Hnone|].
  pose proof (received_bound c available Hroom) as Hlen.
  destruct (Decode (readBuffer c ++ received c available)) as [[payloads|f] rest] eqn:Hdec;
    [|destruct Heff as [-> Hr]; by apply Hnone].
  destruct Heff as [-> ->]. apply decode_ok_iff in Hdec as (Hsplit & Hfits & Hinc').
  rewrite Hsplit, zlen_app in Hlen. pose proof (frames_count payloads). pose proof (zlen_nonneg rest).
  pose proof (zlen_nonneg payloads).
  assert (0 <= store_calls clock 0 (length payloads) <= event_calls clock) as Hbudget.
  { split; [apply store_calls_nonneg|]. apply store_calls_mono. unfold zlen in *. lia. }
  eapply wp_mono; [eapply (process_payloads_wp o Ho clock 0 payloads n now a); try done; [lia|]| |done].
  { split; try done; apply Hc. }
  intros _ _ (lines & left & resps & a' & now' & s' & m' & c' & -> & -> & Hle & HS' & Hsr & Hj & Hb).
  exists a', now', s', m', c'. split; [done|]. split; [done|]. split.
  - by eapply Hcalls; [|exact HS'].
  - split; [done|]. by exists lines, left, resps.
Qed.

Lemma same_readBuffer c rest c' :
  same_conn (c <| readBuffer := rest |>) c' ->
  fd c' = fd c /\ registeredEvents c' = registeredEvents c /\ readBuffer c' = rest /\ closed c' = closed c.
Proof. done. Qed.

Lemma decode_rest_bound c data r rest :
  Decode (readBuffer c ++ data) = (r, rest) -> zlen rest <= zlen (readBuffer c ++ data).
Proof.
  intros Hd. assert (exists ps, readBuffer c ++ data = frames ps ++ rest) as [ps ->].
  { destruct r as [ps|f].
    - apply decode_ok_iff in Hd as (-> & _). eauto.
    - apply decode_fail_iff in Hd as (_ & _ & ps & -> & _). eauto. }
  rewrite zlen_app. pose proof (zlen_nonneg (frames ps)). lia.
Qed.

Lemma read_effect_ok run c answer c' :
  ConnOK o c -> reading c = true -> read_effect run c answer c' -> ConnOK o c'.
Proof.
  intros Hc Hrd. assert (closed c = false) as Hcl
    by (unfold reading in Hrd; by destruct (closed c), (readPaused c), (closeAfterWrite c)).
  unfold read_effect.
  destruct (Z.leb_spec (maxReadBufferBytes o) (zlen (readBuffer c))) as [Hfull|Hroom].
  { apply rejected_ok; [apply Hc|done]. }
  destruct answer as [available|errno].
  2: { intros ->. destruct (errno =? EAGAIN); [done|by apply closed_conn_ok]. }
  case_bool_decide; [intros ->; by apply closed_conn_ok|].
  pose proof (received_bound c available Hroom) as Hlen.
  destruct (Decode (readBuffer c ++ received c available)) as [[ps|f] rest] eqn:Hd;
    apply decode_rest_bound in Hd as Hr.
  - apply decode_ok_iff in Hd as (_ & _ & Hinc).
    intros (lines & left & resps & _ & _ & [[_ ->]|(Hfit & Hs & Hb & Hp & Hend)]).
    { by apply closed_conn_ok. }
    destruct (same_readBuffer _ _ _ Hs) as (_ & _ & Hrb & Hcl').
    split; rewrite ?Hp, ?Hrb; try done; [lia|by rewrite Hcl', Hcl|].
    intros _ Hcw. split; [done|]. destruct Hend as [(_ & _ & ? & _)|[? _]]; congruence.
  - apply rejected_ok; [cbn; lia|done].
Qed.

(** ** Writing *)

Definition write_effect (c : Connection) (answer : Z + Z) (c' : Connection) : Prop :=
  if bool_decide (pending c = []) then
    c' = (if closeAfterWrite c then closed_conn c else bp_conn o c)
  else
  match answer with
  | inr errno => c' = if errno =? EAGAIN then c else closed_conn c
  | inl room =>
      let n := Z.min room (Z.min (zlen (pending c)) (maxWriteBytesPerEvent o)) in
      if n <=? 0 then c' = closed_conn c else
      exists b', BufInv b' /\ Data b' = drop (Z.to_nat n) (pending c) /\
        let c1 := bp_conn o (c <| writeBuffer := b' |>) in
        c' = if bool_decide (Data b' = []) && closeAfterWrite c then closed_conn c else c1
  end.

Lemma closed_bp c : closed_conn (bp_conn o c) = closed_conn c.
Proof. destruct (bp_conn_same o c) as (_ & _ & _ & _ & _ & Hfd & Hre). unfold closed_conn. by rewrite Hfd, Hre. Qed.

Lemma handle_write_wp answers answer (x : Ctx Q P) :
  ConnOK o (x_conn x) -> retry_eintr answers = Ret answer -> closed (x_conn x) = false ->
  wp (HandleClientWrite o answers)
     (fun _ x' => exists m' c', handled x (x_store x) m' c' x' /\ write_effect (x_conn x) answer c')
     no_fail x.
Proof.
  intros Hc Hans Hcl. destruct x as [s m p c]. cbn in Hc, Hcl.
  pose proof (co_buffer _ _ Hc) as Hb. unfold HandleClientWrite.
  apply wp_bind, wp_gets. cbn [x_conn id]. rewrite Hcl, (empty_data _ Hb).
  unfold write_effect. cbn [x_conn]. change (Data (writeBuffer c)) with (pending c).
  case_bool_decide as Hnil.
  { apply wp_bind, (wp_backpressure o); [done|]. intros m1. cbn [x_conn].
    apply wp_bind, wp_gets. cbn [x_conn with_conn].
    destruct (bp_conn_same o c) as (_ & _ & _ & _ & Hcw & _). rewrite Hcw.
    destruct (closeAfterWrite c); apply wp_when; try done; intros _.
    - apply wp_markclosed. eexists m1, _. split; [|done]. unfold handled, with_conn. cbn.
      by rewrite closed_bp.
    - by eexists m1, _. }
  destruct (size_data _ Hb) as [Hsz _]. rewrite Hsz. change (Data (writeBuffer c)) with (pending c).
  apply wp_bind. eapply wp_intro; [unfold lift; by rewrite Hans|].
  destruct answer as [room|errno].
  2: { change (errno =? EWOULDBLOCK) with (errno =? EAGAIN). rewrite orb_diag.
       destruct (errno =? EAGAIN); [apply wp_ret|apply wp_markclosed]; by eexists m, _. }
  set (n := Z.min room _). destruct (Z.ltb_spec 0 n) as [Hn|Hn].
  2: { replace (n <=? 0) with true by lia. apply wp_markclosed. by eexists m, _. }
  replace (n <=? 0) with false by lia.
  apply wp_bind, (wp_metric_call _ (CallBytesSent n)); [done|]. intros m1.
  destruct (consume_ok (writeBuffer c) n Hb) as (b' & Hcons & Hb' & Hd & _).
  { unfold pending in n. lia. }
  apply wp_bind, (wp_write_buffer _ tt b'); [done|].
  apply wp_bind, (wp_backpressure o); [done|]. intros m2. apply wp_bind, wp_gets. cbn [x_conn id with_conn].
  match goal with |- context [bp_conn o ?c0] => change c0 with (c <| writeBuffer := b' |>) end.
  destruct (bp_conn_same o (c <| writeBuffer := b' |>)) as (_ & Hwb & _ & _ & Hcw & _).
  rewrite Hwb, Hcw. change (writeBuffer (c <| writeBuffer := b' |>)) with b'.
  change (closeAfterWrite (c <| writeBuffer := b' |>)) with (closeAfterWrite c).
  rewrite (empty_data _ Hb').
  apply wp_when; intros Hw.
  - apply wp_markclosed. eexists m2, _. split; [unfold handled, with_conn; cbn; by rewrite closed_bp|].
    exists b'. split_and!; try done. by rewrite Hw.
  - eexists m2, _. split; [done|]. exists b'. split_and!; try done. by rewrite Hw.
Qed.

Lemma write_effect_ok c answer c' :
  ConnOK o c -> closed c = false -> write_effect c answer c' -> ConnOK o c'.
Proof.
  intros Hc Hcl. pose proof (closed_conn_ok o c Ho) as Hclosed.
  assert (closeAfterWrite c = false -> incomplete (readBuffer c)) as Hinc
    by (intros; by apply (co_active _ _ Hc)).
  unfold write_effect. case_bool_decide as Hnil.
  { intros ->. destruct (closeAfterWrite c) eqn:Hcw; [done|].
    apply bp_restores; [done|apply Hc|apply Hc|apply Hc|done|exact (fun _ => Hinc eq_refl)]. }
  destruct answer as [room|errno].
  2: { intros ->. by destruct (errno =? EAGAIN). }
  set (n := Z.min _ _). destruct (Z.leb_spec n 0); [by intros ->|].
  intros (b' & Hb' & Hd & ->). destruct (bool_decide (Data b' = []) && closeAfterWrite c); [done|].
  apply bp_restores; try done; [|apply Hc].
  change (pending (c <| writeBuffer := b' |>)) with (Data b'). rewrite Hd.
  pose proof (co_pending _ _ Hc) as Hp. unfold zlen in *. rewrite length_drop. lia.
Qed.

(** ** Interest *)

(** What the poller watches for the connection is what the connection wants. *)
Definition interest_current (c : Connection) : Prop :=
  registeredEvents c = DesiredEvents c /\ DesiredEvents c <> IoEvent_None.

(** A refreshed connection: closed, or put right by the back pressure, its
    interest current and registered. *)
Definition refreshed `{!PollerLaws P} (c c' : Connection) (p p' : P) : Prop :=
  (closed c' = true /\ c' = closed_conn c /\ registered p' = registered p /\
     (closed c = true \/ (closeAfterWrite c = true /\ pending c = []))) \/
  (closed c' = false /\ interest_current c' /\ ConnOK o c' /\
     (exists re, c' = (bp_conn o c) <| registeredEvents := re |>) /\
     registered p' = <[fd c := registeredEvents c']> (registered p)).

Lemma desired_none c :
  BufInv (writeBuffer c) -> closed c = false -> backpressure_ok o c \/ closeAfterWrite c = true ->
  DesiredEvents c = IoEvent_None -> closeAfterWrite c = true /\ pending c = [].
Proof.
  intros Hb Hcl Hbp. unfold DesiredEvents. rewrite Hcl, (empty_data _ Hb).
  change (Data (writeBuffer c)) with (pending c). case_bool_decide as Hp.
  - destruct (closeAfterWrite c); [done|]. destruct Hbp as [Hbp|]; [|done].
    unfold backpressure_ok in Hbp. rewrite Hp, zlen_nil in Hbp. destruct Ho.
    destruct (readPaused c); [lia|done].
  - by destruct (readPaused c), (closeAfterWrite c).
Qed.

Lemma ConnOK_registered c re : ConnOK o c -> closed c = false -> ConnOK o (c <| registeredEvents := re |>).
Proof.
  intros [Hb Hp Hr Hc Ha] Hcl. split; try done. intros Ht. exfalso.
  change (closed c = true) in Ht. congruence.
Qed.

Lemma refresh_wp `{!PollerLaws P} (x : Ctx Q P) :
  ConnOK o (x_conn x) -> poller_ok (x_poller x) ->
  (closed (x_conn x) = false ->
     registered (x_poller x) !! fd (x_conn x) = Some (registeredEvents (x_conn x))) ->
  wp (RefreshConnectionInterest o)
     (fun _ x' => exists m' p' c', x' = mkCtx (x_store x) m' p' c' /\ poller_ok p' /\
        refreshed (x_conn x) c' (x_poller x) p')
     (fun f x' => (exists e, f = Throw e) /\ poller_ok (x_poller x') /\
        registered (x_poller x') = registered (x_poller x) /\ x_store x' = x_store x) x.
Proof.
  intros Hc Hpo Hreg. destruct x as [s m p c]. cbn in Hc, Hpo, Hreg.
  unfold RefreshConnectionInterest. apply wp_bind, wp_gets. cbn [x_conn id].
  destruct (closed c) eqn:Hcl.
  { apply wp_ret. exists m, p, c. split; [done|]. split; [done|]. left. cbn.
    split_and!; try done; [by apply Hc|by left]. }
  specialize (Hreg eq_refl). pose proof (co_buffer _ _ Hc) as Hb.
  apply wp_bind, (wp_backpressure o); [done|]. intros m1. apply wp_bind, wp_gets. cbn [x_conn id with_conn].
  assert (ConnOK o (bp_conn o c)) as Hc1.
  { apply bp_restores; [done|apply Hc|apply Hc|apply Hc|done|]. intros Hcw. by apply (co_active _ _ Hc). }
  destruct (bp_conn_same o c) as (Hpe & Hwb & _ & Hcl1 & Hcw1 & Hfd & Hre).
  rewrite Hcw1, Hwb, (empty_data _ Hb), Hre, Hfd.
  change (Data (writeBuffer c)) with (pending c).
  destruct (closeAfterWrite c && bool_decide (pending c = [])) eqn:Hdone.
  { apply andb_true_iff in Hdone as [Hcw Hnil%bool_decide_eq_true].
    apply wp_markclosed. eexists m1, p, _. split; [reflexivity|]. split; [done|]. left.
    cbn. rewrite closed_bp. split_and!; try done. by right. }
  destruct (Z.eqb_spec (DesiredEvents (bp_conn o c)) IoEvent_None) as [Hnone|Hsome].
  { exfalso. destruct (desired_none (bp_conn o c)) as [Hcw Hnil]; try done.
    - by rewrite Hwb.
    - by rewrite Hcl1.
    - rewrite Hcw1. destruct (closeAfterWrite c) eqn:Hcw; [by right|left].
      by apply bp_conn_ok.
    - rewrite Hcw1 in Hcw. rewrite Hpe in Hnil. rewrite Hcw, Hnil in Hdone. done. }
  destruct (Z.eqb_spec (DesiredEvents (bp_conn o c)) (registeredEvents c)) as [Hsame|Hdiff].
  { apply wp_ret. exists m1, p, (bp_conn o c). split; [done|]. split; [done|]. right.
    cbn. split_and!; try done.
    - by rewrite Hcl1.
    - split; [by rewrite Hre|done].
    - exists (registeredEvents c). rewrite <-Hre. by destruct (bp_conn o c).
    - rewrite Hre. symmetry. by apply insert_id. }
  apply wp_bind. unfold wp at 1, zoom. cbn [x_poller with_conn].
  pose proof (modity_law (fd c) (DesiredEvents (bp_conn o c)) p Hpo) as Hlaw. unfold wp in Hlaw.
  destruct (poller_Modity (fd c) (DesiredEvents (bp_conn o c)) p) as [[[]|f] p'].
  - destruct Hlaw as (Hpo' & _ & Hp'). apply wp_modify. eexists m1, p', _. split; [reflexivity|].
    split; [done|]. right. cbn [x_conn x_poller].
    split_and!; [exact (eq_trans Hcl1 Hcl)|by split|apply ConnOK_registered; [done|exact (eq_trans Hcl1 Hcl)]|by eexists|done].
  - destruct Hlaw as (Hpo' & Hp' & He). by split_and!.
Qed.
End handlers_ok.
