(* ===== verification/SubReactorTheorems.v ===== *)
(** * What a connection of the server promises *)

From S2P Require Import Prelude PriorityQueue KVStore KVStoreInv KVStoreSpec FrameCodec CommandParser CommandGrammar CommandExecutor CommandTheorems RequestSpec OutputBuffer ServerMetrics MetricsTheorems StatsReport Poller PollerTheorems SubReactor SubReactorInv SubReactorRequests SubReactorHandlers.
#[local] Open Scope Z_scope.

Section connection.
Context {Q : Type} `{!PriorityQueue ExpirationRecord Q}
  `{!PriorityQueueLaws ExpirationRecord Q ExpirationCompare}.
Context {P : Type} `{!Poller P}.

Lemma read_inactive o clock answers (x : Ctx Q P) :
  reading (x_conn x) = false -> HandleClientRead o clock answers x = (Ret tt, x).
Proof.
  unfold reading, HandleClientRead. cbv [mbind M_bind conn_gets gets id]. intros Hr.
  apply negb_false_iff in Hr. by rewrite Hr.
Qed.

Lemma write_inactive o answers (x : Ctx Q P) :
  closed (x_conn x) = true -> HandleClientWrite o answers x = (Ret tt, x).
Proof. unfold HandleClientWrite. cbv [mbind M_bind conn_gets gets id]. by intros ->. Qed.

(** C18. The handlers keep every connection within its limits: whatever the
    peer sends, however its socket behaves and whatever the other threads do to
    the shared store between its requests, reading and writing end normally, the read buffer stays within [maxReadBufferBytes] and holds no
    complete frame, the send queue stays within [writeHardLimitBytes], reading
    is paused exactly between the two watermarks, a closed connection holds
    nothing, and the shared store stays consistent. *)
Theorem connection_invariant o clock recvs sends received_ sent n now a (x : Ctx Q P) :
  options_ok o -> ConnOK o (x_conn x) -> StoreOK n now a (x_store x) -> ticks_ok now clock 0 ->
  n + event_calls o clock < U64_MOD ->
  retry_eintr recvs = Ret received_ -> retry_eintr sends = Ret sent ->
  (exists x', HandleClientRead o clock recvs x = (Ret tt, x') /\ ConnOK o (x_conn x') /\
     exists now' a', now <= now' /\ StoreOK (n + event_calls o clock) now' a' (x_store x')) /\
  (exists x', HandleClientWrite o sends x = (Ret tt, x') /\ ConnOK o (x_conn x') /\
     x_store x' = x_store x).
Proof.
  intros Ho Hc HS Ht Hn Hrecv Hsend. split.
  - destruct (reading (x_conn x)) eqn:Hrd.
    + destruct (wp_run _ _ _ (handle_read_wp o Ho clock recvs received_ n now a x Hc HS Ht Hn Hrecv Hrd))
        as ([] & x' & Hrun & a' & now' & s' & m' & c' & -> & Hle & HS' & _ & Heff).
      eexists. split; [exact Hrun|]. split; [by eapply read_effect_ok|]. eauto.
    + exists x. split; [by apply read_inactive|]. split; [done|]. exists now, a. split; [done|].
      destruct HS as (HI & Hm). split; [|done]. pose proof (store_calls_nonneg clock 0 (Z.to_nat (maxReadBufferBytes o))).
      eapply (Inv_mono n); [|reflexivity|exact HI]. unfold event_calls. lia.
  - destruct (closed (x_conn x)) eqn:Hcl.
    + exists x. by rewrite write_inactive.
    + destruct (wp_run _ _ _ (handle_write_wp o sends sent x Hc Hsend Hcl))
        as ([] & x' & Hrun & m' & c' & -> & Heff).
      eexists. split; [exact Hrun|]. split; [by eapply write_effect_ok|done].
Qed.

(** Requests are answered in order: when a [recv] completes frames, their
    payloads are served by the abstract server one after the other, with the
    calls of the other threads on its map in between, and the
    encoded answers are appended to the send queue in the same order, all of
    them unless a [QUIT] ends the connection's requests; only when the answers
    exceed the hard limit is the connection dropped instead. *)
Theorem requests_answered_in_order o clock recvs available n now a payloads rest (x : Ctx Q P) :
  options_ok o -> ConnOK o (x_conn x) -> StoreOK n now a (x_store x) -> ticks_ok now clock 0 ->
  n + event_calls o clock < U64_MOD -> retry_eintr recvs = Ret (inl available) ->
  reading (x_conn x) = true -> zlen (readBuffer (x_conn x)) < maxReadBufferBytes o ->
  received o (x_conn x) available <> [] ->
  Decode (readBuffer (x_conn x) ++ received o (x_conn x) available) = (Ret payloads, rest) ->
  exists x' lines left resps a', HandleClientRead o clock recvs x = (Ret tt, x') /\
    payloads = lines ++ left /\ server_run clock 0 a lines resps a' /\
    ((closed (x_conn x') = false /\ readBuffer (x_conn x') = rest /\
      pending (x_conn x') = pending (x_conn x) ++ frames resps /\
      (left <> [] -> closeAfterWrite (x_conn x') = true) /\
      (closeAfterWrite (x_conn x') = true <-> Exists (fun l => denotes l ReqQuit) lines)) \/
     (closed (x_conn x') = true /\
      writeHardLimitBytes o < zlen (pending (x_conn x) ++ frames resps))).
Proof.
  intros Ho Hc HS Ht Hn Hrecv Hrd Hroom Hdata Hdec.
  destruct (wp_run _ _ _ (handle_read_wp o Ho clock recvs _ n now a x Hc HS Ht Hn Hrecv Hrd))
    as ([] & x' & Hrun & a' & now' & s' & m' & c' & -> & _ & _ & _ & Heff).
  unfold read_effect in Heff.
  replace (maxReadBufferBytes o <=? _) with false in Heff by lia.
  rewrite bool_decide_eq_false_2, Hdec in Heff by done.
  destruct Heff as (lines & left & resps & -> & Hrun' & Hb).
  eexists _, lines, left, resps, a'. split; [exact Hrun|]. split; [done|]. split; [done|].
  cbn [x_conn]. destruct Hb as [[Hover ->]|(_ & Hs & _ & Hp & Hend)]; [by right|left].
  destruct (same_readBuffer _ _ _ Hs) as (_ & _ & Hrb & Hcl).
  assert (closed (x_conn x) = false) as Hopen
    by (unfold reading in Hrd; by destruct (closed (x_conn x))).
  split; [by rewrite Hcl|]. split; [done|]. split; [done|].
  destruct Hend as [(-> & Hcw & _ & Hno)|(Hcw & before & quit & -> & Hquit & _)]; rewrite Hcw.
  - split; [done|]. split; [done|]. intros Hex%Exists_exists.
    destruct Hex as (l & Hin & Hl). by destruct (proj1 (Forall_forall _ _) Hno l Hin).
  - split; [done|]. split; [|done]. intros _. apply Exists_app. right. by constructor.
Qed.

(** The end of the peer's stream discards answers: when [recv] returns 0
    on a connection that is being read, the connection is closed at once and
    everything still queued for sending is dropped, although the code goes on
    to mark it for closing after the queue is written. *)
Theorem eof_discards_pending o clock recvs n now a (x : Ctx Q P) :
  options_ok o -> ConnOK o (x_conn x) -> StoreOK n now a (x_store x) -> ticks_ok now clock 0 ->
  n + event_calls o clock < U64_MOD -> retry_eintr recvs = Ret (inl []) ->
  reading (x_conn x) = true -> zlen (readBuffer (x_conn x)) < maxReadBufferBytes o ->
  exists x', HandleClientRead o clock recvs x = (Ret tt, x') /\
    x_conn x' = closed_conn (x_conn x) /\ pending (x_conn x') = [].
Proof.
  intros Ho Hc HS Ht Hn Hrecv Hrd Hroom.
  destruct (wp_run _ _ _ (handle_read_wp o Ho clock recvs _ n now a x Hc HS Ht Hn Hrecv Hrd))
    as ([] & x' & Hrun & a' & now' & s' & m' & c' & -> & _ & _ & _ & Heff).
  unfold read_effect, received in Heff. rewrite take_nil in Heff.
  replace (maxReadBufferBytes o <=? _) with false in Heff by lia.
  rewrite bool_decide_eq_true_2 in Heff by done. subst c'. eexists. split; [exact Hrun|]. done.
Qed.

(** Writing sends the queue from its front: when the socket takes [n]
    bytes (at most what is pending and at most [maxWriteBytesPerEvent]), exactly
    the first [n] pending bytes leave the queue, and the connection closes then
    only if it was to close after writing and nothing is left; a full socket
    changes nothing. *)
Theorem write_sends_front o sends sent (x : Ctx Q P) :
  options_ok o -> ConnOK o (x_conn x) -> closed (x_conn x) = false -> pending (x_conn x) <> [] ->
  retry_eintr sends = Ret sent ->
  exists x', HandleClientWrite o sends x = (Ret tt, x') /\
    match sent with
    | inr errno => x_conn x' = if errno =? EAGAIN then x_conn x else closed_conn (x_conn x)
    | inl room =>
        let n := Z.min room (Z.min (zlen (pending (x_conn x))) (maxWriteBytesPerEvent o)) in
        (n <= 0 -> x_conn x' = closed_conn (x_conn x)) /\
        (0 < n -> pending (x_conn x') = drop (Z.to_nat n) (pending (x_conn x)) /\
           (closed (x_conn x') = true <->
              closeAfterWrite (x_conn x) = true /\ pending (x_conn x') = []))
    end.
Proof.
  intros Ho Hc Hcl Hne Hsend.
  destruct (wp_run _ _ _ (handle_write_wp o sends sent x Hc Hsend Hcl))
    as ([] & x' & Hrun & m' & c' & -> & Heff).
  eexists. split; [exact Hrun|]. cbn [x_conn]. unfold write_effect in Heff.
  rewrite bool_decide_eq_false_2 in Heff by done. destruct sent as [room|errno]; [|done].
  cbn zeta. set (n := Z.min _ _) in *. destruct (Z.leb_spec n 0); [split; [done|lia]|].
  split; [lia|]. intros _. destruct Heff as (b' & Hb' & Hd & ->).
  destruct (bp_conn_same o ((x_conn x) <| writeBuffer := b' |>)) as (Hpe & _ & _ & Hcl' & _).
  case_bool_decide as Hnil; destruct (closeAfterWrite (x_conn x)) eqn:Hcw; cbn [andb].
  - rewrite <-Hd, Hnil. done.
  - rewrite Hpe, Hcl'. split; [done|]. change (closed (x_conn x) = true <-> false = true /\ Data b' = []).
    rewrite Hcl. split; [done|by intros [? ?]].
  - rewrite Hpe, Hcl'. split; [done|]. change (closed (x_conn x) = true <-> true = true /\ Data b' = []).
    rewrite Hcl. split; [done|by intros [? ?]].
  - rewrite Hpe, Hcl'. split; [done|]. change (closed (x_conn x) = true <-> false = true /\ Data b' = []).
    rewrite Hcl. split; [done|by intros [? ?]].
Qed.
End connection.

(** ** A connection at work *)

Abbreviation ExampleCtx := (Ctx (sorted_queue ExpirationCompare) PollPoller).

Definition example_ctx (c : Connection) : ExampleCtx :=
  mkCtx KVStore_init ServerMetrics_init PollPoller_init c.

Definition example_clock : ticks := fun _ => mkTurn [] (0, 1000).

(** A fresh connection, and one with an answer still to be sent. *)
Definition fresh_conn : Connection := Connection_init 5.
Definition busy_conn : Connection :=
  fresh_conn <| writeBuffer := mkOutputBuffer (frame (lit "+PONG")) 0 |>.

Lemma default_options_ok : options_ok NetworkOptions_default.
Proof. split; cbn; lia. Qed.

Lemma fresh_conn_ok : ConnOK NetworkOptions_default fresh_conn.
Proof. apply Connection_init_ok, default_options_ok. Qed.

Lemma busy_conn_ok : ConnOK NetworkOptions_default busy_conn.
Proof.
  split; try (vm_compute; (discriminate || reflexivity)).
  - split; [cbn; lia|by left|vm_compute; reflexivity|left; vm_compute; reflexivity].
  - intros _ _. split; [by left|vm_compute; reflexivity].
Qed.

Lemma example_store_ok : StoreOK 0 0 ∅ (x_store (example_ctx fresh_conn)).
Proof. split; [apply Inv_init|]. split; [done|apply small_empty]. Qed.

(** Another thread stores a key before each request. *)
Definition busy_clock : ticks := fun _ => mkTurn [(0, OpSet (lit "k") (lit "v"))] (0, 1000).

Lemma example_turn_ok others :
  valid_history 0 others -> Forall (fun x => x.1 <= 0) others -> Forall (fun x => op_small x.2) others ->
  turn_ok 0 (mkTurn others (0, 1000)).
Proof. intros. by split. Qed.

Lemma example_clock_ok : ticks_ok 0 example_clock 0.
Proof. intros j _. by split; intros; apply example_turn_ok; try apply Forall_nil_2. Qed.

Lemma busy_clock_ok : ticks_ok 0 busy_clock 0.
Proof.
  intros j _. split; intros; apply example_turn_ok; try (repeat constructor; vm_compute; discriminate).
Qed.

Lemma example_event_calls : event_calls NetworkOptions_default example_clock <= 1024 * 1024 + 4.
Proof. etrans; [by apply (store_calls_le _ 0)|]. rewrite Z2Nat.id; vm_compute; discriminate. Qed.

Lemma busy_event_calls : event_calls NetworkOptions_default busy_clock <= 2 * (1024 * 1024 + 4).
Proof. etrans; [by apply (store_calls_le _ 1)|]. rewrite Z2Nat.id; vm_compute; discriminate. Qed.

Lemma few_event_calls : event_calls NetworkOptions_default example_clock <= 2 * (1024 * 1024 + 4).
Proof. pose proof example_event_calls. lia. Qed.

Lemma few_calls z : z <= 2 * (1024 * 1024 + 4) -> 0 + z < U64_MOD.
Proof. intros. unfold U64_MOD. lia. Qed.

Definition example_bytes : bytes := frame (lit "PING") ++ frame (lit "QUIT").

Lemma connection_invariant_witness :
  exists x', HandleClientRead NetworkOptions_default busy_clock [SysInterrupted; SysOk example_bytes]
               (example_ctx busy_conn) = (Ret tt, x') /\
    ConnOK NetworkOptions_default (x_conn x').
Proof.
  destruct (connection_invariant NetworkOptions_default busy_clock
    [SysInterrupted; SysOk example_bytes] [SysOk 3] (inl example_bytes) (inl 3) 0 0 ∅
    (example_ctx busy_conn) default_options_ok busy_conn_ok example_store_ok busy_clock_ok
    (few_calls _ busy_event_calls) eq_refl eq_refl) as [(x' & Hrun & Hc & _) _].
  exists x'. split; [exact Hrun|exact Hc].
Defined.

Lemma requests_answered_in_order_witness :
  exists x' lines left resps a',
    HandleClientRead NetworkOptions_default example_clock [SysOk example_bytes]
      (example_ctx fresh_conn) = (Ret tt, x') /\
    [lit "PING"; lit "QUIT"] = lines ++ left /\ server_run example_clock 0 ∅ lines resps a'.
Proof.
  destruct (requests_answered_in_order NetworkOptions_default example_clock [SysOk example_bytes]
    example_bytes 0 0 ∅ [lit "PING"; lit "QUIT"] [] (example_ctx fresh_conn) default_options_ok
    fresh_conn_ok example_store_ok example_clock_ok (few_calls _ few_event_calls)
    eq_refl eq_refl eq_refl)
    as (x' & lines & left & resps & a' & Hrun & Hl & Hs & _).
  - vm_compute. discriminate.
  - vm_compute. reflexivity.
  - exists x', lines, left, resps, a'. split; [exact Hrun|]. split; [exact Hl|exact Hs].
Defined.

Lemma eof_discards_pending_witness :
  pending busy_conn = frame (lit "+PONG") /\
  exists x', HandleClientRead NetworkOptions_default example_clock [SysOk []]
      (example_ctx busy_conn) = (Ret tt, x') /\
    x_conn x' = closed_conn busy_conn /\ pending (x_conn x') = [].
Proof.
  split; [vm_compute; reflexivity|].
  apply (eof_discards_pending NetworkOptions_default example_clock [SysOk []] 0 0 ∅
    (example_ctx busy_conn) default_options_ok busy_conn_ok example_store_ok example_clock_ok
    (few_calls _ few_event_calls));
    vm_compute; reflexivity.
Defined.

Lemma write_sends_front_witness :
  exists x', HandleClientWrite NetworkOptions_default [SysOk 3] (example_ctx busy_conn) = (Ret tt, x') /\
    pending (x_conn x') = drop 3 (frame (lit "+PONG")).
Proof.
  destruct (write_sends_front NetworkOptions_default [SysOk 3] (inl 3) (example_ctx busy_conn)
    default_options_ok busy_conn_ok eq_refl) as (x' & Hrun & _ & Hn).
  - vm_compute. discriminate.
  - reflexivity.
  - exists x'. split; [exact Hrun|]. apply Hn. vm_compute. reflexivity.
Defined.
