(* ===== verification/EventLoop.v ===== *)
(** * The event loop of a sub-reactor (net/sub_reactor.h, net/sub_reactor.cpp)

    One thread runs the loop; other threads only touch the control fields under
    [m_controlMutex], which the loop reads in one critical section, so a history
    is a sequence of rounds of the loop and of calls from outside. A [ScopedFd]
    closes its descriptor when it is destroyed: [r_closes] records these
    [close] calls. What [Wait] returns and the answers of the socket calls are
    inputs of a round. The store is shared with the other threads ([tn_others]);
    [r_metrics] is what the reactor adds to the shared counters. *)

From S2P Require Import Prelude PriorityQueue KVStore FrameCodec OutputBuffer ServerMetrics Poller SubReactor.
#[local] Open Scope Z_scope.

(** ** State *)

Record SubReactor {Q P : Type} := mkSubReactor {
  m_state : ServerState;
  m_publishedState : ServerState;
  m_failed : bool;
  m_stopRequested : bool;
  m_forceStopRequested : bool;
  m_requestedShutdownDeadline : TimePoint;
  m_shutdownDeadline : TimePoint;
  m_pendingClients : list Z;
  m_clients : gmap Z Connection;
  m_poller : option P;
  r_store : KVStore Q;
  r_metrics : ServerMetrics;
  r_closes : list Z;
}.
Arguments SubReactor Q P : clear implicits.
Arguments mkSubReactor {Q P}.
#[export] Instance SubReactor_settable {Q P} : Settable (SubReactor Q P) := fun s =>
  {| m_state := m_state s; m_publishedState := m_publishedState s; m_failed := m_failed s;
     m_stopRequested := m_stopRequested s; m_forceStopRequested := m_forceStopRequested s;
     m_requestedShutdownDeadline := m_requestedShutdownDeadline s;
     m_shutdownDeadline := m_shutdownDeadline s; m_pendingClients := m_pendingClients s;
     m_clients := m_clients s; m_poller := m_poller s; r_store := r_store s;
     r_metrics := r_metrics s; r_closes := r_closes s |}.

(** ** Inputs of a round *)

(** What the socket calls on one connection answer. *)
Record conn_io := mkConnIo {
  io_recv : recv_answers;
  io_send : send_answers;
  io_clock : ticks;
}.

(** What [Wait] returns for a timeout (the ready events, each with the answers
    of the socket calls made for it), what [Drain] does, and the clock before
    [Wait] and after the events. *)
Record round_input := mkRoundInput {
  ri_wait : Z -> outcome (list (ReadyEvent * conn_io));
  ri_drain : outcome unit;
  ri_now : TimePoint;
  ri_after : TimePoint;
}.

Fixpoint for_each {S A} (l : list A) (f : A -> M S unit) : M S unit :=
  match l with
  | [] => mret tt
  | x :: l => f x;; for_each l f
  end.

Section EventLoop.
Context {Q : Type} `{!PriorityQueue ExpirationRecord Q}.
Context {P : Type} `{!Poller P}.
Context (m_networkOptions : NetworkOptions).
(** [m_controlWakeup.ReadFd()] *)
Context (controlFd : Z).

Abbreviation R := (M (SubReactor Q P)).

(** A call on [conn], a reference to the element of [m_clients] at [cfd]. *)
Definition on_client {A} (cfd : Z) (h : M (Ctx Q P) A) : R A :=
  fun s =>
    match m_poller s, m_clients s !! cfd with
    | Some p, Some c =>
        let '(r, x) := h (mkCtx (r_store s) (r_metrics s) p c) in
        (r, s <| r_store := x_store x |> <| r_metrics := x_metrics x |>
              <| m_poller := Some (x_poller x) |> <| m_clients ::= <[cfd := x_conn x]> |>)
    | _, _ => (Fail (Undefined "dangling reference"), s)
    end.

(** A call on [*m_poller]. *)
Definition on_poller {A} (m : M P A) : R A :=
  fun s =>
    match m_poller s with
    | Some p => let '(r, p') := m p in (r, s <| m_poller := Some p' |>)
    | None => (Fail (Undefined "null poller"), s)
    end.

Definition reactor_metric (m : M ServerMetrics unit) : R unit := zoom r_metrics m.

(** The destructor of a valid [ScopedFd]. *)
Definition close_fd (cfd : Z) : R unit := modify (fun s => s <| r_closes ::= cons cfd |>).

Definition PublishState (state : ServerState) : R unit :=
  modify (fun s => s <| m_state := state |>);;
  modify (fun s => s <| m_publishedState := state |>).

(** ** Control interface, called by other threads *)

(** [None] is an invalid descriptor. The parameter is destroyed when it is not
    kept. *)
Definition EnqueClient (clientFd : option Z) : R bool :=
  match clientFd with
  | None => mret false
  | Some cfd =>
      s ← gets id;
      if m_stopRequested s || m_forceStopRequested s then close_fd cfd;; mret false
      else modify (fun s => s <| m_pendingClients ::= fun l => l ++ [cfd] |>);; mret true
  end.

Definition Stop (deadline : TimePoint) : R unit :=
  s ← gets id;
  when (negb (m_stopRequested s) || (deadline <? m_requestedShutdownDeadline s)) (
    modify (fun s => s <| m_requestedShutdownDeadline := deadline |>));;
  modify (fun s => s <| m_stopRequested := true |>).

Definition ForceStop : R unit := modify (fun s => s <| m_forceStopRequested := true |>).

Definition IsStopped : R bool := gets (fun s => bool_decide (m_publishedState s = Stopped)).
Definition HasFailed : R bool := gets m_failed.

(** ** Connections *)

Definition AddClientInLoop (client : Z) : R unit :=
  clients ← gets m_clients;
  match clients !! client with
  | Some _ => close_fd client;; throw (logic_error "client fd already exist")
  | None =>
      modify (fun s => s <| m_clients ::= <[client := Connection_init client]> |>);;
      let interests := DesiredEvents (Connection_init client) in
      on_exception
        (on_poller (poller_Add client interests);;
         modify (fun s => s <| m_clients ::=
           alter (fun c => c <| registeredEvents := interests |>) client |>))
        (modify (fun s => s <| m_clients ::= delete client |>);; close_fd client);;
      reactor_metric OnConnectionAccepted
  end.

(** One step of the [for] over [m_clients]. *)
Definition CleanupClosedConnections_body (cfd : Z) : R unit :=
  clients ← gets m_clients;
  match clients !! cfd with
  | None => mret tt
  | Some c =>
      if negb (closed c) then mret tt else
      try_catch (on_poller (poller_Remove cfd)) (fun _ => mret tt);;
      reactor_metric OnConnectionClosed;;
      modify (fun s => s <| m_clients ::= delete cfd |>);;
      close_fd cfd
  end.

(** The keys of [m_clients], in one iteration order. *)
Definition client_fds (s : SubReactor Q P) : list Z := (map_to_list (m_clients s)).*1.

Definition CleanupClosedConnections : R unit :=
  fds ← gets client_fds;
  for_each fds CleanupClosedConnections_body.

Definition ForceCloseAllConnections : R unit :=
  connectionCount ← gets (fun s => Z.of_nat (size (m_clients s)));
  reactor_metric (AddForcedShutdownConnections connectionCount);;
  fds ← gets client_fds;
  for_each fds (fun cfd => on_client cfd MarkClosed);;
  CleanupClosedConnections.

(** The body of the [for] of [BeginGracefulShutdown]. *)
Definition shutdown_conn : M (Ctx Q P) unit :=
  conn_modify (fun c => c <| readPaused := true |> <| closeAfterWrite := true |>);;
  empty ← conn_gets (fun c => Empty (writeBuffer c));
  if (empty : bool) then MarkClosed else RefreshConnectionInterest m_networkOptions.

Definition BeginGracefulShutdown (deadline : TimePoint) : R unit :=
  state ← gets m_state;
  if negb (bool_decide (state = Running)) then mret tt else
  modify (fun s => s <| m_shutdownDeadline := deadline |>);;
  PublishState Draining;;
  fds ← gets client_fds;
  for_each fds (fun cfd => on_client cfd shutdown_conn);;
  CleanupClosedConnections;;
  clients ← gets m_clients;
  when (bool_decide (clients = ∅)) (PublishState Stopped).

Definition CheckShutdownProgress (now : TimePoint) : R unit :=
  state ← gets m_state;
  if negb (bool_decide (state = Draining)) then mret tt else
  clients ← gets m_clients;
  if bool_decide (clients = ∅) then PublishState Stopped else
  deadline ← gets m_shutdownDeadline;
  when (deadline <=? now) (ForceCloseAllConnections;; PublishState Stopped).

Definition ProcessControlRequests : R unit :=
  s ← gets id;
  let pendingClients := m_pendingClients s in
  modify (fun s => s <| m_pendingClients := [] |>);;
  if m_forceStopRequested s then
    for_each pendingClients close_fd;;
    ForceCloseAllConnections;;
    PublishState Stopped
  else if m_stopRequested s then
    for_each pendingClients close_fd;;
    BeginGracefulShutdown (m_requestedShutdownDeadline s)
  else
    for_each pendingClients (fun client => try_catch (AddClientInLoop client) (fun _ => mret tt)).

(** ** The loop *)

(** [std::chrono::milliseconds] from a duration in nanoseconds. *)
Definition NS_PER_MS : Z := 1000000.

Definition ComputeWaitTimeout (now : TimePoint) (s : SubReactor Q P) : Z :=
  if bool_decide (m_state s = Running) then 500 else
  if negb (bool_decide (m_state s = Draining)) then 0 else
  if m_shutdownDeadline s <=? now then 0 else
  let remaining := Z.quot (m_shutdownDeadline s - now) NS_PER_MS in
  let remaining := if remaining <=? 0 then 1 else remaining in
  Z.min 100 remaining.

(** What the loop does with one ready connection. *)
Definition client_event (state : ServerState) (events : IoEvent) (io : conn_io) : M (Ctx Q P) unit :=
  if HasIoEvent events IoEvent_Error then MarkClosed else
  when (bool_decide (state = Running) && HasIoEvent events IoEvent_Read)
    (HandleClientRead m_networkOptions (io_clock io) (io_recv io));;
  isClosed ← conn_gets closed;
  when (negb isClosed && HasIoEvent events IoEvent_Write)
    (HandleClientWrite m_networkOptions (io_send io));;
  isClosed ← conn_gets closed;
  when (negb isClosed && HasIoEvent events IoEvent_Hangup) (
    conn_modify (fun c => c <| readPaused := true |> <| closeAfterWrite := true |>);;
    empty ← conn_gets (fun c => Empty (writeBuffer c));
    when empty MarkClosed);;
  isClosed ← conn_gets closed;
  when (negb isClosed) (RefreshConnectionInterest m_networkOptions).

Definition handle_event (event : ReadyEvent * conn_io) : R unit :=
  let '(rEvent, io) := event in
  if re_fd rEvent =? controlFd then mret tt else
  clients ← gets m_clients;
  match clients !! re_fd rEvent with
  | None => mret tt
  | Some _ =>
      state ← gets m_state;
      on_client (re_fd rEvent) (client_event state (re_events rEvent) io)
  end.

(** One round of the [while], inside the [try]. *)
Definition EventLoop_body (i : round_input) : R unit :=
  timeout ← gets (ComputeWaitTimeout (ri_now i));
  readyEvents ← lift (ri_wait i timeout);
  let controlEventReceived := existsb (fun event => re_fd event.1 =? controlFd) readyEvents in
  when controlEventReceived (lift (ri_drain i);; ProcessControlRequests);;
  state ← gets m_state;
  if bool_decide (state = Stopped) then mret tt else
  for_each readyEvents handle_event;;
  CleanupClosedConnections;;
  CheckShutdownProgress (ri_after i).

(** The handlers of the exceptions that leave the loop. *)
Definition EventLoop_catch : R unit :=
  modify (fun s => s <| m_failed := true |>);;
  fds ← gets client_fds;
  modify (fun s => s <| m_clients := ∅ |>);;
  for_each fds close_fd;;
  PublishState Stopped.

(** What happens to a reactor: rounds of its thread, which has ended once the
    state is [Stopped], and calls of other threads. *)
Inductive reactor_step :=
  | StepRound (i : round_input)
  | StepEnqueue (clientFd : Z)
  | StepStop (deadline : TimePoint)
  | StepForceStop.

Definition exec_step (step : reactor_step) : R unit :=
  match step with
  | StepRound i =>
      state ← gets m_state;
      if bool_decide (state = Stopped) then mret tt else
      try_catch (EventLoop_body i) (fun _ => EventLoop_catch)
  | StepEnqueue cfd => EnqueClient (Some cfd);; mret tt
  | StepStop deadline => Stop deadline
  | StepForceStop => ForceStop
  end.

Definition run_steps (steps : list reactor_step) : R unit := for_each steps exec_step.
End EventLoop.
