(* ===== verification/ReactorFrame.v ===== *)
(** * What a round of a reactor leaves alone

    A reactor that has failed stays so, and whatever the calls of the poller
    keep of it (its descriptors, for one) a round keeps. *)

From S2P Require Import Prelude PriorityQueue KVStore FrameCodec OutputBuffer ServerMetrics Poller SubReactor EventLoop.
#[local] Open Scope Z_scope.

(** A computation on another component of the state. *)
Lemma keeps_zoom {S T X A} (f : S -> X) (proj : S -> T) `{!Setter proj} (m : M T A) :
  (forall s t, f (s <| proj := t |>) = f s) -> keeps f (zoom proj m).
Proof. intros Hf s. unfold zoom. destruct (m (proj s)). apply Hf. Qed.

(** A computation on a component that itself keeps what [f] sees of it. *)
Lemma keeps_zoom_in {S T X A} (f : S -> X) (g : T -> X) (proj : S -> T) `{!Setter proj} (m : M T A) :
  (forall s t, f (s <| proj := t |>) = g t) -> (forall s, f s = g (proj s)) -> keeps g m -> keeps f (zoom proj m).
Proof. intros Hu Hf Hm s. unfold zoom. specialize (Hm (proj s)). destruct (m (proj s)). cbn in *. by rewrite Hu, Hf. Qed.

Lemma Encode_keeps {S X} (f : S -> X) payload : keeps f (Encode payload).
Proof. unfold Encode, memcpy. repeat first [progress cbv zeta|keeps_step]. Qed.
#[export] Hint Resolve Encode_keeps : keeps.

Lemma within_for_each {S A} (R : S -> S -> Prop) `{!PreOrder R} (l : list A) (f : A -> M S unit) :
  (forall a, within R (f a)) -> within R (for_each l f).
Proof. intros Hf. induction l as [|a l IH]; [by intros s|]. cbn [for_each]. by apply (within_bind R). Qed.

Section frame.
Context {Q : Type} `{!PriorityQueue ExpirationRecord Q}.
Context {P : Type} `{!Poller P}.
Context {X : Type} (F : P -> X).
Context (Hadd : forall fd i, keeps F (poller_Add fd i)).
Context (Hmodity : forall fd i, keeps F (poller_Modity fd i)).
Context (Hremove : forall fd, keeps F (poller_Remove fd)).
Context (o : NetworkOptions) (controlFd : Z).

(** ** Handlers *)

Abbreviation seen := (fun x : Ctx Q P => F (x_poller x)).

Ltac handler_step := first
  [ progress cbv zeta | solve [eauto with keeps nocore] | keeps_step
  | apply keeps_zoom; intros; reflexivity ].

Lemma conn_modify_keeps (f : Connection -> Connection) : keeps seen (conn_modify f).
Proof. done. Qed.
Lemma conn_gets_keeps {A} (f : Connection -> A) : keeps seen (conn_gets f).
Proof. done. Qed.
Lemma metric_keeps (m : M ServerMetrics unit) : keeps seen (metric m).
Proof. by apply keeps_zoom. Qed.
Lemma write_buffer_keeps {A} (m : M OutputBuffer A) : keeps seen (write_buffer m).
Proof. by apply keeps_zoom. Qed.
#[local] Hint Resolve conn_modify_keeps conn_gets_keeps metric_keeps write_buffer_keeps : keeps.

Lemma MarkClosed_keeps : keeps seen MarkClosed.
Proof. unfold MarkClosed. repeat handler_step. Qed.
#[local] Hint Resolve MarkClosed_keeps : keeps.

Lemma UpdateReadBackPressure_keeps : keeps seen (UpdateReadBackPressure o).
Proof. unfold UpdateReadBackPressure. repeat handler_step. Qed.
#[local] Hint Resolve UpdateReadBackPressure_keeps : keeps.

Lemma QueueResponse_keeps response : keeps seen (QueueResponse o response).
Proof. unfold QueueResponse. repeat handler_step. Qed.
#[local] Hint Resolve QueueResponse_keeps : keeps.

Lemma ProcessPayload_keeps tick payload : keeps seen (ProcessPayload o tick payload).
Proof. unfold ProcessPayload, BuildStatsResponse. repeat handler_step. Qed.
#[local] Hint Resolve ProcessPayload_keeps : keeps.

Lemma process_payloads_keeps clock i payloads : keeps seen (process_payloads o clock i payloads).
Proof. revert i. induction payloads as [|p ps IH]; intros i; cbn [process_payloads]; unfold others_call; repeat first [apply IH|handler_step]. Qed.
#[local] Hint Resolve process_payloads_keeps : keeps.

Lemma HandleClientRead_keeps clock answers : keeps seen (HandleClientRead o clock answers).
Proof. unfold HandleClientRead, RejectOversizedReadBuffer, decode_received. repeat handler_step. Qed.

Lemma HandleClientWrite_keeps answers : keeps seen (HandleClientWrite o answers).
Proof. unfold HandleClientWrite. repeat handler_step. Qed.

Lemma RefreshConnectionInterest_keeps : keeps seen (RefreshConnectionInterest o).
Proof.
  unfold RefreshConnectionInterest. repeat first [by apply (keeps_zoom_in _ F)|handler_step].
Qed.
#[local] Hint Resolve HandleClientRead_keeps HandleClientWrite_keeps RefreshConnectionInterest_keeps : keeps.

Lemma client_event_keeps state events io : keeps seen (client_event o state events io).
Proof. unfold client_event. repeat handler_step. Qed.

Lemma shutdown_conn_keeps : keeps seen (shutdown_conn o).
Proof. unfold shutdown_conn. repeat handler_step. Qed.

(** ** The loop *)

(** Whether it has failed, and what is seen of the poller. *)
Definition kept (s : SubReactor Q P) : bool * option X := (m_failed s, F <$> m_poller s).

Lemma on_client_keeps {A} cfd (h : M (Ctx Q P) A) : keeps seen h -> keeps kept (on_client cfd h).
Proof.
  intros Hh s. unfold on_client, kept. destruct (m_poller s) as [p|] eqn:Hp; [|cbn; by rewrite ?Hp].
  destruct (m_clients s !! cfd) as [c|]; [|cbn; by rewrite ?Hp].
  specialize (Hh (mkCtx (r_store s) (r_metrics s) p c)). destruct (h _) as [r x]. cbn in *. by rewrite Hh.
Qed.

Lemma on_poller_keeps {A} (m : M P A) : keeps F m -> keeps kept (on_poller m).
Proof.
  intros Hm s. unfold on_poller, kept. destruct (m_poller s) as [p|] eqn:Hp; [|cbn; by rewrite ?Hp].
  specialize (Hm p). destruct (m p) as [r p']. cbn in *. by rewrite Hm.
Qed.

Lemma reactor_metric_keeps (m : M ServerMetrics unit) : keeps kept (reactor_metric m).
Proof. by apply keeps_zoom. Qed.

Lemma for_each_keeps {S Y A} (f : S -> Y) (l : list A) (g : A -> M S unit) :
  (forall a, keeps f (g a)) -> keeps f (for_each l g).
Proof. intros Hg. induction l as [|a l IH]; cbn [for_each]; [apply keeps_ret|]. by apply keeps_bind. Qed.

Lemma on_exception_keeps {S Y A} (f : S -> Y) (m : M S A) h : keeps f m -> keeps f h -> keeps f (on_exception m h).
Proof.
  intros Hm Hh s. unfold on_exception. specialize (Hm s). destruct (m s) as [[a|[e| | |]] s1]; cbn in *; try done.
  rewrite <- Hm. unfold mbind, M_bind. specialize (Hh s1). by destruct (h s1) as [[[]|] s2].
Qed.

#[local] Hint Resolve on_client_keeps on_poller_keeps reactor_metric_keeps MarkClosed_keeps shutdown_conn_keeps
  client_event_keeps : keeps.

Ltac loop_step := first
  [ progress cbv zeta | solve [eauto with keeps nocore] | apply for_each_keeps | apply on_exception_keeps | keeps_step ].

Lemma close_fd_keeps cfd : keeps kept (close_fd cfd).
Proof. done. Qed.
Lemma PublishState_keeps state : keeps kept (PublishState state).
Proof. done. Qed.
#[local] Hint Resolve close_fd_keeps PublishState_keeps : keeps.

Lemma AddClientInLoop_keeps client : keeps kept (AddClientInLoop client).
Proof. unfold AddClientInLoop. repeat loop_step. Qed.
#[local] Hint Resolve AddClientInLoop_keeps : keeps.

Lemma CleanupClosedConnections_keeps : keeps kept CleanupClosedConnections.
Proof. unfold CleanupClosedConnections, CleanupClosedConnections_body. repeat loop_step. Qed.
#[local] Hint Resolve CleanupClosedConnections_keeps : keeps.

Lemma ForceCloseAllConnections_keeps : keeps kept ForceCloseAllConnections.
Proof. unfold ForceCloseAllConnections. repeat loop_step. Qed.
#[local] Hint Resolve ForceCloseAllConnections_keeps : keeps.

Lemma ProcessControlRequests_keeps : keeps kept (ProcessControlRequests o).
Proof. unfold ProcessControlRequests, BeginGracefulShutdown. repeat loop_step. Qed.
#[local] Hint Resolve ProcessControlRequests_keeps : keeps.

Lemma EventLoop_body_keeps i : keeps kept (EventLoop_body o controlFd i).
Proof. unfold EventLoop_body, CheckShutdownProgress, handle_event. repeat loop_step. Qed.

Lemma EventLoop_catch_kept (s : SubReactor Q P) : kept (EventLoop_catch s).2 = (true, (kept s).2).
Proof.
  assert (forall l (r : SubReactor Q P), for_each l close_fd r = (Ret tt, (for_each l close_fd r).2)) as Hclose.
  { induction l as [|cfd l IH]; intros r; [done|]. cbn [for_each]. unfold mbind, M_bind, close_fd at 1 3, modify. apply IH. }
  unfold EventLoop_catch. cbv [mbind M_bind gets modify]. rewrite Hclose.
  match goal with |- context [for_each ?l close_fd ?s1] =>
    pose proof (for_each_keeps kept l close_fd close_fd_keeps s1) as Hk; set (r := (for_each l close_fd s1).2) in * end.
  clearbody r. unfold kept in *. cbn in *. exact Hk.
Qed.

(** A round, with the handler of exceptions. *)
Lemma round_kept i (s : SubReactor Q P) :
  let s' := (exec_step o controlFd (StepRound i) s).2 in
  (kept s').2 = (kept s).2 /\ (m_failed s = true -> m_failed s' = true).
Proof.
  cbn zeta. unfold exec_step. cbv [mbind M_bind gets]. case_bool_decide; [done|]. unfold try_catch.
  pose proof (EventLoop_body_keeps i s) as Hb.
  destruct (EventLoop_body o controlFd i s) as [[[]|[e| | |]] s1]; cbn [snd] in *;
    unfold kept in Hb; injection Hb as Hf Hp; cbn; rewrite ?Hf, ?Hp; try done.
  pose proof (EventLoop_catch_kept s1) as Hc. unfold kept in Hc. injection Hc as Hf' Hp'.
  by rewrite Hp', Hf', Hp.
Qed.
End frame.

(** What has failed stays so. *)
Lemma round_failed {Q} `{!PriorityQueue ExpirationRecord Q} {P} `{!Poller P} o controlFd i (s : SubReactor Q P) :
  m_failed s = true -> m_failed (exec_step o controlFd (StepRound i) s).2 = true.
Proof. by apply (round_kept (fun _ => tt)). Qed.
