(* ===== verification/ReactorEvents.v ===== *)
(** * One event of the loop on one connection *)

From S2P Require Import Prelude PriorityQueue KVStore KVStoreInv KVStoreSpec FrameCodec RequestSpec OutputBuffer ServerMetrics MetricsTheorems Poller SubReactor SubReactorInv SubReactorRequests SubReactorHandlers SubReactorTheorems EventLoop.
#[local] Open Scope Z_scope.

(** A rule for [for_each]: the invariant speaks of the elements still to come. *)
Lemma wp_for_each {S A} (I : list A -> S -> Prop) (E : failure -> S -> Prop) (f : A -> M S unit) l s :
  I l s ->
  (forall x l' s, I (x :: l') s -> wp (f x) (fun _ => I l') E s) ->
  wp (for_each l f) (fun _ => I []) E s.
Proof.
  intros HI Hf. revert s HI. induction l as [|x l IH]; intros s HI; [by apply wp_ret|].
  cbn [for_each]. apply wp_bind. eapply wp_mono; [by apply Hf| |done]. cbn. intros [] s'. apply IH.
Qed.

Section reactor.
Context {Q : Type} `{!PriorityQueue ExpirationRecord Q}
  `{!PriorityQueueLaws ExpirationRecord Q ExpirationCompare}.
Context {P : Type} `{!Poller P, !PollerLaws P}.
Context (o : NetworkOptions) (controlFd : Z).
Hypothesis Ho : options_ok o.

(** ** One ready connection *)

Lemma read_effect_same run c answer c' :
  read_effect o run c answer c' -> fd c' = fd c /\ registeredEvents c' = registeredEvents c.
Proof.
  assert (forall c0 resp c1, rejected o c0 resp c1 -> fd c1 = fd c0 /\ registeredEvents c1 = registeredEvents c0)
    as Hrej by (intros c0 resp c1 [(_ & (? & ? & _) & _)|(_ & ->)]; done).
  unfold read_effect. destruct (_ <=? _); [by apply Hrej|]. destruct answer as [available|errno].
  2: { intros ->. by destruct (errno =? EAGAIN). }
  case_bool_decide; [by intros ->|].
  destruct (Decode _) as [[ps|f] rest]; [|by intros ?%Hrej].
  intros (lines & left & resps & _ & _ & [[_ ->]|(_ & (? & ? & _) & _)]); done.
Qed.

(** [c'] is [c] after sending; it is not watched for anything else. *)
Definition sent_from (c c' : Connection) : Prop :=
  fd c' = fd c /\ registeredEvents c' = registeredEvents c /\
  (exists k, pending c' = drop k (pending c)) /\
  (closeAfterWrite c = true -> closed c' = true \/ closeAfterWrite c' = true).

Lemma sent_closed c : sent_from c (closed_conn c).
Proof.
  split_and!; try done; [|by left]. exists (length (pending c)). by rewrite drop_all.
Qed.

Lemma sent_bp k b c : Data b = drop k (pending c) -> sent_from c (bp_conn o (c <| writeBuffer := b |>)).
Proof.
  intros Hb. destruct (bp_conn_same o (c <| writeBuffer := b |>)) as (Hp & _ & _ & _ & Hcw & Hfd & Hre).
  split_and!; [done..| |right; by rewrite Hcw]. exists k. by rewrite Hp, <-Hb.
Qed.

Lemma write_effect_same c answer c' : write_effect o c answer c' -> sent_from c c'.
Proof.
  assert (c = c <| writeBuffer := writeBuffer c |>) as Hc by by destruct c.
  unfold write_effect. case_bool_decide.
  { intros ->. destruct (closeAfterWrite c) eqn:Hcw; [apply sent_closed|].
    rewrite Hc at 2. by apply (sent_bp 0). }
  destruct answer as [room|errno].
  2: { intros ->. destruct (errno =? EAGAIN); [|apply sent_closed].
       split_and!; try done; [by exists 0%nat|by right]. }
  destruct (_ <=? 0); [intros ->; apply sent_closed|].
  intros (b' & _ & Hd & ->). destruct (_ && _); [apply sent_closed|by eapply sent_bp].
Qed.

(** The answers of the socket calls come, and the clock of the commands runs
    between [now] and [hi]. *)
Definition io_ok (now hi : TimePoint) (io : conn_io) : Prop :=
  now <= hi /\ ticks_ok now (io_clock io) 0 /\ (forall j, turn_time (io_clock io j) <= hi) /\
  (exists r, retry_eintr (io_recv io) = Ret r) /\ (exists r, retry_eintr (io_send io) = Ret r).

(** The connection [c] may have become [c'], unchanged for the poller; a reactor
    that does not run only sends. *)
Definition evolved (state : ServerState) (c c' : Connection) : Prop :=
  ConnOK o c' /\ fd c' = fd c /\ registeredEvents c' = registeredEvents c /\
  (state <> Running -> (exists k, pending c' = drop k (pending c)) /\
     (closeAfterWrite c = true -> closed c' = true \/ closeAfterWrite c' = true)).

(** The store after an event at which it was [s]. *)
Definition served (state : ServerState) (n : Z) (hi : TimePoint) (s s' : KVStore Q) : Prop :=
  (exists a, StoreOK n hi a s') /\ (state <> Running -> s' = s).

(** Between the handlers of the event that began at [x]. *)
Definition between (state : ServerState) (n : Z) (hi : TimePoint) (x x' : Ctx Q P) : Prop :=
  served state n hi (x_store x) (x_store x') /\ x_poller x' = x_poller x /\
  evolved state (x_conn x) (x_conn x').

Lemma StoreOK_mono n n' now now' a (s : KVStore Q) :
  n <= n' -> now <= now' -> StoreOK n now a s -> exists a', StoreOK n' now' a' s.
Proof.
  intros Hn Hnow (HI & Hm & Hs). exists a. split; [by eapply (Inv_mono n)|].
  split; [by eapply (means_later now)|done].
Qed.

Lemma evolved_closed state c c' : evolved state c c' -> evolved state c (closed_conn c').
Proof.
  intros (Hok & Hfd & Hre & _). split; [by apply closed_conn_ok|].
  split; [done|]. split; [done|]. intros _. split; [|by left].
  exists (length (pending c)). by rewrite drop_all.
Qed.

Lemma evolved_trans state c1 c2 c3 :
  evolved state c1 c2 -> closed c2 = false -> evolved state c2 c3 -> evolved state c1 c3.
Proof.
  intros (_ & Hfd & Hre & H1) Hopen (Hok & Hfd' & Hre' & H2).
  split; [done|]. split; [by rewrite Hfd', Hfd|]. split; [by rewrite Hre', Hre|].
  intros Hst. destruct (H1 Hst) as [[k1 Hp1] Hc1], (H2 Hst) as [[k2 Hp2] Hc2]. split.
  - exists (k1 + k2)%nat. by rewrite Hp2, Hp1, drop_drop.
  - intros Hcw. destruct (Hc1 Hcw) as [Hcl|]; [congruence|by apply Hc2].
Qed.

Lemma budget_mono n clock : n <= n + event_calls o clock.
Proof. pose proof (store_calls_nonneg clock 0 (Z.to_nat (maxReadBufferBytes o))). unfold event_calls. lia. Qed.

Lemma evolved_refl state c : ConnOK o c -> evolved state c c.
Proof. intros Hok. split_and!; try done. intros _. split; [by exists 0%nat|by right]. Qed.

(** ** The parts of an event *)

Lemma event_read_wp state io n now hi a (x : Ctx Q P) :
  ConnOK o (x_conn x) -> StoreOK n now a (x_store x) -> io_ok now hi io ->
  n + event_calls o (io_clock io) < U64_MOD -> state = Running ->
  wp (HandleClientRead o (io_clock io) (io_recv io))
     (fun _ => between state (n + event_calls o (io_clock io)) hi x) no_fail x.
Proof.
  intros Hc HS (Hhi & Ht & Hup & [r Hr] & _) Hn Hst. destruct (reading (x_conn x)) eqn:Hrd.
  - eapply wp_mono; [by eapply (handle_read_wp o Ho _ _ r n now a)| |done].
    intros _ _ (a' & now' & s' & m' & c' & -> & Hle & HS' & Hnow' & Heff).
    split; [split; [|done]|split; [done|]].
    + eapply StoreOK_mono; [done| |exact HS'].
      destruct Hnow' as [->|[j ->]]; [done|apply Hup].
    + destruct (read_effect_same _ _ _ _ Heff).
      split; [by eapply read_effect_ok|]. by split_and!.
  - unfold wp. rewrite read_inactive by done. split; [split; [|done]|split; [done|]].
    + by eapply StoreOK_mono; [apply budget_mono| |].
    + by apply evolved_refl.
Qed.

Lemma event_write_wp state io n hi now (x x1 : Ctx Q P) :
  between state n hi x x1 -> closed (x_conn x1) = false -> io_ok now hi io ->
  wp (HandleClientWrite o (io_send io)) (fun _ => between state n hi x) no_fail x1.
Proof.
  intros (HS & Hpo & Hev) Hcl (_ & _ & _ & _ & [r Hr]).
  eapply wp_mono; [by eapply (handle_write_wp o _ r _ (proj1 Hev))| |done].
  intros _ _ (m' & c' & -> & Heff). split; [done|]. split; [done|].
  eapply evolved_trans; [exact Hev|done|]. split.
  { eapply write_effect_ok; [done|apply Hev|done|exact Heff]. }
  destruct (write_effect_same _ _ _ Heff) as (? & ? & Hdrop & ?). by split_and!.
Qed.

Definition hangup : M (Ctx Q P) unit :=
  conn_modify (fun c => c <| readPaused := true |> <| closeAfterWrite := true |>);;
  empty ← conn_gets (fun c => Empty (writeBuffer c));
  when empty MarkClosed.

Lemma lingering_ok c :
  ConnOK o c -> closed c = false ->
  ConnOK o (c <| readPaused := true |> <| closeAfterWrite := true |>).
Proof.
  intros [Hb Hp Hr _ _] Hcl. split; try done. intros Ht. exfalso.
  change (closed c = true) in Ht. congruence.
Qed.

Lemma event_hangup_wp state n hi (x x1 : Ctx Q P) :
  between state n hi x x1 -> closed (x_conn x1) = false ->
  wp hangup (fun _ => between state n hi x) no_fail x1.
Proof.
  intros (HS & Hpo & Hev) Hcl. pose proof (lingering_ok _ (proj1 Hev) Hcl) as Hok.
  assert (evolved state (x_conn x)
    ((x_conn x1) <| readPaused := true |> <| closeAfterWrite := true |>)) as Hl.
  { eapply evolved_trans; [exact Hev|done|]. split; [done|]. split_and!; try done.
    intros _. split; [by exists 0%nat|by right]. }
  unfold hangup. apply wp_bind, wp_modify, wp_bind, wp_gets, wp_when; intros _; [|done].
  apply wp_markclosed. split; [done|]. split; [done|]. by apply evolved_closed.
Qed.

(** The state after the event: the connection is closed, or watched for what it
    wants. *)
Definition event_done (state : ServerState) (n : Z) (hi : TimePoint) (x x' : Ctx Q P) : Prop :=
  served state n hi (x_store x) (x_store x') /\ poller_ok (x_poller x') /\
  ConnOK o (x_conn x') /\ fd (x_conn x') = fd (x_conn x) /\
  (state <> Running -> (exists k, pending (x_conn x') = drop k (pending (x_conn x))) /\
     (closed (x_conn x) = true \/ closeAfterWrite (x_conn x) = true ->
        closed (x_conn x') = true \/ closeAfterWrite (x_conn x') = true)) /\
  ((closed (x_conn x') = true /\ registered (x_poller x') = registered (x_poller x)) \/
   (closed (x_conn x') = false /\ interest_current (x_conn x') /\
    registered (x_poller x') =
      <[fd (x_conn x) := registeredEvents (x_conn x')]> (registered (x_poller x)))).

(** What an exception of the poller leaves. *)
Definition event_failed (state : ServerState) (n : Z) (hi : TimePoint) (x : Ctx Q P)
    (f : failure) (x' : Ctx Q P) : Prop :=
  (exists e, f = Throw e) /\ poller_ok (x_poller x') /\
  served state n hi (x_store x) (x_store x').

(** What the poller is told of a connection that is not closed. *)
Definition watched (p : P) (c : Connection) : Prop :=
  closed c = false -> registered p !! fd c = Some (registeredEvents c).

Lemma event_closed state n hi (x x' : Ctx Q P) :
  poller_ok (x_poller x) -> between state n hi x x' -> closed (x_conn x') = true ->
  event_done state n hi x x'.
Proof.
  intros Hok (HS & Hpo & Hc & Hfd & Hre & Hst) Hcl. rewrite <-Hpo in Hok.
  split; [done|]. split; [done|]. split; [done|]. split; [done|]. split; [|left; by rewrite Hpo].
  intros Hnr. split; [by apply Hst|by left].
Qed.

Lemma event_refresh_wp state n hi (x x1 : Ctx Q P) :
  poller_ok (x_poller x) -> watched (x_poller x) (x_conn x) -> closed (x_conn x) = false ->
  between state n hi x x1 -> closed (x_conn x1) = false ->
  wp (RefreshConnectionInterest o) (fun _ => event_done state n hi x) (event_failed state n hi x) x1.
Proof.
  intros Hpok Hw Hopen (HS & Hpo & Hev) Hcl. pose proof Hev as (Hok & Hfd & Hre & Hst).
  eapply wp_mono; [eapply (refresh_wp o Ho); [done|by rewrite Hpo|]| |].
  - intros _. rewrite Hpo, Hfd, Hre. by apply Hw.
  - intros _ x' (m' & p' & c' & -> & Hp' & Hr). rewrite Hpo in Hr.
    assert (closed c' = true -> evolved state (x_conn x) c' ->
      event_done state n hi x (mkCtx (x_store x1) m' p' c')) as Hdone.
    { intros Hcl' (? & ? & ? & Hst'). split; [done|]. split; [done|]. split; [done|]. split; [done|].
      split; [intros Hnr; split; [by apply Hst'|by left]|left]. split; [done|].
      destruct Hr as [(_ & _ & Hr & _)|(Hno & _)]; [done|congruence]. }
    destruct Hr as [(Hcl' & -> & Hr & _)|(Hcl' & Hi & Hok' & [re ->] & Hr)].
    + apply Hdone; [done|]. by apply evolved_closed.
    + destruct (bp_conn_same o (x_conn x1)) as (Hpe & _ & _ & _ & Hcw & Hfd' & _).
      split; [done|]. split; [done|]. split; [done|].
      split; [exact (eq_trans Hfd' Hfd)|]. split; [|right; by rewrite <-Hfd].
      intros Hnr. destruct (Hst Hnr) as [[k Hk] Hcw']. split; [exists k; by rewrite <-Hk, <-Hpe|].
      intros [|Hc0]; [congruence|]. right. destruct (Hcw' Hc0) as [?|Ht]; [congruence|exact (eq_trans Hcw Ht)].
  - intros f x' (He & Hp' & _ & Hs). split; [done|]. split; [done|]. by rewrite Hs.
Qed.

(** A connection closed by an earlier event of the round stays closed. *)
Lemma client_event_closed_wp state events io n hi (x : Ctx Q P) E :
  poller_ok (x_poller x) -> between state n hi x x -> closed (x_conn x) = true ->
  wp (client_event o state events io) (fun _ => event_done state n hi x) E x.
Proof.
  intros Hpo Hrefl Hcl. unfold client_event. destruct (HasIoEvent events IoEvent_Error).
  { apply wp_markclosed, event_closed; [done| |done]. destruct Hrefl as (? & ? & ?).
    split; [done|]. split; [done|]. by apply evolved_closed. }
  apply wp_bind, wp_when; intros _.
  - unfold wp at 1. rewrite read_inactive by (unfold reading; by rewrite Hcl).
    repeat (apply wp_bind, wp_gets; rewrite Hcl; cbn [negb andb]; try apply wp_bind, wp_ret).
    by apply event_closed.
  - repeat (apply wp_bind, wp_gets; rewrite Hcl; cbn [negb andb]; try apply wp_bind, wp_ret).
    by apply event_closed.
Qed.

(** An event on a connection: only an exception of the poller leaves it. *)
Lemma client_event_wp state events io n now hi a (x : Ctx Q P) :
  ConnOK o (x_conn x) -> StoreOK n now a (x_store x) -> io_ok now hi io ->
  n + event_calls o (io_clock io) < U64_MOD -> poller_ok (x_poller x) ->
  watched (x_poller x) (x_conn x) ->
  wp (client_event o state events io)
     (fun _ => event_done state (n + event_calls o (io_clock io)) hi x)
     (event_failed state (n + event_calls o (io_clock io)) hi x) x.
Proof.
  intros Hc HS Hio Hn Hpo Hw. set (n' := n + event_calls o (io_clock io)).
  assert (between state n' hi x x) as Hrefl.
  { split; [split; [|done]|split; [done|by apply evolved_refl]].
    eapply StoreOK_mono; [apply budget_mono|exact (proj1 Hio)|exact HS]. }
  destruct (closed (x_conn x)) eqn:Hopen; [by apply client_event_closed_wp|].
  unfold client_event. destruct (HasIoEvent events IoEvent_Error).
  { apply wp_markclosed, event_closed; [done| |done]. destruct Hrefl as (? & ? & ?).
    split; [done|]. split; [done|]. by apply evolved_closed. }
  apply wp_bind. eapply (wp_mono _ (fun _ => between state n' hi x) _ no_fail); [| |done].
  { apply wp_when; [|done]. intros [Hst%bool_decide_eq_true _]%andb_true_iff.
    by eapply event_read_wp. }
  intros _ x1 H1. apply wp_bind, wp_gets.
  apply wp_bind. eapply (wp_mono _ (fun _ => between state n' hi x) _ no_fail); [| |done].
  { apply wp_when; [|done]. intros [Hcl%negb_true_iff _]%andb_true_iff. by eapply event_write_wp. }
  intros _ x2 H2. apply wp_bind, wp_gets.
  apply wp_bind. eapply (wp_mono _ (fun _ => between state n' hi x) _ no_fail); [| |done].
  { apply wp_when; [|done]. intros [Hcl%negb_true_iff _]%andb_true_iff. by eapply event_hangup_wp. }
  intros _ x3 H3. apply wp_bind, wp_gets, wp_when; intros Hcl.
  - apply negb_true_iff in Hcl. apply event_refresh_wp; try done.
  - apply negb_false_iff in Hcl. by apply event_closed.
Qed.
End reactor.
