(* ===== verification/ReactorInv.v ===== *)
(** * The reactor: invariant, and what a round does to it *)

From S2P Require Import Prelude PriorityQueue KVStore KVStoreInv KVStoreSpec FrameCodec RequestSpec OutputBuffer ServerMetrics MetricsTheorems Poller SubReactor SubReactorInv SubReactorRequests SubReactorHandlers SubReactorTheorems EventLoop ReactorEvents.
#[local] Open Scope Z_scope.

(** The order in which a reactor goes through its states. *)
Definition phase (state : ServerState) : Z :=
  match state with Created => 0 | Running => 1 | Draining => 2 | Stopped => 3 end.

Section reactor.
Context {Q : Type} `{!PriorityQueue ExpirationRecord Q}
  `{!PriorityQueueLaws ExpirationRecord Q ExpirationCompare}.
Context {P : Type} `{!Poller P, !PollerLaws P}.
Context (o : NetworkOptions) (controlFd : Z).
Hypothesis Ho : options_ok o.

Abbreviation Reactor := (SubReactor Q P).
Implicit Types s : Reactor.

(** ** Invariant *)

(** The connection in the map at [cfd]: consistent, and watched by the poller
    for what it wants. *)
Definition ClientOK (p : P) (cfd : Z) (c : Connection) : Prop :=
  ConnOK o c /\ fd c = cfd /\ (closed c = false -> interest_current c) /\ watched p c.

(** What holds at every point of a round. *)
Record Core (n : Z) (now : TimePoint) s : Prop := mkCore {
  core_published : m_publishedState s = m_state s;
  core_started : m_state s <> Created;
  core_clients : exists p, m_poller s = Some p /\ poller_ok p /\
    map_Forall (ClientOK p) (m_clients s);
  core_store : exists a, StoreOK n now a (r_store s);
}.

(** What holds between the rounds. *)
Record ReactorOK (n : Z) (now : TimePoint) s : Prop := mkReactorOK {
  ro_core : Core n now s;
  ro_open : map_Forall (fun _ c => closed c = false) (m_clients s);
  ro_requested : m_state s = Draining -> m_stopRequested s = true;
  ro_draining : m_state s = Draining -> map_Forall (fun _ c => closeAfterWrite c = true) (m_clients s);
  ro_stopped : m_state s = Stopped -> m_clients s = ∅;
}.

(** The descriptors the reactor has been given: waiting, each with a connection,
    or closed. *)
Definition descriptors s : list Z := m_pendingClients s ++ client_fds s ++ r_closes s.

(** How a round goes from [s0]: the phase does not go back, requests of other
    threads stand, and the store is not touched once the reactor drains. *)
Record goes s0 s : Prop := mkGoes {
  go_phase : phase (m_state s0) <= phase (m_state s);
  go_stop : m_stopRequested s = m_stopRequested s0;
  go_force : m_forceStopRequested s = m_forceStopRequested s0;
  go_deadline : m_requestedShutdownDeadline s = m_requestedShutdownDeadline s0;
  go_store : 2 <= phase (m_state s0) -> r_store s = r_store s0;
  go_until : m_state s = Draining -> m_shutdownDeadline s =
    if bool_decide (m_state s0 = Draining) then m_shutdownDeadline s0
    else m_requestedShutdownDeadline s0;
  go_asked : m_state s = Draining -> m_state s0 = Draining \/ m_stopRequested s0 = true;
}.

(** Draining connections only send what was queued. *)
Definition only_sends s0 s : Prop :=
  2 <= phase (m_state s0) -> forall cfd c', m_clients s !! cfd = Some c' ->
    exists c k, m_clients s0 !! cfd = Some c /\ pending c' = drop k (pending c).

(** The invariant inside a round that began at [s0]; [held] are descriptors in a
    local variable. *)
Record Inside s0 (acc held : list Z) (n : Z) (now : TimePoint) s : Prop := mkInside {
  in_core : Core n now s;
  in_owned : held ++ descriptors s ≡ₚ acc;
  in_goes : goes s0 s;
  in_sends : only_sends s0 s;
}.

(** What an exception that ends the loop leaves. *)
Definition Broken s0 (acc : list Z) (n : Z) (now : TimePoint) (f : failure) s : Prop :=
  (exists e, f = Throw e) /\ m_publishedState s = m_state s /\
  (exists p, m_poller s = Some p /\ poller_ok p) /\
  (exists a, StoreOK n now a (r_store s)) /\ descriptors s ≡ₚ acc /\ goes s0 s.

Lemma goes_refl s : goes s s.
Proof. split; try done; [intros Hd; by rewrite bool_decide_eq_true_2|by left]. Qed.

Lemma only_sends_refl s : only_sends s s.
Proof. intros _ cfd c Hc. by exists c, 0%nat. Qed.

Lemma Core_mono n n' now now' s : n <= n' -> now <= now' -> Core n now s -> Core n' now' s.
Proof.
  intros Hn Hnow [Hp Hc Hcl [a Ha]]. split; try done. by eapply StoreOK_mono.
Qed.

(** ** Rules for the parts of the state *)

Lemma wp_reactor_metric (m : M ServerMetrics unit) c (R : unit -> Reactor -> Prop) E s :
  (forall ms, m ms = exec_call c ms) -> (forall m', R tt (s <| r_metrics := m' |>)) ->
  wp (reactor_metric m) R E s.
Proof.
  intros Hm HR. unfold wp, reactor_metric, zoom. rewrite Hm, exec_call_rmws. apply HR.
Qed.

Lemma Inside_metrics s0 acc held n now m' s :
  Inside s0 acc held n now s -> Inside s0 acc held n now (s <| r_metrics := m' |>).
Proof. intros [[? ? ? ?] ? [] ?]. by repeat split. Qed.

(** A reference to a client goes back into the map. *)
Definition put (cfd : Z) (x : Ctx Q P) s : Reactor :=
  s <| r_store := x_store x |> <| r_metrics := x_metrics x |>
    <| m_poller := Some (x_poller x) |> <| m_clients ::= <[cfd := x_conn x]> |>.

Lemma wp_on_client {A} cfd p c (h : M (Ctx Q P) A) R E R' E' s :
  m_poller s = Some p -> m_clients s !! cfd = Some c ->
  wp h R E (mkCtx (r_store s) (r_metrics s) p c) ->
  (forall a x, R a x -> R' a (put cfd x s)) -> (forall f x, E f x -> E' f (put cfd x s)) ->
  wp (on_client cfd h) R' E' s.
Proof.
  intros Hp Hc Hh HR HE. unfold wp, on_client in *. rewrite Hp, Hc.
  destruct (h _) as [[a|f] x]; [by apply HR|by apply HE].
Qed.

Lemma wp_on_poller {A} p (m : M P A) R E (R' : A -> Reactor -> Prop) E' s :
  m_poller s = Some p -> wp m R E p ->
  (forall a p', R a p' -> R' a (s <| m_poller := Some p' |>)) ->
  (forall f p', E f p' -> E' f (s <| m_poller := Some p' |>)) ->
  wp (on_poller m) R' E' s.
Proof.
  intros Hp Hm HR HE. unfold wp, on_poller in *. rewrite Hp.
  destruct (m p) as [[a|f] p']; [by apply HR|by apply HE].
Qed.

(** ** Descriptors *)

Lemma client_fds_delete s cfd c :
  m_clients s !! cfd = Some c ->
  (map_to_list (m_clients s)).*1 ≡ₚ cfd :: (map_to_list (delete cfd (m_clients s))).*1.
Proof. intros Hc. by rewrite <-(map_to_list_delete _ _ _ Hc). Qed.

Lemma client_fds_replace s cfd c c' :
  m_clients s !! cfd = Some c ->
  (map_to_list (<[cfd := c']> (m_clients s))).*1 ≡ₚ (map_to_list (m_clients s)).*1.
Proof.
  intros Hc. rewrite (client_fds_delete s cfd c Hc), <-insert_delete_eq, map_to_list_insert.
  - done.
  - apply lookup_delete_eq.
Qed.

(** ** One connection of the reactor *)

Lemma put_clients p cfd c x s (C : gmap Z Connection) (state : ServerState) n hi :
  m_clients s = C -> C !! cfd = Some c -> map_Forall (ClientOK p) C ->
  event_done o state n hi (mkCtx (r_store s) (r_metrics s) p c) x ->
  map_Forall (ClientOK (x_poller x)) (<[cfd := x_conn x]> C).
Proof.
  intros _ Hc HC (_ & _ & Hok & Hfd & _ & Hw) cfd' c'. cbn in Hfd, Hw.
  assert (fd c = cfd) as Hcfd by apply (HC _ _ Hc). subst cfd.
  destruct (decide (cfd' = fd c)) as [->|Hne].
  - rewrite lookup_insert_eq. intros [= <-]. split; [done|]. split; [done|].
    destruct Hw as [[Hcl _]|(Hcl & Hi & Hr)].
    + unfold watched. rewrite Hcl. done.
    + split; [done|]. intros _. by rewrite Hr, Hfd, lookup_insert_eq.
  - rewrite lookup_insert_ne by done. intros Hc'. destruct (HC _ _ Hc') as (? & Hfd' & ? & Hw').
    split_and!; try done. intros Hcl. rewrite <-(Hw' Hcl).
    destruct Hw as [[_ ->]|(_ & _ & ->)]; [done|]. rewrite lookup_insert_ne by congruence. done.
Qed.

Lemma put_descriptors cfd c x s :
  m_clients s !! cfd = Some c -> descriptors (put cfd x s) ≡ₚ descriptors s.
Proof.
  intros Hc. apply Permutation_app_head, Permutation_app_tail.
  unfold client_fds. cbn. by eapply client_fds_replace.
Qed.

Lemma put_inside s0 acc held n now n' hi p cfd c x s :
  Inside s0 acc held n now s -> m_poller s = Some p -> m_clients s !! cfd = Some c ->
  event_done o (m_state s) n' hi (mkCtx (r_store s) (r_metrics s) p c) x ->
  Inside s0 acc held n' hi (put cfd x s).
Proof.
  intros [[Hpub Hst (p' & Hp' & Hpo & HC) _] Hown Hgo Hsend] Hp Hc Hd.
  rewrite Hp in Hp'. injection Hp' as <-.
  pose proof Hd as ((Ha & Hsame) & Hpo' & _ & _ & Hdrop & _). cbn in Hsame, Hdrop. split.
  - split; [done|done| |exact Ha]. exists (x_poller x). split; [done|]. split; [done|].
    by apply (put_clients p cfd c x s (m_clients s) (m_state s) n' hi).
  - rewrite <-Hown. by rewrite (put_descriptors cfd c).
  - destruct Hgo as [Hph ? ? ? Hstore ? ?]. split; try done. intros H2. rewrite <-Hstore by done.
    apply Hsame. intros Hrun. rewrite Hrun in Hph. cbn in Hph. lia.
  - intros H2 cfd' c'. cbn. destruct (decide (cfd' = cfd)) as [->|Hne].
    + rewrite lookup_insert_eq. intros [= <-]. destruct (Hsend H2 _ _ Hc) as (c0 & k0 & Hc0 & Hk0).
      destruct Hdrop as [[k Hk] _].
      { intros Hrun. pose proof (go_phase _ _ Hgo) as Hph. rewrite Hrun in Hph. cbn in Hph. lia. }
      exists c0, (k0 + k)%nat. split; [done|]. by rewrite Hk, Hk0, drop_drop.
    + rewrite lookup_insert_ne by done. by apply Hsend.
Qed.

Lemma put_broken s0 acc n now n' hi p cfd c f x s :
  Inside s0 acc [] n now s -> m_poller s = Some p -> m_clients s !! cfd = Some c ->
  event_failed (m_state s) n' hi (mkCtx (r_store s) (r_metrics s) p c) f x ->
  Broken s0 acc n' hi f (put cfd x s).
Proof.
  intros [[Hpub _ _ _] Hown Hgo _] Hp Hc (He & Hpo & Ha & Hsame). cbn in Hsame.
  split; [done|]. split; [exact Hpub|]. split; [by eexists|]. split; [exact Ha|]. split.
  - rewrite <-Hown. by rewrite (put_descriptors cfd c).
  - destruct Hgo as [Hph ? ? ? Hstore ? ?]. split; try done. intros H2. rewrite <-Hstore by done.
    apply Hsame. intros Hrun. rewrite Hrun in Hph. cbn in Hph. lia.
Qed.

(** Some clients are closed or close after writing. *)
Definition drains (l : list Z) s : Prop :=
  forall cfd c, m_clients s !! cfd = Some c -> cfd ∈ l \/ closed c = true \/ closeAfterWrite c = true.

Lemma put_drains l cfd x s :
  drains (cfd :: l) s -> closed (x_conn x) = true \/ closeAfterWrite (x_conn x) = true ->
  drains l (put cfd x s).
Proof.
  intros Hd Hx cfd' c'. cbn. destruct (decide (cfd' = cfd)) as [->|Hne].
  - rewrite lookup_insert_eq. intros [= <-]. by right.
  - rewrite lookup_insert_ne by done. intros [Hin|?]%Hd; [|by right].
    apply elem_of_cons in Hin as [?|?]; [done|by left].
Qed.

(** ** Closed connections are removed *)

(** What [CleanupClosedConnections] has done to [s]. *)
Definition cleaned s s' : Prop :=
  m_state s' = m_state s /\ m_clients s' ⊆ m_clients s.

(** After the poller has or has not removed the closed connection at [cfd]. *)
Lemma removed_inside s0 acc held n now p p' cfd c m' s :
  Inside s0 acc held n now s -> m_poller s = Some p -> m_clients s !! cfd = Some c ->
  closed c = true -> poller_ok p' ->
  registered p' = registered p \/ registered p' = delete cfd (registered p) ->
  Inside s0 acc held n now
    (s <| m_poller := Some p' |> <| r_metrics := m' |> <| m_clients ::= delete cfd |>
       <| r_closes ::= cons cfd |>).
Proof.
  intros [[Hpub Hst (p1 & Hp1 & _ & HC) Ha] Hown [Hph Hs Hf Hd Hstore Hu Hask] Hsend] Hp Hc Hcl Hpo' Hreg.
  rewrite Hp in Hp1. injection Hp1 as <-. split.
  - split; [done|done| |done]. exists p'. split; [done|]. split; [done|]. intros cfd' c'. cbn.
    intros [Hne Hc']%lookup_delete_Some. destruct (HC _ _ Hc') as (? & Hfd & ? & Hw).
    split_and!; try done. intros Hopen. rewrite <-(Hw Hopen).
    destruct Hreg as [-> | ->]; [done|]. by rewrite lookup_delete_ne by congruence.
  - rewrite <-Hown. apply Permutation_app_head, Permutation_app_head. unfold client_fds. cbn.
    rewrite (client_fds_delete s cfd c Hc). by rewrite <-Permutation_middle.
  - by split.
  - intros H2 cfd' c'. cbn. intros [_ Hc']%lookup_delete_Some. by apply Hsend.
Qed.

Lemma cleanup_body_wp s0 acc held n now cfd s :
  Inside s0 acc held n now s ->
  wp (CleanupClosedConnections_body cfd)
     (fun _ s' => Inside s0 acc held n now s' /\ cleaned s s' /\
        (forall c, m_clients s' !! cfd = Some c -> closed c = false)) no_fail s.
Proof.
  intros HI. unfold CleanupClosedConnections_body. apply wp_bind, wp_gets.
  destruct (m_clients s !! cfd) as [c|] eqn:Hc.
  2: { apply wp_ret. split_and!; try done. intros c. by rewrite Hc. }
  destruct (closed c) eqn:Hcl; cbn [negb].
  2: { apply wp_ret. split_and!; try done. intros c'. rewrite Hc. by intros [= <-]. }
  pose proof (in_core _ _ _ _ _ _ HI) as [_ _ (p & Hp & Hpo & _) _].
  apply wp_bind, wp_try_catch.
  assert (forall m' p', poller_ok p' ->
    registered p' = registered p \/ registered p' = delete cfd (registered p) ->
    let s' := s <| m_poller := Some p' |> <| r_metrics := m' |> <| m_clients ::= delete cfd |>
                <| r_closes ::= cons cfd |> in
    Inside s0 acc held n now s' /\ cleaned s s' /\
      (forall c, m_clients s' !! cfd = Some c -> closed c = false)) as Hdone.
  { intros m' p' Hpo' Hreg. split; [by eapply removed_inside|]. split.
    - split; [done|]. apply delete_subseteq.
    - intros c'. cbn. by rewrite lookup_delete_eq. }
  assert (forall p', poller_ok p' ->
    registered p' = registered p \/ registered p' = delete cfd (registered p) ->
    wp (reactor_metric OnConnectionClosed;; modify (fun s => s <| m_clients ::= delete cfd |>);;
        close_fd cfd)
       (fun _ s' => Inside s0 acc held n now s' /\ cleaned s s' /\
          (forall c, m_clients s' !! cfd = Some c -> closed c = false)) no_fail
       (s <| m_poller := Some p' |>)) as Hrest.
  { intros p' Hpo' Hreg. apply wp_bind, (wp_reactor_metric _ CallConnectionClosed); [done|]. intros m'.
    apply wp_bind, wp_modify, wp_modify. by apply (Hdone m'). }
  eapply wp_on_poller; [done|by apply remove_law| |].
  - intros _ p' (Hpo' & Hr). apply Hrest; [done|by right].
  - intros f p' (Hpo' & Hr & e & ->). apply wp_ret, Hrest; [done|by left].
Qed.

Lemma cleanup_wp s0 acc held n now s :
  Inside s0 acc held n now s ->
  wp CleanupClosedConnections
     (fun _ s' => Inside s0 acc held n now s' /\ cleaned s s' /\
        map_Forall (fun _ c => closed c = false) (m_clients s')) no_fail s.
Proof.
  intros HI. unfold CleanupClosedConnections. apply wp_bind, wp_gets.
  eapply wp_mono; [apply (wp_for_each (fun l s' => Inside s0 acc held n now s' /\ cleaned s s' /\
    forall cfd c, m_clients s' !! cfd = Some c -> cfd ∈ l \/ closed c = false))| |done].
  - split; [done|]. split; [done|]. intros cfd c Hc. left. unfold client_fds.
    apply (elem_of_map_to_list (m_clients s)) in Hc. by apply (list_elem_of_fmap_2 fst _ (cfd, c)).
  - intros cfd l s1 (HI1 & [Hst1 Hsub1] & Hl). eapply wp_mono; [by apply cleanup_body_wp| |done].
    intros _ s2 (HI2 & [Hst2 Hsub2] & Hopen). split; [done|]. split.
    + split; [by rewrite Hst2|by etrans].
    + intros cfd' c Hc. destruct (decide (cfd' = cfd)) as [->|Hne]; [right; by apply Hopen|].
      destruct (Hl cfd' c) as [Hin|]; [by eapply lookup_weaken| |by right].
      apply elem_of_cons in Hin as [?|?]; [done|by left].
  - intros _ s' (HI' & Hcl & Hl). split_and!; try done. intros cfd c Hc.
    destruct (Hl _ _ Hc) as [Hin|]; [by apply not_elem_of_nil in Hin|done].
Qed.

Lemma ClientOK_between state n now p cfd c a s :
  ClientOK p cfd c -> StoreOK n now a (r_store s) ->
  between o state n now (mkCtx (r_store s) (r_metrics s) p c) (mkCtx (r_store s) (r_metrics s) p c).
Proof.
  intros (Hok & _) Ha. split; [by split; [exists a|]|]. split; [done|]. by apply evolved_refl.
Qed.

Lemma mark_closed_wp s0 acc held n now cfd s :
  Inside s0 acc held n now s -> is_Some (m_clients s !! cfd) ->
  wp (on_client cfd MarkClosed)
     (fun _ s' => Inside s0 acc held n now s' /\ exists x, s' = put cfd x s /\ closed (x_conn x) = true)
     no_fail s.
Proof.
  intros HI [c Hc]. pose proof (in_core _ _ _ _ _ _ HI) as [_ _ (p & Hp & Hpo & HC) [a Ha]].
  eapply (wp_on_client _ p c MarkClosed (fun _ x => event_done o (m_state s) n now
    (mkCtx (r_store s) (r_metrics s) p c) x /\ closed (x_conn x) = true) no_fail); [done|done| | |done].
  - apply wp_markclosed. split; [|done]. apply event_closed; [done| |done].
    destruct (ClientOK_between (m_state s) n now p cfd c a s (HC _ _ Hc) Ha) as (HS & Hpp & Hev).
    split; [done|]. split; [done|]. by apply evolved_closed.
  - intros _ x [Hd Hcl]. split; [by eapply put_inside|]. by exists x.
Qed.

(** The loop that goes through all clients. *)
Lemma client_fds_elem s cfd c : m_clients s !! cfd = Some c -> cfd ∈ client_fds s.
Proof.
  intros Hc. apply (elem_of_map_to_list (m_clients s)) in Hc.
  by apply (list_elem_of_fmap_2 fst _ (cfd, c)).
Qed.

Lemma client_fds_is_Some s : Forall (fun cfd => is_Some (m_clients s !! cfd)) (client_fds s).
Proof.
  apply Forall_forall. intros cfd ([cfd' c] & -> & Hin)%list_elem_of_fmap.
  apply elem_of_map_to_list in Hin. by exists c.
Qed.

Lemma put_is_Some (cfd : Z) x s l :
  Forall (fun cfd => is_Some (m_clients s !! cfd)) l ->
  Forall (fun cfd' => is_Some (m_clients (put cfd x s) !! cfd')) l.
Proof.
  intros Hl. eapply Forall_impl; [exact Hl|]. intros cfd' Hs. cbn. destruct (decide (cfd' = cfd)) as [->|Hne].
  - rewrite lookup_insert_eq. by eexists.
  - rewrite lookup_insert_ne by done. exact Hs.
Qed.

Lemma mark_all_closed_wp s0 acc held n now s :
  Inside s0 acc held n now s ->
  wp (for_each (client_fds s) (fun cfd => on_client cfd MarkClosed))
     (fun _ s' => Inside s0 acc held n now s' /\ m_state s' = m_state s /\
        map_Forall (fun _ c => closed c = true) (m_clients s')) no_fail s.
Proof.
  intros HI. eapply wp_mono; [apply (wp_for_each (fun l s' => Inside s0 acc held n now s' /\
    m_state s' = m_state s /\ Forall (fun cfd => is_Some (m_clients s' !! cfd)) l /\
    forall cfd c, m_clients s' !! cfd = Some c -> cfd ∈ l \/ closed c = true))| |done].
  - split; [done|]. split; [done|]. split; [apply client_fds_is_Some|].
    intros cfd c Hc. left. by eapply client_fds_elem.
  - intros cfd l s1 (HI1 & Hst1 & [Hs1 Hl1]%Forall_cons & Hcl1).
    eapply wp_mono; [by apply mark_closed_wp| |done].
    intros _ s2 (HI2 & x & -> & Hx). split; [done|]. split; [done|]. split; [by apply put_is_Some|].
    intros cfd' c'. cbn. destruct (decide (cfd' = cfd)) as [->|Hne].
    + rewrite lookup_insert_eq. intros [= <-]. by right.
    + rewrite lookup_insert_ne by done. intros [Hin|?]%Hcl1; [|by right].
      apply elem_of_cons in Hin as [?|?]; [done|by left].
  - intros _ s' (HI' & Hst & _ & Hl). split_and!; try done. intros cfd c Hc.
    destruct (Hl _ _ Hc) as [Hin|]; [by apply not_elem_of_nil in Hin|done].
Qed.

Lemma force_close_wp s0 acc held n now s :
  Inside s0 acc held n now s ->
  wp ForceCloseAllConnections
     (fun _ s' => Inside s0 acc held n now s' /\ m_state s' = m_state s /\ m_clients s' = ∅) no_fail s.
Proof.
  intros HI. unfold ForceCloseAllConnections. apply wp_bind, wp_gets, wp_bind.
  eapply (wp_reactor_metric _ (CallForcedShutdownConnections _)); [done|]. intros m'.
  apply wp_bind, wp_gets, wp_bind. change (client_fds s) with (client_fds (s <| r_metrics := m' |>)).
  eapply wp_mono; [by apply mark_all_closed_wp, Inside_metrics| |done].
  intros _ s1 (HI1 & Hst1 & Hcl1). eapply wp_mono; [by apply cleanup_wp| |done].
  intros _ s2 (HI2 & [Hst2 Hsub] & Hopen). split; [done|]. split; [by rewrite Hst2|].
  apply map_empty. intros cfd. destruct (m_clients s2 !! cfd) as [c|] eqn:Hc; [|done].
  exfalso. pose proof (Hopen _ _ Hc). pose proof (Hcl1 _ _ (lookup_weaken _ _ _ _ Hc Hsub)). cbn in *. congruence.
Qed.

Lemma Inside_stopped s0 acc held n now s :
  Inside s0 acc held n now s ->
  Inside s0 acc held n now (s <| m_state := Stopped |> <| m_publishedState := Stopped |>).
Proof.
  intros [[Hpub Hst HC Ha] Hown [Hph ? ? ? ? ? ?] Hsend]. split; try done.
  split; try done. cbn. by destruct (m_state s0).
Qed.

Lemma publish_wp (R : unit -> Reactor -> Prop) E state s :
  R tt (s <| m_state := state |> <| m_publishedState := state |>) -> wp (PublishState state) R E s.
Proof. intros HR. apply wp_bind, wp_modify, wp_modify, HR. Qed.

(** What stopping leaves. *)
Definition finished s : Prop := m_state s = Stopped /\ m_clients s = ∅.

Lemma stop_wp s0 acc held n now s :
  Inside s0 acc held n now s -> m_clients s = ∅ ->
  wp (PublishState Stopped) (fun _ s' => Inside s0 acc held n now s' /\ finished s') no_fail s.
Proof.
  intros HI Hc. apply publish_wp. split; [by apply Inside_stopped|by split].
Qed.
End reactor.
