(* ===== verification/ReactorRounds.v ===== *)
(** * The rounds of the event loop *)

From S2P Require Import Prelude PriorityQueue KVStore KVStoreInv KVStoreSpec FrameCodec RequestSpec OutputBuffer ServerMetrics MetricsTheorems Poller SubReactor SubReactorInv SubReactorRequests SubReactorHandlers SubReactorTheorems EventLoop ReactorEvents ReactorInv.
#[local] Open Scope Z_scope.

Section rounds.
Context {Q : Type} `{!PriorityQueue ExpirationRecord Q}
  `{!PriorityQueueLaws ExpirationRecord Q ExpirationCompare}.
Context {P : Type} `{!Poller P, !PollerLaws P}.
Context (o : NetworkOptions) (controlFd : Z).
Hypothesis Ho : options_ok o.

Abbreviation Reactor := (SubReactor Q P).
Implicit Types s : Reactor.

(** ** Graceful shutdown *)

(** One connection is told to close after writing. *)
Lemma shutdown_conn_wp n now a (x : Ctx Q P) :
  ConnOK o (x_conn x) -> StoreOK n now a (x_store x) -> poller_ok (x_poller x) ->
  watched (x_poller x) (x_conn x) ->
  wp (shutdown_conn o)
     (fun _ x' => event_done o Draining n now x x' /\
        (closed (x_conn x') = true \/ closeAfterWrite (x_conn x') = true))
     (event_failed Draining n now x) x.
Proof.
  intros Hc HS Hpo Hw. destruct x as [s m p c]. cbn in Hc, HS, Hpo, Hw. unfold shutdown_conn.
  apply wp_bind, wp_modify, wp_bind, wp_gets. cbn [x_conn].
  change (writeBuffer _) with (writeBuffer c) at 1.
  rewrite (empty_data _ (co_buffer _ _ Hc)). change (Data (writeBuffer c)) with (pending c).
  assert (served Draining n now s s) as Hsrv by (split; [by exists a|done]).
  case_bool_decide as Hnil.
  { apply wp_markclosed. split; [|by left]. apply event_closed; [done| |done].
    split; [done|]. split; [done|].
    exact (evolved_closed o Ho _ _ _ (evolved_refl o Draining c Hc)). }
  assert (closed c = false) as Hcl.
  { destruct (closed c) eqn:Hcl; [|done]. by rewrite (co_closed _ _ Hc Hcl) in Hnil. }
  set (c1 := c <| readPaused := true |> <| closeAfterWrite := true |>).
  set (x1 := mkCtx s m p c1). pose proof (lingering_ok o c Hc Hcl) as Hc1.
  eapply wp_mono; [eapply (event_refresh_wp o Ho Draining n now x1 x1)| |]; try done.
  - split; [done|]. split; [done|]. by apply evolved_refl.
  - intros [] x' (HS' & Hpo' & Hok' & Hfd & Hd & Hr). destruct (Hd ltac:(done)) as [Hk Hcw].
    specialize (Hcw (or_intror eq_refl)). split; [|exact Hcw]. by split_and!.
Qed.

(** What [BeginGracefulShutdown] leaves when it does not end the reactor. *)
Definition settled s : Prop :=
  map_Forall (fun _ c => closed c = false) (m_clients s) /\
  (m_state s = Draining -> map_Forall (fun _ c => closeAfterWrite c = true) (m_clients s)) /\
  (m_state s = Stopped -> m_clients s = ∅).

(** The loop over the clients. *)
Lemma shutdown_all_wp s0 acc n now s :
  Inside o s0 acc [] n now s -> m_state s = Draining ->
  wp (for_each (client_fds s) (fun cfd => on_client cfd (shutdown_conn o)))
     (fun _ s' => Inside o s0 acc [] n now s' /\ m_state s' = Draining /\ drains [] s')
     (Broken s0 acc n now) s.
Proof.
  intros HI Hst. eapply wp_mono; [apply (wp_for_each (fun l s' => Inside o s0 acc [] n now s' /\
    m_state s' = Draining /\ Forall (fun cfd => is_Some (m_clients s' !! cfd)) l /\ drains l s'))| |done].
  - split; [done|]. split; [done|]. split; [apply client_fds_is_Some|].
    intros cfd c Hc. left. by eapply client_fds_elem.
  - intros cfd l s1 (HI1 & Hst1 & [[c Hc] Hl1]%Forall_cons & Hd1).
    pose proof (in_core _ _ _ _ _ _ _ HI1) as [_ _ (p & Hp & Hpo & HC) [a Ha]].
    destruct (HC _ _ Hc) as (Hok & Hfd & Hi & Hw).
    eapply wp_on_client; [done|done|by eapply (shutdown_conn_wp n now a)| |].
    + intros _ x [Hd Hx]. rewrite <-Hst1 in Hd. split; [by eapply put_inside|]. split; [done|].
      split; [by apply put_is_Some|by apply put_drains].
    + intros f x Hf. rewrite <-Hst1 in Hf. by eapply put_broken.
  - by intros _ s' (? & ? & _ & ?).
Qed.

Lemma begin_shutdown_wp s0 acc n now deadline s :
  Inside o s0 acc [] n now s -> settled s ->
  (m_state s = Running -> m_state s0 = Running /\ m_stopRequested s0 = true /\
     deadline = m_requestedShutdownDeadline s0) ->
  wp (BeginGracefulShutdown o deadline)
     (fun _ s' => Inside o s0 acc [] n now s' /\ settled s' /\ m_state s' <> Running)
     (Broken s0 acc n now) s.
Proof.
  intros HI Hset Hdl. unfold BeginGracefulShutdown. apply wp_bind, wp_gets. case_bool_decide as Hrun.
  2: { by apply wp_ret. }
  destruct (Hdl Hrun) as (H0 & Hask & ->). cbn [negb].
  apply wp_bind, wp_modify, wp_bind, publish_wp, wp_bind, wp_gets, wp_bind.
  eapply wp_mono; [apply shutdown_all_wp; [|done]| |done].
  { destruct HI as [[Hpub Hst HC Ha] Hown [Hph ? ? ? ? ? ?] Hsend]. split; try done.
    split; try done; cbn; [by rewrite H0|by rewrite H0|by right]. }
  intros _ s1 (HI1 & Hst1 & Hd1). apply wp_bind.
  eapply (wp_mono _ _ _ no_fail); [by apply cleanup_wp| |done].
  intros _ s2 (HI2 & [Hst2 Hsub] & Hopen). rewrite Hst1 in Hst2. apply wp_bind, wp_gets, wp_when.
  - intros Hemp%bool_decide_eq_true. eapply (wp_mono _ _ _ no_fail); [by apply stop_wp| |done].
    intros _ s3 [HI3 [Hst3 Hc3]]. split; [done|]. split; [|by rewrite Hst3].
    split; rewrite Hc3; [apply map_Forall_empty|]. split; [by rewrite Hst3|done].
  - intros _. split; [done|]. split; [|by rewrite Hst2]. split; [done|]. split; [|by rewrite Hst2].
    intros _ cfd c Hc. pose proof (Hopen _ _ Hc) as Hcl.
    destruct (Hd1 cfd c) as [Hin|[?|?]]; [by eapply lookup_weaken| |cbn in *; congruence|done].
    by apply not_elem_of_nil in Hin.
Qed.

(** ** New clients *)

(** Closing a descriptor held in a local variable. *)
Lemma close_held s0 acc cfd held n now s :
  Inside o s0 acc (cfd :: held) n now s ->
  Inside o s0 acc held n now (s <| r_closes ::= cons cfd |>).
Proof.
  intros [[? ? ? ?] Hown [] Hsend]. split; [by split| |by split|exact Hsend].
  rewrite <-Hown. unfold descriptors. change (client_fds _) with (client_fds s). cbn.
  by rewrite <-!Permutation_middle.
Qed.

Definition new_client (client : Z) : Connection :=
  (Connection_init client) <| registeredEvents := IoEvent_Read |>.

Lemma added_inside s0 acc client held n now p p' m' s :
  Inside o s0 acc (client :: held) n now s -> m_state s0 = Running -> m_poller s = Some p ->
  m_clients s !! client = None -> poller_ok p' ->
  registered p' = <[client := IoEvent_Read]> (registered p) ->
  Inside o s0 acc held n now
    (s <| m_clients := <[client := new_client client]> (m_clients s) |> <| m_poller := Some p' |>
       <| r_metrics := m' |>).
Proof.
  intros [[Hpub Hst (p1 & Hp1 & _ & HC) Ha] Hown [] Hsend] Hrun Hp Hnone Hpo' Hreg.
  rewrite Hp in Hp1. injection Hp1 as <-. split.
  - split; [done|done| |done]. exists p'. split; [done|]. split; [done|]. cbn.
    apply map_Forall_insert; [done|]. split.
    + split; [by apply ConnOK_registered; [apply Connection_init_ok|]|]. split; [done|]. split; [done|].
      intros _. rewrite Hreg. apply lookup_insert_eq.
    + intros cfd c Hc. destruct (HC _ _ Hc) as (? & Hfd & ? & Hw). split_and!; try done.
      intros Hcl. rewrite <-(Hw Hcl), Hreg. apply lookup_insert_ne. congruence.
  - rewrite <-Hown. unfold descriptors, client_fds. cbn.
    rewrite map_to_list_insert by done. cbn. by rewrite <-!Permutation_middle.
  - by split.
  - intros H2. rewrite Hrun in H2. cbn in H2. lia.
Qed.

Lemma add_client_wp s0 acc client held n now s :
  Inside o s0 acc (client :: held) n now s -> settled s ->
  m_state s0 = Running -> m_state s = Running ->
  let done s' := Inside o s0 acc held n now s' /\ settled s' /\ m_state s' = Running in
  wp (AddClientInLoop client) (fun _ => done) (fun f s' => (exists e, f = Throw e) /\ done s') s.
Proof.
  intros HI [Hopen _] H0 Hrun. cbn zeta.
  assert (forall s', m_state s' = Running -> map_Forall (fun _ c => closed c = false) (m_clients s') ->
    settled s') as Hset by (intros s' Hs' ?; split; [done|]; by rewrite Hs').
  pose proof (in_core _ _ _ _ _ _ _ HI) as [_ _ (p & Hp & Hpo & HC) _].
  unfold AddClientInLoop. apply wp_bind, wp_gets. destruct (m_clients s !! client) as [c|] eqn:Hc.
  { apply wp_bind, wp_modify, wp_fail. split; [by eexists|]. split; [by apply close_held|].
    split; [by apply Hset|done]. }
  apply wp_bind, wp_modify. change (DesiredEvents _) with IoEvent_Read. cbn zeta. apply wp_bind.
  apply wp_on_exception, wp_bind. eapply wp_on_poller; [done|by apply add_law| |].
  - intros [] p' (Hpo' & _ & _ & Hreg). apply wp_modify. cbn.
    eapply (wp_reactor_metric _ CallConnectionAccepted); [done|].
    intros m'. rewrite alter_insert_eq.
    split; [by eapply added_inside|]. split; [|done]. apply Hset; [done|].
    by apply map_Forall_insert.
  - intros f p' (Hpo' & Hreg & e & ->). apply wp_bind, wp_modify, wp_modify. cbn.
    rewrite delete_insert_id by done.
    split; [by eexists|]. split; [|split; [by apply Hset|done]].
    refine (close_held s0 acc client held n now (s <| m_poller := Some p' |>) _).
    destruct HI as [[Hpub Hst _ Ha] Hown [] Hsend].
    split; [|done|by split|exact Hsend]. split; [done|done| |done]. exists p'. split; [done|].
    split; [done|]. intros cfd c Hc'. destruct (HC _ _ Hc') as (? & ? & ? & Hw).
    split_and!; try done. intros Hcl. rewrite Hreg. by apply Hw.
Qed.

(** ** Control requests *)

Lemma close_all_wp s0 acc held n now s :
  Inside o s0 acc held n now s ->
  wp (for_each held close_fd)
     (fun _ s' => Inside o s0 acc [] n now s' /\ m_state s' = m_state s /\
        m_clients s' = m_clients s /\ m_failed s' = m_failed s) no_fail s.
Proof.
  intros HI. apply (wp_for_each (fun l s' => Inside o s0 acc l n now s' /\
    m_state s' = m_state s /\ m_clients s' = m_clients s /\ m_failed s' = m_failed s)); [done|].
  intros cfd l s1 (HI1 & Hst & Hc & Hf). apply wp_modify. split; [by apply close_held|done].
Qed.

Lemma add_all_wp s0 acc held n now s :
  Inside o s0 acc held n now s -> settled s -> m_state s0 = Running -> m_state s = Running ->
  wp (for_each held (fun client => try_catch (AddClientInLoop client) (fun _ => mret tt)))
     (fun _ s' => Inside o s0 acc [] n now s' /\ settled s' /\ m_state s' = Running) no_fail s.
Proof.
  intros HI Hset H0 Hrun.
  apply (wp_for_each (fun l s' => Inside o s0 acc l n now s' /\ settled s' /\ m_state s' = Running));
    [done|]. intros client l s1 (HI1 & Hset1 & Hrun1).
  apply wp_try_catch. eapply wp_mono; [by apply add_client_wp|done|].
  intros f s2 [[e ->] H]. by apply wp_ret.
Qed.

(** The control fields decide what becomes of a running reactor. *)
Lemma control_wp acc n now s :
  ReactorOK o n now s -> m_state s <> Stopped -> descriptors s ≡ₚ acc ->
  wp (ProcessControlRequests o)
     (fun _ s' => Inside o s acc [] n now s' /\ settled s' /\
        (m_forceStopRequested s = true -> finished s') /\
        (m_stopRequested s = true -> m_state s' <> Running))
     (Broken s acc n now) s.
Proof.
  intros [Hcore Hopen Hreq Hdrain Hstop] Hns Hown.
  assert (settled s) as Hset by done.
  assert (Inside o s acc (m_pendingClients s) n now (s <| m_pendingClients := [] |>)) as HI.
  { destruct Hcore. split; [by split|exact Hown| |exact (only_sends_refl s)].
    destruct (goes_refl s). by split. }
  unfold ProcessControlRequests. apply wp_bind, wp_gets, wp_bind, wp_modify. cbn [id].
  destruct (m_forceStopRequested s) eqn:Hforce.
  { apply wp_bind. eapply (wp_mono _ _ _ no_fail); [by apply close_all_wp| |done].
    intros _ s1 (HI1 & _). apply wp_bind.
    eapply (wp_mono _ _ _ no_fail); [by apply force_close_wp| |done]. intros _ s2 (HI2 & _ & Hc2).
    eapply (wp_mono _ _ _ no_fail); [by apply stop_wp| |done]. intros _ s3 (HI3 & Hst3 & Hc3).
    split; [done|]. split; [|split; [done|by rewrite Hst3]].
    split; rewrite Hc3; [apply map_Forall_empty|]. split; [by rewrite Hst3|done]. }
  destruct (m_stopRequested s) eqn:Hstp.
  { apply wp_bind. eapply (wp_mono _ _ _ no_fail); [by apply close_all_wp| |done].
    intros _ s1 (HI1 & Hst1 & Hc1 & _). cbn in Hst1, Hc1.
    eapply wp_mono; [apply begin_shutdown_wp; [done| |]| |done].
    - unfold settled. by rewrite Hst1, Hc1.
    - intros Hr. split; [by rewrite <-Hst1|done].
    - by intros _ s2 (? & ? & ?). }
  assert (m_state s = Running) as Hrun.
  { destruct (m_state s) eqn:Hst; [by destruct (core_started _ _ _ _ Hcore)|done| |done].
    by specialize (Hreq eq_refl). }
  eapply (wp_mono _ _ _ no_fail); [by apply add_all_wp| |done]. by intros _ s1 (? & ? & ?).
Qed.

(** ** Ready events *)

(** The answers of the socket calls of a round come in order of time, between
    [now] and [hi]. *)
Fixpoint events_ok (now : TimePoint) (events : list (ReadyEvent * conn_io)) (hi : TimePoint) : Prop :=
  match events with
  | [] => now <= hi
  | (_, io) :: events => exists mid, io_ok now mid io /\ events_ok mid events hi
  end.

(** The calls on the store that the events bring. *)
Fixpoint round_calls (events : list (ReadyEvent * conn_io)) : Z :=
  match events with
  | [] => 0
  | (_, io) :: events => event_calls o (io_clock io) + round_calls events
  end.

Lemma round_calls_nonneg events : 0 <= round_calls events.
Proof.
  induction events as [|[ev io] events IH]; cbn [round_calls]; [done|].
  pose proof (budget_mono o 0 (io_clock io)). lia.
Qed.

Lemma events_ok_le now events hi : events_ok now events hi -> now <= hi.
Proof.
  revert now. induction events as [|[ev io] l IH]; intros now; [done|].
  intros (mid & [Hle _] & Hl%IH). lia.
Qed.

Lemma Broken_mono s0 acc n n' now now' f s :
  n <= n' -> now <= now' -> Broken s0 acc n now f s -> Broken s0 acc n' now' f s.
Proof.
  intros Hn Hnow (? & ? & ? & [a Ha] & ? & ?). split_and!; try done. by eapply StoreOK_mono.
Qed.

Lemma Inside_mono s0 acc held n n' now now' s :
  n <= n' -> now <= now' -> Inside o s0 acc held n now s -> Inside o s0 acc held n' now' s.
Proof. intros Hn Hnow [Hc ? ? ?]. split; try done. by eapply Core_mono. Qed.

Lemma handle_event_wp s0 acc n now mid ev io s :
  Inside o s0 acc [] n now s -> io_ok now mid io -> n + event_calls o (io_clock io) < U64_MOD ->
  wp (handle_event o controlFd (ev, io))
     (fun _ s' => Inside o s0 acc [] (n + event_calls o (io_clock io)) mid s' /\ m_state s' = m_state s /\
        (m_state s = Draining -> drains [] s -> drains [] s'))
     (Broken s0 acc (n + event_calls o (io_clock io)) mid) s.
Proof.
  intros HI Hio Hn. pose proof (budget_mono o n (io_clock io)) as Hle.
  assert (forall s', s' = s -> Inside o s0 acc [] (n + event_calls o (io_clock io)) mid s' /\
    m_state s' = m_state s /\ (m_state s = Draining -> drains [] s -> drains [] s')) as Hskip.
  { intros s' ->. split; [|done]. eapply Inside_mono; [done|exact (proj1 Hio)|done]. }
  unfold handle_event. destruct (re_fd ev =? controlFd); [by apply wp_ret, Hskip|].
  apply wp_bind, wp_gets. destruct (m_clients s !! re_fd ev) as [c|] eqn:Hc; [|by apply wp_ret, Hskip].
  apply wp_bind, wp_gets.
  pose proof (in_core _ _ _ _ _ _ _ HI) as [_ _ (p & Hp & Hpo & HC) [a Ha]].
  destruct (HC _ _ Hc) as (Hok & Hfd & Hi & Hw).
  eapply wp_on_client; [done|done|by eapply (client_event_wp o Ho _ _ _ n now)| |].
  - intros [] x Hd. split; [by eapply put_inside|]. split; [done|]. intros Hst Hdr.
    eapply put_drains; [intros cfd' c' Hc'; right|].
    + by destruct (Hdr _ _ Hc') as [Hin%not_elem_of_nil|?].
    + destruct Hd as (_ & _ & _ & _ & Hdrop & _). apply Hdrop; [by rewrite Hst|].
      by destruct (Hdr _ _ Hc) as [Hin%not_elem_of_nil|?].
  - intros f x Hf. by eapply put_broken.
Qed.

Lemma events_wp s0 acc n now n' hi events s :
  Inside o s0 acc [] n now s -> events_ok now events hi ->
  n + round_calls events <= n' -> n' < U64_MOD ->
  (m_state s = Draining -> drains [] s) ->
  wp (for_each events (handle_event o controlFd))
     (fun _ s' => Inside o s0 acc [] n' hi s' /\ m_state s' = m_state s /\
        (m_state s = Draining -> drains [] s')) (Broken s0 acc n' hi) s.
Proof.
  intros HI Hev Hn Hmax Hd.
  eapply wp_mono; [apply (wp_for_each (fun l s' => exists n1 now1, Inside o s0 acc [] n1 now1 s' /\
    events_ok now1 l hi /\ n1 + round_calls l <= n' /\
    m_state s' = m_state s /\ (m_state s = Draining -> drains [] s')))| |done].
  - by exists n, now.
  - intros [ev io] l s1 (n1 & now1 & HI1 & (mid & Hio & Hl) & Hn1 & Hst1 & Hd1).
    cbn [round_calls] in Hn1. pose proof (round_calls_nonneg l). pose proof (budget_mono o 0 (io_clock io)).
    eapply wp_mono; [apply (handle_event_wp s0 acc n1 now1 mid); [done|done|lia]| |].
    + intros _ s2 (HI2 & Hst2 & Hd2). eexists _, mid. split; [exact HI2|]. split; [done|].
      split; [lia|]. split; [by rewrite Hst2|]. intros Hs. apply Hd2; [by rewrite Hst1|by apply Hd1].
    + intros f s2. apply Broken_mono; [lia|by eapply events_ok_le].
  - intros _ s' (n1 & now1 & HI' & Hle & Hn1 & Hst & Hd'). cbn [round_calls] in Hn1.
    split; [|done]. by eapply (Inside_mono _ _ _ n1 _ now1); [lia| |].
Qed.

(** ** The round *)

Lemma settle_wp s0 acc n now s :
  Inside o s0 acc [] n now s -> m_state s <> Stopped -> (m_state s = Draining -> drains [] s) ->
  wp CleanupClosedConnections
     (fun _ s' => Inside o s0 acc [] n now s' /\ settled s' /\ m_state s' = m_state s) no_fail s.
Proof.
  intros HI Hns Hd. eapply wp_mono; [by apply cleanup_wp| |done].
  intros _ s1 (HI1 & [Hst1 Hsub] & Hopen). split; [done|]. split; [|done].
  split; [done|]. rewrite Hst1. split; [|done].
  intros Hdr cfd c Hc. pose proof (Hopen _ _ Hc) as Hcl.
  destruct (Hd Hdr cfd c) as [Hin%not_elem_of_nil|[?|?]]; [by eapply lookup_weaken|done| |done].
  cbn in *; congruence.
Qed.

(** A draining reactor ends when nothing is left or the time is over. *)
Lemma check_progress_wp s0 acc n now t s :
  Inside o s0 acc [] n now s -> settled s ->
  wp (CheckShutdownProgress t)
     (fun _ s' => Inside o s0 acc [] n now s' /\ settled s' /\
        (m_state s = Running <-> m_state s' = Running) /\
        (m_state s = Draining -> m_shutdownDeadline s <= t \/ m_clients s = ∅ -> finished s'))
     no_fail s.
Proof.
  intros HI Hset. unfold CheckShutdownProgress. apply wp_bind, wp_gets.
  case_bool_decide as Hdr; cbn [negb].
  2: { apply wp_ret. split_and!; try done. }
  assert (forall s', Inside o s0 acc [] n now s' /\ finished s' ->
    Inside o s0 acc [] n now s' /\ settled s' /\ (m_state s = Running <-> m_state s' = Running) /\
    (m_state s = Draining -> m_shutdownDeadline s <= t \/ m_clients s = ∅ -> finished s')) as Hend.
  { intros s' [HI' [Hst' Hc']]. split; [done|]. split; [|by rewrite Hdr, Hst'].
    split; rewrite Hc'; [apply map_Forall_empty|]. split; [by rewrite Hst'|done]. }
  apply wp_bind, wp_gets. case_bool_decide as Hemp.
  { eapply (wp_mono _ _ _ no_fail); [by apply stop_wp| |done]. intros [] s1. apply Hend. }
  apply wp_bind, wp_gets, wp_when; intros Ht.
  - apply wp_bind. eapply (wp_mono _ _ _ no_fail); [by apply force_close_wp| |done].
    intros _ s1 (HI1 & Hst1 & Hc1).
    eapply (wp_mono _ _ _ no_fail); [by apply stop_wp| |done]. intros [] s2. apply Hend.
  - split; [done|]. split; [done|]. split; [done|]. intros _ [?|?]; [lia|done].
Qed.

(** What a round is given: [Wait] and [Drain] answer or throw, and the events are
    in order of time. The round begins at [now] with [n] calls on the store made
    and ends by [hi] with at most [n']. *)
Record round_ok (n : Z) (now : TimePoint) (i : round_input) (n' : Z) (hi : TimePoint) : Prop := mkRoundOk {
  round_wait t : (exists e, ri_wait i t = Fail (Throw e)) \/
    (exists events, ri_wait i t = Ret events /\ events_ok now events hi /\
       n + round_calls events <= n');
  round_drain : ri_drain i = Ret tt \/ exists e, ri_drain i = Fail (Throw e);
  round_time : now <= hi;
  round_budget : n <= n' < U64_MOD;
}.

(** The round sees the control descriptor ready. *)
Definition wakes (i : round_input) s : Prop :=
  exists events, ri_wait i (ComputeWaitTimeout (ri_now i) s) = Ret events /\
    existsb (fun event => re_fd event.1 =? controlFd) events = true.

(** What the requests and the deadline make of the reactor. *)
Definition obeys (i : round_input) s s' : Prop :=
  (m_state s = Draining -> m_shutdownDeadline s <= ri_after i -> finished s') /\
  (wakes i s -> m_stopRequested s = true -> m_state s' <> Running) /\
  (wakes i s -> m_forceStopRequested s = true -> finished s').

Lemma finished_obeys i s s' : finished s' -> obeys i s s'.
Proof. intros Hf. split_and!; try done. intros _ _. by destruct Hf as [-> _]. Qed.

Lemma settled_stopped s : settled s -> m_state s = Stopped -> finished s.
Proof. intros (_ & _ & Hc) Hst. split; [done|by apply Hc]. Qed.

(** From the control requests to the end of the round. *)
Lemma round_tail_wp acc n now n' hi events i s s1 (E : failure -> Reactor -> Prop) :
  Inside o s acc [] n now s1 -> settled s1 -> events_ok now events hi ->
  n + round_calls events <= n' -> n <= n' < U64_MOD ->
  (wakes i s -> m_stopRequested s = true -> m_state s1 <> Running) ->
  (wakes i s -> m_forceStopRequested s = true -> finished s1) ->
  (forall f s', Broken s acc n' hi f s' -> E f s') ->
  wp (state ← gets m_state;
      if bool_decide (state = Stopped) then mret tt else
      for_each events (handle_event o controlFd);;
      CleanupClosedConnections;;
      CheckShutdownProgress (ri_after i))
     (fun _ s' => Inside o s acc [] n' hi s' /\ settled s' /\ obeys i s s') E s1.
Proof.
  intros HI Hset Hev Hn [Hle Hmax] Hwake Hforce HE. apply wp_bind, wp_gets. case_bool_decide as Hst.
  { apply wp_ret. split; [eapply Inside_mono; [exact Hle|by eapply events_ok_le|done]|].
    split; [done|]. by apply finished_obeys, settled_stopped. }
  apply wp_bind. eapply wp_mono; [eapply (events_wp _ _ n now n' hi)|  |exact HE]; try done.
  { intros Hdr cfd c Hc. right. right. by apply (proj1 (proj2 Hset) Hdr _ _ Hc). }
  intros _ s2 (HI2 & Hst2 & Hd2). apply wp_bind.
  eapply (wp_mono _ _ _ no_fail); [apply settle_wp; [done|by rewrite Hst2|by rewrite Hst2]| |done].
  intros _ s3 (HI3 & Hset3 & Hst3). rewrite Hst2 in Hst3.
  eapply (wp_mono _ _ _ no_fail); [by eapply check_progress_wp| |done].
  intros _ s4 (HI4 & Hset4 & Hrun4 & Hend4). split; [done|]. split; [done|]. split; [|split].
  - intros Hdr Ht. destruct (in_goes _ _ _ _ _ _ _ HI3) as [Hph _ _ _ _ Huntil _].
    rewrite Hdr, Hst3 in Hph. assert (m_state s1 = Draining) as H1.
    { destruct (m_state s1) eqn:H1; cbn in Hph; try lia; done. }
    apply Hend4; [by rewrite Hst3|left]. rewrite Huntil by by rewrite Hst3.
    by rewrite bool_decide_eq_true_2.
  - intros Hw Hs Hr. apply (Hwake Hw Hs). by rewrite <-Hst3, Hrun4.
  - intros Hw Hf. by destruct (Hforce Hw Hf).
Qed.

Lemma ReactorOK_inside n now s acc :
  ReactorOK o n now s -> descriptors s ≡ₚ acc -> Inside o s acc [] n now s.
Proof. intros [Hc _ _ _ _] Hown. split; [done|exact Hown|apply goes_refl|apply only_sends_refl]. Qed.

Lemma body_wp acc n now n' hi i s :
  ReactorOK o n now s -> m_state s <> Stopped -> descriptors s ≡ₚ acc -> round_ok n now i n' hi ->
  wp (EventLoop_body o controlFd i)
     (fun _ s' => Inside o s acc [] n' hi s' /\ settled s' /\ obeys i s s')
     (Broken s acc n' hi) s.
Proof.
  intros HR Hns Hown [Hwait Hdrain Htime Hbud].
  pose proof (ReactorOK_inside _ _ _ _ HR Hown) as HI.
  assert (settled s) as Hset by (by destruct HR).
  assert (forall e s', Inside o s acc [] n now s' -> Broken s acc n' hi (Throw e) s') as Hbrk.
  { intros e s' [[Hpub _ (p & Hp & Hpo & _) Ha] Hown' Hgo _].
    apply (Broken_mono _ _ n _ now); [lia|done|].
    split; [by eexists|]. split; [exact Hpub|]. split; [by exists p|done]. }
  unfold EventLoop_body. apply wp_bind, wp_gets, wp_bind. unfold wp at 1, lift.
  destruct (Hwait (ComputeWaitTimeout (ri_now i) s)) as [[e ->]|(events & Hevs & Hok & Hn)];
    [by apply Hbrk|]. rewrite Hevs. apply wp_bind, wp_when; intros Hctl.
  - apply wp_bind. unfold wp at 1. destruct Hdrain as [->|[e ->]]; [|by apply Hbrk].
    eapply wp_mono; [by apply control_wp| |].
    + intros _ s1 (HI1 & Hset1 & Hforce & Hstop). eapply round_tail_wp; eauto.
    + intros f s'. apply Broken_mono; [lia|done].
  - assert (~ wakes i s) as Hno.
    { intros (evs & Hevs' & Hw). rewrite Hevs in Hevs'. injection Hevs' as <-. congruence. }
    eapply round_tail_wp; eauto; intros Hw; by destruct (Hno Hw).
Qed.

(** The loop's own handler ends the reactor. *)
Lemma catch_wp s0 acc n now e s :
  Broken s0 acc n now (Throw e) s -> m_state s0 <> Created ->
  wp EventLoop_catch
     (fun _ s' => Inside o s0 acc [] n now s' /\ finished s' /\ m_failed s' = true) no_fail s.
Proof.
  intros (_ & Hpub & (p & Hp & Hpo) & Ha & Hown & [Hph ? ? ? ? ? ?]) Hne. unfold EventLoop_catch.
  apply wp_bind, wp_modify, wp_bind, wp_gets, wp_bind, wp_modify, wp_bind.
  change (client_fds _) with (client_fds s).
  eapply (wp_mono _ _ _ no_fail); [apply (close_all_wp s0 acc (client_fds s) n now)| |done].
  - split; [|rewrite <-Hown|by split|intros _ cfd c; cbn; by rewrite lookup_empty].
    + split; [exact Hpub| |exists p; split; [exact Hp|split; [exact Hpo|apply map_Forall_empty]]|exact Ha].
      cbn. intros Hcr. rewrite Hcr in Hph. by destruct (m_state s0).
    + unfold descriptors. unfold client_fds at 2. cbn. rewrite map_to_list_empty. cbn.
      rewrite !(Permutation_app_comm (m_pendingClients s)). by rewrite app_assoc.
  - intros _ s1 (HI1 & _ & Hc1 & Hf1). apply publish_wp.
    split; [by apply Inside_stopped|]. split; [by split|done].
Qed.
End rounds.
