(* ===== verification/ReactorTheorems.v ===== *)
(** * What a reactor promises *)

From S2P Require Import Prelude PriorityQueue KVStore KVStoreInv KVStoreSpec FrameCodec RequestSpec OutputBuffer ServerMetrics MetricsTheorems Poller PollerTheorems SubReactor SubReactorInv SubReactorRequests SubReactorHandlers SubReactorTheorems EventLoop ReactorEvents ReactorInv ReactorRounds.
#[local] Open Scope Z_scope.

Section theorems.
Context {Q : Type} `{!PriorityQueue ExpirationRecord Q}
  `{!PriorityQueueLaws ExpirationRecord Q ExpirationCompare}.
Context {P : Type} `{!Poller P, !PollerLaws P}.
Context (o : NetworkOptions) (controlFd : Z).
Hypothesis Ho : options_ok o.

Abbreviation Reactor := (SubReactor Q P).
Implicit Types s : Reactor.

(** ** Steps *)

Lemma inside_reactor_ok s0 acc n now s :
  ReactorOK o n now s0 -> Inside o s0 acc [] n now s -> settled s -> ReactorOK o n now s.
Proof.
  intros [_ _ Hreq _ _] HI (Hopen & Hdrain & Hstop). destruct HI as [Hcore _ Hgo _].
  split; try done. intros Hdr. rewrite (go_stop _ _ Hgo).
  by destruct (go_asked _ _ Hgo Hdr) as [?%Hreq|].
Qed.

Lemma finished_settled s : finished s -> settled s.
Proof.
  intros [Hst Hc]. split; rewrite Hc; [apply map_Forall_empty|]. split; [by rewrite Hst|done].
Qed.

(** One round of a reactor that has not ended. *)
Lemma round_wp n now n' hi i s :
  ReactorOK o n now s -> m_state s <> Stopped -> round_ok o n now i n' hi ->
  wp (exec_step o controlFd (StepRound i))
     (fun _ s' => ReactorOK o n' hi s' /\ Inside o s (descriptors s) [] n' hi s' /\
        obeys controlFd i s s') no_fail s.
Proof.
  intros HR Hns Hi. unfold exec_step. apply wp_bind, wp_gets. rewrite bool_decide_eq_false_2 by done.
  assert (ReactorOK o n' hi s) as HR'.
  { destruct HR, Hi. split; try done. apply (Core_mono _ n n' now hi); [lia|done|done]. }
  apply wp_try_catch. eapply wp_mono; [by apply (body_wp o controlFd Ho (descriptors s) n now)| |].
  - intros _ s' (HI & Hset & Hob). split; [by eapply inside_reactor_ok|]. split; [done|exact Hob].
  - intros f s' Hbrk. pose proof Hbrk as ([e ->] & _).
    eapply wp_mono; [eapply catch_wp; [exact Hbrk|]| |done].
    + destruct HR as [[_ Hst _ _] _ _ _ _]. done.
    + intros _ s2 (HI & Hfin & _). split; [|split; [done|by apply finished_obeys]].
      eapply inside_reactor_ok; [done|exact HI|by apply finished_settled].
Qed.

(** What the other threads do to the control fields. *)
Definition requests (step : reactor_step) s : Reactor :=
  match step with
  | StepRound _ => s
  | StepEnqueue cfd =>
      if m_stopRequested s || m_forceStopRequested s then s <| r_closes ::= cons cfd |>
      else s <| m_pendingClients ::= fun l => l ++ [cfd] |>
  | StepStop deadline =>
      (if negb (m_stopRequested s) || (deadline <? m_requestedShutdownDeadline s)
       then s <| m_requestedShutdownDeadline := deadline |> else s) <| m_stopRequested := true |>
  | StepForceStop => s <| m_forceStopRequested := true |>
  end.

Definition is_round (step : reactor_step) : bool :=
  match step with StepRound _ => true | _ => false end.

Lemma request_eq step s :
  is_round step = false -> exec_step o controlFd step s = (Ret tt, requests step s).
Proof.
  destruct step as [i|cfd|deadline|]; intros H; [done|..|done].
  - unfold exec_step, EnqueClient, requests. cbv [mbind M_bind]. cbn.
    by destruct (m_stopRequested s || m_forceStopRequested s).
  - unfold exec_step, Stop, requests, when. cbv [mbind M_bind]. cbn.
    by destruct (negb (m_stopRequested s) || (deadline <? m_requestedShutdownDeadline s)).
Qed.

Lemma request_same step s :
  m_state (requests step s) = m_state s /\ m_publishedState (requests step s) = m_publishedState s /\
  m_clients (requests step s) = m_clients s /\ m_poller (requests step s) = m_poller s /\
  r_store (requests step s) = r_store s /\
  m_shutdownDeadline (requests step s) = m_shutdownDeadline s /\
  (m_stopRequested s = true -> m_stopRequested (requests step s) = true).
Proof.
  destruct step as [i|cfd|deadline|]; [done| | |done]; unfold requests; by case_match.
Qed.

Lemma request_ok n now step s : ReactorOK o n now s -> ReactorOK o n now (requests step s).
Proof.
  intros [[Hpub Hst HC Ha] Hopen Hreq Hdrain Hstop].
  destruct (request_same step s) as (E1 & E2 & E3 & E4 & E5 & _ & Hs).
  split; rewrite ?E1, ?E3; try done; [|by intros ?%Hreq%Hs].
  split; rewrite ?E1, ?E2, ?E3, ?E4, ?E5; done.
Qed.

(** The descriptors handed over in a history. *)
Definition enqueued (steps : list reactor_step) : list Z :=
  omap (fun step => match step with StepEnqueue cfd => Some cfd | _ => None end) steps.

Lemma request_descriptors step s :
  is_round step = false -> descriptors (requests step s) ≡ₚ enqueued [step] ++ descriptors s.
Proof.
  destruct step as [i|cfd|deadline|]; intros H; [done| | |done]; unfold requests; case_match;
    unfold descriptors; try done.
  - change (client_fds _) with (client_fds s). cbn. by rewrite <-!Permutation_middle.
  - change (client_fds _) with (client_fds s). cbn. by rewrite <-Permutation_middle, app_nil_r.
Qed.

(** ** Histories *)

(** The rounds of a history are given answers in order of time. *)
Fixpoint history_ok (n : Z) (now : TimePoint) (steps : list reactor_step) : Prop :=
  match steps with
  | [] => True
  | StepRound i :: steps => exists n' hi, round_ok o n now i n' hi /\ history_ok n' hi steps
  | _ :: steps => history_ok n now steps
  end.

Definition step_effect (step : reactor_step) s s' : Prop :=
  match step with
  | StepRound i =>
      (m_state s = Stopped /\ s' = s) \/
      (m_state s <> Stopped /\ (exists n hi, Inside o s (descriptors s) [] n hi s') /\
       obeys controlFd i s s')
  | _ => s' = requests step s
  end.

Lemma step_rule n now step steps s :
  ReactorOK o n now s -> history_ok n now (step :: steps) ->
  exists s' n' now', exec_step o controlFd step s = (Ret tt, s') /\ step_effect step s s' /\
    ReactorOK o n' now' s' /\ history_ok n' now' steps.
Proof.
  intros HR Hh. destruct (is_round step) eqn:His.
  - destruct step as [i| | |]; try done. destruct Hh as (n' & hi & Hi & Hh).
    destruct (decide (m_state s = Stopped)) as [Hst|Hns].
    + exists s, n', hi. unfold exec_step. cbv [mbind M_bind]. cbn.
      rewrite bool_decide_eq_true_2 by done. split; [done|]. split; [by left|]. split; [|done].
      destruct HR, Hi. split; try done. apply (Core_mono _ n n' now hi); [lia|done|done].
    + destruct (wp_run _ _ _ (round_wp n now n' hi i s HR Hns Hi)) as ([] & s' & Hrun & HR' & HI & Hob).
      exists s', n', hi. split; [done|]. split; [|done]. right. split; [done|]. split; [by exists n', hi|done].
  - exists (requests step s), n, now. split; [by apply request_eq|].
    destruct step; try done; (split; [done|]; split; [by apply request_ok|done]).
Qed.

(** The rule for histories: [I] speaks of the steps still to come. *)
Lemma run_rule (I : list reactor_step -> Reactor -> Prop) steps n now s :
  ReactorOK o n now s -> history_ok n now steps -> I steps s ->
  (forall step l s s', I (step :: l) s -> step_effect step s s' ->
     (exists n' now', ReactorOK o n' now' s') -> I l s') ->
  exists s', run_steps o controlFd steps s = (Ret tt, s') /\ I [] s' /\
    exists n' now', ReactorOK o n' now' s'.
Proof.
  intros HR Hh HI Hstep. revert n now s HR Hh HI.
  induction steps as [|step steps IH]; intros n now s HR Hh HI; [by exists s; eauto|].
  destruct (step_rule _ _ _ _ _ HR Hh) as (s1 & n1 & now1 & Hrun & Heff & HR1 & Hh1).
  destruct (IH n1 now1 s1 HR1 Hh1) as (s' & Hrun' & ?); [by eapply Hstep; eauto|].
  exists s'. split; [|done]. unfold run_steps in *. cbn [for_each]. cbv [mbind M_bind].
  by rewrite Hrun.
Qed.

Lemma effect_phase step s s' : step_effect step s s' -> phase (m_state s) <= phase (m_state s').
Proof.
  destruct step as [i|cfd|d|]; cbn [step_effect]; [|intros ->..].
  - intros [[_ ->]|(_ & (n & hi & HI) & _)]; [done|]. apply (in_goes _ _ _ _ _ _ _ HI).
  - by rewrite (proj1 (request_same _ s)).
  - by rewrite (proj1 (request_same _ s)).
  - done.
Qed.

Lemma effect_descriptors step s s' :
  step_effect step s s' -> descriptors s' ≡ₚ enqueued [step] ++ descriptors s.
Proof.
  destruct step as [i|cfd|d|]; cbn [step_effect]; [|intros ->; by apply request_descriptors..].
  intros [[_ ->]|(_ & (n & hi & HI) & _)]; [done|]. apply (in_owned _ _ _ _ _ _ _ HI).
Qed.

(** A finished reactor stays as it is, but for descriptors left with it. *)
Lemma request_finished step s :
  finished s -> finished (requests step s) /\ r_store (requests step s) = r_store s.
Proof.
  intros [Hst Hc]. destruct (request_same step s) as (E1 & _ & E3 & _ & E5 & _).
  split; [split; [by rewrite E1|by rewrite E3]|done].
Qed.

Lemma effect_finished step s s' :
  step_effect step s s' -> finished s -> finished s' /\ r_store s' = r_store s.
Proof.
  intros Heff Hf. destruct step as [i|cfd|d|]; cbn [step_effect] in Heff.
  - destruct Hf as [Hst ?]. by destruct Heff as [[_ ->]|[? _]].
  - rewrite Heff. by apply request_finished.
  - rewrite Heff. by apply request_finished.
  - rewrite Heff. by apply (request_finished StepForceStop).
Qed.

(** C20. The event loop is safe: from a consistent reactor, whatever other
    threads request or do to the shared store between its requests, whatever
    becomes ready and whatever the pollers throw, every round ends (by returning or by the loop's own handler), the reactor is
    consistent afterwards (every open connection within its limits, watched for
    what it wants, closed ones removed, draining ones about to close, none once
    stopped), the published state is the state, and phases only go forward. *)
Theorem reactor_safe steps n now s :
  ReactorOK o n now s -> history_ok n now steps ->
  exists s' n' now', run_steps o controlFd steps s = (Ret tt, s') /\ ReactorOK o n' now' s' /\
    m_publishedState s' = m_state s' /\ phase (m_state s) <= phase (m_state s').
Proof.
  intros HR Hh.
  destruct (run_rule (fun _ s' => phase (m_state s) <= phase (m_state s')) steps n now s HR Hh)
    as (s' & Hrun & Hph & n' & now' & HR'); [done| |].
  - intros step l s1 s2 Hle Heff _. etrans; [exact Hle|by eapply effect_phase].
  - exists s', n', now'. split_and!; try done. apply (core_published _ _ _ _ (ro_core _ _ _ _ HR')).
Qed.

(** C21. No descriptor is lost or closed twice: at any time, the descriptors the
    reactor was ever given are, one for one, those waiting to be added, those of
    its connections and those it has closed; a reactor that has stopped has
    none left but those nobody took. *)
Theorem descriptors_owned steps n now s :
  ReactorOK o n now s -> history_ok n now steps ->
  exists s', run_steps o controlFd steps s = (Ret tt, s') /\
    m_pendingClients s' ++ client_fds s' ++ r_closes s' ≡ₚ enqueued steps ++ descriptors s /\
    (m_state s' = Stopped -> client_fds s' = []).
Proof.
  intros HR Hh.
  destruct (run_rule (fun l s' => enqueued l ++ descriptors s' ≡ₚ enqueued steps ++ descriptors s)
    steps n now s HR Hh) as (s' & Hrun & Hown & n' & now' & HR'); [done| |].
  - intros step l s1 s2 <- Heff _. rewrite (effect_descriptors _ _ _ Heff), app_assoc.
    apply Permutation_app_tail. rewrite Permutation_app_comm. by destruct step.
  - exists s'. split; [done|]. split; [exact Hown|]. intros Hst. unfold client_fds.
    by rewrite (ro_stopped _ _ _ _ HR' Hst), map_to_list_empty.
Qed.

(** The round a step is, if its clock after the events is at [d] or later. *)
Definition late (d : TimePoint) (step : reactor_step) : bool :=
  match step with StepRound i => d <=? ri_after i | _ => false end.

(** Draining until [d] at the latest, with a late round to come, or finished. *)
Definition ending (d : TimePoint) (l : list reactor_step) s : Prop :=
  finished s \/ (m_state s = Draining /\ m_shutdownDeadline s <= d /\ existsb (late d) l = true).

Lemma effect_ending d step l s s' n now :
  step_effect step s s' -> ReactorOK o n now s' -> ending d (step :: l) s -> ending d l s'.
Proof.
  intros Heff HR [Hf|(Hst & Hd & Hl)]; [left; by eapply effect_finished|].
  destruct step as [i|cfd|dl|]; cbn [step_effect existsb late orb] in Heff, Hl.
  - destruct Heff as [[Hs _]|(_ & (n1 & hi & HI) & Hob & _)]; [congruence|].
    destruct (Z.leb_spec d (ri_after i)) as [Hlate|]; [left; apply Hob; [done|lia]|].
    destruct (in_goes _ _ _ _ _ _ _ HI) as [Hph _ _ _ _ Hun _].
    destruct (m_state s') eqn:Hst'; rewrite Hst in Hph; cbn in Hph; try lia.
    + right. split_and!; try done. rewrite Hun by done. by rewrite bool_decide_eq_true_2.
    + left. split; [done|]. by apply (ro_stopped _ _ _ _ HR).
  - right. subst s'. destruct (request_same (StepEnqueue cfd) s) as (-> & _ & _ & _ & _ & -> & _). done.
  - right. subst s'. destruct (request_same (StepStop dl) s) as (-> & _ & _ & _ & _ & -> & _). done.
  - by right; subst s'.
Qed.

(** The deadline that a shutdown asked for by [d] has: a running reactor takes
    the earliest that was requested before it noticed, one that drains already
    keeps the deadline it began with. *)
Definition deadline_in_force (d : TimePoint) s : TimePoint :=
  match m_state s with
  | Running => if m_stopRequested s then Z.min d (m_requestedShutdownDeadline s) else d
  | _ => m_shutdownDeadline s
  end.

Lemma stop_requested d s :
  m_state s = Running ->
  m_requestedShutdownDeadline (requests (StepStop d) s) = deadline_in_force d s.
Proof.
  intros Hr. unfold deadline_in_force. rewrite Hr. cbn.
  destruct (m_stopRequested s); cbn [negb orb]; [|done].
  destruct (Z.ltb_spec d (m_requestedShutdownDeadline s)); cbn; lia.
Qed.

(** C22. Graceful shutdown ends by its deadline. A reactor is asked to stop by
    [d]; if it is running, the round that follows sees the wake-up. Then after
    any later history, further requests to stop included, with a round whose
    clock has reached the deadline in force, the reactor has stopped and has no
    connections left, whatever its clients did. The deadline in force is [d] or
    an earlier one requested before, but for a reactor that was draining
    already: that one ends by the deadline it began to drain with. *)
Theorem graceful_shutdown_ends d i rest n now s :
  ReactorOK o n now s -> m_state s <> Created ->
  history_ok n now (StepStop d :: StepRound i :: rest) ->
  (m_state s = Running -> exists events, ri_wait i 500 = Ret events /\
     existsb (fun event => re_fd event.1 =? controlFd) events = true) ->
  existsb (late (deadline_in_force d s)) rest = true ->
  exists s', run_steps o controlFd (StepStop d :: StepRound i :: rest) s = (Ret tt, s') /\
    m_publishedState s' = Stopped /\ m_clients s' = ∅.
Proof.
  intros HR Hcr Hh Hctl Hlate.
  destruct (step_rule _ _ _ _ _ HR Hh) as (s1 & n1 & now1 & Hr1 & E1 & HR1 & Hh1).
  destruct (step_rule _ _ _ _ _ HR1 Hh1) as (s2 & n2 & now2 & Hr2 & E2 & HR2 & Hh2).
  change (s1 = requests (StepStop d) s) in E1.
  destruct (request_same (StepStop d) s) as (Hst1 & _ & _ & _ & _ & Hd1 & _). rewrite <-E1 in Hst1, Hd1.
  assert (ending (deadline_in_force d s) rest s2) as Hend.
  { destruct (m_state s) eqn:Hst; [done| | |].
    - destruct (Hctl eq_refl) as (events & Hwait & Hev). cbn [step_effect] in E2. rewrite Hst1 in E2.
      destruct E2 as [[? _]|(_ & (n3 & hi & HI) & (_ & Hob & _))]; [done|].
      destruct (in_goes _ _ _ _ _ _ _ HI) as [Hph _ _ _ _ Hun _]. rewrite Hst1 in Hph, Hun.
      assert (m_state s2 <> Running) as Hnr.
      { apply Hob; [|by rewrite E1]. exists events. unfold ComputeWaitTimeout.
        by rewrite bool_decide_eq_true_2. }
      destruct (m_state s2) eqn:Hst2; cbn in Hph; [lia|done| |].
      + right. split; [done|]. split; [|done]. rewrite Hun by done.
        rewrite bool_decide_eq_false_2 by done. rewrite E1, stop_requested by done. done.
      + left. split; [done|by apply (ro_stopped _ _ _ _ HR2)].
    - eapply effect_ending; [exact E2|exact HR2|]. right. split; [done|]. rewrite Hd1.
      unfold deadline_in_force at 1 2. rewrite Hst. split; [done|].
      cbn [existsb]. unfold deadline_in_force in Hlate. rewrite Hst in Hlate. rewrite Hlate. by rewrite orb_true_r.
    - left. eapply effect_finished; [exact E2|]. split; [done|by apply (ro_stopped _ _ _ _ HR1)]. }
  destruct (run_rule (ending (deadline_in_force d s)) rest n2 now2 s2 HR2 Hh2 Hend)
    as (s' & Hr' & Hend' & n' & now' & HR').
  { intros step l s3 s4 He Heff (n4 & now4 & HR4). by eapply effect_ending. }
  exists s'. split.
  - unfold run_steps in *. cbn [for_each]. cbv [mbind M_bind]. by rewrite Hr1, Hr2.
  - destruct Hend' as [[Hst Hc]|(_ & _ & Hf)]; [|done]. split; [|done].
    by rewrite (core_published _ _ _ _ (ro_core _ _ _ _ HR')).
Qed.

(** C23. A forced stop takes one round: after [ForceStop], the first round that
    sees the wake-up leaves the reactor stopped without connections, and later
    rounds and requests leave it so and make no call on the store. *)
Theorem force_stop_ends i events rest n now s :
  ReactorOK o n now s -> m_state s <> Stopped ->
  history_ok n now (StepForceStop :: StepRound i :: rest) ->
  ri_wait i (ComputeWaitTimeout (ri_now i) s) = Ret events ->
  existsb (fun event => re_fd event.1 =? controlFd) events = true ->
  exists s1 s', run_steps o controlFd [StepForceStop; StepRound i] s = (Ret tt, s1) /\
    run_steps o controlFd (StepForceStop :: StepRound i :: rest) s = (Ret tt, s') /\
    m_publishedState s' = Stopped /\ m_clients s' = ∅ /\ r_store s' = r_store s1.
Proof.
  intros HR Hns Hh Hwait Hctl.
  destruct (step_rule _ _ _ _ _ HR Hh) as (s1 & n1 & now1 & Hr1 & E1 & HR1 & Hh1). cbn in E1.
  destruct (step_rule _ _ _ _ _ HR1 Hh1) as (s2 & n2 & now2 & Hr2 & E2 & HR2 & Hh2).
  assert (finished s2) as Hf.
  { cbn [step_effect] in E2. destruct E2 as [[Hst _]|(_ & _ & (_ & _ & Hob))].
    - by rewrite E1 in Hst.
    - apply Hob; [|by rewrite E1]. exists events. by rewrite E1. }
  destruct (run_rule (fun _ s' => finished s' /\ r_store s' = r_store s2) rest n2 now2 s2 HR2 Hh2)
    as (s' & Hr' & [[Hst Hc] Hs] & n' & now' & HR'); [done| |].
  { intros step l s3 s4 [Hf3 Hs3] Heff _. destruct (effect_finished _ _ _ Heff Hf3) as [? Hs4].
    split; [done|]. by rewrite Hs4. }
  exists s2, s'. unfold run_steps in *. cbn [for_each]. cbv [mbind M_bind]. rewrite Hr1, Hr2.
  split_and!; try done. by rewrite (core_published _ _ _ _ (ro_core _ _ _ _ HR')).
Qed.

(** C24. A draining reactor only sends: once it drains, no request is read and no
    command executed (the reactor makes no call on the store), no client is added, and each
    remaining connection still sends a suffix of what it had queued. *)
Theorem draining_only_sends steps n now s :
  ReactorOK o n now s -> 2 <= phase (m_state s) -> history_ok n now steps ->
  exists s', run_steps o controlFd steps s = (Ret tt, s') /\ r_store s' = r_store s /\
    forall cfd c', m_clients s' !! cfd = Some c' ->
      exists c k, m_clients s !! cfd = Some c /\ pending c' = drop k (pending c).
Proof.
  intros HR Hph Hh.
  destruct (run_rule (fun _ s' => 2 <= phase (m_state s') /\ r_store s' = r_store s /\ only_sends s s')
    steps n now s HR Hh) as (s' & Hrun & (_ & Hs & Hsend) & _).
  - split; [done|]. split; [done|apply only_sends_refl].
  - intros step l s1 s2 (Hph1 & Hs1 & Hsend1) Heff _. pose proof (effect_phase _ _ _ Heff).
    split; [lia|]. destruct (is_round step) eqn:His.
    + destruct step as [i| | |]; try done. destruct Heff as [[_ ->]|(_ & (n1 & hi & HI) & _)]; [done|].
      split; [rewrite (go_store _ _ (in_goes _ _ _ _ _ _ _ HI) Hph1); done|].
      intros _ cfd c' Hc'. destruct (in_sends _ _ _ _ _ _ _ HI Hph1 _ _ Hc') as (c1 & k1 & Hc1 & ->).
      destruct (Hsend1 Hph _ _ Hc1) as (c & k & Hc & ->). exists c, (k + k1)%nat.
      by rewrite drop_drop.
    + assert (s2 = requests step s1) as -> by by destruct step.
      destruct (request_same step s1) as (_ & _ & E3 & _ & E5 & _). rewrite E5.
      split; [done|]. unfold only_sends. by rewrite E3.
  - exists s'. split; [done|]. split; [done|]. intros cfd c'. by apply Hsend.
Qed.

(** The wait of a round suits the phase: it is bounded by half a second,
    while draining by a tenth of a second, it is zero once the deadline has
    passed, and otherwise positive and never beyond the deadline by more than
    the millisecond it is rounded up to. *)
Theorem wait_timeout_bounds (now : TimePoint) s :
  let t := ComputeWaitTimeout now s in
  0 <= t <= 500 /\
  (m_state s = Running -> t = 500) /\
  (m_state s = Draining -> t <= 100 /\ (m_shutdownDeadline s <= now -> t = 0) /\
     (now < m_shutdownDeadline s -> 1 <= t /\
        (now + t * NS_PER_MS <= m_shutdownDeadline s \/ t = 1))).
Proof.
  cbn zeta. unfold ComputeWaitTimeout. destruct (decide (m_state s = Running)) as [Hr|Hr].
  { rewrite bool_decide_eq_true_2 by done. split; [lia|]. split; [done|]. by rewrite Hr. }
  rewrite bool_decide_eq_false_2 by done. case_bool_decide as Hd; cbn [negb].
  2: { split; [lia|done]. }
  destruct (Z.leb_spec (m_shutdownDeadline s) now).
  { split; [lia|]. split; [done|]. intros _. split; [lia|]. split; [done|lia]. }
  set (left := m_shutdownDeadline s - now). assert (0 < left) as Hleft by lia.
  rewrite Z.quot_div_nonneg by (unfold NS_PER_MS; lia).
  pose proof (Z.mul_div_le left NS_PER_MS ltac:(done)).
  pose proof (Z.div_pos left NS_PER_MS ltac:(lia) ltac:(done)).
  destruct (Z.leb_spec (left / NS_PER_MS) 0); unfold NS_PER_MS in *.
  all: split; [lia|]; split; [done|]; intros _; split; [lia|]; split; [lia|]; intros _; split; lia.
Qed.

(** The deadline of a shutdown that has begun is fixed: as long as the
    reactor drains, a further [Stop] has no effect on when connections are
    closed, although [Stop] records an earlier deadline. *)
Theorem draining_deadline_fixed steps n now s :
  ReactorOK o n now s -> m_state s = Draining -> history_ok n now steps ->
  exists s', run_steps o controlFd steps s = (Ret tt, s') /\
    (m_state s' = Draining -> m_shutdownDeadline s' = m_shutdownDeadline s).
Proof.
  intros HR Hst Hh.
  destruct (run_rule (fun _ s' => 2 <= phase (m_state s') /\
    (m_state s' = Draining -> m_shutdownDeadline s' = m_shutdownDeadline s))
    steps n now s HR Hh) as (s' & Hrun & (_ & Hd) & _).
  - by rewrite Hst.
  - intros step l s1 s2 (Hph1 & Hd1) Heff _. pose proof (effect_phase _ _ _ Heff) as Hph.
    split; [lia|]. intros Hst2. destruct (is_round step) eqn:His.
    + destruct step as [i| | |]; try done. destruct Heff as [[_ ->]|(Hns & (n1 & hi & HI) & _)]; [by apply Hd1|].
      rewrite (go_until _ _ (in_goes _ _ _ _ _ _ _ HI) Hst2).
      assert (m_state s1 = Draining) as H1 by (destruct (m_state s1); done || (cbn in Hph1; lia)).
      rewrite bool_decide_eq_true_2 by done. by apply Hd1.
    + assert (s2 = requests step s1) as -> by by destruct step.
      destruct (request_same step s1) as (E1 & _ & _ & _ & _ & -> & _). apply Hd1. by rewrite <-E1.
  - by exists s'.
Qed.

Lemma close_loop l s :
  for_each l close_fd s = (Ret tt, s <| r_closes := rev l ++ r_closes s |>).
Proof.
  revert s. induction l as [|x l IH]; intros s; [by destruct s|].
  cbn [for_each]. cbv [mbind M_bind]. change (close_fd x s) with (Ret tt, s <| r_closes ::= cons x |>).
  cbn iota. rewrite IH. cbn. by rewrite <-app_assoc.
Qed.

(** A failed loop keeps its clients in the statistics: the handler of an
    exception that leaves the loop drops and closes all connections and stops the
    reactor, but counts none of them as closed. *)
Theorem failed_loop_leaves_metrics s :
  exists s', EventLoop_catch s = (Ret tt, s') /\ m_failed s' = true /\ m_publishedState s' = Stopped /\
    m_clients s' = ∅ /\ r_closes s' ≡ₚ client_fds s ++ r_closes s /\
    load K_activeConnections (r_metrics s') = load K_activeConnections (r_metrics s) /\
    load K_closedConnections (r_metrics s') = load K_closedConnections (r_metrics s).
Proof.
  unfold EventLoop_catch. cbv [mbind M_bind modify gets].
  change (client_fds _) with (client_fds s). rewrite close_loop.
  eexists. split; [reflexivity|]. split_and!; try done. cbn.
  by rewrite <-Permutation_rev.
Qed.
End theorems.

(** ** A reactor at work *)

Abbreviation ExampleReactor := (SubReactor (sorted_queue ExpirationCompare) PollPoller).

(** The control descriptor is 3. *)
Definition example_reactor (state : ServerState) (clients : gmap Z Connection) (registered : gmap Z IoEvent) :
    ExampleReactor :=
  mkSubReactor state state false (bool_decide (state = Draining)) false 1000 1000 [] clients
    (Some (mkPollPoller registered)) KVStore_init ServerMetrics_init [].

(** The answers of the socket calls of one event; another thread stores a key
    before each of its requests. *)
Definition example_io (received : bytes) (room : Z) : conn_io :=
  mkConnIo [SysInterrupted; SysOk received] [SysOk room] busy_clock.

(** A round at time [t]. *)
Definition example_round (events : list (ReadyEvent * conn_io)) (t : TimePoint) : round_input :=
  mkRoundInput (fun _ => Ret events) (Ret tt) t t.

Definition wake : ReadyEvent * conn_io := (mkReadyEvent 3 IoEvent_Read, example_io [] 0).
Definition request_on_5 : ReadyEvent * conn_io :=
  (mkReadyEvent 5 IoEvent_Read, example_io (frame (lit "PING")) 0).

Lemma example_io_ok received room : io_ok 0 0 (example_io received room).
Proof.
  split; [done|]. split; [exact busy_clock_ok|]. split; [done|]. split; by eexists.
Qed.

Lemma example_events_ok events :
  Forall (fun ev => exists received room, ev.2 = example_io received room) events -> events_ok 0 events 0.
Proof.
  induction 1 as [|[ev io] l (received & room & Hio) _ IH]; [done|]. cbn in Hio. subst io.
  exists 0. split; [apply example_io_ok|exact IH].
Qed.

Lemma example_round_calls events :
  Forall (fun ev => exists received room, ev.2 = example_io received room) events ->
  round_calls NetworkOptions_default events <= zlen events * (2 * (1024 * 1024 + 4)).
Proof.
  induction 1 as [|[ev io] l (received & room & Hio) _ IH]; [done|]. cbn in Hio. subst io.
  cbn [round_calls io_clock example_io]. rewrite zlen_cons. pose proof busy_event_calls. lia.
Qed.

Lemma example_round_ok events t n :
  Forall (fun ev => exists received room, ev.2 = example_io received room) events ->
  0 <= n -> n + zlen events * (2 * (1024 * 1024 + 4)) < U64_MOD ->
  round_ok NetworkOptions_default n 0 (example_round events t) (n + zlen events * (2 * (1024 * 1024 + 4))) 0.
Proof.
  intros Hev Hn Hmax. pose proof (zlen_nonneg events). split; [|by left|done|lia].
  intros t0. right. exists events. split; [done|]. split; [by apply example_events_ok|].
  pose proof (example_round_calls events Hev). lia.
Qed.

Lemma wake_ok : exists received room, wake.2 = example_io received room.
Proof. by eexists _, _. Qed.

Lemma request_ok_5 : exists received room, request_on_5.2 = example_io received room.
Proof. by eexists _, _. Qed.

Lemma example_running_ok : ReactorOK NetworkOptions_default 0 0 (example_reactor Running ∅ {[3 := IoEvent_Read]}).
Proof.
  split; try done. split; [done|done| |exists ∅; exact example_store_ok].
  exists (mkPollPoller {[3 := IoEvent_Read]}). split; [done|]. split; [done|apply map_Forall_empty].
Qed.

(** A connection that has an answer to send and closes after it. *)
Definition leaving_conn : Connection :=
  busy_conn <| readPaused := true |> <| closeAfterWrite := true |> <| registeredEvents := IoEvent_Write |>.

Definition example_draining : ExampleReactor :=
  example_reactor Draining {[5 := leaving_conn]} {[3 := IoEvent_Read; 5 := IoEvent_Write]}.

Lemma example_draining_ok : ReactorOK NetworkOptions_default 0 0 example_draining.
Proof.
  split; try done; try (intros; by apply map_Forall_singleton).
  split; [done|done| |exists ∅; exact example_store_ok].
  eexists. split; [reflexivity|]. split; [done|]. apply map_Forall_singleton. split.
  - apply ConnOK_registered; [|done]. by apply lingering_ok; [apply busy_conn_ok|].
  - split; [done|]. split; [by intros _; split|done].
Qed.

(** A client is enqueued, taken, and served. *)
Definition example_history : list reactor_step :=
  [StepEnqueue 5; StepRound (example_round [wake] 0); StepRound (example_round [request_on_5] 0)].

Ltac history_tac :=
  cbn [history_ok];
  repeat (eexists _, 0; split;
    [apply example_round_ok;
       [repeat constructor; (apply wake_ok || apply request_ok_5)
       |vm_compute; discriminate|vm_compute; reflexivity]|]);
  exact I.

Lemma example_history_ok : history_ok NetworkOptions_default 0 0 example_history.
Proof. unfold example_history. history_tac. Qed.

Lemma reactor_safe_witness :
  exists s' n' now', run_steps NetworkOptions_default 3 example_history
      (example_reactor Running ∅ {[3 := IoEvent_Read]}) = (Ret tt, s') /\
    ReactorOK NetworkOptions_default n' now' s'.
Proof.
  destruct (reactor_safe NetworkOptions_default 3 default_options_ok example_history 0 0 _
    example_running_ok example_history_ok) as (s' & n' & now' & Hrun & HR & _).
  exists s', n', now'. split; [exact Hrun|exact HR].
Defined.

(** In that history the client is connected and its answer is on its way. *)
Example example_history_serves :
  let s' := (run_steps NetworkOptions_default 3 example_history
    (example_reactor Running ∅ {[3 := IoEvent_Read]})).2 in
  pending <$> m_clients s' !! 5 = Some (frame (lit "+PONG")).
Proof. vm_compute. reflexivity. Qed.

Lemma descriptors_owned_witness :
  exists s', run_steps NetworkOptions_default 3 example_history
      (example_reactor Running ∅ {[3 := IoEvent_Read]}) = (Ret tt, s') /\
    m_pendingClients s' ++ client_fds s' ++ r_closes s' ≡ₚ [5].
Proof.
  destruct (descriptors_owned NetworkOptions_default 3 default_options_ok example_history 0 0 _
    example_running_ok example_history_ok) as (s' & Hrun & Hown & _).
  exists s'. split; [exact Hrun|exact Hown].
Defined.

(** The client is asked to leave while its answer cannot be sent. *)
Definition example_shutdown : list reactor_step :=
  [StepRound (example_round [] 500); StepStop 700; StepRound (example_round [] 1000)].

(** A running reactor asked to stop by 1000, and one that drains already with
    that deadline: there the earlier one of [StepStop 300] has no effect. *)
Lemma graceful_shutdown_ends_witness :
  (exists s', run_steps NetworkOptions_default 3
      (StepStop 1000 :: StepRound (example_round [wake] 0) :: example_shutdown)
      (example_reactor Running ∅ {[3 := IoEvent_Read]}) = (Ret tt, s') /\
    m_publishedState s' = Stopped /\ m_clients s' = ∅) /\
  (exists s', run_steps NetworkOptions_default 3
      (StepStop 300 :: StepRound (example_round [] 0) :: example_shutdown) example_draining = (Ret tt, s') /\
    m_publishedState s' = Stopped /\ m_clients s' = ∅).
Proof.
  split.
  - apply (graceful_shutdown_ends NetworkOptions_default 3 default_options_ok 1000
      (example_round [wake] 0) example_shutdown 0 0); try done.
    + exact example_running_ok.
    + unfold example_shutdown. history_tac.
    + intros _. by exists [wake].
  - apply (graceful_shutdown_ends NetworkOptions_default 3 default_options_ok 300
      (example_round [] 0) example_shutdown 0 0); try done.
    + exact example_draining_ok.
    + unfold example_shutdown. history_tac.
Defined.

Lemma force_stop_ends_witness :
  exists s1 s', run_steps NetworkOptions_default 3
      [StepForceStop; StepRound (example_round [wake] 0)] example_draining = (Ret tt, s1) /\
    run_steps NetworkOptions_default 3
      (StepForceStop :: StepRound (example_round [wake] 0) :: [StepEnqueue 9]) example_draining
      = (Ret tt, s') /\
    m_publishedState s' = Stopped /\ m_clients s' = ∅ /\ r_store s' = r_store s1.
Proof.
  apply (force_stop_ends NetworkOptions_default 3 default_options_ok (example_round [wake] 0) [wake]
    [StepEnqueue 9] 0 0 example_draining example_draining_ok).
  - discriminate.
  - history_tac.
  - reflexivity.
  - reflexivity.
Defined.

(** A draining reactor whose client sends another request. *)
Definition example_drain : list reactor_step :=
  [StepRound (example_round [request_on_5] 500); StepStop 100].

Lemma example_drain_ok : history_ok NetworkOptions_default 0 0 example_drain.
Proof. unfold example_drain. history_tac. Qed.

Lemma draining_only_sends_witness :
  exists s', run_steps NetworkOptions_default 3 example_drain example_draining = (Ret tt, s') /\
    r_store s' = KVStore_init.
Proof.
  destruct (draining_only_sends NetworkOptions_default 3 default_options_ok example_drain 0 0
    example_draining example_draining_ok ltac:(vm_compute; discriminate) example_drain_ok)
    as (s' & Hrun & Hs & _).
  exists s'. split; [exact Hrun|exact Hs].
Defined.

Lemma draining_deadline_fixed_witness :
  exists s', run_steps NetworkOptions_default 3 example_drain example_draining = (Ret tt, s') /\
    (m_state s' = Draining -> m_shutdownDeadline s' = 1000).
Proof.
  destruct (draining_deadline_fixed NetworkOptions_default 3 default_options_ok example_drain 0 0
    example_draining example_draining_ok eq_refl example_drain_ok) as (s' & Hrun & Hd).
  exists s'. split; [exact Hrun|exact Hd].
Defined.

(** There, the requested deadline is earlier, and the client still connected. *)
Example late_stop_ignored :
  let s' := (run_steps NetworkOptions_default 3
    (example_drain ++ [StepRound (example_round [wake] 600)]) example_draining).2 in
  m_state s' = Draining /\ m_requestedShutdownDeadline s' = 100 /\ m_shutdownDeadline s' = 1000 /\
  client_fds s' = [5].
Proof. vm_compute. by split_and!. Qed.
