(* ===== verification/Serving.v ===== *)
(** * Clients served together (net/sub_reactor.cpp over core/kv_store.cpp)

    The threads of the sub-reactors serve the clients of the whole server over
    one store, which the sweeper works on too. An action is what one thread
    does between two points where another can come in: it receives from a
    client, serves one request, sends to a client, changes what it watches for
    a client, or sweeps. A schedule of actions is any interleaving; what the
    clients and the store see of it are its events. *)

From S2P Require Import Prelude PriorityQueue KVStore KVStoreInv KVStoreSpec FrameCodec OutputBuffer ServerMetrics Poller SubReactor SubReactorInv SubReactorHandlers EventLoop.
#[local] Open Scope Z_scope.

(** ** Events *)

Inductive event :=
  (** [recv] delivered these bytes of client [i] *)
  | EvRecv (i : nat) (data : bytes)
  (** [send] took these bytes for client [i] *)
  | EvSend (i : nat) (data : bytes)
  (** a request of client [i], at the time the store read *)
  | EvServe (i : nat) (now : TimePoint) (line : bytes)
  (** a call of [SweepExpired] *)
  | EvSweep (now : TimePoint) (maxRecords : Z).

Definition received_by (i : nat) (h : list event) : bytes :=
  concat (omap (fun e => match e with EvRecv j data => if (j =? i)%nat then Some data else None | _ => None end) h).

Definition sent_to (i : nat) (h : list event) : bytes :=
  concat (omap (fun e => match e with EvSend j data => if (j =? i)%nat then Some data else None | _ => None end) h).

(** The clock readings of the store. *)
Definition event_times (h : list event) : list TimePoint :=
  omap (fun e => match e with EvServe _ now _ | EvSweep now _ => Some now | _ => None end) h.

Section serving.
Context {Q : Type} `{!PriorityQueue ExpirationRecord Q}.
Context {P : Type} `{!Poller P}.
Context (o : NetworkOptions).

(** ** State *)

(** A client: its connection, and the payloads of the last [recv] that the
    loop of [HandleClientRead] has still to process. *)
Record client := mkClient {
  cl_conn : Connection;
  cl_todo : list bytes;
}.

Record serving := mkServing {
  sv_store : KVStore Q;
  sv_metrics : ServerMetrics;
  (** every client there ever was; a destroyed connection stays as a closed one *)
  sv_clients : gmap nat client;
  (** the last clock reading of the store and the number of its calls *)
  sv_clock : TimePoint;
  sv_calls : Z;
}.
#[export] Instance serving_settable : Settable serving := fun w =>
  {| sv_store := sv_store w; sv_metrics := sv_metrics w; sv_clients := sv_clients w;
     sv_clock := sv_clock w; sv_calls := sv_calls w |}.

Definition serving_init (now : TimePoint) : serving :=
  mkServing KVStore_init ServerMetrics_init ∅ now 0.

(** ** Actions *)

(** What else the event loop does to a connection. *)
Inductive conn_action :=
  (** [RefreshConnectionInterest], after the events *)
  | ActRefresh
  (** the loop of [BeginGracefulShutdown] *)
  | ActShutdown
  (** the hangup of a client that has something to receive, or not *)
  | ActHangup
  (** an error event, or a forced close *)
  | ActClose.

Definition hangup : M (Ctx Q P) unit :=
  conn_modify (fun c => c <| readPaused := true |> <| closeAfterWrite := true |>);;
  empty ← conn_gets (fun c => Empty (writeBuffer c));
  when empty MarkClosed.

Definition exec_conn (a : conn_action) : M (Ctx Q P) unit :=
  match a with
  | ActRefresh => RefreshConnectionInterest o
  | ActShutdown => shutdown_conn o
  | ActHangup => isClosed ← conn_gets closed; when (negb isClosed) hangup
  | ActClose => MarkClosed
  end.

(** The inputs of an action: the answers of the socket, the clock, the poller of
    the reactor as it is then. *)
Inductive action :=
  | ActAccept (i : nat) (clientFd : Z)
  | ActReceive (i : nat) (answers : recv_answers) (p : P)
  | ActServe (i : nat) (tick : TimePoint * Z) (p : P)
  | ActWrite (i : nat) (answers : send_answers) (p : P)
  | ActConn (i : nat) (a : conn_action) (p : P)
  (** an exception ends the loop, which destroys its connections *)
  | ActDestroy (i : nat)
  | ActSweep (now : TimePoint) (maxRecords : Z)
  (** what other threads do to the metrics *)
  | ActMetrics (m : ServerMetrics).

(** The bytes a call of [receive] takes from the socket. *)
Definition delivered (answers : recv_answers) (c : Connection) : bytes :=
  if negb (reading c) || (maxReadBufferBytes o <=? zlen (readBuffer c)) then [] else
  match retry_eintr answers with Ret (inl available) => received o c available | _ => [] end.

(** The bytes a call of [HandleClientWrite] gives to the socket. *)
Definition taken (answers : send_answers) (c : Connection) : bytes :=
  if closed c then [] else
  match retry_eintr answers with
  | Ret (inl room) =>
      take (Z.to_nat (Z.min room (Z.min (zlen (pending c)) (maxWriteBytesPerEvent o)))) (pending c)
  | _ => []
  end.

(** A handler on the connection of client [i]. *)
Definition on_client_i {A} (i : nat) (p : P) (m : M (Ctx Q P) A) (todo : A -> list bytes -> list bytes)
    (w : serving) : option serving :=
  match sv_clients w !! i with
  | Some cl =>
      match m (mkCtx (sv_store w) (sv_metrics w) p (cl_conn cl)) with
      | (Ret a, x) => Some (w <| sv_store := x_store x |> <| sv_metrics := x_metrics x |>
                              <| sv_clients ::= <[i := mkClient (x_conn x) (todo a (cl_todo cl))]> |>)
      | (Fail _, _) => None
      end
  | None => None
  end.

(** The store reads a clock that does not go back. *)
Definition ticking (now : TimePoint) (w : serving) : bool :=
  (sv_clock w <=? now) && (0 <=? now) && (now <=? CLOCK_MAX) && (sv_calls w + 1 <? U64_MOD).

Definition tick (now : TimePoint) (w : serving) : serving :=
  w <| sv_clock := now |> <| sv_calls := sv_calls w + 1 |>.

(** One action; [None] when it is not possible. *)
Definition exec (act : action) (w : serving) : option (list event * serving) :=
  match act with
  | ActAccept i clientFd =>
      match sv_clients w !! i with
      | Some _ => None
      | None => Some ([], w <| sv_clients ::= <[i := mkClient (Connection_init clientFd) []]> |>)
      end
  | ActReceive i answers p =>
      cl ← sv_clients w !! i;
      if negb (bool_decide (cl_todo cl = [])) then None else
      w' ← on_client_i i p (receive o answers) (fun ps _ => ps) w;
      Some ([EvRecv i (delivered answers (cl_conn cl))], w')
  | ActServe i clock p =>
      cl ← sv_clients w !! i;
      match cl_todo cl with
      | [] => None
      | line :: todo =>
          if negb (ticking clock.1 w) then None else
          w' ← on_client_i i p (ProcessPayload o clock line) (fun go_on _ => if (go_on : bool) then todo else []) w;
          Some ([EvServe i clock.1 line], tick clock.1 w')
      end
  | ActWrite i answers p =>
      cl ← sv_clients w !! i;
      if negb (bool_decide (cl_todo cl = [])) then None else
      w' ← on_client_i i p (HandleClientWrite o answers) (fun _ todo => todo) w;
      Some ([EvSend i (taken answers (cl_conn cl))], w')
  | ActConn i a p =>
      cl ← sv_clients w !! i;
      if negb (bool_decide (cl_todo cl = [])) then None else
      w' ← on_client_i i p (exec_conn a) (fun _ todo => todo) w;
      Some ([], w')
  | ActDestroy i =>
      cl ← sv_clients w !! i;
      Some ([], w <| sv_clients ::= <[i := mkClient (closed_conn (cl_conn cl)) []]> |>)
  | ActSweep now maxRecords =>
      if negb (ticking now w && (0 <=? maxRecords) && (maxRecords <? U64_MOD)) then None else
      match SweepExpired now maxRecords (sv_store w) with
      | (Ret _, s) => Some ([EvSweep now maxRecords], tick now (w <| sv_store := s |>))
      | (Fail _, _) => None
      end
  | ActMetrics m => Some ([], w <| sv_metrics := m |>)
  end.

(** A schedule. *)
Fixpoint run_actions (acts : list action) (w : serving) : option (list event * serving) :=
  match acts with
  | [] => Some ([], w)
  | act :: acts =>
      '(h, w') ← exec act w;
      '(h', w'') ← run_actions acts w';
      Some (h ++ h', w'')
  end.
End serving.
Arguments serving Q : clear implicits.
