(* ===== verification/ServingInv.v ===== *)
(** * What holds of every client while all are served *)

From S2P Require Import Prelude PriorityQueue KVStore KVStoreInv KVStoreSpec FrameCodec CommandGrammar RequestSpec OutputBuffer ServerMetrics Poller SubReactor SubReactorInv SubReactorRequests SubReactorHandlers EventLoop Serving.
#[local] Open Scope Z_scope.

(** ** The abstract history *)

(** [history a h answers a']: with the events [h] in this order the abstract
    map goes from [a] to [a'], and [answers] are right answers to the requests
    in [h], each with its client. *)
Inductive history : spec_map -> list event -> list (nat * (bytes * bytes)) -> spec_map -> Prop :=
  | history_nil a : history a [] [] a
  | history_recv a i data h answers a' : history a h answers a' -> history a (EvRecv i data :: h) answers a'
  | history_send a i data h answers a' : history a h answers a' -> history a (EvSend i data :: h) answers a'
  | history_serve a i now line resp a1 h answers a' :
      server_step now a line resp a1 -> history a1 h answers a' ->
      history a (EvServe i now line :: h) ((i, (line, resp)) :: answers) a'
  | history_sweep a now n h answers a' : history (prune now a) h answers a' -> history a (EvSweep now n :: h) answers a'.

Lemma history_app a h1 ans1 a1 h2 ans2 a2 :
  history a h1 ans1 a1 -> history a1 h2 ans2 a2 -> history a (h1 ++ h2) (ans1 ++ ans2) a2.
Proof. induction 1; intros H2; cbn; [done|econstructor; by eauto..]. Qed.

(** The requests of one client, with their answers. *)
Definition answers_of (i : nat) (answers : list (nat * (bytes * bytes))) : list (bytes * bytes) :=
  omap (fun x => if (x.1 =? i)%nat then Some x.2 else None) answers.

Lemma received_by_app i h1 h2 : received_by i (h1 ++ h2) = received_by i h1 ++ received_by i h2.
Proof. unfold received_by. by rewrite omap_app, concat_app. Qed.
Lemma sent_to_app i h1 h2 : sent_to i (h1 ++ h2) = sent_to i h1 ++ sent_to i h2.
Proof. unfold sent_to. by rewrite omap_app, concat_app. Qed.
Lemma received_by_self i data : received_by i [EvRecv i data] = data.
Proof. unfold received_by. cbn. rewrite Nat.eqb_refl. apply app_nil_r. Qed.
Lemma sent_to_self i data : sent_to i [EvSend i data] = data.
Proof. unfold sent_to. cbn. rewrite Nat.eqb_refl. apply app_nil_r. Qed.
Lemma answers_of_app i l1 l2 : answers_of i (l1 ++ l2) = answers_of i l1 ++ answers_of i l2.
Proof. apply omap_app. Qed.

(** ** One client *)

Section stream.
Context (o : NetworkOptions).
Hypothesis Ho : options_ok o.
Implicit Types (c : Connection) (inp out : bytes) (qs : list (bytes * bytes)).

(** The connection goes on taking requests. *)
Definition taking_requests c : Prop := closed c = false /\ closeAfterWrite c = false.

(** What the server says when it gives up a connection. *)
Definition last_words (final : list bytes) : Prop :=
  final = [] \/ final = [lit "-ERR protocol error"] \/ final = [lit "-ERR request buffer too large"].

(** [inp] was received, [out] sent, and [qs] served. *)
Record StreamOK inp out qs (cl : client) : Prop := mkStreamOK {
  so_conn : ConnOK o (cl_conn cl);
  so_busy : cl_todo cl <> [] -> Taking o (cl_conn cl) /\ Forall fits (cl_todo cl);
  so_in : exists left rest, inp = frames (qs.*1 ++ cl_todo cl ++ left) ++ rest /\
    (taking_requests (cl_conn cl) -> left = [] /\ rest = readBuffer (cl_conn cl));
  so_out : exists final queued, out ++ queued = frames (qs.*2 ++ final) /\ last_words final /\
    (closed (cl_conn cl) = false -> queued = pending (cl_conn cl)) /\
    (taking_requests (cl_conn cl) -> final = []);
  so_quit : Forall (fun q => ~ denotes q.1 ReqQuit) (removelast qs) /\
    (taking_requests (cl_conn cl) -> Forall (fun q => ~ denotes q.1 ReqQuit) qs);
}.

Lemma stream_accept clientFd : StreamOK [] [] [] (mkClient (Connection_init clientFd) []).
Proof.
  split; cbn; [by apply Connection_init_ok|done| | |done].
  { exists [], []. split; [reflexivity|]. intros _. split; reflexivity. }
  exists [], []. split_and!; [done|by left|done|done].
Qed.

Lemma stream_closed inp out qs c todo d :
  StreamOK inp out qs (mkClient c todo) -> StreamOK (inp ++ d) out qs (mkClient (closed_conn c) []).
Proof.
  intros [Hc Hb (left & rest & -> & _) (final & queued & Hout & Hf & _) [Hq _]]. cbn in *.
  assert (~ taking_requests (closed_conn c)) as Hnot by by intros [? _].
  split; cbn; [by apply closed_conn_ok|done| | |by split].
  - exists (todo ++ left), (rest ++ d). split; [by rewrite <- app_assoc|done].
  - by exists final, queued.
Qed.

(** The connection does nothing that matters to the streams. *)
Definition quiet c c' : Prop :=
  c' = closed_conn c \/
  (pending c' = pending c /\ readBuffer c' = readBuffer c /\ closed c' = closed c /\
   (closeAfterWrite c = true -> closeAfterWrite c' = true)).


Lemma stream_quiet inp out qs c c' :
  StreamOK inp out qs (mkClient c []) -> ConnOK o c' -> quiet c c' -> StreamOK inp out qs (mkClient c' []).
Proof.
  intros HS Hc' [->|(Hp & Hr & Hcl & Hw)].
  { rewrite <- (app_nil_r inp). by eapply stream_closed. }
  destruct HS as [Hc Hb (left & rest & -> & Hopen) (final & queued & Hout & Hf & Hpend & Hfin) [Hq Hq']]. cbn in *.
  assert (taking_requests c' -> taking_requests c) as Htk.
  { intros [H1 H2]. split; [congruence|]. destruct (closeAfterWrite c) eqn:Hcw; [|done]. rewrite Hw in H2 by done. done. }
  split; cbn; [done|done| | |split; [done|by intros ?%Htk; apply Hq']].
  - exists left, rest. split; [done|]. rewrite Hr. by intros ?%Htk; apply Hopen.
  - exists final, queued. rewrite Hcl, Hp. split_and!; try done. by intros ?%Htk; apply Hfin.
Qed.

(** The connection is given up with some last words. *)
Lemma stream_rejected inp out qs c rest msg c' d :
  StreamOK inp out qs (mkClient c []) -> taking_requests c -> last_words [msg] -> ConnOK o c' ->
  rejected o (c <| readBuffer := rest |>) msg c' -> StreamOK (inp ++ d) out qs (mkClient c' []).
Proof.
  intros HS Htk Hmsg Hc' [(_ & (_ & _ & _ & Hcl) & _ & Hp & Hcw)|(_ & ->)].
  2: { change (closed_conn (c <| readBuffer := rest |>)) with (closed_conn c). by eapply stream_closed. }
  destruct HS as [_ _ (left & r & -> & _) (final & queued & Hout & _ & Hpend & Hfin) [Hq _]]. cbn in *.
  rewrite (Hfin Htk), app_nil_r, (Hpend (proj1 Htk)) in Hout.
  assert (~ taking_requests c') as Hnot by (intros [_ ?]; congruence).
  split; cbn; [done|done| | |by split].
  - exists left, (r ++ d). split; [by rewrite <- app_assoc|done].
  - exists [msg], (pending c'). split_and!; try done. rewrite Hp.
    change (pending (c <| readBuffer := rest |>)) with (pending c). rewrite frames_app, <- Hout.
    unfold frames. cbn. by rewrite app_nil_r, app_assoc.
Qed.
(** ** The actions on one client *)

Lemma stream_receive inp out qs c answers answer ps c' :
  StreamOK inp out qs (mkClient c []) -> reading c = true -> retry_eintr answers = Ret answer ->
  receive_effect o c answer ps c' -> StreamOK (inp ++ delivered o answers c) out qs (mkClient c' ps).
Proof.
  intros HS Hrd Hans Heff. destruct (reading_open c Hrd) as (Hcl & Hrp & Hcw).
  assert (taking_requests c) as Htk by done. pose proof (so_conn _ _ _ _ HS) as Hc. cbn in Hc.
  unfold delivered. rewrite Hrd, Hans. cbn [negb orb]. unfold receive_effect in Heff.
  destruct (Z.leb_spec (maxReadBufferBytes o) (zlen (readBuffer c))) as [Hfull|Hroom].
  { destruct Heff as [-> Hr]. eapply (stream_rejected _ _ _ c (readBuffer c)); try done; [by right; right|].
    eapply (rejected_ok o Ho); [apply Hc|done|exact Hr]. }
  destruct answer as [available|errno].
  2: { destruct Heff as [-> ->]. destruct (errno =? EAGAIN); [by rewrite app_nil_r|by eapply stream_closed]. }
  case_bool_decide as Hdata; [destruct Heff as [-> ->]; by eapply stream_closed|].
  pose proof (received_bound o c available Hroom) as Hlen.
  destruct (Decode (readBuffer c ++ received o c available)) as [[payloads|f] rest] eqn:Hdec.
  - destruct Heff as [-> ->]. apply decode_rest_bound in Hdec as Hr. apply decode_ok_iff in Hdec as (Hsplit & Hfits & Hinc).
    destruct HS as [_ _ (left & r & -> & Hopen) (final & queued & Hout & Hf & Hpend & Hfin) [Hq Hq']]. cbn in *.
    destruct (Hopen Htk) as [-> ->]. destruct (co_active _ _ Hc Hcl Hcw) as [_ Hbp].
    split; cbn.
    + split; [apply Hc|apply Hc|cbn; lia|cbn; congruence|done].
    + intros _. split; [|done]. split; try done; apply Hc.
    + exists [], rest. split; [|done]. rewrite !app_nil_r, frames_app, <- !app_assoc. by rewrite Hsplit.
    + by exists final, queued.
    + done.
  - destruct Heff as [-> Hr]. eapply stream_rejected; try done; [by right; left|].
    eapply (rejected_ok o Ho (c <| readBuffer := rest |>)); [|done|exact Hr]. apply decode_rest_bound in Hdec. cbn. lia.
Qed.

Lemma queued_conn_ok c resp c' :
  ConnOK o c -> Taking o c -> queued o c resp true c' -> ConnOK o c'.
Proof.
  intros Hc Htk Hq. destruct (queued_true o Ho _ _ _ Htk Hq) as ([] & (_ & _ & Hrb & _) & Hp & _).
  destruct (co_active _ _ Hc) as [Hinc _]; [apply Htk..|].
  split; rewrite ?Hrb; [done|done|apply Hc|congruence|done].
Qed.

Lemma stream_serve inp out qs c line todo resp go_on c' :
  StreamOK inp out qs (mkClient c (line :: todo)) -> fits resp -> payload_effect o c line resp go_on c' ->
  StreamOK inp out (qs ++ [(line, resp)]) (mkClient c' (if (go_on : bool) then todo else [])).
Proof.
  intros [Hc Hb (left & rest & -> & Hopen) (final & queued & Hout & Hf & Hpend & Hfin) [_ Hq]] Hresp Heff. cbn in *.
  destruct Hb as [Htk Hfits]; [done|]. assert (taking_requests c) as Hop by (split; apply Htk).
  rewrite (Hfin Hop), app_nil_r, (Hpend (proj1 Hop)) in Hout. destruct (Hopen Hop) as [-> ->].
  apply Forall_cons in Hfits as [_ Hfits]. specialize (Hq Hop).
  assert (forall qd, qd = pending c ++ frame resp -> out ++ qd = frames ((qs ++ [(line, resp)]).*2 ++ [])) as Hsent.
  { intros qd ->. rewrite app_assoc, Hout, fmap_app, app_nil_r, frames_app. unfold frames. cbn. by rewrite app_nil_r. }
  assert (frames (qs.*1 ++ line :: todo ++ []) = frames ((qs ++ [(line, resp)]).*1 ++ todo)) as ->.
  { rewrite fmap_app, <- app_assoc, app_nil_r. done. }
  assert (forall c1, ConnOK o c1 -> ~ taking_requests c1 -> (closed c1 = false -> pending c1 = pending c ++ frame resp) ->
    StreamOK (frames ((qs ++ [(line, resp)]).*1 ++ todo) ++ readBuffer c) out (qs ++ [(line, resp)]) (mkClient c1 [])) as Hlast.
  { intros c1 Hc1 Hnot Hp1. split; cbn; [done|done|by exists todo, (readBuffer c)| |by rewrite removelast_last].
    exists [], (pending c ++ frame resp). split_and!; [by apply Hsent|by left|by intros ->%Hp1|done]. }
  destruct Heff as [(-> & Hnq & Hqd)|[(-> & Hquit & c1 & Hqd & ->)|(-> & Hqd)]].
  - destruct (queued_true o Ho _ _ _ Htk Hqd) as (Htk' & (_ & _ & Hrb & _) & Hp & _).
    assert (Forall (fun q => ~ denotes q.1 ReqQuit) (qs ++ [(line, resp)])) as Hall by (by apply Forall_app_2; [|apply Forall_singleton]).
    split; cbn; [by eapply queued_conn_ok|done| | |by rewrite removelast_last].
    + exists [], (readBuffer c). rewrite app_nil_r. by rewrite Hrb.
    + exists [], (pending c'). split_and!; [by apply Hsent|by left|done|done].
  - destruct (queued_true o Ho _ _ _ Htk Hqd) as (Htk' & _ & Hp & _). apply Hlast; [|by intros [_ ?]|done].
    pose proof (queued_conn_ok _ _ _ Hc Htk Hqd) as Hc1. destruct Hc1 as [H1 H2 H3 _ _].
    split; [exact H1|exact H2|exact H3| |done]. cbn. destruct Htk'. congruence.
  - destruct Hqd as [(? & _)|(_ & _ & ->)]; [done|]. apply Hlast; [by apply closed_conn_ok|by intros [? _]|done].
Qed.

Lemma stream_write inp out qs c answers answer c' :
  StreamOK inp out qs (mkClient c []) -> closed c = false -> retry_eintr answers = Ret answer ->
  write_effect o c answer c' -> StreamOK inp (out ++ taken o answers c) qs (mkClient c' []).
Proof.
  intros HS Hcl Hans Heff. pose proof (so_conn _ _ _ _ HS) as Hc. cbn in Hc.
  pose proof (write_effect_ok o Ho _ _ _ Hc Hcl Heff) as Hc'. unfold taken. rewrite Hcl, Hans.
  unfold write_effect in Heff. case_bool_decide as Hnil.
  { assert (match answer with inl room => take (Z.to_nat (Z.min room (Z.min (zlen (pending c)) (maxWriteBytesPerEvent o)))) (pending c) | inr _ => [] end = []) as ->.
    { rewrite Hnil. destruct answer; [apply take_nil|done]. }
    rewrite app_nil_r. eapply stream_quiet; [exact HS|done|]. rewrite Heff.
    destruct (closeAfterWrite c) eqn:Hcw; [by left|right].
    destruct (bp_conn_same o c) as (Hp & _ & Hr & Hk & Hw & _). by rewrite Hp, Hr, Hk, Hw. }
  destruct answer as [room|errno].
  2: { rewrite app_nil_r. eapply stream_quiet; [exact HS|done|]. rewrite Heff.
       destruct (errno =? EAGAIN); [by right|by left]. }
  set (n := Z.min room _) in *. destruct (Z.leb_spec n 0) as [Hn|Hn].
  { rewrite Heff. replace (Z.to_nat n) with 0%nat by lia. rewrite take_0, app_nil_r. rewrite <- (app_nil_r inp). by eapply stream_closed. }
  destruct Heff as (b' & Hb' & Hd & Heff).  cbn zeta in Heff.
  destruct HS as [_ _ (left & rest & -> & Hopen) (final & queued & Hout & Hf & Hpend & Hfin) [Hq Hq']]. cbn in *.
  rewrite (Hpend Hcl) in Hout.
  assert ((out ++ take (Z.to_nat n) (pending c)) ++ drop (Z.to_nat n) (pending c) = frames (qs.*2 ++ final)) as Hout'.
  { by rewrite <- app_assoc, take_drop. }
  assert (taking_requests c' -> taking_requests c /\ readBuffer c' = readBuffer c) as Htk.
  { intros [H1 H2]. subst c'. destruct (bool_decide _ && closeAfterWrite c); [done|].
    destruct (bp_conn_same o (c <| writeBuffer := b' |>)) as (_ & _ & Hr & _ & Hw & _). split; [split; [done|exact (eq_trans (eq_sym Hw) H2)]|exact Hr]. }
  split; cbn; [done|done| | |split; [done|by intros [? _]%Htk; apply Hq']].
  - exists left, rest. split; [done|]. intros [Htk' ->]%Htk. by apply Hopen.
  - exists final, (drop (Z.to_nat n) (pending c)). split_and!; [done|done| |by intros [? _]%Htk; apply Hfin].
    intros Hcl'. subst c'. destruct (bool_decide _ && closeAfterWrite c); [done|].
    destruct (bp_conn_same o (c <| writeBuffer := b' |>)) as (Hp & _). exact (eq_sym (eq_trans Hp Hd)).
Qed.
End stream.

(** ** The other actions of the loop *)

Section conn_actions.
Context {Q : Type} `{!PriorityQueue ExpirationRecord Q}.
Context {P : Type} `{!Poller P}.
Context (o : NetworkOptions).
Hypothesis Ho : options_ok o.

(** The store is not touched, and the streams are not. *)
Definition quietly (x : Ctx Q P) (c : Connection) (x' : Ctx Q P) : Prop :=
  x_store x' = x_store x /\ ConnOK o (x_conn x') /\ quiet c (x_conn x').

(** A connection is closed only when there is nothing left to do for it. *)
Lemma refresh_keeps (x : Ctx Q P) :
  ConnOK o (x_conn x) ->
  wp (RefreshConnectionInterest o)
    (fun _ x' => quietly x (x_conn x) x' /\
       (closed (x_conn x') = true -> closed (x_conn x) = true \/
          (closeAfterWrite (x_conn x) = true /\ pending (x_conn x) = [])) /\
       (closeAfterWrite (x_conn x') = true -> closeAfterWrite (x_conn x) = true)) (fun _ _ => True) x.
Proof.
  intros Hc. destruct x as [s m p c]. cbn in Hc. unfold RefreshConnectionInterest.
  apply wp_bind, wp_gets. cbn [x_conn id]. destruct (closed c) eqn:Hcl.
  { apply wp_ret. split; [|split; [by left|done]]. split_and!; [done|done|by right]. }
  apply wp_bind, (wp_backpressure o); [apply Hc|]. intros m1. apply wp_bind, wp_gets. cbn [x_conn id with_conn].
  destruct (bp_conn_same o c) as (Hp & Hwb & Hr & Hcl' & Hw & _).
  assert (ConnOK o (bp_conn o c)) as Hc1.
  { apply bp_restores; [done|apply Hc|apply Hc|apply Hc|done|]. intros Hcw. by apply (co_active _ _ Hc). }
  assert (quiet c (bp_conn o c)) as Hq by (right; by rewrite Hp, Hr, Hcl', Hw).
  assert (quietly (mkCtx s m p c) c (mkCtx s m1 p (closed_conn c))) as Hclosed
    by (split_and!; [done|by apply closed_conn_ok|by left]).
  rewrite <- (closed_bp o c) in Hclosed. rewrite Hw, Hwb, (empty_data _ (co_buffer _ _ Hc)).
  change (Data (writeBuffer c)) with (pending c).
  destruct (closeAfterWrite c && bool_decide (pending c = [])) eqn:Hdone.
  { apply andb_true_iff in Hdone as [Hcw Hnil%bool_decide_eq_true]. apply wp_markclosed. split; [exact Hclosed|split; [by right|done]]. }
  destruct (Z.eqb_spec (DesiredEvents (bp_conn o c)) IoEvent_None) as [Hnone|_].
  { apply wp_markclosed. split; [exact Hclosed|split; [|done]]. intros _. right. rewrite <- Hp, <- Hw.
    apply (desired_none o Ho); [apply Hc1|congruence| |done].
    destruct (closeAfterWrite c) eqn:Hcw; [right; congruence|left; by apply bp_conn_ok]. }
  destruct (_ =? _); [apply wp_ret; split; [done|cbn; split; congruence]|].
  apply wp_bind. unfold wp at 1, zoom. destruct (poller_Modity _ _ _) as [[[]|f] p']; [|done].
  apply wp_modify. split; [|cbn; split; congruence].
  split_and!; [done|apply (ConnOK_registered o); [exact Hc1|exact (eq_trans Hcl' Hcl)]|].
  right. split_and!; [exact Hp|exact Hr|exact Hcl'|]. intros Hcw. exact (eq_trans Hw Hcw).
Qed.

Lemma refresh_quiet (x : Ctx Q P) :
  ConnOK o (x_conn x) ->
  wp (RefreshConnectionInterest o) (fun _ x' => quietly x (x_conn x) x') (fun _ _ => True) x.
Proof. intros Hc. eapply wp_mono; [by apply refresh_keeps| |done]. by intros [] x' [? _]. Qed.

(** The connection is read no more and closes once its queue is sent. *)
Definition ending (c : Connection) : Connection := c <| readPaused := true |> <| closeAfterWrite := true |>.

Lemma ending_ok c : ConnOK o c -> closed c = false -> ConnOK o (ending c) /\ quiet c (ending c).
Proof.
  intros [H1 H2 H3 _ _] Hcl. split; [|by right]. split; [done|done|done| |done]. intros H.
  change (closed c = true) in H. congruence.
Qed.

Lemma closed_empty c : ConnOK o c -> closed c = true -> Empty (writeBuffer c) = true.
Proof. intros Hc Hcl. by rewrite (co_closed _ _ Hc Hcl). Qed.

Lemma exec_conn_quiet a (x : Ctx Q P) :
  ConnOK o (x_conn x) -> wp (exec_conn o a) (fun _ x' => quietly x (x_conn x) x') (fun _ _ => True) x.
Proof.
  intros Hc. destruct x as [s m p c]. cbn in Hc.
  assert (quietly (mkCtx s m p c) c (mkCtx s m p (closed_conn c))) as Hclosed
    by (split_and!; [done|by apply closed_conn_ok|by left]).
  destruct a; cbn [exec_conn x_conn].
  - by apply refresh_quiet.
  - unfold shutdown_conn. apply wp_bind, wp_modify, wp_bind, wp_gets. cbn [x_conn].
    match goal with |- context [Empty (writeBuffer ?c1)] => change (Empty (writeBuffer c1)) with (Empty (writeBuffer c)) end.
    destruct (Empty (writeBuffer c)) eqn:He; [by apply wp_markclosed|].
    assert (closed c = false) as Hcl by (destruct (closed c) eqn:H; [by rewrite closed_empty in He|done]).
    destruct (ending_ok c Hc Hcl) as [Hc1 Hq].
    eapply wp_mono; [apply (refresh_quiet (mkCtx s m p (ending c)) Hc1)| |done].
    intros [] x' (Hs & Hc' & Hq'). split_and!; [done|done|].
    destruct Hq' as [->|(? & ? & ? & Hw)]; [by left|right]. split_and!; try done. intros _. by apply Hw.
  - apply wp_bind, wp_gets. cbn [x_conn]. apply wp_when.
    2: { intros _. split_and!; [done|done|by right]. }
    intros Hcl%negb_true_iff.
    unfold hangup. destruct (ending_ok c Hc Hcl) as [Hc1 Hq].
    apply wp_bind, wp_modify, wp_bind, wp_gets. apply wp_when; intros _; [by apply wp_markclosed|done].
  - by apply wp_markclosed.
Qed.
End conn_actions.
