(* ===== verification/ServingSteps.v ===== *)
(** * Every action keeps the server and its history in step *)

From S2P Require Import Prelude PriorityQueue KVStore KVStoreInv KVStoreSpec FrameCodec CommandGrammar RequestSpec OutputBuffer ServerMetrics Poller SubReactor SubReactorInv SubReactorRequests SubReactorHandlers EventLoop Serving ServingInv.
From stdpp Require Import sorting.
#[local] Open Scope Z_scope.

Lemma event_times_app h1 h2 : event_times (h1 ++ h2) = event_times h1 ++ event_times h2.
Proof. apply omap_app. Qed.

Section world.
Context {Q : Type} `{!PriorityQueue ExpirationRecord Q}
  `{!PriorityQueueLaws ExpirationRecord Q ExpirationCompare}.
Context {P : Type} `{!Poller P}.
Context (o : NetworkOptions).
Hypothesis Ho : options_ok o.
Implicit Types (w : serving Q) (h : list event) (ans : list (nat * (bytes * bytes))).

(** ** The whole server *)

Record ServingOK h ans (a : spec_map) w : Prop := mkServingOK {
  sg_store : StoreOK (sv_calls w) (sv_clock w) a (sv_store w);
  sg_times : StronglySorted Z.le (event_times h) /\ Forall (fun t => t <= sv_clock w) (event_times h);
  sg_client i cl : sv_clients w !! i = Some cl ->
    StreamOK o (received_by i h) (sent_to i h) (answers_of i ans) cl;
  sg_nobody i : sv_clients w !! i = None ->
    received_by i h = [] /\ sent_to i h = [] /\ answers_of i ans = [];
}.

(** Nothing here is about client [j]. *)
Definition not_about (j : nat) (ev : list event) ans : Prop :=
  received_by j ev = [] /\ sent_to j ev = [] /\ answers_of j ans = [].

Lemma serving_update h ans a w i cl' ev ans' a' w' :
  ServingOK h ans a w -> sv_clients w' = <[i := cl']> (sv_clients w) ->
  StoreOK (sv_calls w') (sv_clock w') a' (sv_store w') -> sv_clock w <= sv_clock w' ->
  event_times ev = [] \/ event_times ev = [sv_clock w'] ->
  (forall j, j <> i -> not_about j ev ans') ->
  StreamOK o (received_by i h ++ received_by i ev) (sent_to i h ++ sent_to i ev) (answers_of i ans ++ answers_of i ans') cl' ->
  ServingOK (h ++ ev) (ans ++ ans') a' w'.
Proof.
  intros [_ [Hs Ht] Hcl Hno] Hw HS Hle Hev Hj Hi. split; [done| | |].
  - rewrite event_times_app. assert (Forall (fun t => t <= sv_clock w') (event_times h)) as Ht'
      by (eapply Forall_impl; [exact Ht|]; cbn; lia).
    destruct Hev as [->| ->]; [by rewrite app_nil_r|]. split.
    + apply StronglySorted_app_2; [|done|by repeat constructor].
      intros x y Hx ->%list_elem_of_singleton. by eapply Forall_forall in Ht'.
    + apply Forall_app_2; [done|by apply Forall_singleton].
  - intros j cl. rewrite Hw, received_by_app, sent_to_app, answers_of_app.
    destruct (decide (j = i)) as [->|Hne]; [rewrite lookup_insert_eq; by intros [= <-]|].
    rewrite lookup_insert_ne by done. intros Hl. destruct (Hj j Hne) as (-> & -> & ->). rewrite !app_nil_r. by apply Hcl.
  - intros j. rewrite Hw, received_by_app, sent_to_app, answers_of_app.
    destruct (decide (j = i)) as [->|Hne]; [by rewrite lookup_insert_eq|].
    rewrite lookup_insert_ne by done. intros Hl. destruct (Hj j Hne) as (-> & -> & ->). rewrite !app_nil_r. by apply Hno.
Qed.

Lemma on_client_inv {A} i p (m : M (Ctx Q P) A) todo w w' cl :
  sv_clients w !! i = Some cl -> on_client_i i p m todo w = Some w' ->
  exists a x, m (mkCtx (sv_store w) (sv_metrics w) p (cl_conn cl)) = (Ret a, x) /\
    w' = w <| sv_store := x_store x |> <| sv_metrics := x_metrics x |>
           <| sv_clients ::= <[i := mkClient (x_conn x) (todo a (cl_todo cl))]> |>.
Proof.
  unfold on_client_i. intros ->. destruct (m _) as [[a|f] x]; [|done]. intros [= <-]. by exists a, x.
Qed.

Lemma wp_result {S A} (m : M S A) R E s a s' : wp m R E s -> m s = (Ret a, s') -> R a s'.
Proof. unfold wp. by intros H Hm; rewrite Hm in H. Qed.

Lemma other_client (i j : nat) : j <> i -> (i =? j)%nat = false.
Proof. intros H. apply Nat.eqb_neq. congruence. Qed.

(** Without a call of [recv], or of [send], their answers do not matter. *)
Lemma receive_full answers answers' (x : Ctx Q P) :
  maxReadBufferBytes o <= zlen (readBuffer (x_conn x)) -> receive o answers x = receive o answers' x.
Proof.
  intros Hfull. unfold receive. cbv [mbind M_bind conn_gets gets id].
  destruct (_ || _); [done|]. by rewrite (proj2 (Z.leb_le _ _) Hfull).
Qed.

Lemma receive_inactive answers (x : Ctx Q P) : reading (x_conn x) = false -> receive o answers x = (Ret [], x).
Proof.
  unfold reading, receive. cbv [mbind M_bind conn_gets gets id]. intros Hr%negb_false_iff. by rewrite Hr.
Qed.

Lemma receive_answered answers (x : Ctx Q P) ps x' :
  receive o answers x = (Ret ps, x') -> reading (x_conn x) = true ->
  zlen (readBuffer (x_conn x)) < maxReadBufferBytes o -> exists answer, retry_eintr answers = Ret answer.
Proof.
  unfold reading, receive. cbv [mbind M_bind conn_gets gets id lift]. intros Hrun Hr%negb_true_iff Hroom.
  rewrite Hr, (proj2 (Z.leb_gt _ _) Hroom) in Hrun. destruct (retry_eintr answers); [by eexists|done].
Qed.
Lemma write_empty answers answers' (x : Ctx Q P) :
  BufInv (writeBuffer (x_conn x)) -> pending (x_conn x) = [] ->
  HandleClientWrite o answers x = HandleClientWrite o answers' x.
Proof.
  intros Hb Hp. unfold HandleClientWrite. cbv [mbind M_bind conn_gets gets id].
  destruct (closed (x_conn x)); [done|]. rewrite (empty_data _ Hb).
  change (Data (writeBuffer (x_conn x))) with (pending (x_conn x)). by rewrite Hp, bool_decide_eq_true_2.
Qed.

Lemma write_answered answers (x x' : Ctx Q P) :
  HandleClientWrite o answers x = (Ret tt, x') -> BufInv (writeBuffer (x_conn x)) ->
  closed (x_conn x) = false -> pending (x_conn x) <> [] -> exists answer, retry_eintr answers = Ret answer.
Proof.
  unfold HandleClientWrite. cbv [mbind M_bind conn_gets gets id lift]. intros Hrun Hb Hcl Hp.
  rewrite Hcl, (empty_data _ Hb) in Hrun.
  change (Data (writeBuffer (x_conn x))) with (pending (x_conn x)) in Hrun.
  rewrite bool_decide_eq_false_2 in Hrun by done. destruct (retry_eintr answers); [by eexists|done].
Qed.

Lemma write_inactive' answers (x : Ctx Q P) :
  closed (x_conn x) = true -> HandleClientWrite o answers x = (Ret tt, x).
Proof. unfold HandleClientWrite. cbv [mbind M_bind conn_gets gets id]. by intros ->. Qed.

(** ** What each action does *)

Lemma do_receive inp out qs c answers s m p ps (x' : Ctx Q P) :
  StreamOK o inp out qs (mkClient c []) -> receive o answers (mkCtx s m p c) = (Ret ps, x') ->
  x_store x' = s /\ StreamOK o (inp ++ delivered o answers c) out qs (mkClient (x_conn x') ps).
Proof.
  intros HS Hrun. destruct (reading c) eqn:Hrd.
  2: { rewrite receive_inactive in Hrun by done. injection Hrun as <- <-. unfold delivered. rewrite Hrd. cbn.
       by rewrite app_nil_r. }
  pose proof (so_conn _ _ _ _ _ HS) as Hc. cbn in Hc.
  assert (exists answers' answer, receive o answers' (mkCtx s m p c) = (Ret ps, x') /\
    retry_eintr answers' = Ret answer /\ delivered o answers' c = delivered o answers c) as (answers' & answer & Hrun' & Hans & Hdel).
  { destruct (Z.leb_spec (maxReadBufferBytes o) (zlen (readBuffer c))) as [Hfull|Hroom].
    - exists [SysOk []], (inl []). rewrite (receive_full _ answers) by done. split_and!; [done|done|].
      unfold delivered. rewrite (proj2 (Z.leb_le _ _) Hfull). by rewrite Hrd.
    - destruct (receive_answered _ _ _ _ Hrun Hrd Hroom) as [answer Hans]. by exists answers, answer. }
  destruct (wp_result _ _ _ _ _ _ (receive_wp o Ho answers' answer (mkCtx s m p c) Hc Hans Hrd) Hrun') as (m' & c' & -> & Heff).
  split; [done|]. rewrite <- Hdel. by eapply (stream_receive o Ho).
Qed.

Lemma do_write inp out qs c answers s m p (x' : Ctx Q P) :
  StreamOK o inp out qs (mkClient c []) -> HandleClientWrite o answers (mkCtx s m p c) = (Ret tt, x') ->
  x_store x' = s /\ StreamOK o inp (out ++ taken o answers c) qs (mkClient (x_conn x') []).
Proof.
  intros HS Hrun. destruct (closed c) eqn:Hcl.
  { rewrite write_inactive' in Hrun by done. injection Hrun as <-. unfold taken. rewrite Hcl. by rewrite app_nil_r. }
  pose proof (so_conn _ _ _ _ _ HS) as Hc. cbn in Hc.
  assert (exists answers' answer, HandleClientWrite o answers' (mkCtx s m p c) = (Ret tt, x') /\
    retry_eintr answers' = Ret answer /\ taken o answers' c = taken o answers c) as (answers' & answer & Hrun' & Hans & Htk).
  { destruct (decide (pending c = [])) as [Hp|Hp].
    - exists [SysOk 0], (inl 0). rewrite (write_empty _ answers) by (done || apply Hc). split_and!; [done|done|].
      unfold taken. rewrite Hcl, Hp. cbn [retry_eintr].
      by destruct (retry_eintr answers) as [[]|]; rewrite ?take_nil.
    - destruct (write_answered _ _ _ Hrun (co_buffer _ _ Hc) Hcl Hp) as [answer Hans]. by exists answers, answer. }
  destruct (wp_result _ _ _ _ _ _ (handle_write_wp o answers' answer (mkCtx s m p c) Hc Hans Hcl) Hrun') as (m' & c' & -> & Heff).
  split; [done|]. rewrite <- Htk. by eapply (stream_write o Ho).
Qed.

Lemma do_serve inp out qs c line todo tick n now a s m p go_on (x' : Ctx Q P) :
  StreamOK o inp out qs (mkClient c (line :: todo)) -> StoreOK n now a s ->
  now <= tick.1 -> clock_ok tick.1 -> n + 1 < U64_MOD ->
  ProcessPayload o tick line (mkCtx s m p c) = (Ret go_on, x') ->
  exists resp a', StoreOK (n + 1) tick.1 a' (x_store x') /\ server_step tick.1 a line resp a' /\
    fits resp /\ payload_effect o c line resp go_on (x_conn x') /\
    StreamOK o inp out (qs ++ [(line, resp)]) (mkClient (x_conn x') (if (go_on : bool) then todo else [])).
Proof.
  intros HS Hst Hle Hclk Hn Hrun. destruct (so_busy _ _ _ _ _ HS) as [Htk Hfits]; [done|]. cbn in Htk, Hfits.
  apply Forall_cons in Hfits as [Hfit _]. destruct Htk as [Hb Hp _ _ _].
  destruct (wp_result _ _ _ _ _ _ (process_payload_wp o Ho n now tick line a (mkCtx s m p c) Hst Hle Hclk Hn Hfit Hb Hp) Hrun)
    as (s' & a' & m' & c' & resp & -> & Hst' & Hstep & Heff).
  assert (fits resp) as Hresp by (destruct Hst as (_ & _ & Hsm); by apply (server_step_fits _ _ _ _ _ Hstep)).
  exists resp, a'. split_and!; [done|done|done|exact Heff|]. by eapply (stream_serve o Ho).
Qed.

Lemma do_sweep n now0 now maxRecords a s r s' :
  StoreOK n now0 a s -> now0 <= now -> clock_ok now -> n + 1 < U64_MOD -> 0 <= maxRecords < U64_MOD ->
  SweepExpired now maxRecords s = (Ret r, s') -> StoreOK (n + 1) now (prune now a) s'.
Proof.
  intros (HI & Hm & Hsm) Hle Hclk Hn Hmax Hrun.
  pose proof (exec_op_correct n now0 now (OpSweep maxRecords) s a HI Hle Hclk Hn Hmax Hm) as Hop.
  eapply wp_result in Hop; [|cbn; cbv [mbind M_bind]; rewrite Hrun; reflexivity].
  destruct Hop as (HI' & _ & Hm'). split_and!; [done|exact Hm'|by apply small_prune].
Qed.
(** ** Steps of the server *)

Lemma ticking_ok now w :
  ticking now w = true -> sv_clock w <= now /\ clock_ok now /\ sv_calls w + 1 < U64_MOD.
Proof. unfold ticking, clock_ok. rewrite !andb_true_iff, !Z.leb_le, Z.ltb_lt. lia. Qed.

Lemma not_about_nothing j : not_about j [] [].
Proof. by split_and!. Qed.

(** An action on the connection of client [i], which is at rest. *)
Lemma exec_client {A} (m : M (Ctx Q P) A) todo (ev : list event) h ans a w w' i cl p :
  ServingOK h ans a w -> sv_clients w !! i = Some cl -> cl_todo cl = [] ->
  on_client_i i p m todo w = Some w' ->
  (forall inp out qs x' b, StreamOK o inp out qs (mkClient (cl_conn cl) []) ->
     m (mkCtx (sv_store w) (sv_metrics w) p (cl_conn cl)) = (Ret b, x') ->
     x_store x' = sv_store w /\
     StreamOK o (inp ++ received_by i ev) (out ++ sent_to i ev) qs (mkClient (x_conn x') (todo b []))) ->
  event_times ev = [] -> (forall j, j <> i -> not_about j ev []) ->
  history a ev [] a ->
  exists ans' a', history a ev ans' a' /\ ServingOK (h ++ ev) (ans ++ ans') a' w'.
Proof.
  intros HS Hi Htodo Hon Hm Hev Hj Hh. destruct (on_client_inv _ _ _ _ _ _ _ Hi Hon) as (b & x' & Hrun & ->).
  pose proof (sg_client _ _ _ _ HS i cl Hi) as Hcl. destruct cl as [c td]. cbn in Htodo. subst td.
  destruct (Hm _ _ _ _ _ Hcl Hrun) as [Hst Hcl']. exists [], a. split; [exact Hh|].
  eapply serving_update; [exact HS|reflexivity|cbn; rewrite Hst; apply HS|cbn; lia|by left|done|].
  rewrite app_nil_r. exact Hcl'.
Qed.

(** A request of client [i] is served: its answer, and what it does to the
    connection. *)
Lemma exec_serve_effect h ans a w i clock p ev w' :
  ServingOK h ans a w -> exec o (ActServe i clock p) w = Some (ev, w') ->
  exists c line todo resp a' go_on c', sv_clients w !! i = Some (mkClient c (line :: todo)) /\
    ev = [EvServe i clock.1 line] /\ server_step clock.1 a line resp a' /\ fits resp /\
    payload_effect o c line resp go_on c' /\
    sv_clients w' !! i = Some (mkClient c' (if (go_on : bool) then todo else [])) /\
    ServingOK (h ++ ev) (ans ++ [(i, (line, resp))]) a' w'.
Proof.
  intros HS. cbn [exec].
  intros (cl & Hi & Hrun)%bind_Some. destruct (cl_todo cl) as [|line todo] eqn:Htodo; [done|].
  destruct (ticking clock.1 w) eqn:Ht; [cbn [negb] in Hrun|done]. apply ticking_ok in Ht as (Hle & Hclk & Hn).
  apply bind_Some in Hrun as (w1 & Hon & [= <- <-]).
  destruct (on_client_inv _ _ _ _ _ _ _ Hi Hon) as (b & x' & Hrun & ->).
  pose proof (sg_client _ _ _ _ HS i cl Hi) as Hcl. destruct cl as [c td]. cbn in Htodo. subst td.
  destruct (do_serve _ _ _ _ _ _ _ _ _ _ _ _ _ _ _ Hcl (sg_store _ _ _ _ HS) Hle Hclk Hn Hrun)
    as (resp & a' & Hst & Hstep & Hresp & Heff & Hcl').
  exists c, line, todo, resp, a', b, (x_conn x'). split_and!; try done; [cbn; by rewrite lookup_insert_eq|].
  eapply serving_update; [exact HS|reflexivity|exact Hst|exact Hle|by right| |].
  - intros j Hne. unfold not_about. cbn. by rewrite other_client.
  - cbn. rewrite Nat.eqb_refl, !app_nil_r. exact Hcl'.
Qed.

Lemma exec_serve_ok h ans a w i clock p ev w' :
  ServingOK h ans a w -> exec o (ActServe i clock p) w = Some (ev, w') ->
  exists ans' a', history a ev ans' a' /\ ServingOK (h ++ ev) (ans ++ ans') a' w'.
Proof.
  intros HS Hrun. destruct (exec_serve_effect _ _ _ _ _ _ _ _ _ HS Hrun)
    as (c & line & todo & resp & a' & go_on & c' & _ & -> & Hstep & _ & _ & _ & HS').
  exists [(i, (line, resp))], a'. split; [by econstructor; [|constructor]|done].
Qed.

Lemma exec_sweep_ok h ans a w now n ev w' :
  ServingOK h ans a w -> exec (P := P) o (ActSweep now n) w = Some (ev, w') ->
  exists ans' a', history a ev ans' a' /\ ServingOK (h ++ ev) (ans ++ ans') a' w'.
Proof.
  intros HS. cbn [exec].
  destruct (ticking now w && (0 <=? n) && (n <? U64_MOD)) eqn:Ht; [cbn [negb]|done].
  apply andb_true_iff in Ht as [[Ht Hn0%Z.leb_le]%andb_true_iff Hn1%Z.ltb_lt].
  apply ticking_ok in Ht as (Hle & Hclk & Hn).
  destruct (SweepExpired now n (sv_store w)) as [[r|f] s'] eqn:Hsw; [|done]. intros [= <- <-].
  exists [], (prune now a). split; [repeat constructor|]. rewrite app_nil_r.
  destruct HS as [Hst [Hs Ht] Hcl Hno]. split; cbn [sv_calls sv_clock sv_store tick].
  - by eapply do_sweep.
  - rewrite event_times_app. cbn. split.
    + apply StronglySorted_app_2; [|done|by repeat constructor].
      intros x y Hx ->%list_elem_of_singleton. eapply Forall_forall in Ht; [|exact Hx]. lia.
    + apply Forall_app_2; [eapply Forall_impl; [exact Ht|]; cbn; lia|by apply Forall_singleton].
  - intros i cl. rewrite received_by_app, sent_to_app, !app_nil_r. apply Hcl.
  - intros i. rewrite received_by_app, sent_to_app, !app_nil_r. apply Hno.
Qed.

Lemma exec_ok h ans a w act ev w' :
  ServingOK h ans a w -> exec o act w = Some (ev, w') ->
  exists ans' a', history a ev ans' a' /\ ServingOK (h ++ ev) (ans ++ ans') a' w'.
Proof.
  intros HS. destruct act as [i cfd|i answers p|i clock p|i answers p|i act p|i|now n|m]; cbn [exec].
  - destruct (sv_clients w !! i) eqn:Hi; [done|]. intros [= <- <-]. exists [], a. split; [constructor|].
    destruct (sg_nobody _ _ _ _ HS i Hi) as (Hr & Hs & Ha).
    eapply serving_update; [exact HS|reflexivity|apply HS|cbn; lia|by left|done|].
    cbn. rewrite Hr, Hs, Ha. by apply stream_accept.
  - intros (cl & Hi & Hrun)%bind_Some. case_bool_decide as Htodo; [cbn [negb] in Hrun|done].
    apply bind_Some in Hrun as (w1 & Hon & [= <- <-]). eapply exec_client; try done.
    + intros inp out qs x' ps Hcl Hrun. rewrite received_by_self, app_nil_r. by eapply do_receive.
    + intros j Hne. unfold not_about. cbn. by rewrite other_client.
    + repeat constructor.
  - by apply exec_serve_ok.
  - intros (cl & Hi & Hrun)%bind_Some. case_bool_decide as Htodo; [cbn [negb] in Hrun|done].
    apply bind_Some in Hrun as (w1 & Hon & [= <- <-]). eapply exec_client; try done.
    + intros inp out qs x' [] Hcl Hrun. rewrite sent_to_self, app_nil_r. by eapply do_write.
    + intros j Hne. unfold not_about. cbn. by rewrite other_client.
    + repeat constructor.
  - intros (cl & Hi & Hrun)%bind_Some. case_bool_decide as Htodo; [cbn [negb] in Hrun|done].
    apply bind_Some in Hrun as (w1 & Hon & [= <- <-]). eapply exec_client; try done.
    + intros inp out qs x' [] Hcl Hrun. cbn. rewrite !app_nil_r.
      destruct (wp_result _ _ _ _ _ _ (exec_conn_quiet o Ho act (mkCtx (sv_store w) (sv_metrics w) p (cl_conn cl)) (so_conn _ _ _ _ _ Hcl)) Hrun) as (Hst & Hc' & Hq).
      split; [done|]. by eapply stream_quiet.
    + repeat constructor.
  - intros (cl & Hi & [= <- <-])%bind_Some. exists [], a. split; [constructor|].
    eapply serving_update; [exact HS|reflexivity|apply HS|cbn; lia|by left|done|].
    cbn. rewrite !app_nil_r. rewrite <- (app_nil_r (received_by i h)).
    pose proof (sg_client _ _ _ _ HS i cl Hi) as Hcl. destruct cl as [c todo]. by eapply (stream_closed o Ho).
  - by apply exec_sweep_ok.
  - intros [= <- <-]. exists [], a. split; [constructor|]. rewrite !app_nil_r. by destruct HS.
Qed.

Lemma run_ok acts h ans a w h' w' :
  ServingOK h ans a w -> run_actions o acts w = Some (h', w') ->
  exists ans' a', history a h' ans' a' /\ ServingOK (h ++ h') (ans ++ ans') a' w'.
Proof.
  revert h ans a w h' w'. induction acts as [|act acts IH]; intros h ans a w h' w' HS Hrun; cbn in Hrun.
  { injection Hrun as <- <-. exists [], a. rewrite !app_nil_r. by split; [constructor|]. }
  apply bind_Some in Hrun as ([h1 w1] & H1 & ([h2 w2] & H2 & [= <- <-])%bind_Some).
  destruct (exec_ok _ _ _ _ _ _ _ HS H1) as (ans1 & a1 & Hh1 & HS1).
  destruct (IH _ _ _ _ _ _ HS1 H2) as (ans2 & a2 & Hh2 & HS2).
  exists (ans1 ++ ans2), a2. split; [by eapply history_app|]. by rewrite !app_assoc.
Qed.
End world.
