(* ===== verification/ServingTheorems.v ===== *)
(** * All clients are served by one abstract store *)

From S2P Require Import Prelude PriorityQueue KVStore KVStoreInv KVStoreSpec FrameCodec CommandGrammar RequestSpec OutputBuffer ServerMetrics Poller SubReactor SubReactorInv SubReactorRequests SubReactorHandlers EventLoop Serving ServingInv ServingSteps.
From stdpp Require Import sorting.
#[local] Open Scope Z_scope.

Section theorems.
Context {Q : Type} `{!PriorityQueue ExpirationRecord Q}
  `{!PriorityQueueLaws ExpirationRecord Q ExpirationCompare}.
Context {P : Type} `{!Poller P}.
Context (o : NetworkOptions).

Lemma serving_init_ok now : ServingOK o [] [] ∅ (serving_init (Q := Q) now).
Proof.
  split; cbn; [|by split; constructor|done|done]. split_and!; [apply Inv_init|reflexivity|by apply map_Forall_empty].
Qed.

(** No action a client needs is refused. *)
Lemma client_goes_on h ans a w i cl p (Ho : options_ok o) :
  ServingOK o h ans a w -> sv_clients w !! i = Some cl ->
  (forall line todo clock, cl_todo cl = line :: todo -> ticking clock.1 w = true ->
     is_Some (exec (P := P) o (ActServe i clock p) w)) /\
  (cl_todo cl = [] -> forall answers answer, retry_eintr answers = Ret answer ->
     is_Some (exec (P := P) o (ActReceive i answers p) w)) /\
  (cl_todo cl = [] -> forall answers answer, retry_eintr answers = Ret answer ->
     is_Some (exec (P := P) o (ActWrite i answers p) w)).
Proof.
  intros HS Hi. pose proof (sg_client _ _ _ _ _ HS i cl Hi) as Hcl. destruct cl as [c todo0].
  pose proof (so_conn _ _ _ _ _ Hcl) as Hc. cbn in Hc. cbn [cl_todo]. split_and!.
  - intros line todo clock -> Hticks. pose proof (ticking_ok _ _ Hticks) as (Hle & Hclk & Hn).
    destruct (so_busy _ _ _ _ _ Hcl) as [[Hb Hp _ _ _] Hfits]; [done|]. cbn in Hb, Hp, Hfits.
    apply Forall_cons in Hfits as [Hfit _]. cbn [exec]. rewrite Hi. cbn. rewrite Hticks. unfold on_client_i. rewrite Hi. cbn [cl_conn].
    destruct (wp_run _ _ _ (process_payload_wp o Ho _ _ clock line a (mkCtx (sv_store w) (sv_metrics w) p c)
      (sg_store _ _ _ _ _ HS) Hle Hclk Hn Hfit Hb Hp)) as (go_on & x & -> & _). by eexists.
  - intros -> answers answer Hans. cbn [exec]. rewrite Hi. cbn. unfold on_client_i. rewrite Hi. cbn [cl_conn].
    destruct (reading c) eqn:Hrd; [|by rewrite receive_inactive; [eexists|]].
    destruct (wp_run _ _ _ (receive_wp o Ho answers answer (mkCtx (sv_store w) (sv_metrics w) p c) Hc Hans Hrd))
      as (ps & x & -> & _). by eexists.
  - intros -> answers answer Hans. cbn [exec]. rewrite Hi. cbn. unfold on_client_i. rewrite Hi. cbn [cl_conn].
    destruct (closed c) eqn:Hcl'; [by rewrite write_inactive'; [eexists|]|].
    destruct (wp_run _ _ _ (handle_write_wp o answers answer (mkCtx (sv_store w) (sv_metrics w) p c) Hc Hans Hcl'))
      as ([] & x & -> & _). by eexists.
Qed.

End theorems.

(** ** A concrete schedule *)

Definition two_clients_options : NetworkOptions := mkNetworkOptions 1024 512 256 2048 512 8.

(** The first client sets a key and reads it; in between the second deletes it
    and the sweeper runs. *)
Definition two_clients_schedule : list (action (P := PollPoller)) :=
  let p := PollPoller_init in
  [ActAccept 1 10; ActAccept 2 11;
   ActReceive 1 [SysInterrupted; SysOk (frame (lit "SET a 1") ++ frame (lit "GET a"))] p;
   ActReceive 2 [SysOk (frame (lit "DEL a"))] p;
   ActServe 1 (5, 100) p; ActServe 2 (6, 100) p; ActSweep 7 4096; ActServe 1 (8, 100) p;
   ActWrite 1 [SysOk 3] p; ActConn 2 ActRefresh (mkPollPoller {[11 := IoEvent_Read]}); ActWrite 2 [SysOk 100] p; ActWrite 1 [SysOk 100] p].

Definition two_clients_run : option (list event * serving (sorted_queue ExpirationCompare)) :=
  run_actions two_clients_options two_clients_schedule (serving_init 0).

