(* ===== verification/TcpServer.v ===== *)
(** * TcpServer: the main reactor (net/tcp_server.h, net/tcp_server.cpp)

    The main reactor accepts clients, hands them to the sub-reactors in turn and
    leads the shutdown. It uses a sub-reactor through the calls that other
    threads may make, which the class [ReactorControl] states; [SubReactorControl]
    is the implementation of EventLoop. The background thread sweeps the
    store. System calls are modelled by what they answer; logging is left out. *)

From S2P Require Import Prelude PriorityQueue KVStore ServerMetrics Poller SubReactor EventLoop.
#[local] Open Scope Z_scope.

(** ** What the main reactor uses of a sub-reactor *)

Class ReactorControl (T : Type) := {
  ctl_EnqueClient : option Z -> M T bool;
  ctl_Stop : TimePoint -> M T unit;
  ctl_ForceStop : M T unit;
  ctl_IsStopped : M T bool;
  ctl_HasFailed : M T bool;
}.

#[export] Instance SubReactorControl {Q P} : ReactorControl (SubReactor Q P) := {
  ctl_EnqueClient := EnqueClient;
  ctl_Stop := Stop;
  ctl_ForceStop := ForceStop;
  ctl_IsStopped := IsStopped;
  ctl_HasFailed := HasFailed;
}.

(** ** Options and construction *)

Record ReactorOptions := mkReactorOptions {
  pollerBackend : PollerBackend;
  subReactorCount : Z;
}.

Definition ReactorOptions_default : ReactorOptions := mkReactorOptions PB_Auto 2.

(** Milliseconds. *)
Record ShutdownOptions := mkShutdownOptions { gracefulTimeout : Z }.

Definition ShutdownOptions_default : ShutdownOptions := mkShutdownOptions 3000.

(** The constructor throws or keeps its arguments. *)
Definition TcpServer_validate (o : NetworkOptions) (r : ReactorOptions) : outcome unit :=
  if maxReadBufferBytes o <? 4
  then Fail (Throw (invalid_argument "maxReadBufferBytes must be at least 4")) else
  if writeHighWatermarkBytes o <? writeLowWatermarkBytes o
  then Fail (Throw (invalid_argument "write low watermark exceeds high watermark")) else
  if writeHardLimitBytes o <? writeHighWatermarkBytes o
  then Fail (Throw (invalid_argument "write high watermark exceeds hard limit")) else
  if maxWriteBytesPerEvent o =? 0
  then Fail (Throw (invalid_argument "maxWriteBytesPerEvent must be greater than zero")) else
  if maxAcceptsPerEvent o =? 0
  then Fail (Throw (invalid_argument "maxAcceptsPerEvent must be greater than zero")) else
  if (subReactorCount r <? 1) || (16 <? subReactorCount r)
  then Fail (Throw (invalid_argument "sub_reactors must be between 1 and 16")) else
  Ret tt.

(** ** State of the main reactor

    [t_accepts] and [t_closes] are logs of system calls: the descriptors that
    [accept] has returned and those that have been closed. *)

Record TcpServer {T P : Type} := mkTcpServer {
  t_state : ServerState;
  m_listenFd : option Z;
  t_poller : option P;
  t_stopRequested : bool;
  t_shutdownDeadline : TimePoint;
  m_forceStopSent : bool;
  m_subReactors : list T;
  m_nextSubReactorIndex : Z;
  t_accepts : list Z;
  t_closes : list Z;
}.
Arguments TcpServer T P : clear implicits.
Arguments mkTcpServer {T P}.
#[export] Instance TcpServer_settable {T P} : Settable (TcpServer T P) := fun s =>
  {| t_state := t_state s; m_listenFd := m_listenFd s; t_poller := t_poller s;
     t_stopRequested := t_stopRequested s; t_shutdownDeadline := t_shutdownDeadline s;
     m_forceStopSent := m_forceStopSent s; m_subReactors := m_subReactors s;
     m_nextSubReactorIndex := m_nextSubReactorIndex s; t_accepts := t_accepts s; t_closes := t_closes s |}.

(** What one [accept] answers: a descriptor, and whether it could be made
    non-blocking and close-on-exec, or an error. *)
Inductive accept_answer :=
  | Accepted (rawFd : Z) (initialized : bool)
  | AcceptError (errno : Z).

Definition EINTR : Z := 4.

(** A round: what [Wait] returns (with the answers of [accept] for each event) and
    [Drain] does, the clock where [ComputeWaitTimeout], [BeginGracefulShutdown] (called for a stop or for
    a failed sub-reactor) and [CheckShutdownProgress] read it. *)
Record server_input := mkServerInput {
  si_wait : Z -> outcome (list (ReadyEvent * list accept_answer));
  si_drain : outcome unit;
  si_now : TimePoint;
  si_now_stop : TimePoint;
  si_now_health : TimePoint;
  si_now_check : TimePoint;
}.

Section TcpServer_ops.
Context {T : Type} `{!ReactorControl T}.
Context {P : Type} `{!Poller P}.
Context (o : NetworkOptions) (shutdown : ShutdownOptions).
(** [m_stopWakeup.ReadFd()] *)
Context (stopFd : Z).

Abbreviation S := (M (TcpServer T P)).

Definition server_poller {A} (m : M P A) : S A :=
  fun s =>
    match t_poller s with
    | Some p => let '(r, p') := m p in (r, s <| t_poller := Some p' |>)
    | None => (Fail (Undefined "null poller"), s)
    end.

(** A call on [*m_subReactors[i]]. *)
Definition on_reactor {A} (i : nat) (m : M T A) : S A :=
  fun s =>
    match m_subReactors s !! i with
    | Some t => let '(r, t') := m t in (r, s <| m_subReactors ::= <[i := t']> |>)
    | None => (Fail (Undefined "sub-reactor index"), s)
    end.

(** [for (auto& reactor : m_subReactors)] *)
Definition for_reactors (f : nat -> S unit) : S unit :=
  n ← gets (fun s => length (m_subReactors s));
  for_each (seq 0 n) f.

Definition server_close (cfd : Z) : S unit := modify (fun s => s <| t_closes ::= cons cfd |>).

(** A descriptor from [accept]. *)
Definition server_accept (cfd : Z) : S unit := modify (fun s => s <| t_accepts ::= cons cfd |>).

(** The assignment of [true]; the notification makes [stopFd] readable. *)
Definition TcpServer_Stop : S unit := modify (fun s => s <| t_stopRequested := true |>).

(** ** Accepting *)

Fixpoint AcceptNewClients_loop (acceptedCount : Z) (answers : list accept_answer) : S unit :=
  if negb (acceptedCount <? maxAcceptsPerEvent o) then mret tt else
  match answers with
  | [] => fail OutOfFuel
  | AcceptError errno :: answers =>
      if errno =? EINTR then AcceptNewClients_loop acceptedCount answers else
      if (errno =? EAGAIN) || (errno =? EWOULDBLOCK) then mret tt else
      throw (runtime_error "accept failed")
  | Accepted rawFd initialized :: answers =>
      server_accept rawFd;;
      let acceptedCount := wrap_u64 (acceptedCount + 1) in
      if negb initialized then server_close rawFd;; AcceptNewClients_loop acceptedCount answers else
      reactorIndex ← gets m_nextSubReactorIndex;
      count ← gets (fun s => zlen (m_subReactors s));
      (if count =? 0 then fail (Undefined "remainder by zero")
       else modify (fun s => s <| m_nextSubReactorIndex := wrap_u64 (reactorIndex + 1) mod count |>));;
      _ ← on_reactor (Z.to_nat reactorIndex) (ctl_EnqueClient (Some rawFd));
      AcceptNewClients_loop acceptedCount answers
  end.

Definition AcceptNewClients (answers : list accept_answer) : S unit := AcceptNewClients_loop 0 answers.

(** ** Shutdown *)

Definition BeginGracefulShutdown (now : TimePoint) : S unit :=
  state ← gets t_state;
  if negb (bool_decide (state = Running)) then mret tt else
  modify (fun s => s <| t_state := Draining |>);;
  deadline ← checked_i64 (now + gracefulTimeout shutdown * NS_PER_MS);
  modify (fun s => s <| t_shutdownDeadline := deadline |>);;
  listenFd ← gets m_listenFd;
  (match listenFd with
   | Some lfd =>
       server_poller (poller_Remove lfd);;
       modify (fun s => s <| m_listenFd := None |>);;
       server_close lfd
   | None => mret tt
   end);;
  for_reactors (fun i => on_reactor i (ctl_Stop deadline)).

(** [true] when every sub-reactor has stopped. *)
Fixpoint all_stopped (indices : list nat) : S bool :=
  match indices with
  | [] => mret true
  | i :: indices =>
      stopped ← on_reactor i ctl_IsStopped;
      rest ← all_stopped indices;
      mret (stopped && rest)
  end.

Definition CheckShutdownProgress (now : TimePoint) : S unit :=
  state ← gets t_state;
  if negb (bool_decide (state = Draining)) then mret tt else
  n ← gets (fun s => length (m_subReactors s));
  allSubReactorStopped ← all_stopped (seq 0 n);
  if (allSubReactorStopped : bool) then modify (fun s => s <| t_state := Stopped |>) else
  s ← gets id;
  when (negb (m_forceStopSent s) && (t_shutdownDeadline s <=? now)) (
    for_reactors (fun i =>
      stopped ← on_reactor i ctl_IsStopped;
      when (negb stopped) (on_reactor i ctl_ForceStop));;
    modify (fun s => s <| m_forceStopSent := true |>)).

Definition ComputeWaitTimeout (now : TimePoint) (s : TcpServer T P) : Z :=
  let normalTimeout := 500 in
  let drainingPollInterval := 100 in
  if bool_decide (t_state s = Running) then normalTimeout else
  if negb (bool_decide (t_state s = Draining)) then 0 else
  if m_forceStopSent s then 10 else
  if t_shutdownDeadline s <=? now then 0 else
  let remaining := Z.quot (t_shutdownDeadline s - now) NS_PER_MS in
  let remaining := if remaining <=? 0 then 1 else remaining in
  Z.min drainingPollInterval remaining.

Fixpoint check_health (now : TimePoint) (indices : list nat) : S unit :=
  match indices with
  | [] => mret tt
  | i :: indices =>
      failed ← on_reactor i ctl_HasFailed;
      if negb failed then check_health now indices else BeginGracefulShutdown now
  end.

Definition CheckSubReactorHealth (now : TimePoint) : S unit :=
  state ← gets t_state;
  if negb (bool_decide (state = Running)) then mret tt else
  n ← gets (fun s => length (m_subReactors s));
  check_health now (seq 0 n).

(** ** The loop *)

Definition accept_event (event : ReadyEvent * list accept_answer) : S unit :=
  let '(rEvent, answers) := event in
  if re_fd rEvent =? stopFd then mret tt else
  s ← gets id;
  when (bool_decide (m_listenFd s = Some (re_fd rEvent))) (
    when (bool_decide (t_state s = Running) && HasIoEvent (re_events rEvent) IoEvent_Read)
      (AcceptNewClients answers)).

(** One round of the [while] of [Run]. *)
Definition Run_body (i : server_input) : S unit :=
  timeout ← gets (ComputeWaitTimeout (si_now i));
  readyEvents ← lift (si_wait i timeout);
  stopRequested ← gets t_stopRequested;
  let woken := existsb (fun event => re_fd event.1 =? stopFd) readyEvents in
  when woken (lift (si_drain i));;
  when (stopRequested || woken) (BeginGracefulShutdown (si_now_stop i));;
  CheckSubReactorHealth (si_now_health i);;
  for_each readyEvents accept_event;;
  CheckShutdownProgress (si_now_check i).

(** Joining waits for the threads of the sub-reactors; it changes nothing here. *)
Definition ForceStopSubReactors : S unit :=
  for_reactors (fun i => try_catch (on_reactor i ctl_ForceStop) (fun _ => mret tt)).

(** The removals of [CleanupMainReactor], and its assignments; [unique_ptr]s and
    the [ScopedFd] destroy what they held. *)
Definition CleanupMainReactor_remove : S unit :=
  poller ← gets t_poller;
  match poller with
  | Some _ =>
      listenFd ← gets m_listenFd;
      (match listenFd with
       | Some lfd => try_catch (server_poller (poller_Remove lfd)) (fun _ => mret tt)
       | None => mret tt
       end);;
      try_catch (server_poller (poller_Remove stopFd)) (fun _ => mret tt)
  | None => mret tt
  end.

Definition CleanupMainReactor_reset : S unit :=
  listenFd ← gets m_listenFd;
  (match listenFd with
   | Some lfd => modify (fun s => s <| m_listenFd := None |>);; server_close lfd
   | None => mret tt
   end);;
  modify (fun s => s <| t_poller := None |>);;
  modify (fun s => s <| m_subReactors := [] |>).

Definition CleanupMainReactor : S unit := CleanupMainReactor_remove;; CleanupMainReactor_reset.

(** The [while] of [Run], a round per input. *)
Fixpoint Run_loop (inputs : list server_input) : S unit :=
  state ← gets t_state;
  if bool_decide (state = Stopped) then mret tt else
  match inputs with
  | [] => fail OutOfFuel
  | i :: inputs => Run_body i;; Run_loop inputs
  end.

(** The handler of [Run], which throws again, and its normal end. *)
Definition Run_catch (e : exn) : S unit :=
  ForceStopSubReactors;; CleanupMainReactor;;
  modify (fun s => s <| t_state := Stopped |>);; throw e.

Definition Run_end : S unit :=
  CleanupMainReactor;; modify (fun s => s <| t_state := Stopped |>).

(** [Run] from where the server has started. *)
Definition Run_serving (inputs : list server_input) : S unit :=
  try_catch (Run_loop inputs) Run_catch;; Run_end.
End TcpServer_ops.

(** ** The sweeper *)

Section sweeper.
Context {Q : Type} `{!PriorityQueue ExpirationRecord Q}.

(** The objects the sweeper thread works on. *)
Record Sweeper := mkSweeper {
  w_store : KVStore Q;
  w_metrics : ServerMetrics;
}.
#[export] Instance Sweeper_settable : Settable Sweeper := fun w =>
  {| w_store := w_store w; w_metrics := w_metrics w |}.

(** One turn of the inner loop, at the clock [now], [stopRequested] being what
    the atomic variable holds then. *)
Definition sweep_turn (now : TimePoint) (stopRequested : bool) : M Sweeper ctl :=
  result ← zoom w_store (SweepExpired now DEFAULT_MAX_RECORDS);
  zoom w_metrics (OnSweeperRun (sw_removed result));;
  mret (if sw_hasMoreExpired result && negb stopRequested then Continue else Break).

(** The [do] loop of [SweeperLoop], with the clock and the variable per turn. *)
Fixpoint SweeperLoop_cycle (fuel : nat) (turns : nat -> TimePoint * bool) (k : nat) : M Sweeper unit :=
  match fuel with
  | O => fail OutOfFuel
  | Datatypes.S fuel =>
      c ← sweep_turn (turns k).1 (turns k).2;
      match c with
      | Continue => SweeperLoop_cycle fuel turns (Datatypes.S k)
      | Break => mret tt
      end
  end.
End sweeper.
