(* ===== verification/ReactorInterface.v ===== *)
(** * The interface between the main reactor and the sub-reactors

    What the calls of TcpServer on a sub-reactor owe. The thread of a
    sub-reactor runs beside the main thread, which meets it only in these calls:
    so a call may find that the sub-reactor has moved on by itself, and the
    laws say what a move leaves. A SubReactor at rest gives the interface, and
    so does one whose thread runs (ServerSlots). *)

From S2P Require Import Prelude PriorityQueue KVStore Poller SubReactor EventLoop ReactorInv ReactorTheorems TcpServer.
#[local] Open Scope Z_scope.

(** What is observed of a sub-reactor: whether it is consistent, has stopped or
    failed, the deadline it was asked to stop by, whether it was told to stop at
    once, and the descriptors it was given. *)
Class ReactorView (T : Type) := {
  rc_ok : T -> Prop;
  rc_stopped : T -> bool;
  rc_failed : T -> bool;
  rc_asked : T -> option TimePoint;
  rc_forced : T -> bool;
  rc_given : T -> list Z;
}.

Section view.
Context {T : Type} `{!ReactorView T}.
Implicit Types t : T.

(** A sub-reactor that has stopped or failed stays so. *)
Record lives_on t t' : Prop := mkLivesOn {
  lo_ok : rc_ok t';
  lo_stopped : rc_stopped t = true -> rc_stopped t' = true;
  lo_failed : rc_failed t = true -> rc_failed t' = true;
}.

(** It was given the descriptors [fds] and went on by itself. *)
Record moved (fds : list Z) t t' : Prop := mkMoved {
  mv_lives : lives_on t t';
  mv_given : rc_given t' ≡ₚ fds ++ rc_given t;
  mv_asked : rc_asked t' = rc_asked t;
  mv_forced : rc_forced t' = rc_forced t;
}.

Lemma lives_on_refl t : rc_ok t -> lives_on t t.
Proof. by split. Qed.

Lemma lives_on_trans t1 t2 t3 : lives_on t1 t2 -> lives_on t2 t3 -> lives_on t1 t3.
Proof. intros [_ ? ?] [? ? ?]. split; auto. Qed.

Lemma moved_refl t : rc_ok t -> moved [] t t.
Proof. intros Ht. split; [by apply lives_on_refl|done..]. Qed.

Lemma moved_trans fds fds' t1 t2 t3 : moved fds t1 t2 -> moved fds' t2 t3 -> moved (fds ++ fds') t1 t3.
Proof.
  intros [H1 G1 A1 F1] [H2 G2 A2 F2]. split; [by eapply lives_on_trans| |congruence..].
  rewrite G2, G1, !app_assoc. by rewrite (Permutation_app_comm fds').
Qed.
End view.

Class ReactorControlLaws (T : Type) `{!ReactorControl T, !ReactorView T} := {
  enqueue_law cfd t : rc_ok t ->
    (ctl_EnqueClient (Some cfd) t).1 = Ret (bool_decide (rc_asked t = None) && negb (rc_forced t)) /\
    moved [cfd] t (ctl_EnqueClient (Some cfd) t).2;
  stop_law d t : rc_ok t ->
    (ctl_Stop d t).1 = Ret tt /\
    let t' := (ctl_Stop d t).2 in
    lives_on t t' /\ rc_asked t' = Some (match rc_asked t with Some d' => Z.min d d' | None => d end) /\
    rc_given t' ≡ₚ rc_given t /\ rc_forced t' = rc_forced t;
  force_stop_law t : rc_ok t ->
    (ctl_ForceStop t).1 = Ret tt /\
    let t' := (ctl_ForceStop t).2 in
    lives_on t t' /\ rc_forced t' = true /\ rc_asked t' = rc_asked t /\ rc_given t' ≡ₚ rc_given t;
  (** the answers are about the state the call finds *)
  is_stopped_law t : rc_ok t ->
    let t' := (ctl_IsStopped t).2 in (ctl_IsStopped t).1 = Ret (rc_stopped t') /\ moved [] t t';
  has_failed_law t : rc_ok t ->
    let t' := (ctl_HasFailed t).2 in (ctl_HasFailed t).1 = Ret (rc_failed t') /\ moved [] t t';
}.

(** A sub-reactor as its control interface. *)
#[export] Instance SubReactor_view {Q P} : ReactorView (SubReactor Q P) := {
  rc_ok s := True;
  rc_stopped s := bool_decide (m_publishedState s = Stopped);
  rc_failed := m_failed;
  rc_asked s := if m_stopRequested s then Some (m_requestedShutdownDeadline s) else None;
  rc_forced := m_forceStopRequested;
  rc_given := descriptors;
}.

Lemma SubReactor_lives {Q P} (s s' : SubReactor Q P) :
  m_publishedState s' = m_publishedState s -> m_failed s' = m_failed s -> lives_on s s'.
Proof. intros Hp Hf. split; cbn; [done| |]; by rewrite ?Hp, ?Hf. Qed.

#[export] Program Instance SubReactor_laws {Q P} : ReactorControlLaws (SubReactor Q P) := {}.
Next Obligation.
  intros Q P cfd s _. cbn. unfold EnqueClient. cbv [mbind M_bind]. cbn.
  destruct (m_stopRequested s) eqn:Hs, (m_forceStopRequested s) eqn:Hf; cbn;
    (split; [done|]); (split; [by apply SubReactor_lives| |done..]); cbn; unfold descriptors;
    change (client_fds _) with (client_fds s); cbn; rewrite <-?Permutation_middle, ?app_nil_r; done.
Qed.
Next Obligation.
  intros Q P d s _. cbn. unfold Stop, when. cbv [mbind M_bind]. cbn.
  destruct (m_stopRequested s) eqn:Hs; cbn; [|split; [done|split; [by apply SubReactor_lives|done]]].
  destruct (Z.ltb_spec d (m_requestedShutdownDeadline s)); cbn;
    (split; [done|]); (split; [by apply SubReactor_lives|]); (split; [rewrite ?Hs; f_equal; lia|done]).
Qed.
Next Obligation. intros Q P s _. split; [done|]. split; [by apply SubReactor_lives|done]. Qed.
Next Obligation. intros Q P s _. split; [done|]. by apply moved_refl. Qed.
Next Obligation. intros Q P s _. split; [done|]. by apply moved_refl. Qed.
