(* ===== verification/SweeperTheorems.v ===== *)
(** * The sweeper thread of the server *)

From S2P Require Import Prelude PriorityQueue KVStore KVStoreInv KVStoreSweep KVStoreSpec KVStoreTheorems ServerMetrics MetricsTheorems Poller SubReactor EventLoop TcpServer.
#[local] Open Scope Z_scope.

(** ** The sweeper *)

Section sweeper.
Context {Q : Type} `{!PriorityQueue ExpirationRecord Q}
  `{!PriorityQueueLaws ExpirationRecord Q ExpirationCompare}.

(** What [k] turns have done from [w] to [w']; [turns] are the clock and the stop
    flag of each. *)
Record swept_by (turns : nat -> TimePoint * bool) (k : nat) (w w' : Sweeper (Q := Q)) : Prop := mkSweptBy {
  sb_kept : m_data (w_store w') ⊆ m_data (w_store w);
  sb_expired key e : m_data (w_store w) !! key = Some e -> m_data (w_store w') !! key = None ->
    exists j, (j < k)%nat /\ IsExpired e (turns j).1 = true;
  sb_runs : m_sweeperRuns (w_metrics w') = wrap_u64 (m_sweeperRuns (w_metrics w) + Z.of_nat k);
  sb_removed : m_expiredKeysRemoved (w_metrics w') = wrap_u64 (m_expiredKeysRemoved (w_metrics w)
    + Z.of_nat (size (m_data (w_store w))) - Z.of_nat (size (m_data (w_store w'))));
}.

Lemma wrap_add_wrap x y : wrap_u64 (wrap_u64 x + y) = wrap_u64 (x + y).
Proof. unfold wrap_u64. by rewrite Zplus_mod_idemp_l. Qed.

(** One turn: it goes on only when the sweep left something due, and then the
    heap has shrunk. *)
Lemma sweep_turn_wp n now0 now stop (w : Sweeper (Q := Q)) :
  Inv n now0 (w_store w) -> n < U64_MOD ->
  wp (sweep_turn now stop)
     (fun c w' => Inv n now0 (w_store w') /\
        swept_by (fun _ => (now, stop)) 1 w w' /\
        match c with
        | Continue => stop = false /\
            pq_size (m_expirations (w_store w')) < pq_size (m_expirations (w_store w))
        | Break => stop = false -> forall key e, m_data (w_store w') !! key = Some e -> IsExpired e now = false
        end) no_fail w.
Proof.
  intros HI Hn. destruct w as [s m]. cbn [w_store] in HI |- *. unfold sweep_turn.
  pose proof (Inv_canon _ _ _ HI) as Hc. rewrite Hc in HI.
  destruct (wp_run _ _ _ (sweep_wp n now0 now DEFAULT_MAX_RECORDS _ _ _ HI Hn ltac:(done)))
    as (res & s' & Hrun & d' & h' & h1 & -> & HI' & [Hsub Hexp Hrem Hproc _] & _ & Hmore & _ & Htop & Hsz & _).
  rewrite <-Hc in Hrun. apply wp_bind. unfold wp at 1, zoom. cbn [w_store]. rewrite Hrun.
  apply wp_bind. unfold wp at 1. cbn. apply wp_ret. cbn.
  split; [exact HI'|]. split.
  - split; cbn; [exact Hsub| |done|].
    + intros key e He Hnone. exists 0%nat. split; [lia|]. by eapply Hexp.
    + rewrite Hrem. unfold add_u64. f_equal. lia.
  - rewrite Hmore. destruct (top_expired now h') eqn:Ht; cbn; [|intros _ key e Hk; by eapply top_not_expired].
    destruct stop; cbn; [done|]. split; [done|].
    assert (sw_processed res < DEFAULT_MAX_RECORDS -> False) as Hlt by (by intros ?%Htop).
    unfold DEFAULT_MAX_RECORDS in Hlt. lia.
Qed.

Lemma swept_by_cons turns k (w w1 w2 : Sweeper (Q := Q)) now stop :
  turns 0%nat = (now, stop) -> swept_by (fun _ => (now, stop)) 1 w w1 ->
  swept_by (fun j => turns (S j)) k w1 w2 -> swept_by turns (S k) w w2.
Proof.
  intros H0 [Hk1 He1 Hr1 Hx1] [Hk2 He2 Hr2 Hx2]. split.
  - by etrans.
  - intros key e He Hnone. destruct (m_data (w_store w1) !! key) as [e1|] eqn:H1.
    + destruct (He2 key e1 H1 Hnone) as (j & Hj & Hexp). exists (S j). split; [lia|].
      assert (e1 = e) as -> by (pose proof (lookup_weaken _ _ _ _ H1 Hk1); congruence). done.
    + destruct (He1 key e He H1) as (j & _ & Hexp). exists 0%nat. split; [lia|]. by rewrite H0.
  - rewrite Hr2, Hr1, wrap_add_wrap. f_equal. lia.
  - rewrite Hx2, Hx1. rewrite <-!Z.add_sub_assoc, wrap_add_wrap. f_equal. lia.
Qed.

(** C29. A cycle of the sweeper ends and does its work: whatever the clock and
    however many keys are due, the loop makes at most one turn more than the
    expiration heap has records; it removes only keys whose deadline had passed
    at some turn; unless a stop was requested, no key due at its last turn is
    left; and the metrics count exactly its turns and the keys removed. *)
Theorem sweeper_cycle_complete turns fuel n now0 (w : Sweeper (Q := Q)) :
  Inv n now0 (w_store w) -> n < U64_MOD ->
  (Z.to_nat (pq_size (m_expirations (w_store w))) < fuel)%nat ->
  exists w' k, SweeperLoop_cycle fuel turns 0 w = (Ret tt, w') /\
    1 <= Z.of_nat k <= 1 + pq_size (m_expirations (w_store w)) /\ Inv n now0 (w_store w') /\
    swept_by turns k w w' /\
    ((forall j, (turns j).2 = false) ->
       forall key e, m_data (w_store w') !! key = Some e -> IsExpired e (turns (pred k)).1 = false).
Proof.
  intros HI Hn. assert (forall i, exists w' k,
    (Z.to_nat (pq_size (m_expirations (w_store w))) < fuel)%nat ->
    SweeperLoop_cycle fuel turns i w = (Ret tt, w') /\
    1 <= Z.of_nat k <= 1 + pq_size (m_expirations (w_store w)) /\ Inv n now0 (w_store w') /\
    swept_by (fun j => turns (i + j)%nat) k w w' /\
    ((forall j, (turns j).2 = false) ->
       forall key e, m_data (w_store w') !! key = Some e -> IsExpired e (turns (i + pred k)%nat).1 = false))
    as Hall.
  2: { intros Hf. destruct (Hall 0%nat) as (w' & k & H). exists w', k. by apply H. }
  revert w HI. induction fuel as [|fuel IH]; intros w HI i; [exists w, 0%nat; lia|].
  destruct (turns i) as [now stop] eqn:Ht.
  destruct (wp_run _ _ _ (sweep_turn_wp n now0 now stop w HI Hn)) as (c & w1 & Hrun & HI1 & Hs & Hc).
  pose proof (pq_size_nonneg (m_expirations (w_store w))).
  pose proof (pq_size_nonneg (m_expirations (w_store w1))).
  cbn [SweeperLoop_cycle]. cbv [mbind M_bind]. rewrite Ht. cbn [fst snd]. rewrite Hrun. destruct c.
  - destruct Hc as [-> Hlt]. destruct (IH w1 HI1 (S i)) as (w2 & k & H2).
    exists w2, (S k). intros Hf. destruct H2 as (Hr2 & Hk & HI2 & Hs2 & Hdone); [lia|].
    split; [done|]. split; [lia|]. split; [done|]. split.
    + eapply (swept_by_cons _ k w w1 w2 now false); [by rewrite Nat.add_0_r|done|].
      destruct Hs2 as [? He ? ?]. split; try done. intros key e H3 H4.
      destruct (He key e H3 H4) as (j & Hj & Hx). exists j. split; [done|].
      by rewrite Nat.add_succ_r.
    + intros Hall key e Hkey. specialize (Hdone Hall key e Hkey). destruct k; [lia|].
      cbn [pred] in *. by rewrite Nat.add_succ_r.
  - exists w1, 1%nat. intros Hf. split; [done|]. split; [lia|]. split; [done|]. split.
    + destruct Hs as [? He ? ?]. split; try done. intros key e H3 H4.
      destruct (He key e H3 H4) as (j & Hj & Hx). exists 0%nat. split; [lia|].
      by rewrite Nat.add_0_r, Ht.
    + intros Hall key e Hkey. cbn [pred]. rewrite Nat.add_0_r, Ht. apply (Hc) with key; [|done].
      specialize (Hall i). by rewrite Ht in Hall.
Qed.
End sweeper.

(** The store of [example_expiring], swept twice at most. *)
Definition example_sweeper : Sweeper (Q := sorted_queue ExpirationCompare) :=
  mkSweeper example_expiring ServerMetrics_init.

Lemma sweeper_cycle_complete_witness :
  exists w', SweeperLoop_cycle 10 (fun _ => (100 * NS_PER_SECOND, false)) 0 example_sweeper = (Ret tt, w') /\
    forall key e, m_data (w_store w') !! key = Some e -> IsExpired e (100 * NS_PER_SECOND) = false.
Proof.
  destruct (sweeper_cycle_complete (fun _ => (100 * NS_PER_SECOND, false)) 10 2 0 example_sweeper
    example_expiring_Inv eq_refl) as (w' & k & Hrun & _ & _ & _ & Hdone).
  - vm_compute. lia.
  - exists w'. split; [exact Hrun|]. apply Hdone. reflexivity.
Defined.
