(* ===== verification/SweeperThread.v ===== *)
(** * The life of the sweeper thread (net/tcp_server.cpp)

    The main thread starts the sweeper, serves, and stops it: it clears
    [m_sweeperRunning] under [m_sweeperMutex], notifies the condition variable
    and joins. The sweeper waits on the condition variable with a timeout,
    sweeps, and waits again. Both threads, and the clients that use the store
    meanwhile, are interleaved: a step locks or unlocks the mutex, tests or
    assigns the flag, wakes up, or does one turn of the sweep. *)

From S2P Require Import Prelude PriorityQueue KVStore KVStoreInv KVStoreOps KVStoreSweep KVStoreSpec KVStoreTheorems ServerMetrics Poller SubReactor EventLoop TcpServer SweeperTheorems.
From stdpp Require Import relations.
#[local] Open Scope Z_scope.

(** ** State *)

(** Who can hold [m_sweeperMutex]. *)
Inductive thread_id := MainThread | SweeperThread.

(** Where the sweeper is in [SweeperLoop]. [wait_for] with a predicate is the
    loop [while (!pred()) if (wait_until(lock, t) == timeout) return pred();
    return true], in which [wait_until] releases the mutex while it waits. *)
Inductive sweeper_pc :=
  (** about to lock, at the start *)
  | SwEnter
  (** holds the mutex, about to test the predicate of the [while] *)
  | SwTest
  (** in the wait set of [m_sweepCv] *)
  | SwWait
  (** awake, about to lock again *)
  | SwWoken (timedOut : bool)
  (** holds the mutex after a timeout, about to return the predicate *)
  | SwRetest
  (** without the mutex, about to do a turn of the [do] loop *)
  | SwSweep
  (** after the [do] loop, about to lock *)
  | SwRelock
  | SwDone.
#[export] Instance sweeper_pc_eq_dec : EqDecision sweeper_pc.
Proof. solve_decision. Defined.

(** The actions of the main thread on the state it shares with the sweeper. *)
Inductive main_action :=
  | ALock
  | AUnlock
  (** [if (m_sweeperRunning) throw ...; m_sweeperRunning = true;] *)
  | ATestAndSet
  (** [m_sweeperRunning = false] *)
  | AClear
  | ASpawn
  | ANotifyAll
  (** [if (m_sweepThread.joinable()) m_sweepThread.join();] *)
  | AJoin
  (** the loop of [Run] *)
  | AServe
  (** [Stop()] *)
  | AStop.

Section sweeper_thread.
Context {Q : Type} `{!PriorityQueue ExpirationRecord Q}.

Record tworld := mkTWorld {
  m_sweeperRunning : bool;
  m_sweeperMutex : option thread_id;
  tw_stopRequested : bool;
  (** [None] when the thread object is not joinable *)
  m_sweepThread : option sweeper_pc;
  (** what the main thread has still to do *)
  tw_main : list main_action;
  tw_work : Sweeper (Q := Q);
  (** the last clock reading of a client and the number of calls of the store *)
  tw_clock : TimePoint;
  tw_calls : Z;
}.
#[export] Instance tworld_settable : Settable tworld := fun w =>
  {| m_sweeperRunning := m_sweeperRunning w; m_sweeperMutex := m_sweeperMutex w;
     tw_stopRequested := tw_stopRequested w; m_sweepThread := m_sweepThread w; tw_main := tw_main w;
     tw_work := tw_work w; tw_clock := tw_clock w; tw_calls := tw_calls w |}.

(** ** The main thread *)

Definition StartSweeperThread (sweepInterval : Z) : list main_action :=
  if sweepInterval <=? 0 then [] else [ALock; ATestAndSet; AUnlock; ASpawn].

Definition StopSweeperThread : list main_action := [ALock; AClear; AUnlock; ANotifyAll; AJoin].

(** The destructor of the server. *)
Definition TcpServer_destroy : list main_action := AStop :: StopSweeperThread.

(** What follows an exception of [StartSweeperThread]: the handler of [Run] and
    the destructor. *)
Definition after_throw : list main_action := StopSweeperThread ++ TcpServer_destroy.

(** [Run], as far as the sweeper is concerned, and the destructor. *)
Definition server_life (sweepInterval : Z) : list main_action :=
  StartSweeperThread sweepInterval ++ AServe :: StopSweeperThread ++ TcpServer_destroy.

(** [notify_all] *)
Definition wake (t : option sweeper_pc) : option sweeper_pc :=
  match t with Some SwWait => Some (SwWoken false) | _ => t end.

(** One action; [None] when the thread is blocked. [created] says whether the
    thread can be created. *)
Definition main_step (created : bool) (a : main_action) (w : tworld) : option tworld :=
  match a with
  | ALock =>
      match m_sweeperMutex w with
      | None => Some (w <| m_sweeperMutex := Some MainThread |>)
      | Some _ => None
      end
  | AUnlock => Some (w <| m_sweeperMutex := None |>)
  | ATestAndSet =>
      if m_sweeperRunning w then Some (w <| tw_main := AUnlock :: after_throw |>)
      else Some (w <| m_sweeperRunning := true |>)
  | AClear => Some (w <| m_sweeperRunning := false |>)
  | ASpawn =>
      if created then Some (w <| m_sweepThread := Some SwEnter |>)
      else Some (w <| tw_main := [ALock; AClear; AUnlock] ++ after_throw |>)
  | ANotifyAll => Some (w <| m_sweepThread ::= wake |>)
  | AJoin =>
      match m_sweepThread w with
      | None => Some w
      | Some SwDone => Some (w <| m_sweepThread := None |>)
      | Some _ => None
      end
  | AServe => Some w
  | AStop => Some (w <| tw_stopRequested := true |>)
  end.

(** ** The sweeper *)

(** Where taking the mutex leads. *)
Definition after_lock (pc : sweeper_pc) : sweeper_pc :=
  match pc with SwWoken true => SwRetest | _ => SwTest end.

(** One step of [SweeperLoop]; [None] when it is blocked or has ended. A wait
    ends by a timeout or for no reason; the clock is read by the sweep. *)
Definition SweeperLoop_step (timedOut : bool) (now : TimePoint) (w : tworld) : option tworld :=
  match m_sweepThread w with
  | Some SwTest =>
      Some (w <| m_sweeperMutex := None |>
              <| m_sweepThread := Some (if m_sweeperRunning w then SwWait else SwDone) |>)
  | Some SwRetest =>
      Some (w <| m_sweeperMutex := None |>
              <| m_sweepThread := Some (if m_sweeperRunning w then SwSweep else SwDone) |>)
  | Some SwWait => Some (w <| m_sweepThread := Some (SwWoken timedOut) |>)
  | Some SwSweep =>
      match sweep_turn now (tw_stopRequested w) (tw_work w) with
      | (Ret c, work) =>
          Some (w <| tw_work := work |>
                  <| m_sweepThread := Some (match c with Continue => SwSweep | Break => SwRelock end) |>)
      | (Fail _, _) => None
      end
  | Some ((SwEnter | SwWoken _ | SwRelock) as pc) =>
      match m_sweeperMutex w with
      | None => Some (w <| m_sweeperMutex := Some SweeperThread |> <| m_sweepThread := Some (after_lock pc) |>)
      | Some _ => None
      end
  | Some SwDone | None => None
  end.

(** ** Interleavings *)

Inductive who := ByMain | BySweeper | ByOthers.
#[export] Instance who_eq_dec : EqDecision who.
Proof. solve_decision. Defined.

(** The sub-reactors call every operation but [SweepExpired]. *)
Definition client_op (op : kv_op) : Prop :=
  op_ok op /\ match op with OpSweep _ => False | _ => True end.

Inductive tstep : who -> tworld -> tworld -> Prop :=
  | ts_main created a rest w w' :
      tw_main w = a :: rest -> main_step created a (w <| tw_main := rest |>) = Some w' -> tstep ByMain w w'
  | ts_sweeper timedOut now w w' : SweeperLoop_step timedOut now w = Some w' -> tstep BySweeper w w'
  | ts_client now op r s' metrics w :
      client_op op -> tw_clock w <= now -> clock_ok now -> tw_calls w + 1 < U64_MOD ->
      exec_op now op (w_store (tw_work w)) = (Ret r, s') ->
      tstep ByOthers w (w <| tw_work := mkSweeper s' metrics |> <| tw_clock := now |> <| tw_calls := tw_calls w + 1 |>)
  | ts_stop w : tstep ByOthers w (w <| tw_stopRequested := true |>).

Inductive trace : list who -> tworld -> tworld -> Prop :=
  | trace_nil w : trace [] w w
  | trace_cons who l w w' w'' : tstep who w w' -> trace l w' w'' -> trace (who :: l) w w''.

(** A server about to start its sweeper. *)
Definition start_world (sweepInterval : Z) (work : Sweeper) (now : TimePoint) (calls : Z) : tworld :=
  mkTWorld false None false None (server_life sweepInterval) work now calls.

Definition heap_size (w : tworld) : Z := pq_size (m_expirations (w_store (tw_work w))).
Definition count (x : who) (l : list who) : Z := zlen (filter (fun y => y = x) l).
End sweeper_thread.
