(* ===== verification/SweeperThreadTheorems.v ===== *)
(** * The protocol of the sweeper thread *)

From S2P Require Import Prelude PriorityQueue KVStore KVStoreInv KVStoreOps KVStoreSweep KVStoreSpec KVStoreTheorems ServerMetrics Poller SubReactor EventLoop TcpServer SweeperTheorems SweeperThread.
From stdpp Require Import relations.
#[local] Open Scope Z_scope.

Section theorems.
Context {Q : Type} `{!PriorityQueue ExpirationRecord Q}
  `{!PriorityQueueLaws ExpirationRecord Q ExpirationCompare}.
Implicit Types w : tworld (Q := Q).

(** ** Clients and the heap *)

Lemma keeps_erase p : keeps m_expirations (EraseEntryLocked (Q := Q) p).
Proof. unfold EraseEntryLocked, dec_expiring, dec_persistent. repeat keeps_step. Qed.
Hint Resolve keeps_erase : keeps.

(** Only EXPIRE pushes a record. *)
Lemma client_heap n now0 now op (s s' : KVStore Q) r :
  Inv n now0 s -> now0 <= now -> clock_ok now -> n + 1 < U64_MOD -> client_op op ->
  exec_op now op s = (Ret r, s') -> pq_size (m_expirations s') <= pq_size (m_expirations s) + 1.
Proof.
  intros HI Hle Hclk Hn [Hop Hnot] Hrun. destruct op as [| | |key seconds| | | |]; try done.
  4: {
    eapply (Inv_mono n n now0 now) in HI; [|lia|done]. revert Hrun. pattern s. eapply Inv_elim; [exact HI|].
    clear dependent s. intros d g h HI. cbn [exec_op]. unfold mbind at 1, M_bind at 1.
    pose proof (inv_size _ _ _ HI) as Hsz. pose proof (inv_generation _ _ _ HI) as Hg. cbn in Hsz, Hg.
    rewrite expire_canon by (done || lia).
    destruct (seconds <=? 0); [intros [= <- <-]; cbn; lia|].
    destruct (d !! key) as [e|]; [|intros [= <- <-]; cbn; lia].
    destruct (IsExpired e now); intros [= <- <-]; cbn; [lia|].
    rewrite !pq_size_elements. unfold zlen. rewrite pq_elements_push. cbn. lia. }
  all: assert (m_expirations s' = m_expirations s) as ->; [|lia].
  all: eapply keeps_ret_inv; [|exact Hrun]; cbn [exec_op].
  all: unfold KVStore.Set_, Get, Del, Ttl, Size, Stats, dec_expiring, inc_persistent; repeat keeps_step.
Qed.

(** ** The phases of the main thread *)

(** What a phase knows of the thread: there is none; it has not ended; it exists;
    it exists and does not wait. *)
Inductive thread_req := TNone | TAlive | TEnding | TWoken.

Definition thread_ok (t : thread_req) (th : option sweeper_pc) : Prop :=
  match t, th with
  | TNone, None | TEnding, Some _ => True
  | TAlive, Some pc => pc <> SwDone
  | TWoken, Some pc => pc <> SwWait
  | _, _ => False
  end.

Record phase := Phase { ph_running : bool; ph_holds : bool; ph_thread : thread_req }.

(** The three courses the server can take, and the phase before each of their
    actions. *)
Inductive course := Started | NotStarted | SpawnFailed.

Definition program (c : course) : list main_action :=
  match c with
  | Started => server_life 1
  | NotStarted => server_life 0
  | SpawnFailed => [ALock; AClear; AUnlock] ++ after_throw
  end.

Definition idle := Phase false false TNone.
Definition holding := Phase false true TNone.
Definition quiet_stop : list phase := [idle; holding; holding; idle; idle].
Definition quiet_end : list phase := idle :: quiet_stop ++ [idle].

Definition phases (c : course) : list phase :=
  match c with
  | Started =>
      [idle; holding; Phase true true TNone; Phase true false TNone; Phase true false TAlive;
       Phase true false TAlive; Phase true true TAlive; Phase false true TEnding;
       Phase false false TEnding; Phase false false TWoken] ++ quiet_end
  | NotStarted => idle :: quiet_stop ++ quiet_end
  | SpawnFailed => Phase true false TNone :: Phase true true TNone :: holding :: quiet_stop ++ quiet_end
  end.

(** The sweeper holds the mutex. *)
Definition inside (th : option sweeper_pc) : bool :=
  match th with Some (SwTest | SwRetest) => true | _ => false end.

Definition holder (holds : bool) (th : option sweeper_pc) : option thread_id :=
  if holds then Some MainThread else if inside th then Some SweeperThread else None.

Record TOK (c : course) (k : nat) (ph : phase) w : Prop := mkTOK {
  ok_main : tw_main w = drop k (program c);
  ok_phase : phases c !! k = Some ph;
  ok_running : m_sweeperRunning w = ph_running ph;
  ok_thread : thread_ok (ph_thread ph) (m_sweepThread w);
  ok_mutex : m_sweeperMutex w = holder (ph_holds ph) (m_sweepThread w);
  ok_exclusive : ph_holds ph = true -> inside (m_sweepThread w) = false;
  ok_store : Inv (tw_calls w) (tw_clock w) (w_store (tw_work w));
  ok_calls : tw_calls w < U64_MOD;
}.


Lemma main_next created c k ph a rest w w' :
  TOK c k ph w -> tw_main w = a :: rest -> main_step created a (w <| tw_main := rest |>) = Some w' ->
  (exists ph', TOK c (S k) ph' w') \/ exists ph', TOK SpawnFailed 0 ph' w'.
Proof.
  destruct w as [running mutex stop th main work clock calls].
  intros [Hmain Hph Hrun Hth Hmu Hex HI Hn] Hm Hstep. cbn in *. subst main running mutex.
  pose proof (lookup_lt_Some _ _ _ Hph) as Hk.
  destruct c; cbn in Hk.
  all: do 18 try (destruct k as [|k]; [cbn in Hm, Hph; simplify_eq/=|]); try lia.
  all: destruct th as [pc|]; try done; try (destruct pc; done).
  all: try destruct pc; try done; try destruct created; simplify_eq/=.
  all: try by specialize (Hex eq_refl).
  all: first [left; eexists; split; [reflexivity|reflexivity|done..]
             |right; eexists; split; [reflexivity|reflexivity|done..]].
Qed.

(** ** The steps of the others *)

(** How many steps the sweeper can still make, once nothing makes it wait. *)
Definition rank w : Z :=
  match m_sweepThread w with
  | None | Some SwDone => 0
  | Some (SwTest | SwRetest) => 1
  | Some (SwEnter | SwWoken _ | SwRelock) => 2
  | Some SwWait => 3
  | Some SwSweep => 3 + if tw_stopRequested w then 0 else heap_size w
  end.


Lemma phase_flags c k ph :
  phases c !! k = Some ph ->
  match ph_thread ph with TAlive => ph_running ph = true | TWoken => ph_running ph = false | _ => True end.
Proof.
  intros H%list_elem_of_lookup_2. revert ph H. rewrite <-Forall_forall. destruct c; cbn; repeat constructor.
Qed.

Lemma sweeper_next timedOut now c k ph w w' :
  TOK c k ph w -> SweeperLoop_step timedOut now w = Some w' ->
  TOK c k ph w' /\ (m_sweeperRunning w = false -> rank w' < rank w).
Proof.
  destruct w as [running mutex stop th main work clock calls].
  intros [Hmain Hph Hrun Hth Hmu Hex HI Hn] Hstep. cbn in *. subst running mutex.
  pose proof (phase_flags _ _ _ Hph) as Hflag.
  assert (forall work' th' mutex', Inv calls clock (w_store work') -> thread_ok (ph_thread ph) th' ->
    (ph_holds ph = true -> inside th' = false) -> mutex' = holder (ph_holds ph) th' ->
    TOK c k ph (mkTWorld (ph_running ph) mutex' stop th' main work' clock calls)) as Hnew by done.
  assert (forall pc', inside th = false -> thread_ok (ph_thread ph) (Some pc') -> inside (Some pc') = true ->
    match holder (ph_holds ph) th with
    | None => Some (mkTWorld (ph_running ph) (Some SweeperThread) stop (Some pc') main work clock calls)
    | Some _ => None
    end = Some w' -> TOK c k ph w' /\ m_sweepThread w' = Some pc') as Hlock.
  { unfold holder. intros pc' -> Hpc' Hin H. destruct (ph_holds ph) eqn:Hh; simplify_eq. split; [|done].
    apply Hnew; try done. by destruct pc'. }
  destruct th as [pc|]; [|done]. unfold SweeperLoop_step in Hstep. cbn in Hstep.
  assert (forall pc', inside (Some pc) = true -> inside (Some pc') = false -> None = holder (ph_holds ph) (Some pc'))
    as Hout by (unfold holder; intros pc' Hin ->; destruct (ph_holds ph); [by rewrite Hex in Hin|done]).
  destruct pc as [| | |timed| | | |]; try done.
  1,4,7: apply Hlock in Hstep as [? Hth']; [|done|try destruct timed; by destruct (ph_thread ph)|by try destruct timed];
    split; [done|unfold rank; rewrite Hth'; cbn; try destruct timed; cbn; lia].
  - simplify_eq. split; [|by destruct (ph_running ph)].
    apply Hnew; [done| |by destruct (ph_running ph)|apply Hout; [done|by destruct (ph_running ph)]].
    destruct (ph_thread ph); cbn; try done; by rewrite Hflag.
  - simplify_eq. split; [|cbn; lia]. apply Hnew; try done. by destruct (ph_thread ph).
  - simplify_eq. split; [|by destruct (ph_running ph)].
    apply Hnew; [done| |by destruct (ph_running ph)|apply Hout; [done|by destruct (ph_running ph)]].
    destruct (ph_thread ph); cbn; try done; by rewrite Hflag.
  - destruct (wp_run _ _ _ (sweep_turn_wp calls clock now stop work HI Hn)) as (ct & work' & Hrun & HI' & _ & Hc).
    pose proof (pq_size_nonneg (m_expirations (w_store work))).
    rewrite Hrun in Hstep. simplify_eq. split.
    + apply Hnew; [done| |by destruct ct|by destruct ct]. by destruct (ph_thread ph), ct.
    + intros _. unfold rank, heap_size. cbn. destruct ct, stop; try lia; by destruct Hc.
Qed.

Lemma others_next c k ph w w' :
  TOK c k ph w -> tstep ByOthers w w' -> TOK c k ph w' /\ rank w' <= rank w + 1.
Proof.
  intros Hok Hstep. inversion Hstep; subst; destruct Hok as [? ? ? ? ? ? HI Hn].
  - destruct (wp_run _ _ _ (exec_op_correct _ _ now op _ (abs_entry <$> m_data (w_store (tw_work w)))
      HI ltac:(done) ltac:(done) ltac:(done) ltac:(by destruct H) ltac:(done))) as (r' & s2 & Hrun & HI' & _).
    assert (s2 = s') as -> by congruence. split; [done|].
    assert (heap_size (w <| tw_work := mkSweeper s' metrics |>) <= heap_size w + 1) as Hheap
      by (eapply client_heap; [exact HI|done..]).
    unfold rank, heap_size in *. cbn in *. destruct (m_sweepThread w) as [[]|]; try lia.
    destruct (tw_stopRequested w); lia.
  - split; [done|]. unfold rank, heap_size. cbn. pose proof (pq_size_nonneg (m_expirations (w_store (tw_work w)))).
    destruct (m_sweepThread w) as [[]|]; try lia. destruct (tw_stopRequested w); lia.
Qed.

(** ** Reachable worlds *)

Definition steps (w w' : tworld (Q := Q)) : Prop := exists x, tstep x w w'.
Definition course_of (sweepInterval : Z) : course := if 0 <? sweepInterval then Started else NotStarted.

Lemma start_ok sweepInterval work now calls :
  Inv calls now (w_store work) -> calls < U64_MOD ->
  TOK (course_of sweepInterval) 0 idle (start_world sweepInterval work now calls).
Proof.
  intros HI Hn. unfold course_of, start_world, server_life, StartSweeperThread.
  destruct (Z.ltb_spec 0 sweepInterval); [replace (sweepInterval <=? 0) with false by lia
                                         |replace (sweepInterval <=? 0) with true by lia]; done.
Qed.

Lemma step_ok c k ph w w' :
  TOK c k ph w -> steps w w' -> exists c' k' ph', TOK c' k' ph' w' /\ (c' = c \/ c' = SpawnFailed).
Proof.
  intros Hok [x Hstep]. destruct x.
  - inversion Hstep; subst. destruct (main_next _ _ _ _ _ _ _ _ Hok H H0) as [[ph' ?]|[ph' ?]]; eauto 6.
  - inversion Hstep; subst. apply (sweeper_next _ _ _ _ _ _ _ Hok) in H as [? _]. eauto 6.
  - apply (others_next _ _ _ _ _ Hok) in Hstep as [? _]. eauto 6.
Qed.

Lemma thread_reach_ok sweepInterval work now calls w :
  Inv calls now (w_store work) -> calls < U64_MOD ->
  rtc steps (start_world sweepInterval work now calls) w ->
  exists c k ph, TOK c k ph w /\ (c = course_of sweepInterval \/ c = SpawnFailed).
Proof.
  intros HI Hn Hreach. pose proof (start_ok sweepInterval work now calls HI Hn) as Hok.
  assert (exists c k ph, TOK c k ph (start_world sweepInterval work now calls) /\
    (c = course_of sweepInterval \/ c = SpawnFailed)) as H by eauto 6. clear Hok.
  induction Hreach as [|w0 w1 w2 Hs _ IH]; [done|]. apply IH. destruct H as (c & k & ph & Hok & Hc).
  destruct (step_ok _ _ _ _ _ Hok Hs) as (c' & k' & ph' & Hok' & Hc').
  exists c', k', ph'. split; [done|]. destruct Hc' as [->| ->]; [done|by right].
Qed.

(** What the next action says of the phase. *)
Lemma phase_action c k ph todo :
  drop k (program c) = todo -> phases c !! k = Some ph ->
  match todo with
  | ALock :: _ => ph_holds ph = false
  | AJoin :: _ => ph_holds ph = false /\ ph_running ph = false /\ (ph_thread ph = TNone \/ ph_thread ph = TWoken)
  | AServe :: _ => (c = Started /\ ph = Phase true false TAlive) \/ (c = NotStarted /\ ph = idle)
  | [] => ph = idle
  | _ => True
  end.
Proof.
  intros <- Hph. pose proof (lookup_lt_Some _ _ _ Hph) as Hk.
  destruct c; cbn in Hk;
    do 18 try (destruct k as [|k]; [cbn in Hph |- *; simplify_eq; auto|]); try lia.
Qed.

(** The sweeper is never stuck while the main thread is outside the mutex. *)
Lemma sweeper_can c k ph w pc :
  TOK c k ph w -> ph_holds ph = false -> m_sweepThread w = Some pc -> pc <> SwDone ->
  exists w', tstep BySweeper w w'.
Proof.
  intros [? ? ? ? Hmu ? HI Hn] Hh Hth Hpc. rewrite Hh, Hth in Hmu.
  assert (forall now, exists w', SweeperLoop_step true now w = Some w') as Hstep.
  2: { destruct (Hstep 0) as [w' ?]. exists w'. by eapply ts_sweeper. }
  intros now. unfold SweeperLoop_step. rewrite Hth. destruct pc; try done; rewrite ?Hmu; try by eexists.
  destruct (wp_run _ _ _ (sweep_turn_wp _ _ now (tw_stopRequested w) _ HI Hn)) as (ct & work' & -> & _).
  by eexists.
Qed.

Lemma count_cons x y l : count x (y :: l) = (if decide (y = x) then 1 else 0) + count x l.
Proof. unfold count, zlen. rewrite filter_cons. case_decide; cbn; lia. Qed.

(** The sweeper and the others, while the main thread waits. *)
Lemma trace_rank c k ph w w' l :
  TOK c k ph w -> ph_running ph = false -> trace l w w' -> ByMain ∉ l ->
  TOK c k ph w' /\ count BySweeper l + rank w' <= rank w + count ByOthers l.
Proof.
  intros Hok Hr Htr. induction Htr as [w|x l w w1 w2 Hs Htr IH]; intros Hnot.
  { split; [done|]. change (0 + rank w <= rank w + 0). lia. }
  apply not_elem_of_cons in Hnot as [Hx Hnot]. rewrite !count_cons. destruct x; [done| |].
  - inversion Hs; subst. apply (sweeper_next _ _ _ _ _ _ _ Hok) in H as [Hok1 Hrank].
    specialize (IH Hok1 Hnot) as [Hok2 IH]. split; [done|]. rewrite (ok_running _ _ _ _ Hok) in Hrank.
    specialize (Hrank Hr). repeat case_decide; try done. lia.
  - apply (others_next _ _ _ _ _ Hok) in Hs as [Hok1 Hrank].
    specialize (IH Hok1 Hnot) as [Hok2 IH]. split; [done|]. repeat case_decide; try done. lia.
Qed.

Lemma rank_bounds c k ph w : TOK c k ph w -> 0 <= rank w <= 3 + heap_size w.
Proof.
  intros _. unfold rank, heap_size. pose proof (pq_size_nonneg (m_expirations (w_store (tw_work w)))).
  destruct (m_sweepThread w) as [[]|]; try lia. destruct (tw_stopRequested w); lia.
Qed.

(** C30. The sweeper thread lives exactly as long as it should, and stopping it
    never hangs. However the steps of the main thread, the sweeper and the
    clients interleave, with spurious wake-ups and any thread creation failing:
    while the server serves, the thread exists and has not ended if the interval
    is positive, and does not exist otherwise; as long as the main thread has
    something to do, it or the sweeper can go on (no deadlock); while it waits
    in [join], the sweeper is not waiting for its timeout (the notification is
    not lost) and makes at most three steps more than the heap has records,
    plus one for each call of a client; in the end the thread is gone, the flag
    cleared and the mutex free. *)
Theorem sweeper_thread_protocol sweepInterval work now calls w :
  Inv calls now (w_store work) -> calls < U64_MOD ->
  rtc steps (start_world sweepInterval work now calls) w ->
  (forall rest, tw_main w = AServe :: rest ->
     if 0 <? sweepInterval
     then m_sweeperRunning w = true /\ exists pc, m_sweepThread w = Some pc /\ pc <> SwDone
     else m_sweepThread w = None) /\
  (tw_main w <> [] -> exists x w', x <> ByOthers /\ tstep x w w') /\
  (forall rest l w', tw_main w = AJoin :: rest -> trace l w w' -> ByMain ∉ l ->
     m_sweeperRunning w' = false /\ m_sweepThread w' <> Some SwWait /\
     count BySweeper l <= 3 + heap_size w + count ByOthers l) /\
  (tw_main w = [] -> m_sweepThread w = None /\ m_sweeperRunning w = false /\ m_sweeperMutex w = None).
Proof.
  intros HI Hn Hreach. destruct (thread_reach_ok _ _ _ _ _ HI Hn Hreach) as (c & k & ph & Hok & Hc).
  pose proof Hok as [Hmain Hph Hr Hth Hmu _ _ _].
  pose proof (phase_action _ _ _ _ (eq_sym Hmain) Hph) as Hact. split_and!.
  - intros rest Hw. rewrite Hw in Hact. unfold course_of in Hc.
    destruct Hact as [[-> ->]|[-> ->]], (0 <? sweepInterval); try by destruct Hc.
    + split; [done|]. cbn in Hth. destruct (m_sweepThread w) as [pc|]; [by exists pc|done].
    + cbn in Hth. by destruct (m_sweepThread w).
  - intros Hne. destruct (tw_main w) as [|a rest] eqn:Hw; [done|].
    destruct (main_step true a (w <| tw_main := rest |>)) as [w'|] eqn:Hstep.
    { exists ByMain, w'. split; [done|]. by eapply ts_main. }
    destruct a; try (cbn in Hstep; destruct (m_sweeperRunning w); done); cbn in Hstep.
    + destruct (m_sweeperMutex w) eqn:Hm; [|done]. unfold holder in Hmu. rewrite Hact in Hmu.
      destruct (m_sweepThread w) as [pc|] eqn:Hpc; [|done].
      destruct (sweeper_can _ _ _ _ pc Hok Hact Hpc) as [w' ?]; [by intros ->|]. by exists BySweeper, w'.
    + destruct (m_sweepThread w) as [pc|] eqn:Hpc; [|done]. destruct Hact as (Hh & _).
      destruct (sweeper_can _ _ _ _ pc Hok Hh Hpc) as [w' ?]; [by intros ->|]. by exists BySweeper, w'.
  - intros rest l w' Hw Htr Hnot. rewrite Hw in Hact. destruct Hact as (_ & Hrun & Hnone).
    destruct (trace_rank _ _ _ _ _ _ Hok Hrun Htr Hnot) as [Hok' Hrank].
    pose proof (rank_bounds _ _ _ _ Hok). pose proof (rank_bounds _ _ _ _ Hok').
    split; [by rewrite (ok_running _ _ _ _ Hok')|]. split; [|lia].
    pose proof (ok_thread _ _ _ _ Hok') as Hth'. intros Heq. rewrite Heq in Hth'.
    by destruct Hnone as [Hreq|Hreq]; rewrite Hreq in Hth'.
  - intros Hw. rewrite Hw in Hact. subst ph. cbn in *. destruct (m_sweepThread w); [done|].
    by rewrite Hmu, Hr.
Qed.
End theorems.

(** ** A run: the server is stopped while the sweeper waits *)

Section schedule.
Context {Q : Type} `{!PriorityQueue ExpirationRecord Q}
  `{!PriorityQueueLaws ExpirationRecord Q ExpirationCompare}.

(** The main thread and the sweeper move in the given order. *)
Fixpoint run_schedule (l : list bool) (w : tworld (Q := Q)) : option (tworld (Q := Q)) :=
  match l with
  | [] => Some w
  | true :: l =>
      match tw_main w with
      | a :: rest => main_step true a (w <| tw_main := rest |>) ≫= run_schedule l
      | [] => None
      end
  | false :: l => SweeperLoop_step false 0 w ≫= run_schedule l
  end.

Lemma run_schedule_steps l w w' : run_schedule l w = Some w' -> rtc steps w w'.
Proof.
  revert w. induction l as [|[] l IH]; intros w H; cbn in H; [simplify_eq; apply rtc_refl| |].
  - destruct (tw_main w) as [|a rest] eqn:Hw; [done|]. apply bind_Some in H as (w1 & H1 & H2).
    eapply rtc_l; [|by apply IH]. exists ByMain. by eapply ts_main.
  - apply bind_Some in H as (w1 & H1 & H2). eapply rtc_l; [|by apply IH].
    exists BySweeper. by eapply ts_sweeper.
Qed.
End schedule.

(** Up to the [join]: the sweeper was waiting when the flag was cleared. *)
Definition example_schedule : list bool :=
  [true; true; true; true; false; false; true; true; true; true; true].
Definition example_start := start_world 5000 example_sweeper 0 2.
Definition joining_rest : list main_action := AJoin :: TcpServer_destroy.

Lemma sweeper_thread_protocol_witness :
  exists w, run_schedule example_schedule example_start = Some w /\ tw_main w = joining_rest /\
    m_sweepThread w = Some (SwWoken false) /\ exists x w', x <> ByOthers /\ tstep x w w'.
Proof.
  assert (option_map (fun w => (tw_main w, m_sweepThread w)) (run_schedule example_schedule example_start)
    = Some (joining_rest, Some (SwWoken false))) as Hj by (vm_compute; reflexivity).
  destruct (run_schedule example_schedule example_start) as [w|] eqn:Hw; [|discriminate].
  injection Hj as Hmain Hth.
  exists w. split; [reflexivity|]. split; [exact Hmain|]. split; [exact Hth|].
  apply (sweeper_thread_protocol 5000 example_sweeper 0 2).
  - exact example_expiring_Inv.
  - reflexivity.
  - exact (run_schedule_steps _ _ _ Hw).
  - rewrite Hmain. discriminate.
Defined.
