(* ===== verification/ServerAccept.v ===== *)
(** * Accepting clients *)

From S2P Require Import Prelude PriorityQueue KVStore Poller PollerTheorems SubReactor EventLoop ReactorTheorems TcpServer ReactorInterface.
#[local] Open Scope Z_scope.

(** The clients one call accepts: at most [budget], up to the first error other
    than an interruption; each with whether it could be initialised. *)
Fixpoint accepted (budget : nat) (answers : list accept_answer) : list (Z * bool) :=
  match budget, answers with
  | O, _ | _, [] => []
  | S budget, Accepted cfd ok :: answers => (cfd, ok) :: accepted budget answers
  | S _, AcceptError errno :: answers => if errno =? EINTR then accepted budget answers else []
  end.

(** How the call ends: the budget is used up or nobody is waiting ([Some true]),
    [accept] failed ([Some false]), or more answers are needed. *)
Fixpoint accept_end (budget : nat) (answers : list accept_answer) : option bool :=
  match budget, answers with
  | O, _ => Some true
  | S _, [] => None
  | S budget, Accepted _ _ :: answers => accept_end budget answers
  | S _, AcceptError errno :: answers =>
      if errno =? EINTR then accept_end budget answers else Some (errno =? EAGAIN)
  end.

(** The descriptors for sub-reactor [j] of [n], when the first goes to [next]. *)
Fixpoint share (n next j : Z) (fds : list Z) : list Z :=
  match fds with
  | [] => []
  | cfd :: fds => (if next =? j then [cfd] else []) ++ share n ((next + 1) mod n) j fds
  end.

Definition initialized (clients : list (Z * bool)) : list Z :=
  (filter (fun x => x.2 = true) clients).*1.
Definition rejected_fds (clients : list (Z * bool)) : list Z :=
  (filter (fun x => x.2 = false) clients).*1.

Lemma accepted_length budget answers : (length (accepted budget answers) <= budget)%nat.
Proof.
  revert budget. induction answers as [|a answers IH]; intros [|budget]; try (cbn; lia).
  destruct a as [cfd ok|e]; cbn; [specialize (IH budget); lia|].
  destruct (e =? EINTR); [apply (IH (S budget))|cbn; lia].
Qed.

(** Shares are fair: two sub-reactors differ by at most one client. *)
Lemma share_length n next j fds :
  0 < n -> 0 <= next < n -> 0 <= j < n ->
  zlen (share n next j fds) = (zlen fds + n - 1 - (j - next) mod n) / n.
Proof.
  intros Hn. revert next. induction fds as [|cfd fds IH]; intros next Hnext Hj.
  - cbn. rewrite Z.div_small; [done|]. pose proof (Z.mod_pos_bound (j - next) n Hn).
    rewrite (@zlen_nil Z). lia.
  - cbn [share]. rewrite zlen_app, zlen_cons, IH; [|apply Z.mod_pos_bound; lia|done].
    pose proof (Z.mod_pos_bound (j - next) n Hn).
    assert ((j - (next + 1) mod n) mod n = (j - next - 1) mod n) as ->.
    { rewrite Zminus_mod_idemp_r. f_equal. lia. }
    destruct (Z.eqb_spec next j) as [->|Hne].
      assert ((j - j - 1) mod n = n - 1) as -> by (symmetry; apply (Z.mod_unique _ _ (-1)); [left; lia|lia]).
      rewrite zlen_cons, (@zlen_nil Z). rewrite Z.sub_diag, Z.mod_0_l by lia.
      replace (1 + zlen fds + n - 1 - 0) with (zlen fds + 1 * n) by lia.
      rewrite Z.div_add by lia. replace (zlen fds + n - 1 - (n - 1)) with (zlen fds) by lia. lia.
    + rewrite (@zlen_nil Z). assert ((j - next - 1) mod n = (j - next) mod n - 1) as ->; [|rewrite Z.add_0_l; f_equal; lia].
      assert ((j - next) mod n <> 0) as H0.
      { intros H0. apply Hne. apply Z.mod_divide in H0; [|lia]. destruct H0 as [q Hq].
        assert (q = 0) as -> by nia. lia. }
      rewrite <-Zminus_mod_idemp_l. apply Z.mod_small. lia.
Qed.

Section accept.
Context {T : Type} `{!ReactorControl T, !ReactorView T, !ReactorControlLaws T}.
Context {P : Type} `{!Poller P}.
Context (o : NetworkOptions).

Abbreviation Server := (TcpServer T P).
Implicit Types s : Server.

(** The clients [new] were accepted. *)
Record accept_effect (new : list (Z * bool)) s s' : Prop := mkAcceptEffect {
  ae_state : t_state s' = t_state s;
  ae_listen : m_listenFd s' = m_listenFd s;
  ae_poller : t_poller s' = t_poller s;
  ae_deadline : t_shutdownDeadline s' = t_shutdownDeadline s;
  ae_force : m_forceStopSent s' = m_forceStopSent s;
  ae_stop : t_stopRequested s' = t_stopRequested s;
  ae_accepts : t_accepts s' ≡ₚ new.*1 ++ t_accepts s;
  ae_closes : t_closes s' ≡ₚ rejected_fds new ++ t_closes s;
  ae_next : m_nextSubReactorIndex s' =
    (m_nextSubReactorIndex s + zlen (initialized new)) mod zlen (m_subReactors s);
  ae_count : length (m_subReactors s') = length (m_subReactors s);
  ae_given j t : m_subReactors s !! j = Some t -> exists t', m_subReactors s' !! j = Some t' /\
    moved (share (zlen (m_subReactors s)) (m_nextSubReactorIndex s) (Z.of_nat j) (initialized new)) t t';
}.

(** The index of the next sub-reactor is one, and the sub-reactors are consistent. *)
Definition index_ok s : Prop :=
  0 <= m_nextSubReactorIndex s < zlen (m_subReactors s) /\ zlen (m_subReactors s) < U64_MOD /\
  Forall rc_ok (m_subReactors s).

Lemma index_ok_at s i t : index_ok s -> m_subReactors s !! i = Some t -> rc_ok t.
Proof. intros (_ & _ & Hall) Hi. by eapply Forall_lookup_1. Qed.

Lemma accept_effect_nil s : index_ok s -> accept_effect [] s s.
Proof.
  intros Hi. split; try done.
  - cbn. rewrite Z.add_0_r. symmetry. apply Z.mod_small. apply Hi.
  - intros j t Hj. exists t. split; [done|]. eapply moved_refl, index_ok_at; done.
Qed.

Lemma accept_effect_rejected cfd new s s' :
  accept_effect new (s <| t_accepts ::= cons cfd |> <| t_closes ::= cons cfd |>) s' ->
  accept_effect ((cfd, false) :: new) s s'.
Proof.
  intros [? ? ? ? ? ? Hac Hcl ? ? ?]. split; try done.
  - rewrite Hac. cbn. by rewrite <-Permutation_middle.
  - rewrite Hcl. change (rejected_fds ((cfd, false) :: new)) with (cfd :: rejected_fds new).
    cbn. by rewrite <-Permutation_middle.
Qed.

(** The state after one client was handed over. *)
Definition handed (cfd : Z) (t : T) s : Server :=
  s <| m_nextSubReactorIndex := (m_nextSubReactorIndex s + 1) mod zlen (m_subReactors s) |>
    <| m_subReactors ::= <[Z.to_nat (m_nextSubReactorIndex s) := (ctl_EnqueClient (Some cfd) t).2]> |>.

Lemma zlen_insert {A} (l : list A) i x : zlen (<[i := x]> l) = zlen l.
Proof. unfold zlen. by rewrite length_insert. Qed.

Lemma handed_index_ok cfd t s : index_ok s -> rc_ok t -> index_ok (handed cfd t s).
Proof.
  intros Hi Ht. unfold index_ok, handed in *. cbn. rewrite zlen_insert. destruct Hi as (H1 & H2 & Hall).
  pose proof (Z.mod_pos_bound (m_nextSubReactorIndex s + 1) (zlen (m_subReactors s)) ltac:(lia)).
  split_and!; [lia..|]. apply Forall_insert; [done|]. apply (enqueue_law cfd t Ht).
Qed.

Lemma accept_effect_handed cfd t new s s' :
  index_ok s -> m_subReactors s !! Z.to_nat (m_nextSubReactorIndex s) = Some t ->
  accept_effect new (handed cfd t (s <| t_accepts ::= cons cfd |>)) s' -> accept_effect ((cfd, true) :: new) s s'.
Proof.
  intros Hi Ht [? ? ? ? ? ? Hac Hcl Hnext Hcount Hgiven]. unfold handed in *. cbn in *.
  rewrite zlen_insert in Hnext, Hgiven. rewrite length_insert in Hcount.
  assert (initialized ((cfd, true) :: new) = cfd :: initialized new) as Hinit by done.
  split; try done.
  - rewrite Hac. cbn. by rewrite <-Permutation_middle.
  - rewrite Hnext, Hinit, zlen_cons, Zplus_mod_idemp_l. f_equal. lia.
  - intros j t0 Hj. rewrite Hinit. cbn [share].
    destruct (enqueue_law cfd t (index_ok_at _ _ _ Hi Ht)) as (_ & Hmv).
    destruct (decide (j = Z.to_nat (m_nextSubReactorIndex s))) as [->|Hne].
    + rewrite Ht in Hj. injection Hj as <-. rewrite Z2Nat.id by (destruct Hi; lia). rewrite Z.eqb_refl.
      destruct (Hgiven (Z.to_nat (m_nextSubReactorIndex s)) (ctl_EnqueClient (Some cfd) t).2) as (t' & Ht' & Hmore).
      { apply list_lookup_insert_eq. by eapply lookup_lt_Some. }
      exists t'. split; [done|]. rewrite Z2Nat.id in Hmore by (destruct Hi; lia).
      by eapply (moved_trans [cfd]).
    + destruct (Hgiven j t0) as (t' & Ht' & Hmore); [by rewrite list_lookup_insert_ne|].
      exists t'. split; [done|]. destruct (Z.eqb_spec (m_nextSubReactorIndex s) (Z.of_nat j)); [lia|].
      exact Hmore.
Qed.

Lemma handover_eq cfd t s :
  index_ok s -> m_subReactors s !! Z.to_nat (m_nextSubReactorIndex s) = Some t ->
  exists r,
  (reactorIndex ← gets m_nextSubReactorIndex;
   count ← gets (fun s => zlen (m_subReactors s));
   (if count =? 0 then fail (Undefined "remainder by zero")
    else modify (fun s => s <| m_nextSubReactorIndex := wrap_u64 (reactorIndex + 1) mod count |>));;
   on_reactor (P := P) (Z.to_nat reactorIndex) (ctl_EnqueClient (Some cfd))) s = (Ret r, handed cfd t s).
Proof.
  intros Hi Ht. destruct (enqueue_law cfd t (index_ok_at _ _ _ Hi Ht)) as (Hr & _). eexists.
  cbv [mbind M_bind gets]. replace (zlen (m_subReactors s) =? 0) with false by (unfold index_ok in Hi; lia).
  unfold modify. cbn. unfold on_reactor. cbn. rewrite Ht.
  destruct (ctl_EnqueClient (Some cfd) t) as [out t'] eqn:He. cbn in Hr. subst out.
  rewrite wrap_u64_small by (unfold index_ok in Hi; lia).
  unfold handed. by rewrite He.
Qed.

(** A turn of the loop that accepts a client. *)
Lemma accept_client_eq cfd t count answers s :
  index_ok s -> m_subReactors s !! Z.to_nat (m_nextSubReactorIndex s) = Some t ->
  (count <? maxAcceptsPerEvent o) = true ->
  AcceptNewClients_loop o count (Accepted cfd true :: answers) s
  = AcceptNewClients_loop o (wrap_u64 (count + 1)) answers (handed cfd t (s <| t_accepts ::= cons cfd |>)).
Proof.
  intros Hi Ht Hc. cbn [AcceptNewClients_loop]. rewrite Hc. cbn [negb]. unfold server_accept. cbn zeta.
  unfold mbind at 1, M_bind at 1, modify at 1. set (s1 := s <| t_accepts ::= cons cfd |>).
  destruct (handover_eq cfd t s1 Hi Ht) as [r Hh]. clearbody s1. clear -Hh. cbv [mbind M_bind] in *. cbn in *.
  destruct (zlen (m_subReactors s1) =? 0); [done|]. cbn in *. by rewrite Hh.
Qed.

Lemma accept_loop answers count s b :
  index_ok s -> 0 <= count -> maxAcceptsPerEvent o < U64_MOD ->
  accept_end (Z.to_nat (maxAcceptsPerEvent o - count)) answers = Some b ->
  exists s', AcceptNewClients_loop o count answers s
      = (if b then Ret tt else Fail (Throw (runtime_error "accept failed")), s') /\
    accept_effect (accepted (Z.to_nat (maxAcceptsPerEvent o - count)) answers) s s'.
Proof.
  intros Hi Hc Hmax. revert count s Hi Hc.
  induction answers as [|a answers IH]; intros count s Hi Hc Hend;
    (destruct (Z.ltb_spec count (maxAcceptsPerEvent o)) as [Hlt|Hge];
     [destruct (Z.to_nat (maxAcceptsPerEvent o - count)) as [|m] eqn:Hm; [lia|]
     |replace (Z.to_nat (maxAcceptsPerEvent o - count)) with 0%nat in * by lia]); cbn in Hend;
    try (injection Hend as <-; exists s; split; [cbn; by replace (count <? maxAcceptsPerEvent o) with false by lia|];
         exact (accept_effect_nil s Hi)); [done|].
  cbn [accepted]. destruct a as [cfd ok|errno].
  - assert (Z.to_nat (maxAcceptsPerEvent o - (count + 1)) = m) as Hm' by lia.
    destruct ok.
    + destruct (m_subReactors s !! Z.to_nat (m_nextSubReactorIndex s)) as [t|] eqn:Ht.
      2: { apply lookup_ge_None in Ht. unfold index_ok, zlen in Hi. lia. }
      pose proof (index_ok_at _ _ _ Hi Ht).
      destruct (IH (count + 1) (handed cfd t (s <| t_accepts ::= cons cfd |>))) as (s' & Hrun & Heff);
        [by apply handed_index_ok|lia|by rewrite Hm'|]. rewrite Hm' in Heff.
      exists s'. split; [|by eapply accept_effect_handed].
      rewrite (accept_client_eq cfd t) by (done || lia). by rewrite wrap_u64_small by lia.
    + destruct (IH (count + 1) (s <| t_accepts ::= cons cfd |> <| t_closes ::= cons cfd |>)) as (s' & Hrun & Heff);
        [done|lia|by rewrite Hm'|]. rewrite Hm' in Heff.
      exists s'. split; [|by apply accept_effect_rejected]. cbn [AcceptNewClients_loop].
      replace (count <? maxAcceptsPerEvent o) with true by lia. rewrite wrap_u64_small by lia. exact Hrun.
  - cbn [AcceptNewClients_loop]. replace (count <? maxAcceptsPerEvent o) with true by lia. cbn [negb].
    destruct (errno =? EINTR).
    + rewrite <-Hm in Hend |- *. by apply IH.
    + injection Hend as <-. exists s. split; [|by apply accept_effect_nil].
      change EWOULDBLOCK with EAGAIN. by destruct (errno =? EAGAIN).
Qed.

(** C27. Accepting is bounded and fair: one call accepts at most
    [maxAcceptsPerEvent] clients and stops early only when nobody is waiting or
    [accept] fails; each accepted descriptor that was initialised goes to exactly
    one sub-reactor, in turn from where the last call ended, and the others are
    closed; so the shares of two sub-reactors differ by at most one. *)
Theorem accept_distributes answers b s :
  index_ok s -> 0 <= maxAcceptsPerEvent o < U64_MOD ->
  accept_end (Z.to_nat (maxAcceptsPerEvent o)) answers = Some b ->
  let new := accepted (Z.to_nat (maxAcceptsPerEvent o)) answers in
  let n := zlen (m_subReactors s) in
  exists s', AcceptNewClients o answers s
      = (if b then Ret tt else Fail (Throw (runtime_error "accept failed")), s') /\
    zlen new <= maxAcceptsPerEvent o /\ t_accepts s' ≡ₚ new.*1 ++ t_accepts s /\
    t_closes s' ≡ₚ rejected_fds new ++ t_closes s /\
    m_nextSubReactorIndex s' = (m_nextSubReactorIndex s + zlen (initialized new)) mod n /\
    (forall j t, m_subReactors s !! j = Some t -> exists t', m_subReactors s' !! j = Some t' /\
       rc_given t' ≡ₚ share n (m_nextSubReactorIndex s) (Z.of_nat j) (initialized new) ++ rc_given t) /\
    (forall j k, 0 <= j < n -> 0 <= k < n ->
       zlen (share n (m_nextSubReactorIndex s) j (initialized new))
       <= zlen (share n (m_nextSubReactorIndex s) k (initialized new)) + 1).
Proof.
  intros Hi Hmax Hend. cbn zeta.
  destruct (accept_loop answers 0 s b Hi ltac:(lia) ltac:(lia)) as (s' & Hrun & Heff).
  { by rewrite Z.sub_0_r. }
  rewrite Z.sub_0_r in Heff. exists s'. split; [exact Hrun|].
  pose proof (accepted_length (Z.to_nat (maxAcceptsPerEvent o)) answers) as Hlen.
  split; [unfold zlen; lia|]. split; [apply (ae_accepts _ _ _ Heff)|]. split; [apply (ae_closes _ _ _ Heff)|]. split; [apply (ae_next _ _ _ Heff)|].
  split.
  - intros j t Hj. destruct (ae_given _ _ _ Heff j t Hj) as (t' & Ht' & [_ Hg _ _]). by exists t'.
  - intros j k Hj Hk. unfold index_ok in Hi.
    rewrite !share_length by lia. set (n := zlen (m_subReactors s)) in *.
    set (L := zlen (initialized _)).
    pose proof (Z.mod_pos_bound (j - m_nextSubReactorIndex s) n ltac:(lia)).
    pose proof (Z.mod_pos_bound (k - m_nextSubReactorIndex s) n ltac:(lia)).
    transitivity ((L + 1 * n) / n); [apply Z.div_le_mono; lia|].
    rewrite Z.div_add by lia. apply Z.add_le_mono_r, Z.div_le_mono; lia.
Qed.
End accept.

(** ** Two sub-reactors and four clients, one of them broken *)

Definition example_server : TcpServer ExampleReactor PollPoller :=
  mkTcpServer Running (Some 7) (Some (mkPollPoller {[4 := IoEvent_Read; 7 := IoEvent_Read]})) false 0 false
    [example_reactor Running ∅ {[3 := IoEvent_Read]}; example_reactor Running ∅ {[3 := IoEvent_Read]}] 1 [] [].

Definition example_answers : list accept_answer :=
  [Accepted 10 true; AcceptError EINTR; Accepted 11 false; Accepted 12 true; Accepted 13 true;
   AcceptError EAGAIN].

Lemma accept_distributes_witness :
  exists s', AcceptNewClients NetworkOptions_default example_answers example_server = (Ret tt, s') /\
    t_closes s' ≡ₚ [11] /\
    (forall j t, m_subReactors example_server !! j = Some t -> exists t', m_subReactors s' !! j = Some t' /\
       rc_given t' ≡ₚ share 2 1 (Z.of_nat j) [10; 12; 13] ++ rc_given t).
Proof.
  destruct (accept_distributes NetworkOptions_default example_answers true example_server)
    as (s' & Hrun & _ & _ & Hcl & _ & Hg & _).
  - split; [split; vm_compute; (discriminate || reflexivity)|split; [vm_compute; reflexivity|by repeat constructor]].
  - split; vm_compute; (discriminate || reflexivity).
  - vm_compute. reflexivity.
  - exists s'. split; [exact Hrun|]. split; [exact Hcl|exact Hg].
Defined.

(** The first sub-reactor gets client 12, the second 10 and 13. *)
Example example_shares : share 2 1 0 [10; 12; 13] = [12] /\ share 2 1 1 [10; 12; 13] = [10; 13].
Proof. split; reflexivity. Qed.
