(* ===== verification/ServerShutdown.v ===== *)
(** * The rounds of the main reactor and the shutdown of the server *)

From S2P Require Import Prelude PriorityQueue KVStore KVStoreInv OutputBuffer Poller PollerTheorems SubReactor SubReactorInv SubReactorTheorems EventLoop ReactorFrame ReactorEvents ReactorInv ReactorRounds ReactorTheorems TcpServer ReactorInterface ServerAccept.
#[local] Open Scope Z_scope.

Section server.
Context {T : Type} `{!ReactorControl T, !ReactorView T, !ReactorControlLaws T}.
Context {P : Type} `{!Poller P, !PollerLaws P}.
Context (o : NetworkOptions) (shutdown : ShutdownOptions) (stopFd : Z).
Hypothesis Hbudget : 0 <= maxAcceptsPerEvent o < U64_MOD.

Abbreviation Server := (TcpServer T P).
Implicit Types s : Server.

(** ** Going through the sub-reactors *)

(** The call [m] on the [i]-th, when it cannot fail. *)
Lemma on_reactor_eq {A} i (m : M T A) a t s :
  m_subReactors s !! i = Some t -> (m t).1 = Ret a ->
  on_reactor i m s = (Ret a, s <| m_subReactors ::= <[i := (m t).2]> |>).
Proof. intros Ht Hm. unfold on_reactor. rewrite Ht. destruct (m t) as [r t']. cbn in Hm. by subst r. Qed.

Lemma reactors_eta s (l : list T) : m_subReactors s = l -> s = s <| m_subReactors := l |>.
Proof. intros <-. by destruct s. Qed.

Lemma for_reactors_eq (R : T -> Prop) (g : T -> T) f s :
  Forall R (m_subReactors s) ->
  (forall i t s, m_subReactors s !! i = Some t -> R t ->
     f i s = (Ret tt, s <| m_subReactors ::= <[i := g t]> |>)) ->
  for_reactors f s = (Ret tt, s <| m_subReactors ::= fmap g |>).
Proof.
  intros Hok Hf. unfold for_reactors. cbv [mbind M_bind gets].
  assert (forall l2 l1 s, Forall R l2 -> m_subReactors s = l1 ++ l2 ->
    for_each (seq (length l1) (length l2)) f s = (Ret tt, s <| m_subReactors := l1 ++ (g <$> l2) |>)) as Hall.
  { induction l2 as [|t l2 IH]; intros l1 s1 Hok2 Hl; [apply (f_equal (pair _)), (reactors_eta _ _ Hl)|].
    apply Forall_cons in Hok2 as [Ht Hok2].
    cbn [length seq for_each]. cbv [mbind M_bind]. rewrite (Hf _ t); [|rewrite Hl; by apply list_lookup_middle|done].
    replace (S (length l1)) with (length (l1 ++ [g t])) by (rewrite length_app; cbn; lia).
    rewrite (IH (l1 ++ [g t])); cbn; [|done|].
    - by rewrite <-app_assoc.
    - rewrite Hl, <-app_assoc. by rewrite insert_app_r_alt, Nat.sub_diag by lia. }
  by rewrite (Hall (m_subReactors s) []).
Qed.

Lemma stop_all_eq d s :
  Forall rc_ok (m_subReactors s) ->
  for_reactors (fun i => on_reactor i (ctl_Stop d)) s
  = (Ret tt, s <| m_subReactors ::= fmap (fun t => (ctl_Stop d t).2) |>).
Proof.
  intros Hok. apply (for_reactors_eq rc_ok); [done|]. intros i t s' Ht Hokt. apply on_reactor_eq; [done|].
  by apply (stop_law d t).
Qed.

(** A sub-reactor after it was asked whether it has stopped. *)
Definition polled (t : T) : T := (ctl_IsStopped t).2.

Lemma polled_moved t : rc_ok t -> moved [] t (polled t).
Proof. intros Ht. apply (is_stopped_law t Ht). Qed.

Lemma poll_eq i t s :
  m_subReactors s !! i = Some t -> rc_ok t ->
  on_reactor i ctl_IsStopped s = (Ret (rc_stopped (polled t)), s <| m_subReactors ::= <[i := polled t]> |>).
Proof. intros Ht Hok. apply on_reactor_eq; [done|]. apply (is_stopped_law t Hok). Qed.

(** The sub-reactors that have not stopped are told to stop at once. *)
Definition forced (t : T) : T :=
  let t1 := polled t in if rc_stopped t1 then t1 else (ctl_ForceStop t1).2.

Lemma force_all_eq s :
  Forall rc_ok (m_subReactors s) ->
  for_reactors (fun i =>
    stopped ← on_reactor i ctl_IsStopped;
    when (negb stopped) (on_reactor i ctl_ForceStop)) s
  = (Ret tt, s <| m_subReactors ::= fmap forced |>).
Proof.
  intros Hok. apply (for_reactors_eq rc_ok); [done|]. intros i t s' Ht Hokt. cbv [mbind M_bind].
  rewrite (poll_eq i t) by done. unfold forced. destruct (rc_stopped (polled t)); cbn [negb when]; [done|].
  rewrite (on_reactor_eq i _ tt (polled t)).
  - cbn. by rewrite list_insert_insert_eq.
  - cbn. apply list_lookup_insert_eq. by eapply lookup_lt_Some.
  - apply (force_stop_law (polled t)), (polled_moved t Hokt).
Qed.

Lemma all_stopped_reactors s :
  Forall rc_ok (m_subReactors s) ->
  all_stopped (seq 0 (length (m_subReactors s))) s
  = (Ret (forallb (fun t => rc_stopped (polled t)) (m_subReactors s)), s <| m_subReactors ::= fmap polled |>).
Proof.
  assert (forall l2 l1 s, Forall rc_ok l2 -> m_subReactors s = l1 ++ l2 ->
    all_stopped (seq (length l1) (length l2)) s
    = (Ret (forallb (fun t => rc_stopped (polled t)) l2), s <| m_subReactors := l1 ++ (polled <$> l2) |>)) as Hall.
  { induction l2 as [|t l2 IH]; intros l1 s1 Hok Hl; [apply (f_equal (pair _)), (reactors_eta _ _ Hl)|].
    apply Forall_cons in Hok as [Ht Hok].
    cbn [length seq all_stopped]. cbv [mbind M_bind]. rewrite (poll_eq _ t); [|rewrite Hl; by apply list_lookup_middle|done].
    replace (S (length l1)) with (length (l1 ++ [polled t])) by (rewrite length_app; cbn; lia).
    rewrite (IH (l1 ++ [polled t])); cbn; [|done|].
    - by rewrite <-app_assoc.
    - rewrite Hl, <-app_assoc. by rewrite insert_app_r_alt, Nat.sub_diag by lia. }
  intros Hok. by apply (Hall (m_subReactors s) []).
Qed.

(** Every sub-reactor lives on. *)
Definition all_live s s' : Prop := Forall2 lives_on (m_subReactors s) (m_subReactors s').

Lemma all_live_refl s : Forall rc_ok (m_subReactors s) -> all_live s s.
Proof. intros Hok. apply Forall_Forall2_diag. eapply Forall_impl; [exact Hok|]. apply lives_on_refl. Qed.

Lemma all_live_trans s1 s2 s3 : all_live s1 s2 -> all_live s2 s3 -> all_live s1 s3.
Proof.
  unfold all_live. generalize (m_subReactors s1), (m_subReactors s2), (m_subReactors s3). intros l1 l2 l3 H12.
  revert l3. induction H12; intros l3 H23; inversion H23; subst; constructor; [by eapply lives_on_trans|auto].
Qed.

(** A step that maps the sub-reactors. *)
Lemma Forall2_map_ok (R : T -> T -> Prop) (g : T -> T) (ts : list T) :
  Forall rc_ok ts -> (forall t, rc_ok t -> R t (g t)) -> Forall2 R ts (g <$> ts).
Proof. intros Hok Hg. apply Forall2_fmap_r, Forall_Forall2_diag. eapply Forall_impl; [exact Hok|exact Hg]. Qed.

Lemma Forall_lives (ts ts' : list T) :
  Forall2 lives_on ts ts' -> Forall rc_ok ts'.
Proof. induction 1 as [|? ? ? ? []]; by constructor. Qed.

Lemma Exists_failed ts ts' :
  Forall2 lives_on ts ts' -> Exists (fun t => rc_failed t = true) ts -> Exists (fun t => rc_failed t = true) ts'.
Proof. induction 1 as [|? ? ? ? []]; inversion 1; subst; [left; auto|right; auto]. Qed.

(** ** Invariant *)

Record ServerOK s : Prop := mkServerOK {
  sv_poller : exists p, t_poller s = Some p /\ poller_ok p;
  sv_index : index_ok s;
  sv_started : t_state s <> Created;
  sv_running : t_state s = Running -> is_Some (m_listenFd s) /\ m_forceStopSent s = false /\
    Forall (fun t => rc_asked t = None /\ rc_forced t = false) (m_subReactors s);
  sv_ending : t_state s <> Running -> m_listenFd s = None /\
    Forall (fun t => rc_asked t = Some (t_shutdownDeadline s)) (m_subReactors s);
  sv_forced : m_forceStopSent s = true ->
    Forall (fun t => rc_stopped t = true \/ rc_forced t = true) (m_subReactors s);
  sv_stopped : t_state s = Stopped -> Forall (fun t => rc_stopped t = true) (m_subReactors s);
}.

(** An exception leaves the round; the poller and the sub-reactors are still there. *)
Definition thrown : failure -> Server -> Prop := fun f s =>
  (exists e, f = Throw e) /\ (exists p, t_poller s = Some p /\ poller_ok p) /\ Forall rc_ok (m_subReactors s).

Lemma index_ok_map s ts : index_ok s -> Forall2 lives_on (m_subReactors s) ts -> index_ok (s <| m_subReactors := ts |>).
Proof.
  intros (H1 & H2 & _) Hl. unfold index_ok, zlen in *. cbn. rewrite <-(Forall2_length _ _ _ Hl).
  split_and!; [lia..|]. by eapply Forall_lives.
Qed.

(** ** Beginning the shutdown *)

(** The deadline fits the clock. *)
Definition deadline_ok (now : TimePoint) : Prop :=
  I64_MIN <= now + gracefulTimeout shutdown * NS_PER_MS <= I64_MAX.

Lemma begin_wp now s :
  ServerOK s -> deadline_ok now ->
  wp (BeginGracefulShutdown shutdown now)
     (fun _ s' => ServerOK s' /\ all_live s s' /\ (t_state s <> Running -> s' = s) /\ t_state s' <> Running) thrown s.
Proof.
  intros HS Hd. pose proof (proj2 (proj2 (sv_index _ HS))) as Hok. unfold BeginGracefulShutdown. apply wp_bind, wp_gets. case_bool_decide as Hr; cbn [negb].
  2: { apply wp_ret. split; [done|]. split; [by apply all_live_refl|done]. }
  destruct HS as [(p & Hp & Hpo) Hi Hst Hrun Hend Hf Hsd].
  destruct (Hrun Hr) as ([lfd Hl] & Hfs & Hall).
  apply wp_bind, wp_modify, wp_bind, wp_checked_i64; [done|]. apply wp_bind, wp_modify, wp_bind, wp_gets.
  set (d := now + gracefulTimeout shutdown * NS_PER_MS).
  match goal with |- wp _ _ _ ?x => set (s1 := x) end.
  change (m_listenFd s1) with (m_listenFd s). rewrite Hl. apply wp_bind, wp_bind.
  unfold wp at 1, server_poller. change (t_poller s1) with (t_poller s). rewrite Hp.
  pose proof (remove_law lfd p Hpo) as Hlaw. unfold wp in Hlaw.
  destruct (poller_Remove lfd p) as [[[]|f] p'];
    [|destruct Hlaw as (Hpo' & _ & He); split; [exact He|split; [by exists p'|done]]].
  destruct Hlaw as [Hpo' _]. apply wp_bind, wp_modify, wp_modify.
  assert (Forall2 lives_on (m_subReactors s) ((fun t => (ctl_Stop d t).2) <$> m_subReactors s)) as Hlive.
  { apply Forall2_map_ok; [done|]. intros t Ht. apply (stop_law d t Ht). }
  eapply wp_intro; [by apply stop_all_eq|].
  split; [|by split].
  split; cbn; try done.
  - by exists p'.
  - by apply (index_ok_map s).
  - intros _. split; [done|]. apply Forall_fmap. eapply Forall_impl; [apply Forall_and; split; [exact Hall|exact Hok]|].
    intros t [[Ha _] Ht]. cbn. destruct (stop_law d t Ht) as (_ & _ & Hs & _). by rewrite Hs, Ha.
  - rewrite Hfs. done.
Qed.

(** Asking one sub-reactor, which has gone on meanwhile. *)
Lemma asked_ok i t t' s :
  ServerOK s -> m_subReactors s !! i = Some t -> moved [] t t' ->
  ServerOK (s <| m_subReactors ::= <[i := t']> |>) /\ all_live s (s <| m_subReactors ::= <[i := t']> |>).
Proof.
  intros [Hp Hi Hst Hrun Hend Hf Hsd] Ht [Hl _ Ha Hfo].
  assert (forall R : T -> Prop, (R t -> R t') -> Forall R (m_subReactors s) -> Forall R (<[i:=t']> (m_subReactors s))) as Hins.
  { intros R HR Hall. apply Forall_insert; [done|]. apply HR. by eapply Forall_lookup_1. }
  assert (all_live s (s <| m_subReactors ::= <[i := t']> |>)) as Hlive.
  { unfold all_live. cbn. rewrite <-(list_insert_id _ _ _ Ht) at 1. apply Forall2_insert; [|done].
    apply all_live_refl, Hi. }
  split; [|done]. split; cbn; try done.
  - by apply (index_ok_map s).
  - intros Hr. destruct (Hrun Hr) as (? & ? & ?). split; [done|]. split; [done|]. apply Hins; [|done]. by rewrite Ha, Hfo.
  - intros Hr. destruct (Hend Hr) as (? & ?). split; [done|]. apply Hins; [|done]. by rewrite Ha.
  - intros Hfs. apply Hins; [|by apply Hf]. rewrite Hfo. intros [?|?]; [left; by apply Hl|by right].
  - intros Hs. apply Hins; [apply Hl|by apply Hsd].
Qed.

(** A failed sub-reactor ends the server. *)
Lemma health_wp now s :
  ServerOK s -> deadline_ok now ->
  wp (CheckSubReactorHealth shutdown now)
     (fun _ s' => ServerOK s' /\ all_live s s' /\ (t_state s <> Running -> s' = s) /\
        (t_state s = Running -> Exists (fun t => rc_failed t = true) (m_subReactors s) -> t_state s' <> Running) /\
        (t_state s = Running -> t_state s' <> Running -> Exists (fun t => rc_failed t = true) (m_subReactors s')))
     thrown s.
Proof.
  intros HS Hd. unfold CheckSubReactorHealth. apply wp_bind, wp_gets. case_bool_decide as Hr; cbn [negb].
  2: { apply wp_ret. split; [done|]. split; [apply all_live_refl, HS|done]. }
  apply wp_bind, wp_gets.
  assert (forall l s, ServerOK s -> t_state s = Running -> Forall (fun i => (i < length (m_subReactors s))%nat) l ->
    wp (check_health shutdown now l)
       (fun _ s' => ServerOK s' /\ all_live s s' /\
          (Exists (fun i => exists t, m_subReactors s !! i = Some t /\ rc_failed t = true) l -> t_state s' <> Running) /\
          (t_state s' <> Running -> Exists (fun t => rc_failed t = true) (m_subReactors s'))) thrown s) as Hall.
  { clear s HS Hr. induction l as [|i l IH]; intros s HS Hr Hl.
    - apply wp_ret. split; [done|]. split; [apply all_live_refl, HS|]. rewrite Exists_nil. by split.
    - apply Forall_cons in Hl as [Hi Hl].
      cbn [check_health]. apply lookup_lt_is_Some in Hi as [t Ht]. apply wp_bind. unfold wp at 1.
      pose proof (index_ok_at _ _ _ (sv_index _ HS) Ht) as Hok. destruct (has_failed_law t Hok) as [Hres Hmv].
      rewrite (on_reactor_eq i _ _ t) by done. set (t' := (ctl_HasFailed t).2) in *.
      destruct (asked_ok i t t' s HS Ht Hmv) as [HS1 Hlive1]. set (s1 := s <| m_subReactors ::= <[i := t']> |>) in *.
      assert (m_subReactors s1 !! i = Some t') as Ht1 by (cbn; apply list_lookup_insert_eq; by eapply lookup_lt_Some).
      destruct (rc_failed t') eqn:Hf; cbn [negb].
      + eapply wp_mono; [by apply begin_wp| |done]. intros _ s' (HS' & Hlive & _ & Hns). split; [done|].
        split; [by eapply all_live_trans|]. split; [done|]. intros _. eapply Exists_failed; [exact Hlive|].
        apply Exists_exists. exists t'. split; [by eapply list_elem_of_lookup_2|done].
      + eapply wp_mono; [apply (IH s1); [done|done|]| |done].
        { cbn. by rewrite length_insert. }
        intros _ s' (HS' & Hlive & Hto & Hfrom). split; [done|]. split; [by eapply all_live_trans|]. split; [|done].
        rewrite Exists_cons. intros [(t0 & Ht0 & Hf0)|Hex].
        * assert (t0 = t) as -> by congruence. pose proof (lo_failed _ _ (mv_lives _ _ _ Hmv) Hf0). congruence.
        * apply Hto. eapply Exists_impl; [exact Hex|]. intros j (t0 & Ht0 & Hf0). cbn.
          destruct (decide (j = i)) as [->|Hne].
          -- assert (t0 = t) as -> by congruence. exists t'. split; [done|]. by apply (lo_failed _ _ (mv_lives _ _ _ Hmv)).
          -- exists t0. by rewrite list_lookup_insert_ne. }
  eapply wp_mono; [apply Hall; [done..|]| |done].
  { apply Forall_forall. intros i Hi%list_elem_of_In%in_seq. lia. }
  intros _ s' (HS' & Hlive & Hto & Hfrom). split; [done|]. split; [done|]. split; [done|]. split; [|done].
  intros _ Hex. apply Hto. apply Exists_exists in Hex as (t & [i Hi]%list_elem_of_lookup & Hf).
  apply Exists_exists. exists i. split; [|by exists t].
  apply list_elem_of_In, in_seq. apply lookup_lt_Some in Hi. lia.
Qed.

(** ** Accepting in a round *)

Lemma accept_lives new s s' : accept_effect new s s' -> all_live s s'.
Proof.
  intros He. unfold all_live. apply Forall2_same_length_lookup_2; [symmetry; apply (ae_count _ _ _ He)|].
  intros j t t' Hj Hj'. destruct (ae_given _ _ _ He j t Hj) as (t2 & Ht2 & Hmv). rewrite Hj' in Ht2.
  injection Ht2 as <-. apply Hmv.
Qed.

Lemma accept_effect_ok new s s' :
  ServerOK s -> t_state s = Running -> accept_effect new s s' -> ServerOK s' /\ t_state s' = Running.
Proof.
  intros [(p & Hp & Hpo) Hi Hst Hrun _ _ _] Hr He. pose proof (accept_lives _ _ _ He) as Hlive.
  destruct He as [E1 E2 E3 E4 E5 _ _ _ E8 E9 Hgiven].
  destruct (Hrun Hr) as (Hl & Hfs & Hall). rewrite E1. split; [|done].
  split; rewrite ?E1, ?E2, ?E3, ?E5; try done; try congruence.
  - by exists p.
  - destruct Hi as (Hi1 & Hi2 & _). unfold index_ok, zlen. rewrite E8, E9.
    pose proof (Z.mod_pos_bound (m_nextSubReactorIndex s + zlen (initialized new)) (zlen (m_subReactors s)) ltac:(lia)).
    unfold zlen in *. split_and!; [lia..|]. by eapply Forall_lives.
  - intros _. split; [done|]. split; [done|]. apply Forall_lookup. intros j t' Ht'.
    destruct (lookup_lt_is_Some_2 (m_subReactors s) j) as [t Ht].
    { rewrite <-E9. by eapply lookup_lt_Some. }
    destruct (Hgiven j t Ht) as (t2 & Ht2 & [_ _ Ha Hf]). rewrite Ht' in Ht2. injection Ht2 as <-.
    rewrite Ha, Hf. by apply (proj1 (Forall_lookup _ _) Hall j).
Qed.

(** [accept] answers until the call ends. *)
Definition answers_ok (event : ReadyEvent * list accept_answer) : Prop :=
  is_Some (accept_end (Z.to_nat (maxAcceptsPerEvent o)) event.2).

Lemma accept_event_wp event s :
  ServerOK s -> answers_ok event ->
  wp (accept_event o stopFd event)
     (fun _ s' => ServerOK s' /\ all_live s s' /\ t_state s' = t_state s /\ (t_state s <> Running -> s' = s)) thrown s.
Proof.
  intros HS [b Hend]. pose proof (all_live_refl s (proj2 (proj2 (sv_index _ HS)))) as Hrefl.
  destruct event as [ev answers]. cbn in Hend. unfold accept_event.
  destruct (re_fd ev =? stopFd); [by apply wp_ret|]. apply wp_bind, wp_gets.
  apply wp_when; [intros _|done]. apply wp_when; [|done]. intros [Hr%bool_decide_eq_true _]%andb_true_iff.
  cbn [id] in Hr.
  destruct (accept_loop o answers 0 s b (sv_index _ HS) ltac:(lia) ltac:(lia)) as (s' & Hrun & Heff).
  { by rewrite Z.sub_0_r. }
  unfold wp, AcceptNewClients. rewrite Hrun. destruct b.
  2: { split; [by eexists|]. rewrite (ae_poller _ _ _ Heff). split; [apply (sv_poller _ HS)|].
       eapply Forall_lives, accept_lives, Heff. }
  destruct (accept_effect_ok _ _ _ HS Hr Heff) as [HS' Hr']. split; [done|]. split; [by eapply accept_lives|].
  by rewrite Hr'.
Qed.

Lemma accept_events_wp events s :
  ServerOK s -> Forall answers_ok events ->
  wp (for_each events (accept_event o stopFd))
     (fun _ s' => ServerOK s' /\ all_live s s' /\ t_state s' = t_state s /\ (t_state s <> Running -> s' = s)) thrown s.
Proof.
  intros HS Hall. eapply wp_mono; [apply (wp_for_each (fun l s' => Forall answers_ok l /\ ServerOK s' /\
    all_live s s' /\ t_state s' = t_state s /\ (t_state s <> Running -> s' = s)))| |done].
  - split_and!; try done. apply all_live_refl, HS.
  - intros ev l s1 ([Hev Hl]%Forall_cons & HS1 & Hlv1 & Hst1 & Hid1).
    eapply wp_mono; [by apply accept_event_wp| |done].
    intros _ s2 (HS2 & Hlv2 & Hst2 & Hid2). split; [done|]. split; [done|]. split; [by eapply all_live_trans|].
    split; [by rewrite Hst2|]. intros Hr. rewrite Hid2; [by apply Hid1|by rewrite Hst1].
  - by intros _ s' (_ & ?).
Qed.

(** ** The progress of the shutdown *)

Lemma forced_spec t : rc_ok t ->
  lives_on t (forced t) /\ rc_asked (forced t) = rc_asked t /\
  rc_given (forced t) ≡ₚ rc_given t /\ (rc_stopped (forced t) = true \/ rc_forced (forced t) = true).
Proof.
  intros Ht. pose proof (polled_moved t Ht) as [Hl Hg Ha _]. unfold forced. destruct (rc_stopped (polled t)) eqn:Hs.
  - by split_and!; [..|left].
  - destruct (force_stop_law (polled t) (lo_ok _ _ Hl)) as (_ & Hl' & Hf & Ha' & Hg'). rewrite Ha', Hg'.
    split_and!; [by eapply lives_on_trans|done|done|by right].
Qed.

Lemma forallb_Forall_stopped (ts : list T) :
  forallb (fun t => rc_stopped (polled t)) ts = true <-> Forall (fun t => rc_stopped t = true) (polled <$> ts).
Proof.
  rewrite Forall_fmap, forallb_forall, Forall_forall.
  split; intros H x Hx; apply H; by apply list_elem_of_In.
Qed.

(** The same descriptors in every sub-reactor. *)
Definition same_given s s' : Prop :=
  Forall2 (fun t t' => rc_given t' ≡ₚ rc_given t) (m_subReactors s) (m_subReactors s').

Lemma same_given_refl s : same_given s s.
Proof. apply Forall_Forall2_diag, Forall_forall. done. Qed.

(** Whether all have stopped, asked one after the other. *)
Lemma poll_all_ok s :
  ServerOK s -> t_state s = Draining ->
  let s1 := s <| m_subReactors ::= fmap polled |> in
  ServerOK s1 /\ all_live s s1 /\ same_given s s1.
Proof.
  intros [Hp Hi Hst Hrun Hend Hf Hsd] Hdr. cbn zeta. pose proof (proj2 (proj2 Hi)) as Hok.
  assert (Forall2 lives_on (m_subReactors s) (polled <$> m_subReactors s)) as Hlive.
  { apply Forall2_map_ok; [done|]. intros t Ht. apply (polled_moved t Ht). }
  split; [|split; [done|]].
  - split; cbn; try done; try by rewrite Hdr.
    + by apply (index_ok_map s).
    + intros Hr. destruct (Hend Hr) as [? Hall]. split; [done|]. apply Forall_fmap.
      eapply Forall_impl; [apply Forall_and; split; [exact Hall|exact Hok]|].
      intros t [Ha Ht]. cbn. by rewrite (mv_asked _ _ _ (polled_moved t Ht)).
    + intros Hfs. apply Forall_fmap. eapply Forall_impl; [apply Forall_and; split; [by apply Hf|exact Hok]|].
      intros t [Hs Ht]. cbn. destruct (polled_moved t Ht) as [[_ Hss _] _ _ ->]. destruct Hs; [left; auto|by right].
  - apply Forall2_map_ok; [done|]. intros t Ht. apply (polled_moved t Ht).
Qed.

Lemma check_wp now s :
  ServerOK s ->
  wp (CheckShutdownProgress now)
     (fun _ s' => ServerOK s' /\ all_live s s' /\ (t_state s = Running <-> t_state s' = Running) /\
        (t_state s <> Running -> t_closes s' = t_closes s /\ same_given s s') /\
        (t_state s = Draining -> t_shutdownDeadline s <= now ->
           Forall (fun t => rc_stopped t = true \/ rc_forced t = true) (m_subReactors s')) /\
        (t_state s = Draining -> Forall (fun t => rc_stopped t = true) (m_subReactors s) ->
           t_state s' = Stopped)) no_fail s.
Proof.
  intros HS. pose proof (proj2 (proj2 (sv_index _ HS))) as Hok.
  unfold CheckShutdownProgress. apply wp_bind, wp_gets. case_bool_decide as Hdr; cbn [negb].
  2: { apply wp_ret. split; [done|]. split; [by apply all_live_refl|]. split; [done|].
       split; [|by split]. intros _. split; [done|]. apply same_given_refl. }
  apply wp_bind, wp_gets, wp_bind. eapply wp_intro; [by apply all_stopped_reactors|].
  destruct (poll_all_ok s HS Hdr) as (HS1 & Hlv1 & Hg1). set (s1 := s <| m_subReactors ::= fmap polled |>) in *.
  assert (t_state s1 = Draining) as Hdr1 by done. pose proof HS1 as [Hp Hi Hst Hrun Hend Hf Hsd].
  pose proof (proj2 (proj2 Hi)) as Hok1. destruct (Hend ltac:(by rewrite Hdr1)) as [Hl Hall].
  destruct (forallb (fun t => rc_stopped (polled t)) (m_subReactors s)) eqn:Hb.
  { apply forallb_Forall_stopped in Hb. apply wp_modify. rewrite Hdr. cbn.
    split; [by split|]. split; [done|]. split; [done|]. split; [done|]. split; [|done].
    intros _ _. eapply Forall_impl; [exact Hb|]. intros t Ht. by left. }
  assert (Forall (fun t => rc_stopped t = true) (m_subReactors s) -> False) as Hnot.
  { intros Hs. assert (forallb (fun t => rc_stopped (polled t)) (m_subReactors s) = true); [|congruence].
    apply forallb_Forall_stopped, Forall_fmap. eapply Forall_impl; [apply Forall_and; split; [exact Hs|exact Hok]|].
    intros t [Ht Hokt]. cbn. apply (lo_stopped _ _ (mv_lives _ _ _ (polled_moved t Hokt)) Ht). }
  apply wp_bind, wp_gets. cbn [id]. apply wp_when.
  - intros _. apply wp_bind. eapply wp_intro; [by apply force_all_eq|]. apply wp_modify. cbn. rewrite Hdr.
    assert (Forall2 lives_on (m_subReactors s1) (forced <$> m_subReactors s1)) as Hlv2.
    { apply Forall2_map_ok; [done|]. intros t Ht. apply (forced_spec t Ht). }
    assert (Forall (fun t => rc_stopped t = true \/ rc_forced t = true) (forced <$> m_subReactors s1)) as Hfo.
    { apply Forall_fmap. eapply Forall_impl; [exact Hok1|]. intros t Ht. apply (forced_spec t Ht). }
    split.
    { split; cbn; try done; rewrite ?Hdr; try done.
      - by apply (index_ok_map s1).
      - intros _. split; [done|]. apply Forall_fmap. eapply Forall_impl; [apply Forall_and; split; [exact Hall|exact Hok1]|].
        intros t [Ht Hokt]. cbn. by destruct (forced_spec t Hokt) as (_ & -> & _). }
    split; [by eapply (all_live_trans _ s1)|]. split; [done|]. split; [|split; [done|by intros _ H; destruct (Hnot H)]].
    intros _. split; [done|]. unfold same_given. cbn. rewrite <-list_fmap_compose. apply Forall2_map_ok; [done|].
    intros t Ht. cbn. destruct (polled_moved t Ht) as [[Ht1 _ _] Hg _ _].
    destruct (forced_spec (polled t) Ht1) as (_ & _ & -> & _). exact Hg.
  - intros Hc. split; [done|]. split; [done|]. split; [done|]. split; [done|]. split; [|by intros _ H; destruct (Hnot H)].
    intros _ Hle. apply Hf. apply andb_false_iff in Hc as [Hn|Hn]; [by destruct (m_forceStopSent s1)|].
    change (t_shutdownDeadline s1) with (t_shutdownDeadline s) in Hn. lia.
Qed.

(** ** The round *)

(** What a round is given: [Wait] and [Drain] answer or throw, [accept] answers,
    and the deadlines fit the clock. *)
Record input_ok (i : server_input) : Prop := mkInputOk {
  input_wait t : (exists e, si_wait i t = Fail (Throw e)) \/
    exists events, si_wait i t = Ret events /\ Forall answers_ok events;
  input_drain : si_drain i = Ret tt \/ exists e, si_drain i = Fail (Throw e);
  input_stop : deadline_ok (si_now_stop i);
  input_health : deadline_ok (si_now_health i);
}.

(** The round sees the stop notification. *)
Definition notified (i : server_input) s : Prop :=
  t_stopRequested s = true \/
  exists events, si_wait i (ComputeWaitTimeout (si_now i) s) = Ret events /\
    existsb (fun event => re_fd event.1 =? stopFd) events = true.

(** What the round from [s] to [s'] has done. A sub-reactor that fails during the
    round may be noticed in it or not. *)
Record server_round (i : server_input) s s' : Prop := mkServerRound {
  sr_ok : ServerOK s';
  sr_lives : all_live s s';
  sr_ends : t_state s = Running ->
    notified i s \/ Exists (fun t => rc_failed t = true) (m_subReactors s) -> t_state s' <> Running;
  sr_reason : t_state s = Running -> t_state s' <> Running ->
    notified i s \/ Exists (fun t => rc_failed t = true) (m_subReactors s');
  sr_stays : t_state s <> Running -> t_state s' <> Running /\ t_closes s' = t_closes s /\ same_given s s';
  sr_late : t_state s = Draining -> t_shutdownDeadline s <= si_now_check i ->
    Forall (fun t => rc_stopped t = true \/ rc_forced t = true) (m_subReactors s');
  sr_done : t_state s = Draining -> Forall (fun t => rc_stopped t = true) (m_subReactors s) ->
    t_state s' = Stopped;
}.

Lemma tail_wp i events (told : bool) s s1 :
  ServerOK s -> ServerOK s1 -> all_live s s1 -> deadline_ok (si_now_health i) -> Forall answers_ok events ->
  (t_state s <> Running -> s1 = s) ->
  (t_state s = Running -> (told = true -> t_state s1 <> Running) /\ (told = false -> s1 = s)) ->
  (told = true <-> notified i s) ->
  wp (CheckSubReactorHealth shutdown (si_now_health i);;
      for_each events (accept_event o stopFd);;
      CheckShutdownProgress (si_now_check i)) (fun _ => server_round i s) thrown s1.
Proof.
  intros HS HS1 Hlv1 Hd Hans Hid Htold Hnot.
  apply wp_bind. eapply wp_mono; [by apply health_wp| |done]. intros _ s2 (HS2 & Hlv2 & Hid2 & Hto2 & Hfrom2).
  apply wp_bind. eapply wp_mono; [by apply accept_events_wp| |done]. intros _ s3 (HS3 & Hlv3 & Hst3 & Hid3).
  eapply (wp_mono _ _ _ no_fail); [by apply check_wp| |done].
  intros _ s4 (HS4 & Hlv4 & Hrun4 & Hsame4 & Hlate4 & Hdone4).
  assert (t_state s <> Running -> s3 = s) as Hsame.
  { intros Hr. pose proof (Hid Hr) as E1. subst s1. pose proof (Hid2 Hr) as E2. subst s2. by apply Hid3. }
  assert (all_live s2 s4) as Hlv24 by (by eapply all_live_trans).
  split; [done|by do 2 (eapply all_live_trans; [done|])| | | | |].
  - intros Hr Hwhy. rewrite <-Hrun4, Hst3. destruct (Htold Hr) as [Ht1 Ht2]. destruct told.
    + specialize (Ht1 eq_refl). by rewrite (Hid2 Ht1).
    + rewrite (Ht2 eq_refl) in *. apply Hto2; [done|]. destruct Hwhy as [?%Hnot|]; done.
  - intros Hr. rewrite <-Hrun4, Hst3, <-Hnot. destruct (Htold Hr) as [Ht1 Ht2]. destruct told; [by left|].
    rewrite (Ht2 eq_refl) in *. intros Hnr. right. eapply Exists_failed; [exact Hlv24|by apply Hfrom2].
  - intros Hr. pose proof (Hsame Hr) as E3. subst s3. rewrite <-Hrun4. split; [done|]. by apply Hsame4.
  - intros Hdr. rewrite (Hsame ltac:(by rewrite Hdr)) in Hlate4. by apply Hlate4.
  - intros Hdr. rewrite (Hsame ltac:(by rewrite Hdr)) in Hdone4. by apply Hdone4.
Qed.

Lemma round_body_wp i s :
  ServerOK s -> input_ok i -> wp (Run_body o shutdown stopFd i) (fun _ => server_round i s) thrown s.
Proof.
  intros HS [Hwait Hdrain Hstop Hhealth]. unfold Run_body. apply wp_bind, wp_gets, wp_bind.
  unfold wp at 1, lift. destruct (Hwait (ComputeWaitTimeout (si_now i) s)) as [[e ->]|(events & Hev & Hans)];
    [split; [by eexists|split; [apply (sv_poller _ HS)|apply (sv_index _ HS)]]|].
  rewrite Hev. apply wp_bind, wp_gets. cbn zeta.
  set (woken := existsb _ events). apply wp_bind.
  assert ((t_stopRequested s || woken = true) <-> notified i s) as Hnot.
  { rewrite orb_true_iff. unfold notified. rewrite Hev. split; (intros [?|H]; [by left|right]); [by exists events|].
    destruct H as (evs & Heq & ?). by injection Heq as <-. }
  apply (wp_mono _ (fun _ s' => s' = s) _ thrown); [| |done].
  { apply wp_when; [|done]. intros _. unfold wp. destruct Hdrain as [->|[e ->]]; [done|].
    split; [by eexists|split; [apply (sv_poller _ HS)|apply (sv_index _ HS)]]. }
  intros _ s0 ->. apply wp_bind. destruct (t_stopRequested s || woken) eqn:Htold; cbn [when].
  - eapply wp_mono; [by apply begin_wp| |done]. intros _ s1 (HS1 & Hlv & Hid & Hnr).
    by apply (tail_wp i events true).
  - apply wp_ret. apply (tail_wp i events false); try done. apply all_live_refl, HS.
Qed.

(** ** What happens to a server between its rounds *)

Inductive server_reach s0 : Server -> Prop :=
  | reach_start : server_reach s0 s0
  | reach_round i s s' : server_reach s0 s -> t_state s <> Stopped -> input_ok i ->
      Run_body o shutdown stopFd i s = (Ret tt, s') -> server_reach s0 s'
  | reach_stop s s' : server_reach s0 s -> TcpServer_Stop s = (Ret tt, s') -> server_reach s0 s'
  | reach_move s ts : server_reach s0 s -> Forall2 (moved []) (m_subReactors s) ts ->
      server_reach s0 (s <| m_subReactors := ts |>).

Lemma Forall_moved (R R' : T -> Prop) ts ts' :
  Forall2 (moved []) ts ts' -> (forall t t', moved [] t t' -> R t -> R' t') -> Forall R ts -> Forall R' ts'.
Proof.
  intros Hm HR. induction Hm as [|t t' ts ts' Ht Hts IH]; intros Hall; [done|].
  apply Forall_cons in Hall as [H1 H2]. constructor; [by eapply HR|by apply IH].
Qed.

Lemma reach_ok s0 s : ServerOK s0 -> server_reach s0 s -> ServerOK s.
Proof.
  intros H0. induction 1 as [|i s s' _ IH Hns Hi Hrun|s s' _ IH Hrun|s ts _ IH Hm]; [done| | |].
  - pose proof (round_body_wp i s IH Hi) as Hwp. unfold wp in Hwp. rewrite Hrun in Hwp. apply Hwp.
  - injection Hrun as <-. destruct IH. by split.
  - destruct IH as [Hp Hi Hst Hrun Hend Hf Hsd]. split; cbn; try done.
    + apply (index_ok_map s); [done|]. eapply Forall2_impl; [exact Hm|]. by intros ? ? [].
    + intros Hr. destruct (Hrun Hr) as (? & ? & Hall). split; [done|]. split; [done|].
      eapply Forall_moved; [done| |exact Hall]. intros t t' [_ _ -> ->]. done.
    + intros Hr. destruct (Hend Hr) as (? & Hall). split; [done|].
      eapply Forall_moved; [done| |exact Hall]. intros t t' [_ _ -> _]. done.
    + intros Hfs. eapply Forall_moved; [done| |by apply Hf].
      intros t t' [[_ Hs _] _ _ ->] [?|?]; [left; by apply Hs|by right].
    + intros Hs. eapply Forall_moved; [done| |by apply Hsd]. intros t t' [[_ Hs' _] _ _ _]. apply Hs'.
Qed.

(** ** The end of [Run] *)

Lemma force_catch_eq s :
  Forall rc_ok (m_subReactors s) ->
  ForceStopSubReactors s = (Ret tt, s <| m_subReactors ::= fmap (fun t => (ctl_ForceStop t).2) |>).
Proof.
  intros Hok. apply (for_reactors_eq rc_ok); [done|]. intros i t s' Ht Hokt. unfold try_catch.
  by rewrite (on_reactor_eq i _ tt t) by (done || by apply (force_stop_law t)).
Qed.

(** The removals may fail; they leave the server but for its poller. *)
Lemma cleanup_remove_wp s :
  (forall p, t_poller s = Some p -> poller_ok p) ->
  wp (CleanupMainReactor_remove (T := T) stopFd) (fun _ s' => exists q, s' = s <| t_poller := q |>) no_fail s.
Proof.
  intros Hpo. unfold CleanupMainReactor_remove. apply wp_bind, wp_gets.
  assert (forall cfd s0 p0, t_poller s0 = Some p0 -> poller_ok p0 ->
    wp (try_catch (server_poller (T := T) (poller_Remove cfd)) (fun _ => mret tt))
       (fun _ s1 => exists p1, poller_ok p1 /\ s1 = s0 <| t_poller := Some p1 |>) no_fail s0) as Hrem.
  { intros cfd s0 p0 Hp Hok. apply wp_try_catch. unfold wp at 1, server_poller. rewrite Hp.
    pose proof (remove_law cfd p0 Hok) as Hlaw. unfold wp in Hlaw.
    destruct (poller_Remove cfd p0) as [[[]|f] p1]; [exists p1; by destruct Hlaw|].
    destruct Hlaw as (Hok1 & _ & e & ->). apply wp_ret. by exists p1. }
  destruct (t_poller s) as [p|] eqn:Hp; [|apply wp_ret; exists None; destruct s; cbn in *; by subst].
  apply wp_bind, wp_gets, wp_bind.
  apply (wp_mono _ (fun _ s1 => exists p1, poller_ok p1 /\ s1 = s <| t_poller := Some p1 |>) _ no_fail); [| |done].
  - destruct (m_listenFd s) as [lfd|]; [by eapply Hrem; [|apply Hpo]|].
    apply wp_ret. exists p. split; [by apply Hpo|]. destruct s; cbn in *; by subst.
  - intros _ s1 (p1 & Hok1 & ->). eapply wp_mono; [by eapply (Hrem _ _ p1)| |done].
    intros _ s2 (p2 & _ & ->). by exists (Some p2).
Qed.

Lemma cleanup_server_wp s :
  (forall p, t_poller s = Some p -> poller_ok p) ->
  wp (CleanupMainReactor stopFd)
     (fun _ s' => t_state s' = t_state s /\ m_listenFd s' = None /\ t_poller s' = None /\
        m_subReactors s' = [] /\
        t_closes s' = (match m_listenFd s with Some lfd => [lfd] | None => [] end) ++ t_closes s) no_fail s.
Proof.
  intros Hpo. apply wp_bind. eapply wp_mono; [by apply cleanup_remove_wp| |done].
  intros _ s1 [q ->]. unfold CleanupMainReactor_reset. apply wp_bind, wp_gets, wp_bind. cbn.
  destruct (m_listenFd s) as [lfd|] eqn:Hl.
  - apply wp_bind, wp_modify, wp_modify, wp_bind, wp_modify, wp_modify. by split_and!.
  - apply wp_ret, wp_bind, wp_modify, wp_modify. by split_and!.
Qed.

(** However the loop ends, [Run] leaves the server stopped, without its poller and
    listening socket, which was closed once; an exception is passed on. *)
Theorem run_cleans_up inputs s :
  ServerOK s -> Forall input_ok inputs ->
  wp (Run_serving o shutdown stopFd inputs)
     (fun _ s' => t_state s' = Stopped /\ m_listenFd s' = None /\ t_poller s' = None)
     (fun f s' => f = OutOfFuel \/ exists e, f = Throw e /\
        t_state s' = Stopped /\ m_listenFd s' = None /\ t_poller s' = None) s.
Proof.
  intros HS Hin. unfold Run_serving. apply wp_bind, wp_try_catch.
  assert (forall s0, (exists p, t_poller s0 = Some p /\ poller_ok p) /\ Forall rc_ok (m_subReactors s0) -> forall e,
    wp (Run_catch (T := T) stopFd e) (fun _ _ => False)
      (fun f s' => exists e, f = Throw e /\ t_state s' = Stopped /\ m_listenFd s' = None /\ t_poller s' = None) s0)
    as Hcatch.
  { intros s0 [(p & Hp & Hok) Hrc] e. unfold Run_catch. apply wp_bind. eapply wp_intro; [by apply force_catch_eq|].
    apply wp_bind. eapply (wp_mono _ _ _ no_fail); [apply cleanup_server_wp| |done].
    { intros q Hq. cbn in Hq. congruence. }
    intros _ s1 (_ & Hl & Hp1 & _). apply wp_bind, wp_modify, wp_fail. by exists e. }
  revert s HS. induction Hin as [|i inputs Hi Hin IH]; intros s HS; cbn [Run_loop];
    apply wp_bind, wp_gets; (case_bool_decide as Hst;
      [apply wp_ret, wp_bind; eapply (wp_mono _ _ _ no_fail);
        [apply cleanup_server_wp; intros p Hp; destruct (sv_poller _ HS) as (q & Hq & ?); congruence
        |intros _ s1 (_ & Hl & Hp & _); by apply wp_modify|done]|]).
  - apply wp_fail. by left.
  - apply wp_bind. eapply wp_mono; [by apply round_body_wp| |].
    + intros [] s1 Hround. apply IH, (sr_ok _ _ _ Hround).
    + intros f s1 [[e ->] Hp]. eapply wp_mono; [by apply Hcatch|done|]. intros f s2 H. by right.
Qed.

(** C28. The main reactor leads the shutdown: in every server reachable from a
    consistent one (by its rounds, by [Stop] and by whatever its sub-reactors do
    meanwhile), a round throws or ends in a consistent server; it leaves
    [Running] when it sees a stop notification or a sub-reactor had failed before
    it, and only when it sees one or a sub-reactor has failed by its end; then
    the listening socket is closed and every sub-reactor has been asked
    to stop by the server's deadline; from then on no client is accepted; once
    the deadline has passed every sub-reactor has stopped or was told to stop at
    once; and the server stops when, and only when, all have stopped. *)
Theorem server_shutdown_protocol s0 s i :
  ServerOK s0 -> server_reach s0 s -> t_state s <> Stopped -> input_ok i ->
  (exists e s', Run_body o shutdown stopFd i s = (Fail (Throw e), s')) \/
  exists s', Run_body o shutdown stopFd i s = (Ret tt, s') /\ server_round i s s' /\
    (t_state s' <> Running -> m_listenFd s' = None /\
       Forall (fun t => rc_asked t = Some (t_shutdownDeadline s')) (m_subReactors s')) /\
    (t_state s' = Stopped -> Forall (fun t => rc_stopped t = true) (m_subReactors s')).
Proof.
  intros H0 Hreach Hns Hi. pose proof (reach_ok _ _ H0 Hreach) as HS.
  pose proof (round_body_wp i s HS Hi) as Hwp. unfold wp in Hwp.
  destruct (Run_body o shutdown stopFd i s) as [[[]|f] s'].
  - right. exists s'. split; [done|]. split; [done|]. destruct (sr_ok _ _ _ Hwp). done.
  - left. destruct Hwp as [[e ->] _]. by exists e, s'.
Qed.
End server.

(** ** Sub-reactors keep the interface *)

(** A round of a consistent SubReactor is a move in the sense of the server. *)
Lemma sub_reactor_moves {Q : Type} `{!PriorityQueue ExpirationRecord Q}
    `{!PriorityQueueLaws ExpirationRecord Q ExpirationCompare} {P : Type} `{!Poller P, !PollerLaws P}
    o controlFd n now n' hi i (t t' : SubReactor Q P) :
  options_ok o -> ReactorOK o n now t -> m_state t <> Stopped -> round_ok o n now i n' hi ->
  exec_step o controlFd (StepRound i) t = (Ret tt, t') -> moved [] t t'.
Proof.
  intros Ho HR Hns Hi Hrun. pose proof (round_wp o controlFd Ho n now n' hi i t HR Hns Hi) as Hwp.
  pose proof (round_failed o controlFd i t) as Hfail. unfold wp in Hwp. rewrite Hrun in Hwp, Hfail.
  destruct Hwp as (HR' & HI & _). destruct (in_goes _ _ _ _ _ _ _ HI) as [Hph Hs Hf Hd _ _ _]. split.
  - split; [done| |exact Hfail]. cbn. rewrite !bool_decide_eq_true.
    rewrite (core_published _ _ _ _ (ro_core _ _ _ _ HR)). intros Hst. by rewrite Hst in Hns.
  - apply (in_owned _ _ _ _ _ _ _ HI).
  - cbn. by rewrite Hs, Hd.
  - exact Hf.
Qed.

(** ** The shutdown of the example server *)

Lemma example_server_ok : ServerOK example_server.
Proof.
  split; try done.
  - by eexists.
  - split; [split; vm_compute; (discriminate || reflexivity)|split; [vm_compute; reflexivity|by repeat constructor]].
  - intros _. split; [by eexists|]. split; [done|]. by repeat constructor.
Qed.

(** The stop descriptor, 4, is ready, and so is the listening socket. *)
Definition example_input : server_input :=
  mkServerInput (fun _ => Ret [(mkReadyEvent 7 IoEvent_Read, example_answers);
                               (mkReadyEvent 4 IoEvent_Read, [AcceptError EAGAIN])])
    (Ret tt) 0 0 0 0.

Lemma example_input_ok : input_ok NetworkOptions_default ShutdownOptions_default example_input.
Proof.
  split; [|by left|split; vm_compute; discriminate|split; vm_compute; discriminate].
  intros t. right. eexists. split; [reflexivity|].
  repeat constructor; eexists; vm_compute; reflexivity.
Qed.

(** Nobody is accepted in that round, and both sub-reactors are asked to stop
    within three seconds. *)
Example example_shutdown_round :
  let s' := (Run_body NetworkOptions_default ShutdownOptions_default 4 example_input example_server).2 in
  t_state s' = Draining /\ t_closes s' = [7] /\
  rc_asked <$> m_subReactors s' = [Some 3000000000; Some 3000000000] /\
  rc_given <$> m_subReactors s' = [[]; []].
Proof. vm_compute. by split_and!. Qed.

Lemma server_shutdown_protocol_witness :
  (exists e s', Run_body NetworkOptions_default ShutdownOptions_default 4 example_input example_server
     = (Fail (Throw e), s')) \/
  exists s', Run_body NetworkOptions_default ShutdownOptions_default 4 example_input example_server = (Ret tt, s') /\
    server_round 4 example_input example_server s'.
Proof.
  destruct (server_shutdown_protocol NetworkOptions_default ShutdownOptions_default 4
    ltac:(split; vm_compute; (discriminate || reflexivity)) example_server example_server example_input
    example_server_ok (reach_start _ _ _ _) ltac:(discriminate) example_input_ok)
    as [Hthrow|(s' & Hrun & Hround & _)].
  - left. exact Hthrow.
  - right. exists s'. split; [exact Hrun|exact Hround].
Defined.

(** ** A configuration that is accepted and serves nobody *)

Definition zero_watermarks : NetworkOptions :=
  mkNetworkOptions (1024 * 1024 + 4) 0 0 (4 * 1024 * 1024) (64 * 1024) 64.

(** The constructor accepts watermarks of zero; then a client that sends a request
    is closed with its answer unsent, because the empty queue counts as full. *)
Theorem zero_watermarks_serve_nobody :
  TcpServer_validate zero_watermarks ReactorOptions_default = Ret tt /\
  exists x', RefreshConnectionInterest zero_watermarks (example_ctx fresh_conn) = (Ret tt, x') /\
    closed (x_conn x') = true.
Proof. split; [reflexivity|]. eexists. split; vm_compute; reflexivity. Qed.
