(* ===== verification/ServerLedger.v ===== *)
(** * Every client descriptor is accounted for

    What [accept] returned is with a sub-reactor or was closed, once; only the
    listening socket is closed beside it. This holds between any two steps of the
    main loop, also when a step throws. *)

From S2P Require Import Prelude Poller PollerTheorems SubReactor EventLoop ReactorFrame TcpServer ReactorInterface ServerAccept ServerShutdown.
#[local] Open Scope Z_scope.

Section ledger.
Context {T : Type} `{!ReactorControl T, !ReactorView T, !ReactorControlLaws T}.
Context {P : Type} `{!Poller P, !PollerLaws P}.
Context (o : NetworkOptions) (shutdown : ShutdownOptions) (stopFd : Z).

Abbreviation Server := (TcpServer T P).
Implicit Types s : Server.

(** The descriptors that the sub-reactors were given. *)
Definition given s : list Z := concat (rc_given <$> m_subReactors s).

(** [lfds] is the listening socket, if it has been closed. *)
Definition Balanced s : Prop :=
  exists lfds, (length lfds <= 1)%nat /\ (is_Some (m_listenFd s) -> lfds = []) /\
    t_closes s ++ given s ≡ₚ lfds ++ t_accepts s.

(** Every client descriptor has been closed once, and at most one other
    descriptor, the listening socket. *)
Definition Settled s : Prop :=
  exists lfds, (length lfds <= 1)%nat /\ t_closes s ≡ₚ lfds ++ t_accepts s.

(** A step keeps the account. *)
Definition accounts s s' : Prop := index_ok s /\ Balanced s -> index_ok s' /\ Balanced s'.

#[local] Instance accounts_preorder : PreOrder accounts.
Proof. split; [intros s H; exact H|]. intros s1 s2 s3 H1 H2 H. by apply H2, H1. Qed.

Lemma balanced_map s ts :
  Balanced s -> concat (rc_given <$> ts) ≡ₚ given s -> Balanced (s <| m_subReactors := ts |>).
Proof.
  intros (lfds & Hl & Hs & Hb) Hg. exists lfds. split; [done|]. split; [done|]. unfold given. cbn. by rewrite Hg.
Qed.

Lemma balanced_fmap (g : T -> T) s :
  Balanced s -> Forall (fun t => rc_given (g t) ≡ₚ rc_given t) (m_subReactors s) ->
  Balanced (s <| m_subReactors ::= fmap g |>).
Proof.
  intros Hb Hg. apply (balanced_map s (g <$> m_subReactors s)); [done|]. unfold given.
  induction Hg as [|t l Ht _ IH]; [done|]. cbn. by rewrite Ht, IH.
Qed.

(** A server that has accepted and closed nothing. *)
Lemma balanced_new s : t_closes s = [] -> t_accepts s = [] -> given s = [] -> Balanced s.
Proof. intros Hc Ha Hg. exists []. rewrite Hc, Ha, Hg. by split_and!; [cbn; lia|..]. Qed.

(** A call on a sub-reactor that gives it nothing. *)
Lemma reactor_accounts {A} i (m : M T A) :
  (forall t, rc_ok t -> lives_on t (m t).2 /\ rc_given (m t).2 ≡ₚ rc_given t) -> within accounts (on_reactor (P := P) i m).
Proof.
  intros Hm s [Hi Hb]. unfold on_reactor. destruct (m_subReactors s !! i) as [t|] eqn:Ht; [|done].
  destruct (Hm t (index_ok_at _ _ _ Hi Ht)) as [Hl Hg]. destruct (m t) as [r t']. cbn [snd] in *.
  change (index_ok (s <| m_subReactors := <[i := t']> (m_subReactors s) |>) /\
    Balanced (s <| m_subReactors := <[i := t']> (m_subReactors s) |>)). split.
  - destruct Hi as (H1 & H2 & H3). unfold index_ok. cbn. rewrite zlen_insert. split_and!; [lia..|].
    apply Forall_insert; [done|apply Hl].
  - apply balanced_map; [done|]. by apply (concat_insert rc_given _ _ _ _ [] Ht).
Qed.

Lemma stop_accounts i d : within accounts (on_reactor (P := P) i (ctl_Stop d)).
Proof. apply reactor_accounts. intros t Ht. destruct (stop_law d t Ht) as (_ & Hl & _ & Hg & _). done. Qed.
Lemma force_accounts i : within accounts (on_reactor (P := P) i ctl_ForceStop).
Proof. apply reactor_accounts. intros t Ht. destruct (force_stop_law t Ht) as (_ & Hl & _ & _ & Hg). done. Qed.
Lemma is_stopped_accounts i : within accounts (on_reactor (P := P) i ctl_IsStopped).
Proof. apply reactor_accounts. intros t Ht. destruct (is_stopped_law t Ht) as (_ & [Hl Hg _ _]). done. Qed.
Lemma has_failed_accounts i : within accounts (on_reactor (P := P) i ctl_HasFailed).
Proof. apply reactor_accounts. intros t Ht. destruct (has_failed_law t Ht) as (_ & [Hl Hg _ _]). done. Qed.

Ltac account_step := first
  [ progress cbv zeta
  | apply stop_accounts | apply force_accounts | apply is_stopped_accounts | apply has_failed_accounts
  | apply within_bind; [apply _| |intros] | apply within_when; [apply _|] | apply within_try_catch; [apply _| |intros]
  | apply within_for_each; [apply _|intros]
  | by apply within_pure; intros
  | by intros ?
  | intros s H; exact H
  | match goal with |- within _ (match ?x with _ => _ end) => destruct x end ].

(** ** Accepting *)

Lemma balanced_handed cfd t s :
  index_ok s -> m_subReactors s !! Z.to_nat (m_nextSubReactorIndex s) = Some t -> Balanced s ->
  Balanced (handed cfd t (s <| t_accepts ::= cons cfd |>)).
Proof.
  intros Hi Ht (lfds & Hl & Hs & Hb). exists lfds. split; [done|]. split; [done|]. unfold given, handed. cbn.
  destruct (enqueue_law cfd t (index_ok_at _ _ _ Hi Ht)) as (_ & [_ Hg _ _]).
  rewrite (concat_insert rc_given _ _ _ _ [cfd] Ht Hg). cbn. rewrite <-!Permutation_middle. by constructor.
Qed.

Lemma accept_accounts answers count : within accounts (AcceptNewClients_loop (P := P) o count answers).
Proof.
  revert count. induction answers as [|[cfd ok|e] answers IH]; intros count; cbn [AcceptNewClients_loop].
  - repeat account_step.
  - destruct (count <? maxAcceptsPerEvent o) eqn:Hc; [|by intros s]. destruct ok; intros s [Hi Hb].
    + destruct (m_subReactors s !! Z.to_nat (m_nextSubReactorIndex s)) as [t|] eqn:Ht.
      2: { apply lookup_ge_None in Ht. unfold index_ok, zlen in Hi. lia. }
      pose proof (accept_client_eq o cfd t count answers s Hi Ht Hc) as Heq. cbn [AcceptNewClients_loop] in Heq.
      rewrite Hc in Heq. cbn [negb] in *. rewrite Heq. apply IH. split; [|by apply balanced_handed].
      apply handed_index_ok; [done|by eapply index_ok_at].
    + cbn [negb]. cbn zeta. unfold server_accept, server_close, mbind, M_bind, modify. apply IH. split; [done|].
      destruct Hb as (lfds & Hl & Hs & Hb). exists lfds. split; [done|]. split; [done|]. cbn.
      rewrite <-Permutation_middle. by constructor.
  - repeat first [apply IH|account_step].
Qed.

(** ** The rest of a round *)

(** The listening socket is given up. *)
Lemma give_up_accounts lfd s :
  m_listenFd s = Some lfd ->
  accounts s ((server_poller (T := T) (P := P) (poller_Remove lfd);;
    modify (fun s => s <| m_listenFd := None |>);; server_close lfd) s).2.
Proof.
  intros Hl [Hi (lfds & _ & Hs & Hb)]. rewrite (Hs (ex_intro _ lfd Hl)) in Hb. cbn [app] in Hb.
  assert (forall q, index_ok (s <| t_poller := q |>) /\ Balanced (s <| t_poller := q |>)) as Hq.
  { intros q. split; [done|]. exists []. by split_and!; [cbn; lia|..]. }
  unfold mbind, M_bind, server_poller. destruct (t_poller s) as [p|] eqn:Hp.
  2: { split; [done|]. exists []. by split_and!; [cbn; lia|..]. }
  destruct (poller_Remove lfd p) as [[[]|f] p']; cbn [snd]; [|apply Hq].
  unfold modify, server_close. cbn [snd]. split; [done|]. exists [lfd]. split; [done|]. split; [by intros []|].
  cbn. unfold given in Hb |- *. cbn in Hb |- *. by rewrite Hb.
Qed.

Lemma give_up_bind {A} (k : M Server A) :
  within accounts k ->
  within accounts (listenFd ← gets m_listenFd;
    (match listenFd with
     | Some lfd =>
         server_poller (poller_Remove lfd);;
         modify (fun s => s <| m_listenFd := None |>);;
         server_close lfd
     | None => mret tt
     end);;
    k).
Proof.
  intros Hk s. unfold mbind at 1, M_bind at 1, gets. destruct (m_listenFd s) as [lfd|] eqn:Hl; [|apply Hk].
  pose proof (give_up_accounts lfd s Hl) as Hg. unfold mbind at 1, M_bind at 1.
  destruct ((server_poller _;; _) s) as [[[]|f] s1]; [|done]. etrans; [exact Hg|apply Hk].
Qed.

Lemma begin_accounts now : within accounts (BeginGracefulShutdown (T := T) (P := P) shutdown now).
Proof. unfold BeginGracefulShutdown, checked_i64, for_reactors. repeat first [apply give_up_bind|account_step]. Qed.

Lemma body_accounts i : within accounts (Run_body (T := T) (P := P) o shutdown stopFd i).
Proof.
  assert (forall l, within accounts (all_stopped (T := T) (P := P) l)) as Hall.
  { induction l as [|j l IH]; cbn [all_stopped]; repeat first [apply IH|account_step]. }
  assert (forall now l, within accounts (check_health (T := T) (P := P) shutdown now l)) as Hhealth.
  { intros now. induction l as [|j l IH]; cbn [check_health]; repeat first [apply IH|apply begin_accounts|account_step]. }
  unfold Run_body, CheckSubReactorHealth, CheckShutdownProgress, accept_event, AcceptNewClients, for_reactors.
  repeat first [apply Hall|apply Hhealth|apply begin_accounts|apply accept_accounts|account_step].
Qed.
End ledger.
