(* ===== verification/Logger.v ===== *)
(** * Logger: levels and filtered lines (observability/logger.h, observability/logger.cpp)

    The logger keeps its threshold and writes to [std::cerr]; the state is the
    threshold together with the lines written so far. The calendar text of
    the time stamp ([localtime_r], [std::put_time]) and the printed thread id
    are arguments of the call. A message is the text [fmt::format] produced. *)

From S2P Require Import Prelude CommandExecutor.
#[local] Open Scope Z_scope.

Inductive LogLevel := LL_Debug | LL_Info | LL_Warn | LL_Error | LL_Off.

#[export] Instance LogLevel_eq_dec : EqDecision LogLevel.
Proof. solve_decision. Defined.

(** [static_cast<int>(level)] *)
Definition level_int (l : LogLevel) : Z :=
  match l with
  | LL_Debug => 0
  | LL_Info => 1
  | LL_Warn => 2
  | LL_Error => 3
  | LL_Off => 4
  end.

Definition LogLevelName (l : LogLevel) : string :=
  match l with
  | LL_Debug => "DEBUG"
  | LL_Info => "INFO"
  | LL_Warn => "WARN"
  | LL_Error => "ERROR"
  | LL_Off => "OFF"
  end.

Record Logger := mkLogger {
  m_logLevel : Z;
  (** what [std::cerr] received, one entry per [Write] *)
  l_lines : list bytes;
}.
#[export] Instance Logger_settable : Settable Logger := fun l =>
  {| m_logLevel := m_logLevel l; l_lines := l_lines l |}.

Definition Logger_init : Logger := mkLogger (level_int LL_Info) [].

Definition SetLevel (l : LogLevel) : M Logger unit := modify (fun s => s <| m_logLevel := level_int l |>).

(** [static_cast<LogLevel>(value)]; [None] for a number that is no enumerator. *)
Definition level_of_int (z : Z) : option LogLevel :=
  list_find (fun l => level_int l = z) [LL_Debug; LL_Info; LL_Warn; LL_Error; LL_Off] ≫= fun x => Some x.2.

Definition GetLevel : M Logger (option LogLevel) := gets (fun s => level_of_int (m_logLevel s)).

Definition ShouldLog (l : LogLevel) (s : Logger) : bool := m_logLevel s <=? level_int l.

(** [std::setfill('0') << std::setw(3) << n] *)
Definition pad3 (n : Z) : bytes :=
  let t := to_string n in replicate (3 - length t) "0"%char ++ t.

Record log_context := mkLogContext {
  lc_calendar : bytes;
  (** milliseconds since the epoch *)
  lc_now_ms : Z;
  lc_thread : bytes;
}.

Definition log_line (c : log_context) (l : LogLevel) (message : bytes) : bytes :=
  lc_calendar c ++ lit "." ++ pad3 (Z.rem (lc_now_ms c) 1000) ++ lit " [" ++ lit (LogLevelName l) ++
  lit "] [thread=" ++ lc_thread c ++ lit "] " ++ message ++ newline.

(** The lock makes the insertions of one call contiguous. *)
Definition Write (c : log_context) (l : LogLevel) (message : bytes) : M Logger unit :=
  modify (fun s => s <| l_lines ::= fun ls => ls ++ [log_line c l message] |>).

Definition Log (c : log_context) (l : LogLevel) (message : bytes) : M Logger unit :=
  s ← gets id;
  if negb (ShouldLog l s) then mret tt else Write c l message.

(** [Debug], [Info], [Warn] and [Error]: the public calls. *)
Definition Log_Debug c := Log c LL_Debug.
Definition Log_Info c := Log c LL_Info.
Definition Log_Warn c := Log c LL_Warn.
Definition Log_Error c := Log c LL_Error.

(** ** What reaches the output *)

Inductive log_call :=
  | CallSetLevel (l : LogLevel)
  | CallDebug (c : log_context) (m : bytes)
  | CallInfo (c : log_context) (m : bytes)
  | CallWarn (c : log_context) (m : bytes)
  | CallError (c : log_context) (m : bytes).

Definition exec_call (a : log_call) : M Logger unit :=
  match a with
  | CallSetLevel l => SetLevel l
  | CallDebug c m => Log_Debug c m
  | CallInfo c m => Log_Info c m
  | CallWarn c m => Log_Warn c m
  | CallError c m => Log_Error c m
  end.

Fixpoint exec_calls (l : list log_call) : M Logger unit :=
  match l with
  | [] => mret tt
  | a :: l => exec_call a;; exec_calls l
  end.

(** The lines a sequence of calls prints under a threshold, as a reader of
    the documentation expects them. *)
Fixpoint printed (threshold : LogLevel) (l : list log_call) : list bytes :=
  let line c lv m := if level_int threshold <=? level_int lv then [log_line c lv m] else [] in
  match l with
  | [] => []
  | CallSetLevel t :: l => printed t l
  | CallDebug c m :: l => line c LL_Debug m ++ printed threshold l
  | CallInfo c m :: l => line c LL_Info m ++ printed threshold l
  | CallWarn c m :: l => line c LL_Warn m ++ printed threshold l
  | CallError c m :: l => line c LL_Error m ++ printed threshold l
  end.

Lemma Log_spec c l m s :
  Log c l m s = (Ret tt, if m_logLevel s <=? level_int l
                         then s <| l_lines := l_lines s ++ [log_line c l m] |> else s).
Proof. unfold Log, ShouldLog, mbind, M_bind, gets. by destruct (_ <=? _). Qed.

(** The level set last is the one in force; no call of the logger leaves a value
    that is no level. *)
Lemma level_of_int_ok l : level_of_int (level_int l) = Some l.
Proof. by destruct l. Qed.

Lemma exec_calls_printed calls t out :
  exists t', exec_calls calls (mkLogger (level_int t) out)
    = (Ret tt, mkLogger (level_int t') (out ++ printed t calls)).
Proof.
  revert t out. induction calls as [|a calls IH]; intros t out; cbn [exec_calls printed].
  { exists t. by rewrite app_nil_r. }
  unfold mbind, M_bind. destruct a as [l|c m|c m|c m|c m]; cbn [exec_call].
  { apply IH. }
  all: unfold Log_Debug, Log_Info, Log_Warn, Log_Error; rewrite Log_spec; cbn [m_logLevel l_lines];
    destruct (_ <=? _); cbn [app]; [|apply IH]; rewrite (cons_middle _ _ (printed _ _)), app_assoc; apply IH.
Qed.

Lemma GetLevel_after calls t out :
  exists t', (exec_calls calls;; GetLevel) (mkLogger (level_int t) out)
    = (Ret (Some t'), mkLogger (level_int t') (out ++ printed t calls)).
Proof.
  destruct (exec_calls_printed calls t out) as [t' Hrun]. exists t'. unfold mbind, M_bind. rewrite Hrun.
  unfold GetLevel, gets. cbn [m_logLevel]. by rewrite level_of_int_ok.
Qed.

(** Under [Off] none of the public calls prints anything. *)
Lemma off_prints_nothing calls :
  Forall (fun a => match a with CallSetLevel _ => False | _ => True end) calls ->
  printed LL_Off calls = [].
Proof. induction 1 as [|a calls Ha _ IH]; [done|]. by destruct a. Qed.

(** A message without line feed is one line of output. *)
Lemma log_line_newline c l m :
  exists pre, log_line c l m = pre ++ newline.
Proof. unfold log_line. rewrite !app_assoc. eauto. Qed.
