(* ===== verification/AppConfig.v ===== *)
(** * AppConfig: the settings of a server and the names they are written with

    The record of [config/app_config.h], the parsers of [config/config_parser.cpp]
    and the validation of [ConfigLoader::Validate]. Durations are counts of
    milliseconds, sizes are [size_t] values. *)

From S2P Require Import Prelude Poller SubReactor TcpServer Logger.
#[local] Open Scope Z_scope.

#[export] Instance PollerBackend_eq_dec : EqDecision PollerBackend.
Proof. solve_decision. Defined.
#[export] Instance NetworkOptions_settable : Settable NetworkOptions := fun o =>
  mkNetworkOptions (maxReadBufferBytes o) (writeHighWatermarkBytes o) (writeLowWatermarkBytes o)
    (writeHardLimitBytes o) (maxWriteBytesPerEvent o) (maxAcceptsPerEvent o).
#[export] Instance ReactorOptions_settable : Settable ReactorOptions := fun r =>
  mkReactorOptions (pollerBackend r) (subReactorCount r).
#[export] Instance ShutdownOptions_settable : Settable ShutdownOptions := fun s =>
  mkShutdownOptions (gracefulTimeout s).

Record AppConfig := mkAppConfig {
  host : bytes;
  port : Z;
  network : NetworkOptions;
  reactor : ReactorOptions;
  shutdown : ShutdownOptions;
  sweepInterval : Z;
  logLevel : LogLevel;
}.
#[export] Instance AppConfig_settable : Settable AppConfig := fun c =>
  mkAppConfig (host c) (port c) (network c) (reactor c) (shutdown c) (sweepInterval c) (logLevel c).

(** The default member initialisers. *)
Definition AppConfig_default : AppConfig :=
  mkAppConfig (lit "0.0.0.0") 7777 NetworkOptions_default ReactorOptions_default
    ShutdownOptions_default 5000 LL_Info.

(** ** config_parser.cpp *)

Definition ParsePollerBackend (value : bytes) : outcome PollerBackend :=
  if bool_decide (value = lit "auto") then Ret PB_Auto else
  if bool_decide (value = lit "epoll") then Ret PB_Epoll else
  if bool_decide (value = lit "poll") then Ret PB_Poll else
  Fail (Throw (invalid_argument "poller backend must be auto, epoll or poll")).

Definition ParsePollerBackendName (backend : PollerBackend) : bytes :=
  match backend with
  | PB_Auto => lit "auto"
  | PB_Poll => lit "poll"
  | PB_Epoll => lit "epoll"
  end.

Definition logValueMap : list (bytes * LogLevel) :=
  [(lit "debug", LL_Debug); (lit "info", LL_Info); (lit "warn", LL_Warn); (lit "error", LL_Error);
   (lit "off", LL_Off)].

Definition ParseLogLevel (value : bytes) : outcome LogLevel :=
  match list_find (fun e => value = fst e) logValueMap with
  | Some (_, (_, l)) => Ret l
  | None => Fail (Throw (invalid_argument "log level must be debug, info, warn, error, or off"))
  end.

(** [std::clamp(std::thread::hardware_concurrency() / 2, 1U, 8U)]; zero is what
    the library answers when it does not know. *)
Definition auto_sub_reactors (hardware_concurrency : Z) : Z :=
  Z.min 8 (Z.max 1 (hardware_concurrency / 2)).

(** ** Validate *)

Definition Validate (c : AppConfig) : outcome unit :=
  let n := network c in
  if bool_decide (host c = [])
  then Fail (Throw (invalid_argument "server.host must not be empty")) else
  if (port c <? 1) || (65535 <? port c)
  then Fail (Throw (invalid_argument "port must be between 1 and 65535")) else
  if maxReadBufferBytes n <? 4
  then Fail (Throw (invalid_argument "maxReadBufferBytes must be at least 4")) else
  if writeHighWatermarkBytes n <? writeLowWatermarkBytes n
  then Fail (Throw (invalid_argument "write low watermark exceeds high watermark")) else
  if writeHardLimitBytes n <? writeHighWatermarkBytes n
  then Fail (Throw (invalid_argument "write high watermark exceeds hard limit")) else
  if maxWriteBytesPerEvent n =? 0
  then Fail (Throw (invalid_argument "maxWriteBytesPerEvent must be greater than zero")) else
  if maxAcceptsPerEvent n =? 0
  then Fail (Throw (invalid_argument "maxAcceptsPerEvent must be greater than zero")) else
  if 16 <? subReactorCount (reactor c)
  then Fail (Throw (invalid_argument "sub_reactors must be between 0 and 16")) else
  if gracefulTimeout (shutdown c) <=? 0
  then Fail (Throw (invalid_argument "shutdown.graceful_timeout_ms must be greater than zero")) else
  if sweepInterval c <? 0
  then Fail (Throw (invalid_argument "ttl.sweep_interval_ms must not be negative")) else
  Ret tt.

(** ** Typing: every field holds a value of its C++ type *)

Definition is_size (z : Z) : Prop := 0 <= z < U64_MOD.
Definition is_int (z : Z) : Prop := INT_MIN <= z <= INT_MAX.
Definition is_i64 (z : Z) : Prop := I64_MIN <= z <= I64_MAX.

Record NetworkTyped (n : NetworkOptions) : Prop := {
  nt_read : is_size (maxReadBufferBytes n);
  nt_high : is_size (writeHighWatermarkBytes n);
  nt_low : is_size (writeLowWatermarkBytes n);
  nt_hard : is_size (writeHardLimitBytes n);
  nt_write : is_size (maxWriteBytesPerEvent n);
  nt_accepts : is_size (maxAcceptsPerEvent n);
}.

(** A number of sub-reactors is never left at zero, which stands for "auto"
    on input. *)
Record ConfigTyped (c : AppConfig) : Prop := {
  ct_port : is_int (port c);
  ct_network : NetworkTyped (network c);
  ct_subs : is_size (subReactorCount (reactor c)) /\ 1 <= subReactorCount (reactor c);
  ct_timeout : is_i64 (gracefulTimeout (shutdown c));
  ct_sweep : is_i64 (sweepInterval c);
}.

(** What validation promises. *)
Record ConfigValid (c : AppConfig) : Prop := {
  cv_host : host c <> [];
  cv_port : 1 <= port c <= 65535;
  cv_read : 4 <= maxReadBufferBytes (network c);
  cv_low : writeLowWatermarkBytes (network c) <= writeHighWatermarkBytes (network c);
  cv_high : writeHighWatermarkBytes (network c) <= writeHardLimitBytes (network c);
  cv_write : maxWriteBytesPerEvent (network c) <> 0;
  cv_accepts : maxAcceptsPerEvent (network c) <> 0;
  cv_subs : subReactorCount (reactor c) <= 16;
  cv_timeout : 0 < gracefulTimeout (shutdown c);
  cv_sweep : 0 <= sweepInterval c;
}.

(** ** Lemmas *)

Lemma Validate_ok c : Validate c = Ret tt <-> ConfigValid c.
Proof.
  unfold Validate. split.
  - intros H. repeat (case_bool_decide || case_match); try done; constructor; first [done|lia].
  - intros []. rewrite bool_decide_false by done.
    repeat match goal with |- context [if ?b then _ else _] => replace b with false by lia end. done.
Qed.

Lemma Validate_invalid c :
  Validate c = Ret tt \/ exists what, Validate c = Fail (Throw (invalid_argument what)).
Proof. unfold Validate. repeat case_match; eauto. Qed.

Lemma poller_backend_roundtrip v b :
  ParsePollerBackend v = Ret b <-> v = ParsePollerBackendName b.
Proof.
  unfold ParsePollerBackend. repeat case_bool_decide; subst; split; intros Hq; simplify_eq; try done;
    destruct b; done.
Qed.

Lemma ParsePollerBackend_only_throws v : only_throws (ParsePollerBackend v).
Proof. unfold ParsePollerBackend. by repeat case_match. Qed.

(** The name the log level is written with in the configuration. *)
Definition level_word (l : LogLevel) : bytes :=
  match l with
  | LL_Debug => lit "debug"
  | LL_Info => lit "info"
  | LL_Warn => lit "warn"
  | LL_Error => lit "error"
  | LL_Off => lit "off"
  end.

Lemma log_level_roundtrip v l : ParseLogLevel v = Ret l <-> v = level_word l.
Proof.
  unfold ParseLogLevel. split.
  - destruct (list_find _ _) as [[i [w l']]|] eqn:Hf; [|done]. intros [= ->].
    apply list_find_Some in Hf as (Hi & -> & _). cbn.
    do 5 (destruct i as [|i]; [by inversion Hi|]). done.
  - intros ->. by destruct l.
Qed.

Lemma ParseLogLevel_only_throws v : only_throws (ParseLogLevel v).
Proof. unfold ParseLogLevel. by destruct (list_find _ _) as [[? [? ?]]|]. Qed.

Lemma auto_sub_reactors_range hw : 1 <= auto_sub_reactors hw <= 8.
Proof. unfold auto_sub_reactors. lia. Qed.

Lemma AppConfig_default_typed : ConfigTyped AppConfig_default.
Proof. by repeat constructor. Qed.

Lemma AppConfig_default_valid : ConfigValid AppConfig_default.
Proof. by apply Validate_ok. Qed.

(** What the constructor of the server checks again always holds. *)
Lemma valid_server c :
  ConfigValid c -> ConfigTyped c -> TcpServer_validate (network c) (reactor c) = Ret tt.
Proof.
  intros [] []. unfold TcpServer_validate.
  repeat match goal with |- context [if ?b then _ else _] => replace b with false by lia end. done.
Qed.
