(* ===== verification/CommandLine.v ===== *)
(** * The command line (config/command_line.cpp, NeedShowHelp of app/server_main.cpp)

    [argv] is the list of arguments, the program's name first. A loop
    [for (i = 1; i < argc; ++i)] runs over a state that holds [i], and the
    functions that advance it are computations on [i]; the overriding pass
    also changes the configuration in place. *)

From S2P Require Import Prelude Poller SubReactor TcpServer CommandParser CommandGrammar Logger AppConfig.
#[local] Open Scope Z_scope.

Definition text (b : bytes) : string := String.string_of_list_ascii b.

(** ** std::from_chars (base ten) *)

Record int_type := mkIntType { it_min : Z; it_max : Z }.
Definition int_t : int_type := mkIntType INT_MIN INT_MAX.
Definition size_t : int_type := mkIntType 0 (U64_MOD - 1).

Inductive errc := errc_ok | errc_invalid_argument | errc_result_out_of_range.

(** The value, the position after the number, the error. A minus sign is
    recognised for signed types only, a plus sign never; without digits the
    position is the start; out of range the digits are skipped and the value
    is left alone. *)
Definition from_chars (T : int_type) (s : bytes) (result : Z) : Z * nat * errc :=
  let '(neg, body) :=
    match s with
    | c :: r => if (it_min T <? 0) && bool_decide (c = "-"%char) then (true, r) else (false, s)
    | [] => (false, s)
    end in
  let ds := take_while IsDigit body in
  if bool_decide (ds = []) then (result, 0%nat, errc_invalid_argument) else
  let v := if neg then - decimal ds else decimal ds in
  let pos := (length s - length body + length ds)%nat in
  if (it_min T <=? v) && (v <=? it_max T) then (v, pos, errc_ok)
  else (result, pos, errc_result_out_of_range).

Definition ParseInteger (T : int_type) (value opt : bytes) : outcome Z :=
  let '(result, ptr, error) := from_chars T value 0 in
  if match error with errc_ok => false | _ => true end || negb (ptr =? length value)%nat
  then Fail (Throw (invalid_argument
         ("invalid integer for option " +:+ text opt +:+ ": " +:+ text value)))
  else Ret result.

(** ** Options and their values *)

Section CommandLine.
Context (argv : list bytes).

Definition argc : nat := length argv.

(** [argv[idx]] *)
Definition argv_at {S} (idx : nat) : M S bytes :=
  match argv !! idx with
  | Some a => mret a
  | None => fail (Undefined "argv index out of range")
  end.

Definition RequireNextValue (opt : bytes) : M nat bytes :=
  idx ← gets id;
  if (argc <=? idx + 1)%nat
  then throw (invalid_argument ("Missing value for option:" +:+ text opt)) else
  modify S;;
  idx ← gets id;
  value ← argv_at idx;
  if bool_decide (value = [])
  then throw (invalid_argument ("Empty value for option:" +:+ text opt)) else
  mret value.

Definition StartsWith (value pfx : bytes) : bool :=
  (length pfx <=? length value)%nat && bool_decide (take (length pfx) value = pfx).

Definition MatchesOption (argument opt : bytes) : bool :=
  if bool_decide (argument = opt) then true
  else StartsWith argument (opt ++ lit "=").

Definition ParseInlineValue (argument opt : bytes) : outcome (option bytes) :=
  if bool_decide (argument = opt) then Ret None else
  let pfx := opt ++ lit "=" in
  if negb (StartsWith argument pfx) then Ret None else
  let value := drop (length pfx) argument in
  if bool_decide (value = [])
  then Fail (Throw (invalid_argument ("empty value for option " +:+ text opt))) else
  Ret (Some value).

Definition ReadOptionValue (argument opt : bytes) : M nat bytes :=
  if bool_decide (argument = opt) then RequireNextValue opt else
  inlineValue ← lift (ParseInlineValue argument opt);
  match inlineValue with
  | None => throw (logic_error "argument does not match option")
  | Some v => mret v
  end.

(** ** The loop over the arguments

    [for (int i = 1; i < argc; ++i) { argument = argv[i]; turn }], where the turn
    may advance [i] itself; [i] grows with every turn. *)

Definition for_argv_body {X} (turn : bytes -> M (X * nat) unit) : M (X * nat) ctl :=
  i ← gets snd;
  if (argc <=? i)%nat then mret Break else
  argument ← argv_at i;
  turn argument;;
  zoom snd (modify S);;
  mret Continue.

Definition for_argv {X} (turn : bytes -> M (X * nat) unit) : M X unit :=
  with_local 1%nat (loop (S argc) (for_argv_body turn)).

(** ** FindConfigPath

    The state is [configPath] and [i]. *)

Definition FindConfigPath_keep (value : bytes) : M (option bytes * nat) unit :=
  configPath ← gets fst;
  match configPath with
  | Some _ => throw (invalid_argument "configuration file specified multiple times")
  | None => modify (fun st => st <| fst := Some value |>)
  end.

Definition FindConfigPath_turn (argument : bytes) : M (option bytes * nat) unit :=
  if bool_decide (argument = lit "--config") || bool_decide (argument = lit "-c") then
    value ← zoom snd (RequireNextValue argument);
    FindConfigPath_keep value
  else if MatchesOption argument (lit "--config") then
    value ← zoom snd (ReadOptionValue argument (lit "--config"));
    FindConfigPath_keep value
  else mret tt.

Definition FindConfigPath : outcome (option bytes) :=
  match for_argv FindConfigPath_turn None with
  | (Ret _, configPath) => Ret configPath
  | (Fail f, _) => Fail f
  end.

(** ** ApplyCommandLineOverrides

    The state is the configuration and [i]. *)

(** [std::thread::hardware_concurrency()] *)
Context (hardware_concurrency : Z).

(** What one turn does with its argument. *)
Definition ApplyCommandLineOverrides_turn (argument : bytes) : M (AppConfig * nat) unit :=
  let value_of (opt : bytes) : M (AppConfig * nat) bytes :=
    zoom snd (ReadOptionValue argument opt) in
  if bool_decide (argument = lit "--config") || bool_decide (argument = lit "-c") then
    zoom snd (RequireNextValue argument);; mret tt
  else if MatchesOption argument (lit "--config") then
    value_of (lit "--config");; mret tt
  else if MatchesOption argument (lit "--host") then
    value ← value_of (lit "--host");
    zoom fst (modify (fun c => c <| host := value |>))
  else if MatchesOption argument (lit "--port") then
    value ← value_of (lit "--port");
    n ← lift (ParseInteger int_t value (lit "--port"));
    zoom fst (modify (fun c => c <| port := n |>))
  else if MatchesOption argument (lit "--poller") then
    value ← value_of (lit "--poller");
    b ← lift (ParsePollerBackend value);
    zoom fst (modify (fun c => c <| reactor ::= fun r => r <| pollerBackend := b |> |>))
  else if MatchesOption argument (lit "--sub-reactors") then
    value ← value_of (lit "--sub-reactors");
    n ← lift (ParseInteger size_t value (lit "--sub-reactors"));
    zoom fst (modify (fun c => c <| reactor ::= fun r => r <| subReactorCount := n |> |>));;
    zoom fst (modify (fun c =>
      if subReactorCount (reactor c) =? 0
      then c <| reactor ::= fun r => r <| subReactorCount := auto_sub_reactors hardware_concurrency |> |>
      else c))
  else if MatchesOption argument (lit "--log-level") then
    value ← value_of (lit "--log-level");
    l ← lift (ParseLogLevel value);
    zoom fst (modify (fun c => c <| logLevel := l |>))
  else if bool_decide (argument = lit "--help") || bool_decide (argument = lit "-h") then mret tt
  else throw (invalid_argument ("unknown command line option: " +:+ text argument)).

Definition ApplyCommandLineOverrides : M AppConfig unit := for_argv ApplyCommandLineOverrides_turn.

(** ** NeedShowHelp *)

Definition is_help (argument : bytes) : bool :=
  bool_decide (argument = lit "--help") || bool_decide (argument = lit "-h").

Definition NeedShowHelp : outcome bool :=
  if negb (existsb is_help (tail argv)) then Ret false else
  if (argc =? 2)%nat then Ret true else
  Fail (Throw (invalid_argument "--help and -h can only be used alone")).
End CommandLine.
