(* ===== verification/CommandLineSpec.v ===== *)
(** * The language of command lines, and that the two passes decide it

    A command line spells a list of settings; each setting is an option with
    its value in the next argument or after an equals sign. The overriding
    pass is shown to accept exactly the lines that spell settings and to apply
    them from left to right. *)

From S2P Require Import Prelude Poller SubReactor TcpServer CommandParser CommandGrammar Logger AppConfig CommandLine ReactorEvents.
#[local] Open Scope Z_scope.

(** ** Integers in text *)

(** [v] spells the value [n] of type [T]: digits, after a minus sign where the
    type is signed. *)
Definition int_text (T : int_type) (v : bytes) (n : Z) : Prop :=
  ((is_digits v /\ n = decimal v) \/
   (it_min T < 0 /\ exists ds, v = lit "-" ++ ds /\ is_digits ds /\ n = - decimal ds)) /\
  it_min T <= n <= it_max T.

(** [throws_invalid o]: the outcome is an [std::invalid_argument]. *)
Definition throws_invalid {A} (o : outcome A) : Prop :=
  exists what, o = Fail (Throw (invalid_argument what)).

Lemma take_while_all {A} (p : A -> bool) l : Forall (fun x => p x = true) l -> take_while p l = l.
Proof. intros H. rewrite <-(app_nil_r l) at 1. by apply take_while_app. Qed.

Lemma take_while_full {A} (p : A -> bool) l :
  length (take_while p l) = length l -> Forall (fun x => p x = true) l.
Proof.
  intros Hl. pose proof (take_drop_while p l) as Ht.
  assert (drop_while p l = []) as Hd.
  { apply length_zero_iff_nil. apply (f_equal length) in Ht. rewrite length_app in Ht. lia. }
  rewrite Hd, app_nil_r in Ht. rewrite <-Ht. apply take_while_Forall.
Qed.

Lemma not_digit_minus : IsDigit "-" = false.
Proof. done. Qed.

(** The part of [from_chars] after the sign. *)
Lemma parse_unsigned_part T (neg : bool) s body opt :
  s = (if neg then lit "-" else []) ++ body ->
  let ds := take_while IsDigit body in
  let v := if neg then - decimal ds else decimal ds in
  let r := if bool_decide (ds = []) then (0, 0%nat, errc_invalid_argument) else
    if (it_min T <=? v) && (v <=? it_max T)
    then (v, (length s - length body + length ds)%nat, errc_ok)
    else (0, (length s - length body + length ds)%nat, errc_result_out_of_range) in
  let '(result, ptr, error) := r in
  let o := if match error with errc_ok => false | _ => true end || negb (ptr =? length s)%nat
    then Fail (Throw (invalid_argument
       ("invalid integer for option " +:+ text opt +:+ ": " +:+ text s)))
    else Ret result in
  (forall n, o = Ret n <-> is_digits body /\ n = (if neg then - decimal body else decimal body) /\
     it_min T <= n <= it_max T) /\
  (throws_invalid o \/ exists n, o = Ret n).
Proof.
  intros Hs ds v. assert (length s = length (if neg then lit "-" else []) + length body)%nat as Hl
    by (rewrite Hs; apply length_app).
  pose proof (take_drop_while IsDigit body) as Htd.
  assert (is_digits body -> ds = body) as Hfull by (intros [_ Hd]; by apply take_while_all).
  case_bool_decide as Hds.
  { cbn. split; [|left; eexists; done]. intros n. split; [done|]. intros (Hd & _).
    rewrite <-(Hfull Hd), Hds in Hd. by destruct Hd. }
  destruct ((it_min T <=? v) && (v <=? it_max T)) eqn:Hr; cbn.
  2: { split; [|left; eexists; done]. intros n. split; [done|]. intros (Hd & -> & ?).
       unfold v in Hr. rewrite (Hfull Hd) in Hr. destruct neg; lia. }
  destruct (Nat.eqb_spec (length s - length body + length ds) (length s)) as [He|He]; cbn.
  - assert (length ds = length body) as Hlen by (destruct neg; cbn in *; lia).
    assert (is_digits body) as Hd.
    { split; [by intros ->|]. by apply take_while_full. }
    unfold v in *. rewrite (Hfull Hd) in *. split; [|eauto]. intros n. split.
    + intros [= <-]. split_and!; [done..|lia|lia].
    + intros (_ & -> & _). done.
  - split; [|left; eexists; done]. intros n. split; [done|]. intros (Hd & _).
    rewrite (Hfull Hd) in He. destruct neg; cbn in *; lia.
Qed.

(** [ParseInteger] accepts exactly the spellings of values of the type. *)
Lemma ParseInteger_exact T value opt :
  (forall n, ParseInteger T value opt = Ret n <-> int_text T value n) /\
  (throws_invalid (ParseInteger T value opt) \/ exists n, ParseInteger T value opt = Ret n).
Proof.
  unfold ParseInteger, from_chars, int_text. destruct value as [|c r].
  { pose proof (parse_unsigned_part T false [] [] opt eq_refl) as [H1 H2].
    split; [|exact H2]. intros n. rewrite (H1 n). split; [by intros [[? _] _]|].
    intros [[[[? _] _]|(_ & ds & Hds & _)] _]; done. }
  destruct ((it_min T <? 0) && bool_decide (c = "-"%char)) eqn:Hc.
  - apply andb_prop in Hc as [Hm ->%bool_decide_eq_true].
    pose proof (parse_unsigned_part T true (("-"%char) :: r) r opt eq_refl) as Hp.
    cbv zeta in Hp. destruct (if bool_decide _ then _ else _) as [[result ptr] error].
    destruct Hp as [H1 H2]. split; [|exact H2]. intros n. rewrite (H1 n). split.
    + intros (Hd & -> & Hn). split; [|done]. right. split; [lia|]. by exists r.
    + intros [[[[_ Hd] _]|(_ & ds & [= ->] & Hd & ->)] Hn]; [|done].
      inversion Hd as [|? ? Hx]. by rewrite not_digit_minus in Hx.
  - pose proof (parse_unsigned_part T false (c :: r) (c :: r) opt eq_refl) as Hp.
    cbv zeta in Hp. destruct (if bool_decide _ then _ else _) as [[result ptr] error].
    destruct Hp as [H1 H2]. split; [|exact H2]. intros n. rewrite (H1 n). split.
    + intros (Hd & -> & Hn). split; [|done]. by left.
    + intros [[[Hd ->]|(Hm & ds & [= -> _] & _)] Hn]; [done|].
      rewrite bool_decide_true in Hc by done. lia.
Qed.

Lemma int_text_functional T v n n' : int_text T v n -> int_text T v n' -> n = n'.
Proof.
  intros H1%(proj2 (proj1 (ParseInteger_exact T v []) n)) H2%(proj2 (proj1 (ParseInteger_exact T v []) n')).
  congruence.
Qed.

(** ** Settings and how they are spelled *)

Inductive setting :=
  | SConfig (path : bytes)
  | SHost (h : bytes)
  | SPort (p : Z)
  | SPoller (b : PollerBackend)
  | SSubReactors (n : Z)
  | SLogLevel (l : LogLevel)
  | SHelp.

(** The options with a value; [-c] is the short name of one. *)
Inductive option_name :=
  | ON_config | ON_host | ON_port | ON_poller | ON_sub_reactors | ON_log_level.

#[export] Instance option_name_eq_dec : EqDecision option_name.
Proof. solve_decision. Defined.

Definition name_text (o : option_name) : bytes :=
  match o with
  | ON_config => lit "--config"
  | ON_host => lit "--host"
  | ON_port => lit "--port"
  | ON_poller => lit "--poller"
  | ON_sub_reactors => lit "--sub-reactors"
  | ON_log_level => lit "--log-level"
  end.

(** [denotes o v s]: the value [v] of the option [o] stands for the setting [s]. *)
Inductive denotes : option_name -> bytes -> setting -> Prop :=
  | den_config v : denotes ON_config v (SConfig v)
  | den_host v : denotes ON_host v (SHost v)
  | den_port v n : int_text int_t v n -> denotes ON_port v (SPort n)
  | den_poller b : denotes ON_poller (ParsePollerBackendName b) (SPoller b)
  | den_sub v n : int_text size_t v n -> denotes ON_sub_reactors v (SSubReactors n)
  | den_log l : denotes ON_log_level (level_word l) (SLogLevel l).

(** [reads o args v rest]: the arguments start with the option and its value. *)
Inductive reads (o : option_name) : list bytes -> bytes -> list bytes -> Prop :=
  | reads_next v rest : v <> [] -> reads o (name_text o :: v :: rest) v rest
  | reads_short v rest : o = ON_config -> v <> [] -> reads o (lit "-c" :: v :: rest) v rest
  | reads_inline v rest : v <> [] -> reads o ((name_text o ++ lit "=" ++ v) :: rest) v rest.

Inductive spells1 : list bytes -> setting -> list bytes -> Prop :=
  | spells1_value o args v s rest : reads o args v rest -> denotes o v s -> spells1 args s rest
  | spells1_help a rest : is_help a = true -> spells1 (a :: rest) SHelp rest.

Inductive spells : list bytes -> list setting -> Prop :=
  | spells_nil : spells [] []
  | spells_cons args s rest ss : spells1 args s rest -> spells rest ss -> spells args (s :: ss).

(** What a setting does to the configuration. *)
Definition apply_setting (hw : Z) (c : AppConfig) (s : setting) : AppConfig :=
  match s with
  | SConfig _ | SHelp => c
  | SHost h => c <| host := h |>
  | SPort p => c <| port := p |>
  | SPoller b => c <| reactor ::= fun r => r <| pollerBackend := b |> |>
  | SSubReactors n =>
      c <| reactor ::= fun r => r <| subReactorCount := if n =? 0 then auto_sub_reactors hw else n |> |>
  | SLogLevel l => c <| logLevel := l |>
  end.

(** ** Options are told apart by their first argument *)

(** The argument is the option, or the option with an inline value. *)
Definition names (a : bytes) (o : option_name) : Prop :=
  a = name_text o \/ exists v, a = name_text o ++ lit "=" ++ v.

Lemma names_functional a o o' : names a o -> names a o' -> o = o'.
Proof.
  intros [-> | (v & ->)] [Ho | (v' & Ho)]; destruct o, o'; try done.
Qed.

Lemma names_not_word a o : names a o -> a <> lit "-c" /\ is_help a = false.
Proof.
  intros Hn. split; [by intros ->; destruct Hn as [Hn | (v & Hn)]; destruct o|].
  unfold is_help. rewrite !bool_decide_false; [done|..]; intros ->;
    destruct Hn as [Hn | (v & Hn)]; by destruct o.
Qed.

Lemma StartsWith_spec a p : StartsWith a p = true <-> exists r, a = p ++ r.
Proof.
  unfold StartsWith. split.
  - intros [_ Ht%bool_decide_eq_true]%andb_prop. exists (drop (length p) a).
    by rewrite <-Ht at 1; rewrite take_drop.
  - intros (r & ->). rewrite take_app_length, length_app, bool_decide_true by done.
    rewrite andb_true_r. apply Nat.leb_le. lia.
Qed.

Lemma MatchesOption_spec a o : MatchesOption a (name_text o) = true <-> names a o.
Proof.
  unfold MatchesOption, names. case_bool_decide as Ha; [by split; auto|].
  rewrite StartsWith_spec. split.
  - intros (r & ->). right. exists r. by rewrite <-app_assoc.
  - intros [? | (v & ->)]; [done|]. exists v. by rewrite <-app_assoc.
Qed.

Lemma ParseInlineValue_spec a o :
  a <> name_text o -> names a o ->
  (exists v, a = name_text o ++ lit "=" ++ v /\ v <> [] /\ ParseInlineValue a (name_text o) = Ret (Some v)) \/
  (a = name_text o ++ lit "=" /\ throws_invalid (ParseInlineValue a (name_text o))).
Proof.
  intros Hne [? | (v & Ha)]; [done|]. unfold ParseInlineValue.
  rewrite bool_decide_false by done.
  assert (StartsWith a (name_text o ++ lit "=") = true) as ->.
  { apply StartsWith_spec. exists v. by rewrite Ha, <-app_assoc. }
  cbn [negb]. rewrite Ha, app_assoc, drop_app_length. case_bool_decide as Hv.
  - right. subst v. rewrite app_nil_r. split; [done|]. eexists; done.
  - left. exists v. rewrite <-app_assoc. done.
Qed.

(** The first argument decides what can be read. *)
Lemma reads_head o a args v rest :
  reads o (a :: args) v rest -> names a o \/ (a = lit "-c" /\ o = ON_config).
Proof.
  unfold names. inversion 1; subst; [by left; left|by right|left; right; by exists v].
Qed.

Lemma reads_functional o args v rest v' rest' :
  reads o args v rest -> reads o args v' rest' -> v = v' /\ rest = rest'.
Proof.
  intros H1 H2. inversion H1; subst; inversion H2; subst; try done;
    try (by destruct o); simplify_list_eq; done.
Qed.

Lemma reads_shorter o args v rest : reads o args v rest -> (length rest < length args)%nat.
Proof. destruct 1; cbn; lia. Qed.

Lemma reads_name_inv o args v rest :
  reads o (name_text o :: args) v rest -> args = v :: rest /\ v <> [].
Proof.
  inversion 1 as [| |v' ? Hv' Heq]; subst; [done|done|].
  apply (f_equal length) in Heq. rewrite !length_app in Heq. cbn in Heq. lia.
Qed.

Lemma reads_no_value o args v rest : ~ reads o ((name_text o ++ lit "=") :: args) v rest.
Proof.
  intros Hr. remember ((name_text o ++ lit "=") :: args) as l eqn:Hl.
  destruct Hr as [v rest Hv|v rest -> Hv|v rest Hv]; 
    pose proof (f_equal (fun l => length (default [] (head l))) Hl) as Heq;
    cbn [head default from_option id] in Heq; rewrite ?length_app in Heq; cbn in Heq; try lia.
  apply Hv, length_zero_iff_nil. lia.
Qed.

(** ** Reading one value *)

(** [m] from [i] throws an [std::invalid_argument]. *)
Definition rejects {S A} (m : M S A) (s : S) : Prop :=
  exists what s', m s = (Fail (Throw (invalid_argument what)), s').

Section passes.
Context (argv : list bytes).

Lemma drop_tail {A} (l : list A) i a args : drop i l = a :: args -> drop (S i) l = args.
Proof. intros H. by rewrite <-Nat.add_1_r, <-drop_drop, H. Qed.

Lemma drop_head {A} (l : list A) i a args : drop i l = a :: args -> l !! i = Some a.
Proof. intros H. rewrite <-(Nat.add_0_r i), <-lookup_drop. by rewrite H. Qed.

Lemma drop_some_lt {A} (l : list A) i a args : drop i l = a :: args -> (i < length l)%nat.
Proof. intros H%drop_head%lookup_lt_Some. done. Qed.

Lemma argv_at_ok {S} i a args (s : S) : drop i argv = a :: args -> argv_at argv i s = (Ret a, s).
Proof. intros H%drop_head. unfold argv_at. by rewrite H. Qed.

Lemma RequireNextValue_spec i a args opt :
  drop i argv = a :: args ->
  (exists v rest, args = v :: rest /\ v <> [] /\ RequireNextValue argv opt i = (Ret v, S i)) \/
  ((forall v rest, args = v :: rest -> v = []) /\ rejects (RequireNextValue argv opt) i).
Proof.
  intros Hd. pose proof (drop_tail _ _ _ _ Hd) as Ht. unfold rejects.
  unfold RequireNextValue, gets, modify, mbind, M_bind. cbn [id]. unfold argc.
  destruct args as [|v rest].
  - assert (length argv <= i + 1)%nat as Hl%Nat.leb_le.
    { apply (f_equal length) in Ht. rewrite length_drop in Ht. cbn in Ht. lia. }
    rewrite Hl. right. split; [done|]. by do 2 eexists.
  - pose proof (drop_some_lt _ _ _ _ Ht). destruct (Nat.leb_spec (length argv) (i + 1)); [lia|].
    rewrite (argv_at_ok _ _ _ _ Ht). case_bool_decide as Hv.
    + right. split; [by intros ? ? [= <- <-]|]. by do 2 eexists.
    + left. by exists v, rest.
Qed.

Lemma ReadOptionValue_spec i a args o :
  drop i argv = a :: args -> names a o ->
  (exists v rest i', reads o (a :: args) v rest /\ drop (S i') argv = rest /\ (i <= i')%nat /\
     ReadOptionValue argv a (name_text o) i = (Ret v, i')) \/
  ((forall v rest, ~ reads o (a :: args) v rest) /\ rejects (ReadOptionValue argv a (name_text o)) i).
Proof.
  intros Hd Hn. pose proof (drop_tail _ _ _ _ Hd) as Ht. unfold rejects, ReadOptionValue.
  destruct (decide (a = name_text o)) as [->|Ha].
  - rewrite bool_decide_true by done.
    destruct (RequireNextValue_spec i _ _ (name_text o) Hd) as [(v & rest & -> & Hv & ->)|[Hno Hr]].
    + left. exists v, rest, (S i). split_and!; [by constructor|by eapply drop_tail|lia|done].
    + right. split; [|exact Hr]. intros v rest [-> Hv]%reads_name_inv. by eapply Hv, Hno.
  - rewrite bool_decide_false by done. unfold lift, mbind, M_bind.
    destruct (ParseInlineValue_spec a o Ha Hn) as [(v & -> & Hv & ->)|(-> & what & ->)].
    + left. exists v, args, i. split_and!; [by constructor|done|lia|done].
    + right. split; [|by do 2 eexists]. intros v rest Hrd. by eapply reads_no_value.
Qed.

(** ** One turn of the overriding pass *)

Context (hw : Z).

(** Only the settings of an option that the first argument names can be
    spelled. *)
Lemma spells1_named a args s rest o :
  names a o -> spells1 (a :: args) s rest -> exists v, reads o (a :: args) v rest /\ denotes o v s.
Proof.
  intros Hn Hs. inversion Hs as [o' args' v s' rest' Hr Hd|a' rest' Hh]; subst.
  - destruct (reads_head _ _ _ _ _ Hr) as [Hn' | [-> ->]].
    + rewrite (names_functional _ _ _ Hn Hn') in *. eauto.
    + by destruct (names_not_word _ _ Hn).
  - destruct (names_not_word _ _ Hn). congruence.
Qed.

(** [turn_ok a args i m]: [m] applies the one setting spelled at [i], or
    rejects the arguments when none is. *)
Definition turn_ok (a : bytes) (args : list bytes) (m : M (AppConfig * nat) unit) (c : AppConfig) (i : nat) : Prop :=
  (exists s rest i', spells1 (a :: args) s rest /\ drop (S i') argv = rest /\ (i <= i')%nat /\
     m (c, i) = (Ret tt, (apply_setting hw c s, i'))) \/
  ((forall s rest, ~ spells1 (a :: args) s rest) /\ rejects m (c, i)).

(** A branch that reads the option's value, parses it with [p], and updates
    the configuration by [k]. *)
Lemma option_turn {A} (o : option_name) (p : bytes -> outcome A) (k : A -> M (AppConfig * nat) unit)
    (mk : A -> setting) a args c i :
  drop i argv = a :: args -> names a o ->
  (forall v x, p v = Ret x <-> denotes o v (mk x)) ->
  (forall v s, denotes o v s -> exists x, s = mk x) ->
  (forall v, throws_invalid (p v) \/ exists x, p v = Ret x) ->
  (forall x i', k x (c, i') = (Ret tt, (apply_setting hw c (mk x), i'))) ->
  turn_ok a args
    (value ← zoom snd (ReadOptionValue argv a (name_text o));
     x ← lift (p value);
     k x) c i.
Proof.
  intros Hd Hn Hp Hmk Ht Hk. unfold turn_ok, rejects, mbind, M_bind, zoom, lift. cbn [snd].
  destruct (ReadOptionValue_spec i a args o Hd Hn)
    as [(v & rest & i' & Hr & Hrest & Hi & ->)|[Hno (what & s' & ->)]].
  - destruct (Ht v) as [(what & Hv)|(x & Hx)]; rewrite ?Hv, ?Hx.
    + right. split; [|by do 2 eexists]. intros s rest' Hs.
      destruct (spells1_named _ _ _ _ _ Hn Hs) as (v' & Hr' & Hden).
      destruct (reads_functional _ _ _ _ _ _ Hr Hr') as [<- _].
      destruct (Hmk _ _ Hden) as (x & ->). apply Hp in Hden. congruence.
    + left. exists (mk x), rest, i'. split_and!; try done.
      * econstructor; [done|]. by apply Hp.
      * by apply Hk.
  - right. split; [|by do 2 eexists]. intros s rest Hs.
    destruct (spells1_named _ _ _ _ _ Hn Hs) as (v & Hr & _). by eapply Hno.
Qed.

Lemma denotes_inv o v s :
  denotes o v s ->
  match o with
  | ON_config => s = SConfig v
  | ON_host => s = SHost v
  | ON_port => exists n, s = SPort n /\ int_text int_t v n
  | ON_poller => exists b, s = SPoller b /\ v = ParsePollerBackendName b
  | ON_sub_reactors => exists n, s = SSubReactors n /\ int_text size_t v n
  | ON_log_level => exists l, s = SLogLevel l /\ v = level_word l
  end.
Proof. destruct 1; eauto. Qed.

Lemma parse_throws {A} (o : outcome A) :
  match o with Fail (Throw (invalid_argument _)) | Ret _ => True | _ => False end ->
  throws_invalid o \/ exists x, o = Ret x.
Proof. destruct o as [x|[[]| | |]]; try done; [by right; exists x|by left; eexists]. Qed.

Lemma no_option_spelled a args :
  a <> lit "-c" -> is_help a = false -> (forall o, ~ names a o) -> forall s rest, ~ spells1 (a :: args) s rest.
Proof.
  intros Hc Hh Hn s rest Hs. inversion Hs as [o args' v s' rest' Hr Hd|]; subst; [|congruence].
  destruct (reads_head _ _ _ _ _ Hr) as [? | [? _]]; [by eapply Hn|done].
Qed.

Lemma short_config_spelled args s rest :
  spells1 (lit "-c" :: args) s rest -> exists v, args = v :: rest /\ v <> [] /\ s = SConfig v.
Proof.
  inversion 1 as [o args' v s' rest' Hr Hd|]; subst; [|done].
  inversion Hr as [v' r Hv Ho|v' r Ho Hv|v' r Hv Ho]; subst.
  - by destruct o.
  - apply denotes_inv in Hd. eauto.
  - by destruct o.
Qed.

(** Reading the value of an option that is the whole argument. *)
Lemma ReadOptionValue_self a : ReadOptionValue argv a a = RequireNextValue argv a.
Proof. unfold ReadOptionValue. by rewrite bool_decide_true. Qed.

Lemma short_config_turn args c i :
  drop i argv = lit "-c" :: args ->
  turn_ok (lit "-c") args (zoom snd (RequireNextValue argv (lit "-c"));; mret tt) c i.
Proof.
  intros Hd. unfold turn_ok, rejects, mbind, M_bind, zoom. cbn [snd].
  destruct (RequireNextValue_spec i _ _ (lit "-c") Hd) as [(v & rest & -> & Hv & Hr)|[Hno (what & s' & Hr)]].
  - rewrite Hr. left. exists (SConfig v), rest, (S i). split_and!; try done.
    + econstructor; [by apply reads_short|constructor].
    + by eapply drop_tail, drop_tail.
    + lia.
  - rewrite Hr. right. split; [|by do 2 eexists].
    intros s rest (v & -> & Hv & _)%short_config_spelled. by eapply Hv, Hno.
Qed.

(** An option whose values are taken as they are. *)
Lemma text_turn (o : option_name) (k : bytes -> M (AppConfig * nat) unit) (mk : bytes -> setting) a args c i :
  drop i argv = a :: args -> names a o ->
  (forall v s, denotes o v s <-> s = mk v) -> Inj eq eq mk ->
  (forall x i', k x (c, i') = (Ret tt, (apply_setting hw c (mk x), i'))) ->
  turn_ok a args (value ← zoom snd (ReadOptionValue argv a (name_text o)); k value) c i.
Proof.
  intros Hd Hn Hden Hinj Hk. apply (option_turn o Ret k mk); try done.
  - intros v x. rewrite Hden. split; [by intros [= ->]|by intros ->%Hinj].
  - intros v s ->%Hden. by exists v.
  - intros v. right. by exists v.
Qed.

Lemma help_turn a args c i :
  drop i argv = a :: args -> is_help a = true -> turn_ok a args (mret tt) c i.
Proof.
  intros Hd Hh. left. exists SHelp, args, i. split_and!; [by constructor|by eapply drop_tail|lia|done].
Qed.

Lemma config_turn a args c i :
  drop i argv = a :: args -> names a ON_config ->
  turn_ok a args (_ ← zoom snd (ReadOptionValue argv a (name_text ON_config)); mret tt) c i.
Proof.
  intros Hd Hn. apply (text_turn ON_config (fun _ => mret tt) SConfig); try done; [|by intros ?? [= ->]].
  intros v s. split; [apply denotes_inv|by intros ->; constructor].
Qed.

Lemma override_turn_ok a args c i :
  drop i argv = a :: args -> turn_ok a args (ApplyCommandLineOverrides_turn argv hw a) c i.
Proof.
  intros Hd. unfold ApplyCommandLineOverrides_turn. cbv zeta. fold (is_help a).
  destruct (decide (a = lit "-c")) as [->|Hc].
  { by apply short_config_turn. }
  rewrite (bool_decide_false (a = lit "-c")), orb_false_r by done.
  destruct (decide (a = lit "--config")) as [->|Hc'].
  { rewrite bool_decide_true, <-ReadOptionValue_self by done. apply config_turn; [done|by left]. }
  rewrite bool_decide_false by done.
  destruct (MatchesOption a (lit "--config")) eqn:H1.
  { apply (MatchesOption_spec a ON_config) in H1. by apply config_turn. }
  destruct (MatchesOption a (lit "--host")) eqn:H2.
  { apply (MatchesOption_spec a ON_host) in H2.
    apply (text_turn ON_host _ SHost); try done; [|by intros ?? [= ->]].
    intros v s. split; [apply denotes_inv|by intros ->; constructor]. }
  destruct (MatchesOption a (lit "--port")) eqn:H3.
  { apply (MatchesOption_spec a ON_port) in H3.
    apply (option_turn ON_port _ _ SPort); try done.
    - intros v n. rewrite (proj1 (ParseInteger_exact _ _ _)). split; [by constructor|].
      by intros (? & [= ->] & ?)%denotes_inv.
    - intros v s (n & -> & _)%denotes_inv. eauto.
    - intros v. apply ParseInteger_exact. }
  destruct (MatchesOption a (lit "--poller")) eqn:H4.
  { apply (MatchesOption_spec a ON_poller) in H4.
    apply (option_turn ON_poller _ _ SPoller); try done.
    - intros v b. rewrite poller_backend_roundtrip. split; [intros ->; by constructor|].
      by intros (? & [= ->] & ?)%denotes_inv.
    - intros v s (n & -> & _)%denotes_inv. eauto.
    - intros v. apply parse_throws. unfold ParsePollerBackend. by repeat case_match. }
  destruct (MatchesOption a (lit "--sub-reactors")) eqn:H5.
  { apply (MatchesOption_spec a ON_sub_reactors) in H5.
    apply (option_turn ON_sub_reactors _ _ SSubReactors); try done.
    - intros v n. rewrite (proj1 (ParseInteger_exact _ _ _)). split; [by constructor|].
      by intros (? & [= ->] & ?)%denotes_inv.
    - intros v s (n & -> & _)%denotes_inv. eauto.
    - intros v. apply ParseInteger_exact.
    - intros n i'. unfold mbind, M_bind, zoom, modify. cbn. by destruct (n =? 0). }
  destruct (MatchesOption a (lit "--log-level")) eqn:H6.
  { apply (MatchesOption_spec a ON_log_level) in H6.
    apply (option_turn ON_log_level _ _ SLogLevel); try done.
    - intros v l. rewrite log_level_roundtrip. split; [intros ->; by constructor|].
      by intros (? & [= ->] & ?)%denotes_inv.
    - intros v s (n & -> & _)%denotes_inv. eauto.
    - intros v. apply parse_throws. unfold ParseLogLevel. by destruct (list_find _ _) as [[? [? ?]]|]. }
  destruct (is_help a) eqn:Hh; [by apply help_turn|].
  right. split; [|by do 2 eexists]. apply no_option_spelled; try done.
  intros o Hn%MatchesOption_spec. destruct o; cbn [name_text] in Hn; congruence.
Qed.

Lemma denotes_functional o v s s' : denotes o v s -> denotes o v s' -> s = s'.
Proof.
  intros H1%denotes_inv H2%denotes_inv. destruct o; [congruence|congruence|..];
    destruct H1 as (x & -> & Hx), H2 as (y & -> & Hy); f_equal; subst;
    [by eapply int_text_functional|by destruct x, y|by eapply int_text_functional|by destruct x, y].
Qed.

Lemma reads_option args v rest o o' v' rest' :
  reads o args v rest -> reads o' args v' rest' -> o = o'.
Proof.
  intros H1 H2. assert (exists a l, args = a :: l) as (a & l & ->) by (inversion H1; eauto).
  apply reads_head in H1 as [H1 | [-> ->]], H2 as [H2 | [H2 ->]]; try done.
  - by eapply names_functional.
  - subst a. by destruct (names_not_word _ _ H1).
  - by destruct (names_not_word _ _ H2).
Qed.

Lemma spells1_functional args s rest s' rest' :
  spells1 args s rest -> spells1 args s' rest' -> s = s' /\ rest = rest'.
Proof.
  intros H1 H2. destruct H1 as [o args v s rest Hr Hd|a rest Hh];
    inversion H2 as [o' args' v' s'' rest'' Hr' Hd'|a' rest'' Hh']; subst.
  - pose proof (reads_option _ _ _ _ _ _ _ Hr Hr') as <-.
    destruct (reads_functional _ _ _ _ _ _ Hr Hr') as [<- <-].
    split; [by eapply denotes_functional|done].
  - destruct (reads_head _ _ _ _ _ Hr) as [[_ Hn]%names_not_word | [-> _]]; [congruence|done].
  - destruct (reads_head _ _ _ _ _ Hr') as [[_ Hn]%names_not_word | [-> _]]; [congruence|done].
  - done.
Qed.

(** ** The whole pass *)

Lemma for_argv_body_eq {X} (turn : bytes -> M (X * nat) unit) x i :
  for_argv_body argv turn (x, i) =
  match drop i argv with
  | [] => (Ret Break, (x, i))
  | a :: _ =>
      match turn a (x, i) with
      | (Ret _, (x', i')) => (Ret Continue, (x', S i'))
      | (Fail f, st) => (Fail f, st)
      end
  end.
Proof.
  unfold for_argv_body, mbind, M_bind, gets. cbn [snd]. unfold argc.
  destruct (Nat.leb_spec (length argv) i) as [Hle|Hlt]; [by rewrite (drop_ge argv i)|].
  destruct (drop i argv) as [|a args] eqn:Hd.
  { apply (f_equal length) in Hd. rewrite length_drop in Hd. cbn in Hd. lia. }
  rewrite (argv_at_ok _ _ _ _ Hd). by destruct (turn a (x, i)) as [[|f] [x' i']].
Qed.

(** One unfolding of the loop. *)
Lemma for_argv_step {X} (turn : bytes -> M (X * nat) unit) fuel x i :
  loop (S fuel) (for_argv_body argv turn) (x, i) =
  match drop i argv with
  | [] => (Ret tt, (x, i))
  | a :: _ =>
      match turn a (x, i) with
      | (Ret _, (x', i')) => loop fuel (for_argv_body argv turn) (x', S i')
      | (Fail f, st) => (Fail f, st)
      end
  end.
Proof.
  cbn [loop]. unfold mbind, M_bind. rewrite for_argv_body_eq.
  destruct (drop i argv) as [|a args]; [done|]. by destruct (turn a (x, i)) as [[|f] [x' i']].
Qed.

Lemma override_loop fuel c i :
  (length argv - i < fuel)%nat ->
  (exists ss i', spells (drop i argv) ss /\
     loop fuel (for_argv_body argv (ApplyCommandLineOverrides_turn argv hw)) (c, i)
     = (Ret tt, (foldl (apply_setting hw) c ss, i'))) \/
  ((forall ss, ~ spells (drop i argv) ss) /\
   rejects (loop fuel (for_argv_body argv (ApplyCommandLineOverrides_turn argv hw))) (c, i)).
Proof.
  revert c i. induction fuel as [|fuel IH]; intros c i Hf; [lia|]. unfold rejects in *.
  rewrite for_argv_step. destruct (drop i argv) as [|a args] eqn:Hd.
  { left. exists [], i. split; [constructor|done]. }
  pose proof (drop_some_lt _ _ _ _ Hd) as Hlt.
  destruct (override_turn_ok a args c i Hd) as [(s & rest & i' & Hs & Hrest & Hi & ->)|[Hno (what & s' & ->)]].
  - destruct (IH (apply_setting hw c s) (S i')) as [(ss & i'' & Hss & ->)|[Hno (what & s' & ->)]]; [lia|..].
    + left. exists (s :: ss), i''. split; [|done]. econstructor; [done|]. by rewrite <-Hrest.
    + right. split; [|by exists what, s']. intros ss Hss.
      inversion Hss as [|args' s1 rest' ss' H1 H2]; subst.
      destruct (spells1_functional _ _ _ _ _ Hs H1) as [<- Heq]. subst. by eapply Hno.
  - right. split; [|by do 2 eexists]. intros ss Hss.
    inversion Hss as [|args' s1 rest' ss' H1 H2]; subst. by eapply Hno.
Qed.

Lemma apply_decides c :
  (exists ss, spells (tail argv) ss /\
     ApplyCommandLineOverrides argv hw c = (Ret tt, foldl (apply_setting hw) c ss)) \/
  ((forall ss, ~ spells (tail argv) ss) /\ rejects (ApplyCommandLineOverrides argv hw) c).
Proof.
  unfold rejects, ApplyCommandLineOverrides, for_argv, with_local, argc.
  destruct (override_loop (S (length argv)) c 1) as [(ss & i' & Hss & Hl)|[Hno (what & [c' i'] & Hl)]]; [lia|..];
    rewrite Hl.
  - left. exists ss. split; [|done]. by destruct argv.
  - right. split; [|by do 2 eexists]. by destruct argv.
Qed.

(** ** The scan for the configuration file

    [FindConfigPath] looks at every argument that is not the value of a
    configuration option, so that the values of the other options are taken
    for options when they look like one. Only a host can. *)

Definition config_word (a : bytes) : Prop := a = lit "-c" \/ names a ON_config.

Lemma config_word_dec a : config_word a \/ ~ config_word a.
Proof.
  unfold config_word. destruct (decide (a = lit "-c")); [by do 2 left|].
  destruct (MatchesOption a (name_text ON_config)) eqn:Hm.
  - apply MatchesOption_spec in Hm. by left; right.
  - right. intros [? | Hn%MatchesOption_spec]; [done|congruence].
Qed.

Definition plain (s : setting) : Prop :=
  match s with SHost h => ~ config_word h | _ => True end.

Definition config_paths (ss : list setting) : list bytes :=
  omap (fun s => match s with SConfig p => Some p | _ => None end) ss.

Lemma config_word_not_digits v : config_word v -> exists c r, v = ("-"%char) :: c :: r /\ IsDigit c = false.
Proof.
  intros [-> | [-> | (w & ->)]]; cbn; by do 2 eexists.
Qed.

Lemma int_text_not_config T v n : int_text T v n -> ~ config_word v.
Proof.
  intros [Hv _] (c & r & -> & Hc)%config_word_not_digits.
  destruct Hv as [[[_ Hd] _]|(_ & ds & [= <-] & [_ Hd] & _)].
  - inversion Hd as [|? ? Hm]. by rewrite not_digit_minus in Hm.
  - inversion Hd. congruence.
Qed.

Lemma plain_value o v s : o <> ON_config -> denotes o v s -> plain s -> ~ config_word v.
Proof.
  intros Ho Hd Hp. destruct Hd as [v|v|v n Hn|b|v n Hn|l]; [done|done|..].
  - by eapply int_text_not_config.
  - intros (c & r & Hq & _)%config_word_not_digits. by destruct b.
  - by eapply int_text_not_config.
  - intros (c & r & Hq & _)%config_word_not_digits. by destruct l.
Qed.

Lemma find_turn_skip a p i : ~ config_word a -> FindConfigPath_turn argv a (p, i) = (Ret tt, (p, i)).
Proof.
  intros Hc. unfold FindConfigPath_turn. rewrite !bool_decide_false; [|intros ->; apply Hc..]; cbn [orb].
  - destruct (MatchesOption a (lit "--config")) eqn:Hm; [|done].
    apply (MatchesOption_spec a ON_config) in Hm. exfalso. apply Hc. by right.
  - by left.
  - right. by left.
Qed.

Lemma find_turn_config a args v rest i :
  drop i argv = a :: args -> reads ON_config (a :: args) v rest ->
  exists i', drop (S i') argv = rest /\
    FindConfigPath_turn argv a (None, i) = (Ret tt, (Some v, i')) /\
    (forall q, rejects (FindConfigPath_turn argv a) (Some q, i)).
Proof.
  intros Hd Hr. unfold FindConfigPath_turn, rejects.
  destruct (reads_head _ _ _ _ _ Hr) as [Hn | [-> _]].
  - assert (forall {X} (k : bytes -> M (X * nat) unit),
        (if bool_decide (a = lit "--config") || bool_decide (a = lit "-c")
         then value ← zoom snd (RequireNextValue argv a); k value
         else if MatchesOption a (lit "--config")
              then value ← zoom snd (ReadOptionValue argv a (lit "--config")); k value
              else mret tt) =
        (value ← zoom snd (ReadOptionValue argv a (name_text ON_config)); k value)) as ->.
    { intros X k. rewrite (bool_decide_false (a = lit "-c")), orb_false_r by apply (names_not_word _ _ Hn).
      case_bool_decide as Ha; [by rewrite Ha, <-ReadOptionValue_self|].
      by assert (MatchesOption a (lit "--config") = true) as -> by by apply (MatchesOption_spec a ON_config). }
    unfold mbind, M_bind, zoom. cbn [snd].
    destruct (ReadOptionValue_spec i a args ON_config Hd Hn) as [(w & r & i' & Hw & Hrest & _ & ->)|[Hno _]].
    2: { by destruct (Hno v rest). }
    destruct (reads_functional _ _ _ _ _ _ Hr Hw) as [<- <-].
    exists i'. split_and!; [done|done|]. intros q. by do 2 eexists.
  - cbn [bool_decide orb decide]. rewrite (bool_decide_true (lit "-c" = lit "-c")), orb_true_r by done.
    unfold mbind, M_bind, zoom. cbn [snd].
    assert (args = v :: rest /\ v <> []) as [-> Hv] by by inversion Hr.
    destruct (RequireNextValue_spec i _ _ (lit "-c") Hd) as [(w & r & [= <- <-] & _ & ->)|[Hno _]].
    + exists (S i). split_and!; [by eapply drop_tail, drop_tail|done|]. intros q. by do 2 eexists.
    + by destruct Hv; eapply Hno.
Qed.

(** What the scan keeps: the one path, [None] for more than one. *)
Definition collect (p : option bytes) (ps : list bytes) : option (option bytes) :=
  match p, ps with
  | p, [] => Some p
  | None, [v] => Some (Some v)
  | _, _ => None
  end.

Definition scans (p : option bytes) (ps : list bytes) (fuel i : nat) : Prop :=
  match collect p ps with
  | Some r => exists i', loop fuel (for_argv_body argv (FindConfigPath_turn argv)) (p, i) = (Ret tt, (r, i'))
  | None => rejects (loop fuel (for_argv_body argv (FindConfigPath_turn argv))) (p, i)
  end.

(** A turn that changes nothing moves on. *)
Lemma scans_skip p ps fuel i a args :
  drop i argv = a :: args -> ~ config_word a -> scans p ps fuel (S i) -> scans p ps (S fuel) i.
Proof.
  intros Hd Hc. unfold scans, rejects. by rewrite for_argv_step, Hd, find_turn_skip.
Qed.

Lemma names_config_word a o : o <> ON_config -> names a o -> ~ config_word a.
Proof.
  intros Ho Hn [-> | Hc]; [by destruct (names_not_word _ _ Hn)|].
  by apply Ho, (names_functional a).
Qed.

(** A turn that finds a path. *)
Lemma scans_config p ps fuel i a args v rest :
  drop i argv = a :: args -> reads ON_config (a :: args) v rest ->
  (forall i', drop i' argv = rest -> scans (Some v) ps fuel i') ->
  scans p (v :: ps) (S fuel) i.
Proof.
  intros Hd Hr Hrest. destruct (find_turn_config _ _ _ _ _ Hd Hr) as (i' & Hi' & Hturn & Hrej).
  unfold scans, rejects in *. rewrite for_argv_step, Hd. destruct p as [q|]; cbn [collect].
  - destruct (Hrej q) as (what & s' & ->). by do 2 eexists.
  - rewrite Hturn. specialize (Hrest (S i') Hi'). by destruct ps.
Qed.

Lemma find_loop args ss :
  spells args ss -> forall p fuel i,
  Forall plain ss -> drop i argv = args -> (length args < fuel)%nat ->
  scans p (config_paths ss) fuel i.
Proof.
  induction 1 as [|args s rest ss Hs Hss IH]; intros p fuel i Hpl Hd Hf.
  { unfold scans. cbn [config_paths omap list_omap collect]. destruct fuel; [cbn in Hf; lia|].
    rewrite for_argv_step, Hd. destruct p; by exists i. }
  apply Forall_cons in Hpl as [Hp Hpl]. destruct fuel as [|fuel]; [lia|].
  destruct Hs as [o args v s rest Hr Hden|a rest Hh].
  2: { eapply scans_skip; [done| |apply IH; [done|by eapply drop_tail|cbn in Hf; lia]].
       intros [-> | Hc%names_not_word]; [done|destruct Hc; congruence]. }
  destruct (decide (o = ON_config)) as [->|Ho].
  - apply denotes_inv in Hden as ->. change (config_paths (SConfig v :: ss)) with (v :: config_paths ss).
    destruct args as [|a args]; [by inversion Hr|].
    eapply scans_config; [done|done|].
    intros i' Hi'. apply IH; [done|done|]. apply reads_shorter in Hr. lia.
  - assert (config_paths (s :: ss) = config_paths ss) as ->.
    { destruct Hden; done. }
    destruct Hr as [v rest Hv|v rest -> Hv|v rest Hv]; [|done|].
    + eapply scans_skip; [done|by eapply names_config_word; [done|left]|].
      destruct fuel as [|fuel]; [cbn in Hf; lia|].
      apply drop_tail in Hd. eapply scans_skip; [done|by eapply plain_value|].
      apply IH; [done|by eapply drop_tail|cbn in Hf; lia].
    + eapply scans_skip; [done|eapply names_config_word; [done|right; by exists v]|].
      apply IH; [done|by eapply drop_tail|cbn in Hf; lia].
Qed.

Lemma find_config_agrees ss :
  spells (tail argv) ss -> Forall plain ss ->
  match config_paths ss with
  | [] => FindConfigPath argv = Ret None
  | [p] => FindConfigPath argv = Ret (Some p)
  | _ => throws_invalid (FindConfigPath argv)
  end.
Proof.
  intros Hss Hpl. assert (scans None (config_paths ss) (S (length argv)) 1) as Hsc.
  { apply (find_loop _ _ Hss); [done|by destruct argv|]. destruct argv; cbn; lia. }
  unfold FindConfigPath, for_argv, with_local, argc, throws_invalid, scans, rejects in *.
  destruct (config_paths ss) as [|p [|q ps]]; cbn [collect] in Hsc.
  - by destruct Hsc as (i' & ->).
  - by destruct Hsc as (i' & ->).
  - destruct Hsc as (what & [c' i'] & ->). by eexists.
Qed.
(** On any arguments the scan ends, normally or with the exception. *)
Lemma read_config_word a args i :
  drop i argv = a :: args -> config_word a ->
  (exists v rest, reads ON_config (a :: args) v rest) \/
  (forall p, rejects (FindConfigPath_turn argv a) (p, i)).
Proof.
  intros Hd [-> | Hn].
  - destruct (RequireNextValue_spec i _ _ (lit "-c") Hd) as [(v & rest & -> & Hv & _)|[_ (what & s' & Hr)]].
    + left. exists v, rest. by apply reads_short.
    + right. intros p. unfold rejects, FindConfigPath_turn.
      rewrite (bool_decide_true (lit "-c" = lit "-c")), orb_true_r by done.
      unfold mbind, M_bind, zoom. cbn [snd]. rewrite Hr. by do 2 eexists.
  - destruct (ReadOptionValue_spec i a args ON_config Hd Hn) as [(v & rest & _ & Hr & _)|[_ (what & s' & Hr)]].
    + left. by exists v, rest.
    + right. intros p. unfold rejects, FindConfigPath_turn.
      change (name_text ON_config) with (lit "--config") in Hr.
      rewrite (bool_decide_false (a = lit "-c")), orb_false_r by apply (names_not_word _ _ Hn).
      case_bool_decide as Ha; unfold mbind, M_bind, zoom; cbn [snd].
      * subst a. rewrite <-ReadOptionValue_self. rewrite Hr. by do 2 eexists.
      * assert (MatchesOption a (lit "--config") = true) as -> by by apply (MatchesOption_spec a ON_config).
        cbn [snd]; rewrite Hr. by do 2 eexists.
Qed.

Lemma find_total fuel p i :
  (length (drop i argv) < fuel)%nat ->
  (exists st, loop fuel (for_argv_body argv (FindConfigPath_turn argv)) (p, i) = (Ret tt, st)) \/
  rejects (loop fuel (for_argv_body argv (FindConfigPath_turn argv))) (p, i).
Proof.
  revert p i. induction fuel as [|fuel IH]; intros p i Hf; [lia|]. unfold rejects in *.
  rewrite for_argv_step. destruct (drop i argv) as [|a args] eqn:Hd; [left; by eexists|].
  pose proof (drop_tail _ _ _ _ Hd) as Ht. cbn in Hf.
  destruct (config_word_dec a) as [Hc|Hc].
  2: { rewrite find_turn_skip by done. apply IH. rewrite Ht. lia. }
  destruct (read_config_word _ _ _ Hd Hc) as [(v & rest & Hr)|Hr].
  2: { destruct (Hr p) as (what & s' & ->). right. by do 2 eexists. }
  destruct (find_turn_config _ _ _ _ _ Hd Hr) as (i' & Hi' & Hturn & Hrej).
  destruct p as [q|].
  - destruct (Hrej q) as (what & s' & ->). right. by do 2 eexists.
  - rewrite Hturn. apply IH. rewrite Hi'. apply reads_shorter in Hr. cbn in Hr. lia.
Qed.

Lemma FindConfigPath_total :
  (exists o, FindConfigPath argv = Ret o) \/ throws_invalid (FindConfigPath argv).
Proof.
  unfold FindConfigPath, for_argv, with_local, argc, throws_invalid.
  destruct (find_total (S (length argv)) None 1) as [([o i] & ->)|(what & [o i] & ->)]; [|by left; eexists|by right; eexists].
  rewrite length_drop. lia.
Qed.
End passes.

(** ** Theorems *)

(** C36. The overriding pass decides the language of command lines: when the
    arguments spell a list of settings, it ends normally with the settings
    applied from left to right, so that the last one wins and a number of
    sub-reactors of zero becomes the automatic one; otherwise it throws
    [std::invalid_argument], never another error. For a command line it
    accepts, [FindConfigPath] returns the one configuration file spelled, none
    when there is none, and throws when there are several, provided no host
    looks like a configuration option. *)
Theorem command_line_decided argv hw c :
  (exists ss, spells (tail argv) ss /\
     ApplyCommandLineOverrides argv hw c = (Ret tt, foldl (apply_setting hw) c ss) /\
     (Forall plain ss ->
      match config_paths ss with
      | [] => FindConfigPath argv = Ret None
      | [p] => FindConfigPath argv = Ret (Some p)
      | _ => throws_invalid (FindConfigPath argv)
      end)) \/
  ((forall ss, ~ spells (tail argv) ss) /\ rejects (ApplyCommandLineOverrides argv hw) c).
Proof.
  destruct (apply_decides argv hw c) as [(ss & Hss & Ha)|Hr]; [left|by right].
  exists ss. split_and!; [done..|]. by apply find_config_agrees.
Qed.

(** The two passes disagree on a host that looks like an option: the first
    takes it for the configuration file, the second for the host. *)
Lemma host_taken_for_config :
  let argv := lit <$> ["tinykv"; "--host"; "--config=a.toml"]%string in
  FindConfigPath argv = Ret (Some (lit "a.toml")) /\
  ApplyCommandLineOverrides argv 8 AppConfig_default
  = (Ret tt, AppConfig_default <| host := lit "--config=a.toml" |>).
Proof. by vm_compute. Qed.

Definition example_argv : list bytes :=
  lit <$> ["tinykv"; "--port=80"; "--host"; "::"; "-c"; "x.toml"; "--sub-reactors"; "0";
           "--port"; "-0081"; "--log-level=off"]%string.

Example example_argv_ok :
  FindConfigPath example_argv = Ret (Some (lit "x.toml")) /\
  ApplyCommandLineOverrides example_argv 12 AppConfig_default
  = (Ret tt, mkAppConfig (lit "::") (-81) NetworkOptions_default (mkReactorOptions PB_Auto 6)
               ShutdownOptions_default 5000 LL_Off).
Proof. by vm_compute. Qed.
