(* ===== verification/ConfigLoader.v ===== *)
(** * ConfigLoader: the TOML file (config/config_loader.cpp)

    The TOML library is a parameter: its tables and nodes are abstract types,
    its operations those the loader calls. The loader's own functions are
    translated over it; a [Read...] function changes the configuration in
    place. *)

From S2P Require Import Prelude Poller CommandExecutor SubReactor TcpServer Logger AppConfig CommandLine.
#[local] Open Scope Z_scope.

(** ** The TOML library *)

Class Toml (Node Table : Type) := {
  toml_get : Table -> bytes -> option Node;
  as_table : Node -> option Table;
  (** [node.value<std::string>()] *)
  value_string : Node -> option bytes;
  (** [node.value<std::int64_t>()] *)
  value_int64 : Node -> option Z;
  (** reading and parsing a file, which throws [toml::parse_error] *)
  parse_file : bytes -> outcome Table;
}.

(** An [int64_t] is one, and parsing fails by throwing only. *)
Class TomlLaws (Node Table : Type) `{Toml Node Table} := {
  value_int64_range n v : value_int64 n = Some v -> I64_MIN <= v <= I64_MAX;
  parse_file_throws path : only_throws (parse_file path);
}.

Section ConfigLoader.
Context {Node Table : Type} `{Toml Node Table}.
(** [std::thread::hardware_concurrency()] *)
Context (hardware_concurrency : Z).

Definition FindTable (root : Table) (section : bytes) : outcome (option Table) :=
  match toml_get root section with
  | None => Ret None
  | Some node =>
      match as_table node with
      | None => Fail (Throw (invalid_argument
                  ("configuration section [" +:+ text section +:+ "] must be a table")))
      | Some table => Ret (Some table)
      end
  end.

Definition FindNode (root : Table) (section key : bytes) : outcome (option Node) :=
  table ← FindTable root section;
  match table with
  | None => Ret None
  | Some table => Ret (toml_get table key)
  end.

Definition ReadString (root : Table) (section key : bytes) : outcome (option bytes) :=
  node ← FindNode root section key;
  match node with
  | None => Ret None
  | Some node =>
      match value_string node with
      | None => Fail (Throw (invalid_argument
                  ("configuration '" +:+ text section +:+ "." +:+ text key +:+ "' must be a string")))
      | Some v => Ret (Some v)
      end
  end.

Definition ReadInteger (root : Table) (section key : bytes) : outcome (option Z) :=
  node ← FindNode root section key;
  match node with
  | None => Ret None
  | Some node =>
      match value_int64 node with
      | None => Fail (Throw (invalid_argument
                  ("configuration '" +:+ text section +:+ "." +:+ text key +:+ "' must be an integer")))
      | Some v => Ret (Some v)
      end
  end.

(** [size_t] has 64 bits. *)
Definition ToSize (value : Z) (name : bytes) : outcome Z :=
  if value <? 0
  then Fail (Throw (invalid_argument ("configuration '" +:+ text name +:+ "' must not be negative"))) else
  let unsignedValue := wrap_u64 value in
  if U64_MOD - 1 <? unsignedValue
  then Fail (Throw (invalid_argument ("configuration '" +:+ text name +:+ "' is too large"))) else
  Ret (wrap_u64 unsignedValue).

(** [if (const auto value = read) { body }] *)
Definition if_value {A} (read : outcome (option A)) (body : A -> M AppConfig unit) : M AppConfig unit :=
  value ← lift read;
  match value with
  | Some v => body v
  | None => mret tt
  end.

Definition ReadServerConfig (table : Table) : M AppConfig unit :=
  if_value (ReadString table (lit "server") (lit "host")) (fun v =>
    modify (fun c => c <| host := v |>));;
  if_value (ReadInteger table (lit "server") (lit "port")) (fun v =>
    if (v <? 1) || (65535 <? v)
    then throw (invalid_argument "configuration 'server.port'must be between 1 and 65535") else
    modify (fun c => c <| port := wrap_i32 v |>)).

(** The names of this function and the next are exchanged in the source. *)
Definition ReadNetworkConfig (table : Table) : M AppConfig unit :=
  if_value (ReadString table (lit "reactor") (lit "poller")) (fun v =>
    b ← lift (ParsePollerBackend v);
    modify (fun c => c <| reactor ::= fun r => r <| pollerBackend := b |> |>));;
  if_value (ReadInteger table (lit "reactor") (lit "sub_reactors")) (fun v =>
    if (v <? 0) || (16 <? v)
    then throw (invalid_argument "configuration 'reactor.sub_reactors' must be between 0 and 16") else
    modify (fun c => c <| reactor ::= fun r => r <| subReactorCount := wrap_u64 v |> |>);;
    modify (fun c =>
      if subReactorCount (reactor c) =? 0
      then c <| reactor ::= fun r => r <| subReactorCount := auto_sub_reactors hardware_concurrency |> |>
      else c)).

(** One size of the [network] section. *)
Definition read_size (table : Table) (key : string) (assign : Z -> NetworkOptions -> NetworkOptions) :
    M AppConfig unit :=
  if_value (ReadInteger table (lit "network") (lit key)) (fun v =>
    n ← lift (ToSize v (lit "network." ++ lit key));
    modify (fun c => c <| network ::= assign n |>)).

Definition ReadReactorConfig (table : Table) : M AppConfig unit :=
  read_size table "max_read_buffer_bytes" (fun n o => o <| maxReadBufferBytes := n |>);;
  read_size table "write_low_watermark_bytes" (fun n o => o <| writeLowWatermarkBytes := n |>);;
  read_size table "write_high_watermark_bytes" (fun n o => o <| writeHighWatermarkBytes := n |>);;
  read_size table "write_hard_limit_bytes" (fun n o => o <| writeHardLimitBytes := n |>);;
  read_size table "max_write_bytes_per_event" (fun n o => o <| maxWriteBytesPerEvent := n |>);;
  read_size table "max_accepts_per_event" (fun n o => o <| maxAcceptsPerEvent := n |>).

Definition ReadShutdownConfig (table : Table) : M AppConfig unit :=
  if_value (ReadInteger table (lit "shutdown") (lit "graceful_timeout_ms")) (fun v =>
    if v <=? 0
    then throw (invalid_argument "configuration 'shutdown.graceful_timeout_ms' must be greater than zero") else
    modify (fun c => c <| shutdown ::= fun s => s <| gracefulTimeout := v |> |>)).

Definition ReadTTLConfig (table : Table) : M AppConfig unit :=
  if_value (ReadInteger table (lit "ttl") (lit "sweep_interval_ms")) (fun v =>
    if v <=? 0
    then throw (invalid_argument "configuration 'ttl.sweep_interval_ms' must not be negative") else
    modify (fun c => c <| sweepInterval := v |>)).

Definition ReadLogConfig (table : Table) : M AppConfig unit :=
  if_value (ReadString table (lit "logging") (lit "level")) (fun v =>
    l ← lift (ParseLogLevel v);
    modify (fun c => c <| logLevel := l |>)).

(** The six readers in the order of [LoadFromFile]. *)
Definition read_config (table : Table) : M AppConfig unit :=
  ReadServerConfig table;;
  ReadReactorConfig table;;
  ReadNetworkConfig table;;
  ReadShutdownConfig table;;
  ReadTTLConfig table;;
  ReadLogConfig table.

Definition LoadFromFile (path : bytes) : outcome AppConfig :=
  table ← parse_file path;
  match read_config table AppConfig_default with
  | (Ret _, config) => Validate config;; Ret config
  | (Fail f, _) => Fail f
  end.

(** ** main of the server, up to the construction of the server

    [None] is the exit after the usage text; an exception is printed and ends
    the program. *)
Definition server_config (argv : list bytes) : outcome (option AppConfig) :=
  help ← NeedShowHelp argv;
  if (help : bool) then Ret None else
  configPath ← FindConfigPath argv;
  config ← (match configPath with
            | Some path => LoadFromFile path
            | None => Ret AppConfig_default
            end : outcome AppConfig);
  match ApplyCommandLineOverrides argv hardware_concurrency config with
  | (Ret _, config) => Validate config;; Ret (Some config)
  | (Fail f, _) => Fail f
  end.
End ConfigLoader.

(** ** The line printed at the start

    The arguments of [fmt::format]: a [std::string] as it is, an integer in
    decimal. *)
Definition BuildConfigStr (config : AppConfig) : bytes :=
  lit "host=" ++ host config ++ lit ", port=" ++ to_string (port config) ++
  lit ", poller=" ++ ParsePollerBackendName (pollerBackend (reactor config)) ++
  lit ", sub_reactors=" ++ to_string (subReactorCount (reactor config)) ++
  lit ", max_read_buffer_byte=" ++ to_string (maxReadBufferBytes (network config)) ++
  lit ", write_high_watermark_bytes=" ++ to_string (writeHighWatermarkBytes (network config)) ++
  lit ", write_low_watermark_bytes=" ++ to_string (writeLowWatermarkBytes (network config)) ++
  lit ", write_hard_limit_bytes=" ++ to_string (writeHardLimitBytes (network config)) ++
  lit ", max_write_bytes_per_event=" ++ to_string (maxWriteBytesPerEvent (network config)) ++
  lit ", max_accepts_per_event=" ++ to_string (maxAcceptsPerEvent (network config)) ++
  lit ", graceful_shutdown_timeout=" ++ to_string (gracefulTimeout (shutdown config)) ++
  lit ", log_level=" ++ lit (LogLevelName (logLevel config)).
