(* ===== verification/ConfigTheorems.v ===== *)
(** * What a loaded configuration is

    The file is specified field by field ([toml_config]): an absent entry
    leaves the default, a present one must have the right type and range. The
    loader is shown to decide this specification together with validation,
    and every configuration the program starts with to be well typed, valid
    and acceptable to the server. *)

From S2P Require Import Prelude Poller SubReactor EventLoop TcpServer CommandGrammar CommandExecutor CommandTheorems Logger AppConfig CommandLine CommandLineSpec ConfigLoader.
#[local] Open Scope Z_scope.

Section ConfigTheorems.
Context {Node Table : Type} `{HT : Toml Node Table}.
Context (hw : Z).
Implicit Types (t : Table) (c : AppConfig).

(** ** Specification of a file *)

(** [entry t s k e]: the entry [k] of section [s] is [e]; a section that is
    there must be a table. *)
Inductive entry (t : Table) (s k : string) : option Node -> Prop :=
  | entry_no_section : toml_get t (lit s) = None -> entry t s k None
  | entry_section n sub :
      toml_get t (lit s) = Some n -> as_table n = Some sub -> entry t s k (toml_get sub (lit k)).

(** The field [x] whose default is [d], read by [P]. *)
Definition field {X} (t : Table) (s k : string) (P : Node -> X -> Prop) (d x : X) : Prop :=
  exists e, entry t s k e /\ match e with Some n => P n x | None => x = d end.

Definition int_in (lo hi : Z) (n : Node) (x : Z) : Prop := value_int64 n = Some x /\ lo <= x <= hi.
Definition sub_reactors_of (n : Node) (x : Z) : Prop :=
  exists v, value_int64 n = Some v /\ 0 <= v <= 16 /\ x = if v =? 0 then auto_sub_reactors hw else v.
Definition word_of {X} (w : X -> bytes) (n : Node) (x : X) : Prop := value_string n = Some (w x).

Definition toml_config_from (d : AppConfig) (t : Table) (c : AppConfig) : Prop :=
  field t "server" "host" (word_of id) (host d) (host c) /\
  field t "server" "port" (int_in 1 65535) (port d) (port c) /\
  (let size k (get : NetworkOptions -> Z) :=
     field t "network" k (int_in 0 I64_MAX) (get (network d)) (get (network c)) in
   size "max_read_buffer_bytes"%string maxReadBufferBytes /\
   size "write_low_watermark_bytes"%string writeLowWatermarkBytes /\
   size "write_high_watermark_bytes"%string writeHighWatermarkBytes /\
   size "write_hard_limit_bytes"%string writeHardLimitBytes /\
   size "max_write_bytes_per_event"%string maxWriteBytesPerEvent /\
   size "max_accepts_per_event"%string maxAcceptsPerEvent) /\
  field t "reactor" "poller" (word_of ParsePollerBackendName)
    (pollerBackend (reactor d)) (pollerBackend (reactor c)) /\
  field t "reactor" "sub_reactors" sub_reactors_of
    (subReactorCount (reactor d)) (subReactorCount (reactor c)) /\
  field t "shutdown" "graceful_timeout_ms" (int_in 1 I64_MAX)
    (gracefulTimeout (shutdown d)) (gracefulTimeout (shutdown c)) /\
  field t "ttl" "sweep_interval_ms" (int_in 1 I64_MAX) (sweepInterval d) (sweepInterval c) /\
  field t "logging" "level" (word_of level_word) (logLevel d) (logLevel c).

Definition toml_config (t : Table) (c : AppConfig) : Prop := toml_config_from AppConfig_default t c.

Lemma entry_functional t s k e e' : entry t s k e -> entry t s k e' -> e = e'.
Proof. destruct 1; inversion 1; congruence. Qed.

Lemma FindNode_spec t s k :
  (exists e, entry t s k e /\ FindNode t (lit s) (lit k) = Ret e) \/
  ((forall e, ~ entry t s k e) /\ throws_invalid (FindNode t (lit s) (lit k))).
Proof.
  unfold FindNode, FindTable. destruct (toml_get t (lit s)) as [n|] eqn:Hg.
  - destruct (as_table n) as [sub|] eqn:Ht; cbn.
    + left. eexists. split; [by econstructor|done].
    + right. split; [|by eexists]. intros e He. inversion He; congruence.
  - cbn. left. exists None. split; [by constructor|done].
Qed.

(** ** Reading steps

    [assigns m P set]: [m] finds the one value that [P] allows and assigns it
    by [set], or throws when there is none. *)
Definition assigns {X} (m : M AppConfig unit) (P : AppConfig -> X -> Prop) (set : X -> AppConfig -> AppConfig) : Prop :=
  forall c,
    (forall x x', P c x -> P c x' -> x = x') /\
    ((exists x, P c x /\ m c = (Ret tt, set x c)) \/ ((forall x, ~ P c x) /\ rejects m c)).

Lemma assigns_seq {X Y} m1 m2 (P1 : AppConfig -> X -> Prop) (P2 : AppConfig -> Y -> Prop) s1 s2 :
  assigns m1 P1 s1 -> assigns m2 P2 s2 ->
  assigns (m1;; m2) (fun c p => P1 c (fst p) /\ P2 (s1 (fst p) c) (snd p)) (fun p c => s2 (snd p) (s1 (fst p) c)).
Proof.
  intros H1 H2 c. destruct (H1 c) as [F1 H1c]. split.
  { intros [x y] [x' y'] [Hx Hy] [Hx' Hy']. cbn [fst snd] in *. pose proof (F1 _ _ Hx Hx') as <-.
    f_equal. by eapply (H2 (s1 x c)). }
  unfold rejects, mbind, M_bind in *. destruct H1c as [(x & Hx & ->)|[Hno (what & c' & ->)]].
  2: { right. split; [|by do 2 eexists]. intros [x y] [Hx _]. by eapply Hno. }
  destruct (proj2 (H2 (s1 x c))) as [(y & Hy & ->)|[Hno (what & c' & ->)]].
  - left. exists (x, y). done.
  - right. split; [|by do 2 eexists]. intros [x' y] [Hx' Hy]. cbn [fst snd] in *.
    pose proof (F1 _ _ Hx Hx') as <-. by eapply Hno.
Qed.

(** A step that reads one entry: [val] is the library's conversion, [Q] what
    the loader makes of the value. *)
Lemma assigns_field {V X} (s k : string) (val : Node -> option V) (read : Table -> outcome (option V))
    (body : V -> M AppConfig unit) (Q : V -> X -> Prop) (get : AppConfig -> X) set t :
  (forall e, entry t s k e -> FindNode t (lit s) (lit k) = Ret e ->
     match e with
     | None => read t = Ret None
     | Some n => match val n with Some v => read t = Ret (Some v) | None => throws_invalid (read t) end
     end) ->
  (throws_invalid (FindNode t (lit s) (lit k)) -> throws_invalid (read t)) ->
  (forall v x x', Q v x -> Q v x' -> x = x') ->
  (forall c, set (get c) c = c) ->
  (forall c n v, val n = Some v -> (exists x, Q v x /\ body v c = (Ret tt, set x c)) \/ ((forall x, ~ Q v x) /\ rejects (body v) c)) ->
  assigns (if_value (read t) body)
    (fun c x => field t s k (fun n x => exists v, val n = Some v /\ Q v x) (get c) x) set.
Proof.
  intros Hread Hthrow HQ Hset Hbody c. split.
  { intros x x' (e & He & Hx) (e' & He' & Hx'). pose proof (entry_functional _ _ _ _ _ He He') as <-.
    destruct e as [n|]; [|congruence]. destruct Hx as (v & Hv & Hx), Hx' as (v' & Hv' & Hx').
    rewrite Hv in Hv'. injection Hv' as <-. by eapply HQ. }
  unfold if_value, rejects, lift, mbind, M_bind in *.
  destruct (FindNode_spec t s k) as [(e & He & Hf)|[Hno Hf]].
  2: { right. destruct (Hthrow Hf) as (what & ->). split; [|by do 2 eexists].
       intros x (e & He & _). by eapply Hno. }
  specialize (Hread e He Hf). destruct e as [n|].
  2: { rewrite Hread. left. exists (get c). split; [by exists None|]. by rewrite Hset. }
  destruct (val n) as [v|] eqn:Hv.
  - rewrite Hread. destruct (Hbody c n v Hv) as [(x & Hx & Hb)|[Hno Hb]].
    + left. exists x. split; [|done]. exists (Some n). eauto.
    + right. split; [|done]. intros x (e & He' & Hx). pose proof (entry_functional _ _ _ _ _ He He') as <-.
      destruct Hx as (v' & Hv' & Hx). rewrite Hv in Hv'. injection Hv' as <-. by eapply Hno.
  - destruct Hread as (what & ->). right. split; [|by do 2 eexists].
    intros x (e & He' & Hx). pose proof (entry_functional _ _ _ _ _ He He') as <-.
    destruct Hx as (v & Hv' & _). congruence.
Qed.

Lemma assigns_string {X} s k body (Q : bytes -> X -> Prop) get set t :
  (forall v x x', Q v x -> Q v x' -> x = x') ->
  (forall c, set (get c) c = c) ->
  (forall c v, (exists x, Q v x /\ body v c = (Ret tt, set x c)) \/ ((forall x, ~ Q v x) /\ rejects (body v) c)) ->
  assigns (if_value (ReadString t (lit s) (lit k)) body)
    (fun c x => field t s k (fun n x => exists v, value_string n = Some v /\ Q v x) (get c) x) set.
Proof.
  intros HQ Hset Hbody. apply (assigns_field s k value_string (fun t => ReadString t (lit s) (lit k)));
    [|intros (what & Hf); unfold ReadString; rewrite Hf; by eexists|done|done|by intros c _ v _].
  intros e _ Hf. unfold ReadString. rewrite Hf. destruct e as [n|]; cbn; [|done].
  destruct (value_string n); [done|by eexists].
Qed.

Lemma assigns_integer {X} s k body (Q : Z -> X -> Prop) get set t :
  (forall v x x', Q v x -> Q v x' -> x = x') ->
  (forall c, set (get c) c = c) ->
  (forall c n v, value_int64 n = Some v ->
     (exists x, Q v x /\ body v c = (Ret tt, set x c)) \/ ((forall x, ~ Q v x) /\ rejects (body v) c)) ->
  assigns (if_value (ReadInteger t (lit s) (lit k)) body)
    (fun c x => field t s k (fun n x => exists v, value_int64 n = Some v /\ Q v x) (get c) x) set.
Proof.
  intros HQ Hset Hbody. apply (assigns_field s k value_int64 (fun t => ReadInteger t (lit s) (lit k)));
    [|intros (what & Hf); unfold ReadInteger; rewrite Hf; by eexists|done|done|done].
  intros e _ Hf. unfold ReadInteger. rewrite Hf. destruct e as [n|]; cbn; [|done].
  destruct (value_int64 n); [done|by eexists].
Qed.

Lemma assigns_iff {X} m (P P' : AppConfig -> X -> Prop) set :
  (forall c x, P c x <-> P' c x) -> assigns m P set -> assigns m P' set.
Proof.
  intros HP Hm c. destruct (Hm c) as [HF Hc]. split.
  - intros x x' Hx%HP Hx'%HP. by apply HF.
  - destruct Hc as [(x & Hx%HP & Hm')|[Hno Hr]]; [by left; exists x|right].
    split; [|done]. by intros x Hx%HP%Hno.
Qed.

Lemma field_iff {X} t s k (P P' : Node -> X -> Prop) d x :
  (forall n x, P n x <-> P' n x) -> field t s k P d x <-> field t s k P' d x.
Proof.
  intros HP. split; intros (e & He & Hx); exists e; (split; [done|]);
    destruct e; [by apply HP|done|by apply HP|done].
Qed.

Context `{HL : !TomlLaws Node Table}.

(** An integer between two bounds, assigned as it is. *)
Lemma assigns_int_in s k lo hi body get set t :
  (forall c, set (get c) c = c) ->
  (forall c v, I64_MIN <= v <= I64_MAX ->
     if (lo <=? v) && (v <=? hi) then body v c = (Ret tt, set v c) else rejects (body v) c) ->
  assigns (if_value (ReadInteger t (lit s) (lit k)) body)
    (fun c x => field t s k (int_in lo hi) (get c) x) set.
Proof.
  intros Hset Hbody.
  apply (assigns_iff _ (fun c x => field t s k (fun n x => exists v, value_int64 n = Some v /\ (v = x /\ lo <= v <= hi)) (get c) x)).
  { intros c x. apply field_iff. intros n y. unfold int_in. split; [by intros (v & Hv & <- & Hr)|by intros [? ?]; eauto]. }
  apply assigns_integer; [by intros v x x' [<- _] [<- _]|done|].
  intros c n v Hv%value_int64_range. specialize (Hbody c v Hv).
  destruct ((lo <=? v) && (v <=? hi)) eqn:Hr.
  - left. exists v. split; [split; [done|lia]|done].
  - right. split; [|done]. intros x [_ ?]. lia.
Qed.

(** A word of an enumeration. *)
Lemma assigns_word {X} s k (w : X -> bytes) (p : bytes -> outcome X) body get set t :
  (forall v x, p v = Ret x <-> v = w x) ->
  (forall v, throws_invalid (p v) \/ exists x, p v = Ret x) ->
  (forall c, set (get c) c = c) ->
  (forall c v x, p v = Ret x -> body v c = (Ret tt, set x c)) ->
  (forall c v, throws_invalid (p v) -> rejects (body v) c) ->
  assigns (if_value (ReadString t (lit s) (lit k)) body)
    (fun c x => field t s k (word_of w) (get c) x) set.
Proof.
  intros Hp Htot Hset Hok Hbad.
  apply (assigns_iff _ (fun c x => field t s k (fun n x => exists v, value_string n = Some v /\ p v = Ret x) (get c) x)).
  { intros c x. apply field_iff. intros n y. unfold word_of. split.
    - by intros (v & Hv & ->%Hp).
    - intros Hv. exists (w y). split; [done|]. by apply Hp. }
  apply assigns_string; [intros; congruence|done|].
  intros c v. destruct (Htot v) as [Hv|(x & Hx)].
  - right. split; [|by apply Hbad]. intros x Hx. destruct Hv. congruence.
  - left. exists x. split; [done|]. by apply Hok.
Qed.

(** ** The readers *)

Lemma assigns_host t :
  assigns (if_value (ReadString t (lit "server") (lit "host")) (fun v => modify (fun c => c <| host := v |>)))
    (fun c x => field t "server" "host" (word_of id) (host c) x) (fun x c => c <| host := x |>).
Proof.
  apply (assigns_word _ _ id Ret); [|by intros v; right; eexists|by intros []| |by intros c v [? ?]].
  - intros v x. split; [by intros [= ->]|by intros ->].
  - by intros c v x [= ->].
Qed.

Lemma assigns_port t :
  assigns (if_value (ReadInteger t (lit "server") (lit "port")) (fun v =>
      if (v <? 1) || (65535 <? v)
      then throw (invalid_argument "configuration 'server.port'must be between 1 and 65535") else
      modify (fun c => c <| port := wrap_i32 v |>)))
    (fun c x => field t "server" "port" (int_in 1 65535) (port c) x) (fun x c => c <| port := x |>).
Proof.
  apply assigns_int_in; [by intros []|]. intros c v Hv.
  destruct ((1 <=? v) && (v <=? 65535)) eqn:Hr.
  - replace ((v <? 1) || (65535 <? v)) with false by lia. unfold modify.
    rewrite wrap_i32_small; [done|]. unfold INT_MIN, INT_MAX. lia.
  - replace ((v <? 1) || (65535 <? v)) with true by lia. by do 2 eexists.
Qed.

Lemma ToSize_spec v name :
  I64_MIN <= v <= I64_MAX ->
  if 0 <=? v then ToSize v name = Ret v else throws_invalid (ToSize v name).
Proof.
  intros Hv. unfold ToSize. destruct (Z.leb_spec 0 v).
  - replace (v <? 0) with false by lia. unfold I64_MAX in Hv.
    assert (0 <= v < U64_MOD) by (unfold U64_MOD; lia).
    rewrite (wrap_u64_small v) by done. replace (U64_MOD - 1 <? v) with false by lia.
    by rewrite wrap_u64_small.
  - replace (v <? 0) with true by lia. by eexists.
Qed.

Lemma assigns_size t (k : string) (get : NetworkOptions -> Z) (set : Z -> NetworkOptions -> NetworkOptions) :
  (forall o, set (get o) o = o) ->
  assigns (read_size t k set)
    (fun c x => field t "network" k (int_in 0 I64_MAX) (get (network c)) x) (fun x c => c <| network ::= set x |>).
Proof.
  intros Hset. apply (assigns_int_in _ _ _ _ _ (fun c => get (network c))).
  { intros []. cbn. by rewrite Hset. }
  intros c v Hv. pose proof (ToSize_spec v (lit "network." ++ lit k) Hv) as Hs.
  unfold rejects, lift, mbind, M_bind. rewrite (proj2 (Z.leb_le v I64_MAX)), andb_true_r by lia.
  destruct (0 <=? v); [by rewrite Hs|]. destruct Hs as (what & ->). by do 2 eexists.
Qed.

Lemma assigns_poller t :
  assigns (if_value (ReadString t (lit "reactor") (lit "poller")) (fun v =>
      b ← lift (ParsePollerBackend v);
      modify (fun c => c <| reactor ::= fun r => r <| pollerBackend := b |> |>)))
    (fun c x => field t "reactor" "poller" (word_of ParsePollerBackendName) (pollerBackend (reactor c)) x)
    (fun b c => c <| reactor ::= fun r => r <| pollerBackend := b |> |>).
Proof.
  apply (assigns_word _ _ _ _ _ (fun c => pollerBackend (reactor c)) _ _ poller_backend_roundtrip).
  - intros v. apply parse_throws. unfold ParsePollerBackend. by repeat case_match.
  - by intros [? ? ? []].
  - intros c v x Hx. unfold lift, mbind, M_bind. by rewrite Hx.
  - intros c v (what & Hx). unfold lift, mbind, M_bind, rejects. rewrite Hx. by do 2 eexists.
Qed.

Lemma assigns_subs t :
  assigns (if_value (ReadInteger t (lit "reactor") (lit "sub_reactors")) (fun v =>
      if (v <? 0) || (16 <? v)
      then throw (invalid_argument "configuration 'reactor.sub_reactors' must be between 0 and 16") else
      modify (fun c => c <| reactor ::= fun r => r <| subReactorCount := wrap_u64 v |> |>);;
      modify (fun c =>
        if subReactorCount (reactor c) =? 0
        then c <| reactor ::= fun r => r <| subReactorCount := auto_sub_reactors hw |> |>
        else c)))
    (fun c x => field t "reactor" "sub_reactors" sub_reactors_of (subReactorCount (reactor c)) x)
    (fun x c => c <| reactor ::= fun r => r <| subReactorCount := x |> |>).
Proof.
  apply (assigns_integer _ _ _ (fun v x => 0 <= v <= 16 /\ x = if v =? 0 then auto_sub_reactors hw else v)
           (fun c => subReactorCount (reactor c))).
  - by intros v x x' [_ ->] [_ ->].
  - by intros [? ? ? []].
  - intros c n v _. unfold mbind, M_bind, modify. destruct ((v <? 0) || (16 <? v)) eqn:Hr.
    + right. split; [intros x [? _]; lia|by do 2 eexists].
    + left. eexists. split; [split; [lia|done]|].
      rewrite wrap_u64_small by (unfold U64_MOD; lia). cbn. by destruct (v =? 0).
Qed.

Lemma assigns_timeout t :
  assigns (ReadShutdownConfig t)
    (fun c x => field t "shutdown" "graceful_timeout_ms" (int_in 1 I64_MAX) (gracefulTimeout (shutdown c)) x)
    (fun x c => c <| shutdown ::= fun s => s <| gracefulTimeout := x |> |>).
Proof.
  apply (assigns_int_in _ _ _ _ _ (fun c => gracefulTimeout (shutdown c))); [by intros [? ? ? ? []]|].
  intros c v Hv. destruct (Z.leb_spec v 0).
  - replace (1 <=? v) with false by lia. by do 2 eexists.
  - replace ((1 <=? v) && (v <=? I64_MAX)) with true by lia. done.
Qed.

Lemma assigns_sweep t :
  assigns (ReadTTLConfig t)
    (fun c x => field t "ttl" "sweep_interval_ms" (int_in 1 I64_MAX) (sweepInterval c) x)
    (fun x c => c <| sweepInterval := x |>).
Proof.
  apply assigns_int_in; [by intros []|].
  intros c v Hv. destruct (Z.leb_spec v 0).
  - replace (1 <=? v) with false by lia. by do 2 eexists.
  - replace ((1 <=? v) && (v <=? I64_MAX)) with true by lia. done.
Qed.

Lemma assigns_level t :
  assigns (ReadLogConfig t)
    (fun c x => field t "logging" "level" (word_of level_word) (logLevel c) x)
    (fun l c => c <| logLevel := l |>).
Proof.
  apply (assigns_word _ _ _ _ _ _ _ _ log_level_roundtrip).
  - intros v. apply parse_throws. unfold ParseLogLevel. by destruct (list_find _ _) as [[? [? ?]]|].
  - by intros [].
  - intros c v x Hx. unfold lift, mbind, M_bind. by rewrite Hx.
  - intros c v (what & Hx). unfold lift, mbind, M_bind, rejects. rewrite Hx. by do 2 eexists.
Qed.

Lemma assigns_server t :
  assigns (ReadServerConfig t)
    (fun c p => field t "server" "host" (word_of id) (host c) (fst p) /\
                field t "server" "port" (int_in 1 65535) (port c) (snd p))
    (fun p c => c <| host := fst p |> <| port := snd p |>).
Proof. exact (assigns_seq _ _ _ _ _ _ (assigns_host t) (assigns_port t)). Qed.

Lemma assigns_reactor t :
  assigns (ReadNetworkConfig hw t)
    (fun c p => field t "reactor" "poller" (word_of ParsePollerBackendName) (pollerBackend (reactor c)) (fst p) /\
                field t "reactor" "sub_reactors" sub_reactors_of (subReactorCount (reactor c)) (snd p))
    (fun p c => c <| reactor := mkReactorOptions (fst p) (snd p) |>).
Proof. exact (assigns_seq _ _ _ _ _ _ (assigns_poller t) (assigns_subs t)). Qed.

(** The six sizes, as a record of options. *)
Lemma assigns_network t :
  assigns (ReadReactorConfig t)
    (fun c o => let size k (get : NetworkOptions -> Z) :=
                  field t "network" k (int_in 0 I64_MAX) (get (network c)) (get o) in
                size "max_read_buffer_bytes"%string maxReadBufferBytes /\
                size "write_low_watermark_bytes"%string writeLowWatermarkBytes /\
                size "write_high_watermark_bytes"%string writeHighWatermarkBytes /\
                size "write_hard_limit_bytes"%string writeHardLimitBytes /\
                size "max_write_bytes_per_event"%string maxWriteBytesPerEvent /\
                size "max_accepts_per_event"%string maxAcceptsPerEvent)
    (fun o c => c <| network := o |>).
Proof.
  assert (forall get set k, (forall o, set (get o) o = o) -> assigns (read_size t k set)
    (fun c x => field t "network" k (int_in 0 I64_MAX) (get (network c)) x) (fun x c => c <| network ::= set x |>))
    as Hs by (intros; by apply assigns_size).
  pose proof (Hs maxReadBufferBytes (fun x o => o <| maxReadBufferBytes := x |>) "max_read_buffer_bytes"%string
    ltac:(by intros [])) as H1.
  pose proof (Hs writeLowWatermarkBytes (fun x o => o <| writeLowWatermarkBytes := x |>) "write_low_watermark_bytes"%string
    ltac:(by intros [])) as H2.
  pose proof (Hs writeHighWatermarkBytes (fun x o => o <| writeHighWatermarkBytes := x |>) "write_high_watermark_bytes"%string
    ltac:(by intros [])) as H3.
  pose proof (Hs writeHardLimitBytes (fun x o => o <| writeHardLimitBytes := x |>) "write_hard_limit_bytes"%string
    ltac:(by intros [])) as H4.
  pose proof (Hs maxWriteBytesPerEvent (fun x o => o <| maxWriteBytesPerEvent := x |>) "max_write_bytes_per_event"%string
    ltac:(by intros [])) as H5.
  pose proof (Hs maxAcceptsPerEvent (fun x o => o <| maxAcceptsPerEvent := x |>) "max_accepts_per_event"%string
    ltac:(by intros [])) as H6.
  pose proof (assigns_seq _ _ _ _ _ _ H1 (assigns_seq _ _ _ _ _ _ H2 (assigns_seq _ _ _ _ _ _ H3
    (assigns_seq _ _ _ _ _ _ H4 (assigns_seq _ _ _ _ _ _ H5 H6))))) as Hall.
  intros c. destruct (Hall c) as [HF Hc]. split.
  { intros o o' (P1 & P2 & P3 & P4 & P5 & P6) (P1' & P2' & P3' & P4' & P5' & P6').
    assert ((maxReadBufferBytes o, (writeLowWatermarkBytes o, (writeHighWatermarkBytes o,
              (writeHardLimitBytes o, (maxWriteBytesPerEvent o, maxAcceptsPerEvent o))))) =
            (maxReadBufferBytes o', (writeLowWatermarkBytes o', (writeHighWatermarkBytes o',
              (writeHardLimitBytes o', (maxWriteBytesPerEvent o', maxAcceptsPerEvent o')))))) as Heq
      by (by apply HF; cbn).
    destruct o, o'. by injection Heq as -> -> -> -> -> ->. }
  destruct Hc as [((a1 & a2 & a3 & a4 & a5 & a6) & HP & Hm)|[Hno Hr]].
  - left. exists (mkNetworkOptions a1 a3 a2 a4 a5 a6). by destruct c as [? ? []].
  - right. split; [|exact Hr]. intros o Ho.
    by apply (Hno (maxReadBufferBytes o, (writeLowWatermarkBytes o, (writeHighWatermarkBytes o,
              (writeHardLimitBytes o, (maxWriteBytesPerEvent o, maxAcceptsPerEvent o)))))).
Qed.

(** The readers together find the one configuration the file describes. *)
Lemma read_config_decides t d :
  (forall c c', toml_config_from d t c -> toml_config_from d t c' -> c = c') /\
  ((exists c, toml_config_from d t c /\ read_config hw t d = (Ret tt, c)) \/
   ((forall c, ~ toml_config_from d t c) /\ rejects (read_config hw t) d)).
Proof.
  pose proof (assigns_seq _ _ _ _ _ _ (assigns_server t) (assigns_seq _ _ _ _ _ _ (assigns_network t)
    (assigns_seq _ _ _ _ _ _ (assigns_reactor t) (assigns_seq _ _ _ _ _ _ (assigns_timeout t)
    (assigns_seq _ _ _ _ _ _ (assigns_sweep t) (assigns_level t)))))) as Hall.
  set (split_config := fun c => ((host c, port c), (network c, ((pollerBackend (reactor c), subReactorCount (reactor c)),
    (gracefulTimeout (shutdown c), (sweepInterval c, logLevel c)))))).
  destruct (Hall d) as [HF Hd]. split.
  { intros c c' Hc Hc'. assert (split_config c = split_config c') as Heq.
    { apply HF; [revert Hc|revert Hc']; unfold toml_config_from; cbn; tauto. }
    destruct c as [? ? ? [] [] ? ?], c' as [? ? ? [] [] ? ?]. by injection Heq as -> -> -> -> -> -> -> ->. }
  destruct Hd as [(((h & p) & o & (b & n) & g & sw & l) & HP & Hm)|[Hno Hr]].
  - left. exists (mkAppConfig h p o (mkReactorOptions b n) (mkShutdownOptions g) sw l).
    split; [|by destruct d as [? ? ? [] [] ? ?]].
    revert HP. unfold toml_config_from. cbn. tauto.
  - right. split; [|exact Hr]. intros c Hc. apply (Hno (split_config c)).
    revert Hc. unfold toml_config_from. cbn. tauto.
Qed.

(** ** Typing *)

Lemma field_typed {X} t s k P (Q : X -> Prop) d x :
  field t s k P d x -> Q d -> (forall n x, P n x -> Q x) -> Q x.
Proof. intros (e & _ & Hx) Hd HP. destruct e; [by eapply HP|by subst]. Qed.

Lemma toml_config_typed t d c : ConfigTyped d -> toml_config_from d t c -> ConfigTyped c.
Proof.
  intros [Hp Hn Hs Hg Hw] (_ & H2 & (N1 & N2 & N3 & N4 & N5 & N6) & _ & H4 & H5 & H6 & _).
  assert (forall n x, int_in 0 I64_MAX n x -> is_size x) as Hsz.
  { intros n x [_ ?]. unfold is_size, I64_MAX, U64_MOD in *. lia. }
  assert (forall n x, int_in 1 I64_MAX n x -> is_i64 x) as Hi64.
  { intros n x [_ ?]. unfold is_i64, I64_MIN in *. lia. }
  constructor.
  - apply (field_typed _ _ _ _ is_int _ _ H2 Hp). intros n x [_ ?]. unfold is_int, INT_MIN, INT_MAX. lia.
  - destruct Hn. constructor; by eapply field_typed.
  - apply (field_typed _ _ _ _ (fun n => is_size n /\ 1 <= n) _ _ H4 Hs).
    intros n x (v & _ & Hv & ->). pose proof (auto_sub_reactors_range hw). unfold is_size, U64_MOD.
    destruct (Z.eqb_spec v 0); lia.
  - by eapply field_typed.
  - by eapply field_typed.
Qed.

(** What a setting of the command line may carry. *)
Definition setting_typed (s : setting) : Prop :=
  match s with
  | SPort p => is_int p
  | SSubReactors n => is_size n
  | _ => True
  end.

Lemma spells_typed args ss : spells args ss -> Forall setting_typed ss.
Proof.
  induction 1 as [|args s rest ss Hs _ IH]; [done|]. constructor; [|done].
  destruct Hs as [o args v s rest _ Hd|]; [|done].
  destruct Hd as [| |v n [_ Hn]| |v n [_ Hn]|]; try done. cbn in *. unfold is_size. lia.
Qed.

Lemma apply_setting_typed c s : ConfigTyped c -> setting_typed s -> ConfigTyped (apply_setting hw c s).
Proof.
  intros [] Hs. destruct s; try by constructor. constructor; try done. cbn.
  pose proof (auto_sub_reactors_range hw). unfold is_size, U64_MOD in *. cbn in Hs. unfold is_size in Hs.
  destruct (Z.eqb_spec n 0); unfold U64_MOD in *; lia.
Qed.

Lemma apply_settings_typed ss c :
  Forall setting_typed ss -> ConfigTyped c -> ConfigTyped (foldl (apply_setting hw) c ss).
Proof.
  intros Hss. revert c. induction Hss as [|s ss Hs _ IH]; intros c Hc; [done|].
  apply IH. by apply apply_setting_typed.
Qed.

(** ** Theorems *)

Lemma LoadFromFile_cases path :
  match parse_file path with
  | Fail f => LoadFromFile hw path = Fail f
  | Ret t =>
      (exists c, toml_config t c /\ ConfigValid c /\ LoadFromFile hw path = Ret c) \/
      ((forall c, toml_config t c -> ~ ConfigValid c) /\
       exists what, LoadFromFile hw path = Fail (Throw (invalid_argument what)))
  end.
Proof.
  unfold LoadFromFile. destruct (parse_file path) as [t|f]; [|done]. cbn.
  destruct (read_config_decides t AppConfig_default) as [HF [(c & Hc & ->)|[Hno (what & c' & ->)]]].
  - destruct (Validate c) as [[]|f] eqn:Hv; cbn.
    + left. exists c. split_and!; [done|by apply Validate_ok|done].
    + right. split.
      * intros c' Hc' Hval. pose proof (HF _ _ Hc Hc') as <-. apply Validate_ok in Hval. congruence.
      * destruct (Validate_invalid c) as [Hv'|(what & Hv')]; [congruence|].
        rewrite Hv in Hv'. injection Hv' as ->. by eexists.
  - right. split; [|by eexists]. intros c Hc. by destruct (Hno c).
Qed.

(** C37. Loading a file decides its specification: it returns the configuration
    in which every field is the entry of the file where there is one (of the
    right type and range, sizes not negative, zero sub-reactors standing for
    the automatic number) and the default elsewhere, exactly when there is
    such a configuration and it is valid; otherwise it throws
    [std::invalid_argument]. The order in which the sections are read does not
    matter. *)
Theorem load_decides path t :
  parse_file path = Ret t ->
  (forall c, LoadFromFile hw path = Ret c <-> toml_config t c /\ ConfigValid c) /\
  ((forall c, LoadFromFile hw path <> Ret c) -> throws_invalid (LoadFromFile hw path)).
Proof.
  intros Hp. pose proof (LoadFromFile_cases path) as Hl. rewrite Hp in Hl.
  destruct Hl as [(c & Hc & Hv & ->)|[Hno Ht]].
  - split; [|by intros Hx; destruct (Hx c)]. intros c'. split; [by intros [= <-]|].
    intros [Hc' _]. f_equal. by apply (proj1 (read_config_decides t AppConfig_default)).
  - split; [|done]. intros c. split; [destruct Ht as (what & ->); done|].
    intros [Hc Hv]. by destruct (Hno c Hc).
Qed.

Lemma server_config_ok argv :
  match server_config hw argv with
  | Ret (Some c) =>
      ConfigTyped c /\ ConfigValid c /\ TcpServer_validate (network c) (reactor c) = Ret tt
  | Ret None => NeedShowHelp argv = Ret true
  | Fail f => exists e, f = Throw e
  end.
Proof.
  unfold server_config. destruct (NeedShowHelp argv) as [[|]|f] eqn:Hh; cbn; [done| |].
  2: { unfold NeedShowHelp in Hh. destruct (negb _); [done|]. destruct (_ =? _)%nat; [done|].
       injection Hh as <-. by eexists. }
  destruct (FindConfigPath_total argv) as [(o & ->)|(what & ->)]; cbn; [|by eexists].
  assert (match (match o with Some path => LoadFromFile hw path | None => Ret AppConfig_default end) with
          | Ret c => ConfigTyped c
          | Fail f => exists e, f = Throw e
          end) as Hc.
  { destruct o as [path|]; [|apply AppConfig_default_typed]. pose proof (LoadFromFile_cases path) as Hl.
    pose proof (parse_file_throws path) as Hp. destruct (parse_file path) as [t|f].
    - destruct Hl as [(c & Hc & _ & ->)|[_ (what & ->)]]; [|by eexists].
      eapply toml_config_typed; [apply AppConfig_default_typed|exact Hc].
    - rewrite Hl. destruct f; try done. by eexists. }
  destruct (match o with Some path => LoadFromFile hw path | None => Ret AppConfig_default end) as [c|f]; cbn; [|done].
  destruct (apply_decides argv hw c) as [(ss & Hss & ->)|[_ (what & c' & ->)]]; [|by eexists].
  destruct (Validate_invalid (foldl (apply_setting hw) c ss)) as [Hv|(what & ->)]; [|cbn; by eexists].
  rewrite Hv. cbn. apply Validate_ok in Hv.
  assert (ConfigTyped (foldl (apply_setting hw) c ss)) by (by eapply apply_settings_typed; [eapply spells_typed|]).
  split_and!; [done..|]. by apply valid_server.
Qed.

(** C38. Whatever the arguments and the file, the program reaches the
    construction of the server with a configuration in which every field is a
    value of its C++ type, which is valid, has at least one sub-reactor, and
    which the constructor accepts; or it prints the usage or stops with an
    exception. It never indexes past [argv], loops or fails otherwise. *)
Theorem startup_config_typed argv :
  match server_config hw argv with
  | Ret (Some c) =>
      ConfigTyped c /\ ConfigValid c /\ TcpServer_validate (network c) (reactor c) = Ret tt
  | Ret None => NeedShowHelp argv = Ret true
  | Fail f => exists e, f = Throw e
  end.
Proof. apply server_config_ok. Qed.
End ConfigTheorems.

(** ** A concrete library and file *)

Inductive toml_node :=
  | TomlString (b : bytes)
  | TomlInteger (z : Z)
  | TomlTable (t : toml_table)
with toml_table :=
  | TomlEmpty
  | TomlEntry (key : string) (n : toml_node) (rest : toml_table).

Fixpoint toml_lookup (t : toml_table) (k : bytes) : option toml_node :=
  match t with
  | TomlEmpty => None
  | TomlEntry key n rest => if bool_decide (k = lit key) then Some n else toml_lookup rest k
  end.

Definition example_file : toml_table :=
  TomlEntry "server"
    (TomlTable (TomlEntry "host" (TomlString (lit "127.0.0.1")) (TomlEntry "port" (TomlInteger 7000) TomlEmpty)))
  (TomlEntry "reactor"
    (TomlTable (TomlEntry "sub_reactors" (TomlInteger 0) (TomlEntry "poller" (TomlString (lit "poll")) TomlEmpty)))
  (TomlEntry "network" (TomlTable (TomlEntry "max_accepts_per_event" (TomlInteger 8) TomlEmpty))
  (TomlEntry "logging" (TomlTable (TomlEntry "level" (TomlString (lit "off")) TomlEmpty))
  TomlEmpty))).

(** A library with one file to read. *)
#[local] Instance example_toml : Toml toml_node toml_table := {
  toml_get := toml_lookup;
  as_table n := match n with TomlTable t => Some t | _ => None end;
  value_string n := match n with TomlString b => Some b | _ => None end;
  value_int64 n := match n with TomlInteger z => if fits_i64 z then Some z else None | _ => None end;
  parse_file path :=
    if bool_decide (path = lit "x.toml") then Ret example_file
    else Fail (Throw (runtime_error "File could not be opened for reading"));
}.

#[local] Instance example_toml_laws : TomlLaws toml_node toml_table.
Proof.
  split.
  - intros [|z|] v; cbn; try done. destruct (fits_i64 z) eqn:Hz; [|done]. intros [= <-].
    unfold fits_i64 in Hz. lia.
  - intros path. cbn. by case_bool_decide.
Qed.

Definition example_config : AppConfig :=
  mkAppConfig (lit "127.0.0.1") 7000
    (mkNetworkOptions (1024 * 1024 + 4) (1024 * 1024) (512 * 1024) (4 * 1024 * 1024) (64 * 1024) 8)
    (mkReactorOptions PB_Poll 6) (mkShutdownOptions 3000) 5000 LL_Off.

Lemma load_decides_witness :
  parse_file (lit "x.toml") = Ret example_file /\ toml_config 12 example_file example_config.
Proof.
  assert (parse_file (lit "x.toml") = Ret example_file) as Hp by reflexivity. split; [exact Hp|].
  apply (proj1 (load_decides 12 (lit "x.toml") example_file Hp) example_config).
  vm_compute. reflexivity.
Defined.

Lemma startup_config_typed_witness :
  let argv := lit <$> ["tinykv"; "--port"; "80"; "-c"; "x.toml"]%string in
  server_config 12 argv = Ret (Some (example_config <| port := 80 |>)) /\
  ConfigTyped (example_config <| port := 80 |>) /\ ConfigValid (example_config <| port := 80 |>).
Proof.
  intros argv. assert (server_config 12 argv = Ret (Some (example_config <| port := 80 |>))) as Hs
    by (vm_compute; reflexivity).
  pose proof (startup_config_typed 12 argv) as Ht. rewrite Hs in Ht.
  destruct Ht as (H1 & H2 & _). split; [exact Hs|]. split; [exact H1|exact H2].
Defined.

(** A timeout that passes every check and overflows when the shutdown begins:
    the clock counts nanoseconds. *)
Definition huge_timeout : AppConfig := example_config <| shutdown := mkShutdownOptions I64_MAX |>.

Lemma huge_timeout_overflows {T P} `{!ReactorControl T, !Poller P} (s : TcpServer T P) now :
  0 <= now -> t_state s = Running ->
  ConfigValid huge_timeout /\ ConfigTyped huge_timeout /\
  fst (TcpServer.BeginGracefulShutdown (shutdown huge_timeout) now s)
  = Fail (Undefined "signed integer overflow").
Proof.
  intros Hnow Hs. split_and!; [by apply Validate_ok; vm_compute|by repeat constructor|].
  unfold TcpServer.BeginGracefulShutdown, mbind, M_bind, gets, modify. rewrite Hs. cbn [bool_decide negb].
  rewrite bool_decide_true by done. cbn [negb]. unfold checked_i64, fits_i64.
  change (gracefulTimeout (shutdown huge_timeout) * EventLoop.NS_PER_MS) with (I64_MAX * 1000000).
  replace ((I64_MIN <=? now + I64_MAX * 1000000) && (now + I64_MAX * 1000000 <=? I64_MAX)) with false
    by (unfold I64_MAX, I64_MIN; lia).
  done.
Qed.

(** ** The line printed at the start *)

(** No comma inside. *)
Definition plain (b : bytes) : Prop := ","%char ∉ b.

Lemma plain_split a a' x x' :
  plain a -> plain a' -> a ++ ","%char :: x = a' ++ ","%char :: x' -> a = a' /\ x = x'.
Proof.
  unfold plain. revert a'. induction a as [|c a IH]; intros [|c' a'] Ha Ha' Heq;
    rewrite ?not_elem_of_cons in Ha; rewrite ?not_elem_of_cons in Ha'; simplify_eq/=; [done|tauto..|].
  by destruct (IH a') as [-> ->]; [tauto..| |].
Qed.

Lemma to_string_plain n : 0 <= n < U64_MOD -> plain (to_string n).
Proof.
  intros Hn Hin. destruct (to_string_digits n Hn) as ([_ Hds] & _).
  rewrite Forall_forall in Hds. by specialize (Hds _ Hin).
Qed.

Lemma to_string_inj n m : 0 <= n < U64_MOD -> 0 <= m < U64_MOD -> to_string n = to_string m -> n = m.
Proof.
  intros Hn Hm Heq. destruct (to_string_digits n Hn) as (_ & <- & _), (to_string_digits m Hm) as (_ & <- & _).
  by rewrite Heq.
Qed.

Lemma backend_name_inj b b' : ParsePollerBackendName b = ParsePollerBackendName b' -> b = b'.
Proof. by destruct b, b'. Qed.
Lemma backend_name_plain b : plain (ParsePollerBackendName b).
Proof. unfold plain. apply (bool_decide_unpack _). by destruct b. Qed.
Lemma level_name_inj l l' : lit (LogLevelName l) = lit (LogLevelName l') -> l = l'.
Proof. by destruct l, l'. Qed.

(** One field, up to the comma that starts the next. *)
Lemma field_split k v v' sep rest rest' :
  head sep = Some ","%char -> plain v -> plain v' ->
  k ++ v ++ sep ++ rest = k ++ v' ++ sep ++ rest' -> v = v' /\ sep ++ rest = sep ++ rest'.
Proof.
  intros Hs Hv Hv' Heq%app_inv_head. destruct sep as [|c sep]; simplify_eq/=.
  apply plain_split in Heq as [-> Heq]; [by rewrite Heq|done..].
Qed.

Lemma number_split k n n' sep rest rest' :
  head sep = Some ","%char -> 0 <= n < U64_MOD -> 0 <= n' < U64_MOD ->
  k ++ to_string n ++ sep ++ rest = k ++ to_string n' ++ sep ++ rest' -> n = n' /\ sep ++ rest = sep ++ rest'.
Proof.
  intros Hs Hn Hn' Heq. apply field_split in Heq as [Heq ->]; [|by repeat first [done|apply to_string_plain]..].
  by apply to_string_inj in Heq.
Qed.

(** Two configurations with the same line are the same, but for the interval of
    the sweeper, which the line does not show. *)
Lemma config_line_determines c c' :
  ConfigValid c -> ConfigTyped c -> ConfigValid c' -> ConfigTyped c' -> plain (host c) -> plain (host c') ->
  BuildConfigStr c = BuildConfigStr c' -> c' = c <| sweepInterval := sweepInterval c' |>.
Proof.
  intros [] [? [] [] ? ?] [] [? [] [] ? ?] Hh Hh' Heq. unfold is_size, is_i64 in *.
  assert (65535 < U64_MOD) by done. assert (I64_MAX < U64_MOD) by done.
  unfold BuildConfigStr in Heq.
  apply field_split in Heq as [E1 Heq]; [|done..].
  apply number_split in Heq as [E2 Heq]; [|done || lia..].
  apply field_split in Heq as [E3%backend_name_inj Heq]; [|done || apply backend_name_plain..].
  do 7 (apply number_split in Heq as [? Heq]; [|done || lia..]).
  apply number_split in Heq as [? Heq]; [|done || lia..].
  apply app_inv_head, level_name_inj in Heq.
  destruct c as [? ? [] [] [] ? ?], c' as [? ? [] [] [] ? ?]; simplify_eq/=. done.
Qed.
