(* ===== verification/Client.v ===== *)
(** * The interactive client (app/client_main.cpp)

    The socket is a parameter: the calls [send] and [recv] on the connected
    descriptor, with the state of the rest of the world. What the client needs
    of the other end is a class, [Service]: requests are taken piece by piece
    and answered one by one with a frame, of which [recv] returns a non-empty
    beginning of any length. The client prints exactly the answers of any
    service. A peer that decodes what it is sent and computes its answers, behind
    sockets that obey [SocketLaws], is one; the server is another
    ([ClientServer]). *)

From S2P Require Import Prelude FrameCodec PriorityQueue KVStore CommandParser CommandExecutor.
#[local] Open Scope Z_scope.

(** ** The program *)

Class Socket (W : Type) := {
  (** [::send(fd, data, size, 0)]: the returned count *)
  sk_send : bytes -> M W Z;
  (** [::recv(fd, temp, size, 0)]: the bytes received, [None] for a result that
      is not positive *)
  sk_recv : Z -> M W (option bytes);
}.

Section Client.
Context {W : Type} `{!Socket W}.

(** The local variable is [sent]. *)
Definition SendAll_body (data : bytes) : M (W * Z) ctl :=
  sent ← gets snd;
  if zlen data <=? sent then mret Break else
  n ← zoom fst (sk_send (drop (Z.to_nat sent) data));
  if n <=? 0 then throw (runtime_error "Failed to send data") else
  modify (fun st => st <| snd ::= fun sent => sent + n |>);;
  mret Continue.

(** Every turn sends a byte at least. *)
Definition SendAll (data : bytes) : M W unit :=
  with_local 0 (loop (S (length data)) (SendAll_body data)).

(** The local variables are [buffer] and the value to return. *)
Definition RecvFrame_body : M (W * (bytes * option bytes)) ctl :=
  temp ← zoom fst (sk_recv 4096);
  match temp with
  | None => throw (runtime_error "Failed to receive data")
  | Some temp =>
      frames ← zoom snd (zoom fst (Decode_data (Some temp) (zlen temp)));
      match frames with
      | front :: _ => modify (fun st => st <| snd ::= fun l => l <| snd := Some front |> |>);; mret Break
      | [] => mret Continue
      end
  end.

(** [while (true)]: [fuel] bounds the calls of [recv]. *)
Definition RecvFrame (fuel : nat) : M W bytes :=
  with_local ([], None) (
    loop fuel RecvFrame_body;;
    r ← gets (fun st => snd (snd st));
    match r with
    | Some p => mret p
    | None => fail (Undefined "no value to return")
    end).

(** What goes to the standard output, piece by piece. *)
Definition client_out (text : bytes) : M (W * list bytes) unit :=
  modify (fun st => st <| snd ::= fun out => out ++ [text] |>).

Definition prompt : bytes := lit "> ".

(** The lines that end the session. *)
Definition quits (line : bytes) : bool :=
  bool_decide (line = lit "QUIT") || bool_decide (line = lit "quit").

(** A list of lines is what [getline] reads until the end of the input. *)
Fixpoint client_loop (fuel : nat) (lines : list bytes) : M (W * list bytes) unit :=
  client_out prompt;;
  match lines with
  | [] => mret tt
  | line :: lines =>
      if bool_decide (line = []) then client_loop fuel lines else
      frame ← Encode line;
      zoom fst (SendAll frame);;
      response ← zoom fst (RecvFrame fuel);
      client_out (response ++ newline);;
      if quits line then mret tt else client_loop fuel lines
  end.

(** The exit status, after the [try] block. *)
Definition client_main (fuel : nat) (lines : list bytes) : M (W * list bytes) Z :=
  try_catch (client_loop fuel lines;; mret 0) (fun _ => mret 1).
End Client.

(** The requests the client makes of its input: the lines that are not empty,
    up to the first that ends the session. *)
Fixpoint requests (lines : list bytes) : list bytes :=
  match lines with
  | [] => []
  | line :: lines =>
      if bool_decide (line = []) then requests lines else
      if quits line then [line] else line :: requests lines
  end.

(** A line that does not fit a frame is not sent: [Encode] throws. *)
Definition fitting (reqs : list bytes) : list bytes :=
  take_while (fun p => zlen p <=? MAX_FRAME_SIZE) reqs.

(** What the terminal shows when the requests are answered by [resps]: a prompt
    before every line that is read and before the end of the input, and every
    response on a line of its own. Without a response the rest is not reached. *)
Fixpoint transcript (lines resps : list bytes) : list bytes :=
  prompt ::
  match lines with
  | [] => []
  | line :: lines =>
      if bool_decide (line = []) then transcript lines resps else
      match resps with
      | [] => []
      | resp :: resps => (resp ++ newline) :: if quits line then [] else transcript lines resps
      end
  end.

Lemma fitting_all reqs : Forall fits reqs -> fitting reqs = reqs.
Proof.
  unfold fitting. induction 1 as [|p reqs Hp _ IH]; [done|]. cbn. unfold fits in Hp.
  replace (zlen p <=? MAX_FRAME_SIZE) with true by lia. by rewrite IH.
Qed.

Definition too_large : exn := runtime_error "The payload is too large".

(** ** What the client needs of the other end

    A service answers the requests one by one. The world is ready for the
    requests [todo] after the exchanges [h]; it takes a request piece by piece,
    of which [sent] bytes have been sent; and it waits for the client to take
    the answer, of which the client has [got] so far. How the answer comes
    about is the service's business: it is known when it is delivered. *)
Class Service (bound : Z) (W : Type) `{!Socket W} := {
  svc_ready : list bytes -> list (bytes * bytes) -> W -> Prop;
  svc_sending : list bytes -> list (bytes * bytes) -> bytes -> Z -> W -> Prop;
  svc_waiting : list bytes -> list (bytes * bytes) -> bytes -> bytes -> W -> Prop;
  svc_start p todo h w :
    svc_ready (p :: todo) h w -> fits p /\ svc_sending todo h p 0 w;
  svc_send todo h p sent w :
    0 <= sent < zlen (frame p) -> svc_sending todo h p sent w ->
    exists n w', sk_send (drop (Z.to_nat sent) (frame p)) w = (Ret n, w') /\
      1 <= n <= zlen (frame p) - sent /\
      if sent + n <? zlen (frame p) then svc_sending todo h p (sent + n) w' else svc_waiting todo h p [] w';
  svc_recv todo h p got size w :
    1 <= size -> svc_waiting todo h p got w ->
    exists chunk a rest w', sk_recv size w = (Ret (Some chunk), w') /\ 1 <= zlen chunk <= size /\
      fits a /\ zlen (frame a) <= bound /\ frame a = got ++ chunk ++ rest /\
      if bool_decide (rest = []) then svc_ready todo (h ++ [(p, a)]) w' else svc_waiting todo h p (got ++ chunk) w';
}.

Lemma decode_prefix p b rest :
  fits p -> frame p = b ++ rest -> rest <> [] -> incomplete b.
Proof.
  intros Hp Hb Hr. pose proof (zlen_frame p) as Hl. rewrite Hb, zlen_app in Hl.
  assert (1 <= zlen rest) by (destruct rest; [done|]; rewrite zlen_cons; pose proof (zlen_nonneg rest); lia).
  unfold incomplete. destruct (Z.lt_ge_cases (zlen b) HEADER_SIZE); [by left|right].
  assert (ntohl_bytes b = zlen p) as ->.
  { pose proof (ntohl_frame p [] Hp) as Hn. rewrite app_nil_r, Hb in Hn. by rewrite ntohl_prefix in Hn. }
  unfold fits in Hp. lia.
Qed.

Lemma decode_whole p : fits p -> Decode (frame p) = (Ret [p], []).
Proof.
  intros Hp. apply decode_ok_iff. unfold frames. cbn. rewrite !app_nil_r.
  split_and!; [done|by constructor|by left].
Qed.

Lemma decode_part p b rest :
  fits p -> frame p = b ++ rest -> rest <> [] -> Decode b = (Ret [], b).
Proof.
  intros Hp Hb Hr. apply decode_ok_iff. split_and!; [done|constructor|]. by eapply decode_prefix.
Qed.

Section service.
Context {W : Type} `{!Socket W} (bound : Z) `{HV : !Service bound W}.
Implicit Types (todo : list bytes) (h : list (bytes * bytes)) (w : W).

Lemma SendAll_ok todo h p w :
  svc_sending todo h p 0 w ->
  wp (SendAll (frame p)) (fun _ w' => svc_waiting todo h p [] w') no_fail w.
Proof.
  intros Hw. pose proof (zlen_frame p) as Hlen. pose proof (zlen_nonneg p). unfold HEADER_SIZE in Hlen.
  unfold SendAll. apply wp_with_local.
  apply (wp_loop (fun st => 0 <= st.2 <= zlen (frame p) /\
           if st.2 <? zlen (frame p) then svc_sending todo h p st.2 st.1 else svc_waiting todo h p [] st.1)
         _ _ (fun st => Z.to_nat (zlen (frame p) - st.2))).
  - cbn. replace (0 <? zlen (frame p)) with true by lia. split; [lia|done].
  - cbn. unfold zlen. lia.
  - intros [w1 sent] [Hs Hw1]. cbn [fst snd] in *.
    unfold wp, SendAll_body, mbind, M_bind, gets, zoom, modify. cbn [snd fst].
    destruct (Z.ltb_spec sent (zlen (frame p))); [|by replace (zlen (frame p) <=? sent) with true by lia].
    destruct (svc_send todo h p sent w1) as (n & w2 & Hsend & Hn & Hw2); [lia|done|].
    replace (zlen (frame p) <=? sent) with false by lia. cbn [fst snd]. rewrite Hsend.
    replace (n <=? 0) with false by lia. cbn. split; [split; [lia|done]|lia].
Qed.

Lemma RecvFrame_ok todo h p w fuel :
  bound < Z.of_nat fuel -> svc_waiting todo h p [] w ->
  wp (RecvFrame fuel) (fun a w' => svc_ready todo (h ++ [(p, a)]) w') no_fail w.
Proof.
  intros Hfuel Hw. assert (0 <= bound) as Hbound.
  { destruct (svc_recv todo h p [] 1 w) as (_ & a & _ & _ & _ & _ & _ & Hb & _); [lia|done|].
    pose proof (zlen_nonneg (frame a)). lia. }
  unfold RecvFrame. apply wp_with_local, wp_bind.
  eapply wp_mono; [apply (wp_loop (fun st => snd st.2 = None /\ zlen (fst st.2) <= bound /\
           svc_waiting todo h p (fst st.2) st.1)
         (fun st => exists a, snd st.2 = Some a /\ svc_ready todo (h ++ [(p, a)]) st.1) no_fail
         (fun st => Z.to_nat (bound - zlen (fst st.2))))|..].
  - cbn. rewrite (@zlen_nil ascii). done.
  - cbn. rewrite (@zlen_nil ascii). lia.
  - intros [w1 [b r]] (Hr & Hb & Hw1). cbn [fst snd] in *. subst r.
    destruct (svc_recv todo h p b 4096 w1) as (chunk & a & rest & w2 & Hrecv & Hsz & Ha & Hbd & Hf & Hw2); [lia|done|].
    unfold wp, RecvFrame_body, mbind, M_bind, zoom. cbn [fst snd]. rewrite Hrecv. cbn [fst snd upd].
    rewrite decode_data_append.
    case_bool_decide as Hrest.
    + subst rest. rewrite app_nil_r in Hf. rewrite <-Hf, (decode_whole _ Ha). cbn. by exists a.
    + rewrite (decode_part a (b ++ chunk) rest); [|done|by rewrite <-app_assoc|done]. cbn.
      rewrite Hf, !zlen_app in Hbd. pose proof (zlen_nonneg rest). rewrite zlen_app.
      split_and!; [done|lia|done|lia].
  - intros _ [w1 [b r]] (a & Hr & Hw1). cbn [fst snd] in *. subst r. apply wp_bind, wp_gets. by apply wp_ret.
  - done.
Qed.

(** The client has made the requests that fit, up to the first that does not,
    and printed their answers. *)
Definition served_upto lines out h (st : W * list bytes) : Prop :=
  exists h', st.2 = out ++ transcript lines h'.*2 /\ h'.*1 = fitting (requests lines) /\
    svc_ready [] (h ++ h') st.1.

(** The client makes its requests in order and prints exactly the answers,
    however the kernel splits what is sent and what is received; a line that
    does not fit a frame ends it with an exception. *)
Lemma client_loop_wp fuel lines w out h :
  bound < Z.of_nat fuel -> Forall (fun p => zlen p < U32_MOD) (requests lines) ->
  svc_ready (fitting (requests lines)) h w ->
  wp (client_loop fuel lines)
    (fun _ st => served_upto lines out h st /\ fitting (requests lines) = requests lines)
    (fun f st => f = Throw too_large /\ served_upto lines out h st /\ fitting (requests lines) <> requests lines)
    (w, out).
Proof.
  intros Hfuel. unfold served_upto. revert w out h.
  induction lines as [|line lines IH]; intros w out h Hlen Hw; cbn [client_loop requests transcript] in *;
    apply wp_bind, wp_modify; cbn [fst snd upd].
  { apply wp_ret. split; [|done]. exists []. cbn. by rewrite app_nil_r. }
  case_bool_decide as Hnil.
  { eapply wp_mono; [by apply (IH w (out ++ [prompt]) h)|..].
    - intros [] st [(h' & Hout & Hrest) Hfit]. split; [|done]. exists h'. by rewrite Hout, <-app_assoc.
    - intros f st (Hf & (h' & Hout & Hrest) & Hfit). split; [done|]. split; [|done]. exists h'.
      by rewrite Hout, <-app_assoc. }
  set (todo := if quits line then [] else requests lines).
  assert ((if quits line then [line] else line :: requests lines) = line :: todo) as Hreqs by (unfold todo; by destruct (quits line)).
  rewrite Hreqs in *. apply Forall_cons in Hlen as [Hl Hlen]. unfold fitting in Hw |- *. cbn [take_while] in *.
  destruct (Z.leb_spec (zlen line) MAX_FRAME_SIZE) as [Hfit|Hbig].
  2: { apply wp_bind. unfold wp at 1. rewrite encode_too_large by (unfold U32_MOD in *; lia).
       split; [done|]. split; [|done]. exists []. cbn. by rewrite app_nil_r. }
  fold (fitting todo) in Hw |- *. destruct (svc_start line (fitting todo) h w Hw) as [_ Hsend].
  apply wp_bind. eapply wp_intro; [by apply encode_ok|].
  apply wp_bind, wp_zoom. eapply wp_mono; [by apply SendAll_ok| |done]. intros [] w1 Hw1.
  apply wp_bind, wp_zoom. eapply wp_mono; [by apply RecvFrame_ok| |done]. intros a w2 Hw2.
  apply wp_bind, wp_modify. cbn [fst snd upd]. rewrite <-app_assoc. cbn [app].
  assert (forall h', out ++ prompt :: (a ++ newline) :: (if quits line then [] else transcript lines h'.*2) =
    (out ++ [prompt; a ++ newline]) ++ (if quits line then [] else transcript lines h'.*2)) as Htr
    by (intros; by rewrite <-app_assoc).
  unfold todo in *. destruct (quits line).
  - apply wp_ret. split; [|done]. exists [(line, a)]. split_and!; [|done|exact Hw2]. done.
  - eapply wp_mono; [by apply (IH w2 (out ++ [prompt; a ++ newline]) (h ++ [(line, a)]))|..].
    + intros [] st [(h' & Hout & Hh & Hr) Hall]. split; [|by rewrite Hall].
      exists ((line, a) :: h'). rewrite <-app_assoc in Hr. cbn. by rewrite Htr, Hout, Hh.
    + intros f st (Hf & (h' & Hout & Hh & Hr) & Hall). split; [done|]. split; [|by intros [= ?]].
      exists ((line, a) :: h'). rewrite <-app_assoc in Hr. cbn. by rewrite Htr, Hout, Hh.
Qed.

Lemma requests_u32 reqs : Forall fits reqs -> Forall (fun p : bytes => zlen p < U32_MOD) reqs.
Proof.
  intros H. eapply Forall_impl; [exact H|]. intros p Hp. by apply fits_u32.
Qed.

(** When all lines fit, all are answered. *)
Lemma client_loop_all fuel lines w out h :
  bound < Z.of_nat fuel -> Forall fits (requests lines) -> svc_ready (requests lines) h w ->
  wp (client_loop fuel lines)
    (fun _ st => exists h', st.2 = out ++ transcript lines h'.*2 /\ h'.*1 = requests lines /\
       svc_ready [] (h ++ h') st.1) no_fail (w, out).
Proof.
  intros Hfuel Hfits Hw. pose proof (fitting_all _ Hfits) as Hall.
  eapply wp_mono; [apply (client_loop_wp fuel lines w out h); [done|by apply requests_u32|by rewrite Hall]|..].
  - intros [] st [(h' & Hout & Hh & Hr) _]. exists h'. by rewrite <-Hall at 1.
  - by intros f st (_ & _ & Hne).
Qed.
End service.

(** ** The peer *)

(** A peer with requests decoded so far, the bytes of an unfinished request,
    and the bytes of answers on their way to the client. *)
Record peer (S : Type) := mkPeer {
  p_state : S;
  p_in : bytes;
  p_fly : bytes;
}.
Arguments mkPeer {S}.
Arguments p_state {S}.
Arguments p_in {S}.
Arguments p_fly {S}.

Section peer.
Context {S : Type} (answer : S -> bytes -> bytes * S).

Fixpoint answers (s : S) (reqs : list bytes) : list bytes * S :=
  match reqs with
  | [] => ([], s)
  | r :: reqs => let '(a, s) := answer s r in let '(rest, s) := answers s reqs in (a :: rest, s)
  end.

Lemma answers_app s reqs1 reqs2 :
  answers s (reqs1 ++ reqs2) =
    ((answers s reqs1).1 ++ (answers (answers s reqs1).2 reqs2).1, (answers (answers s reqs1).2 reqs2).2).
Proof.
  revert s. induction reqs1 as [|r reqs1 IH]; intros s; cbn [answers app]; [cbn [fst snd]; by destruct (answers s reqs2)|].
  destruct (answer s r) as [a s1]. rewrite IH. cbn [fst snd]; by destruct (answers s1 reqs1).
Qed.

(** What the peer does with bytes that reach it. *)
Definition absorb (p : peer S) (d : bytes) : peer S :=
  let '(ps, rest) :=
    match Decode (p_in p ++ d) with
    | (Ret ps, rest) => (ps, rest)
    | (Fail _, rest) => ([], rest)
    end in
  let '(ans, s) := answers (p_state p) ps in
  mkPeer s rest (p_fly p ++ frames ans).

(** The connection of a blocking socket to the peer that stays up. *)
Class SocketLaws (W : Type) `{!Socket W} := {
  sk_peer : W -> peer S;
  sk_send_law w data : data <> [] ->
    exists n w', sk_send data w = (Ret n, w') /\ 1 <= n <= zlen data /\
      sk_peer w' = absorb (sk_peer w) (take (Z.to_nat n) data);
  sk_recv_law w size : p_fly (sk_peer w) <> [] -> 1 <= size ->
    exists chunk rest w', sk_recv size w = (Ret (Some chunk), w') /\ 1 <= zlen chunk <= size /\
      p_fly (sk_peer w) = chunk ++ rest /\
      sk_peer w' = mkPeer (p_state (sk_peer w)) (p_in (sk_peer w)) rest;
}.

(** ** The peer is a service *)

(** A beginning of the frame is kept, the whole frame is a request. *)
Lemma absorb_prefix p b rest d s0 :
  fits p -> frame p = b ++ d ++ rest -> rest <> [] ->
  absorb (mkPeer s0 b []) d = mkPeer s0 (b ++ d) [].
Proof.
  intros Hp Hf Hr. unfold absorb. cbn [p_in p_state p_fly].
  rewrite (decode_part p (b ++ d) rest); [done|done|by rewrite <-app_assoc|done].
Qed.

Lemma absorb_frame p b d s0 :
  fits p -> frame p = b ++ d ->
  absorb (mkPeer s0 b []) d = mkPeer (answer s0 p).2 [] (frame (answer s0 p).1).
Proof.
  intros Hp Hf. unfold absorb. cbn [p_in p_state p_fly]. rewrite <-Hf, (decode_whole _ Hp).
  cbn. destruct (answer s0 p) as [a s']. unfold frames. cbn. by rewrite app_nil_r.
Qed.

Context {W : Type} `{!Socket W} `{HL : !SocketLaws W}.

Lemma peer_send p w sent s0 :
  fits p -> 0 <= sent < zlen (frame p) ->
  sk_peer w = mkPeer s0 (take (Z.to_nat sent) (frame p)) [] ->
  exists n w', sk_send (drop (Z.to_nat sent) (frame p)) w = (Ret n, w') /\
    1 <= n <= zlen (frame p) - sent /\
    sk_peer w' = if sent + n <? zlen (frame p) then mkPeer s0 (take (Z.to_nat (sent + n)) (frame p)) []
                 else mkPeer (answer s0 p).2 [] (frame (answer s0 p).1).
Proof.
  intros Hp Hs Hw. set (data := frame p) in *.
  assert (zlen (drop (Z.to_nat sent) data) = zlen data - sent) as Hl by (rewrite zlen_drop; lia).
  destruct (sk_send_law w (drop (Z.to_nat sent) data)) as (n & w' & Hsend & Hn & Hw').
  { intros Hd. rewrite Hd in Hl. rewrite (@zlen_nil ascii) in Hl. lia. }
  exists n, w'. split_and!; [done|lia|lia|].
  rewrite Hw', Hw. rewrite <-(take_drop (Z.to_nat sent) data) in Hs.
  assert (take (Z.to_nat sent) data ++ take (Z.to_nat n) (drop (Z.to_nat sent) data)
          = take (Z.to_nat (sent + n)) data) as Ht.
  { rewrite Z2Nat.inj_add by lia. rewrite <-take_take_drop. done. }
  destruct (Z.ltb_spec (sent + n) (zlen data)).
  - rewrite (absorb_prefix p _ (drop (Z.to_nat (sent + n)) data)); [by rewrite Ht|done| |].
    + rewrite app_assoc, Ht, take_drop. done.
    + intros Hd%(f_equal zlen). rewrite zlen_drop, (@zlen_nil ascii) in Hd by lia. lia.
  - rewrite (absorb_frame p); [done|done|]. rewrite Ht.
    rewrite take_ge; [done|]. unfold zlen in *. lia.
Qed.

#[local] Instance peer_service (s0 : S) (bound : Z) : Service bound W.
Proof using HL.
  refine {|
    svc_ready todo h w := exists s, answers s0 h.*1 = (h.*2, s) /\ sk_peer w = mkPeer s [] [] /\
      Forall fits todo /\ Forall (fun a => fits a /\ zlen (frame a) <= bound) (answers s todo).1;
    svc_sending todo h p sent w := exists s, answers s0 h.*1 = (h.*2, s) /\
      sk_peer w = mkPeer s (take (Z.to_nat sent) (frame p)) [] /\
      Forall fits (p :: todo) /\ Forall (fun a => fits a /\ zlen (frame a) <= bound) (answers s (p :: todo)).1;
    svc_waiting todo h p got w := exists s rest, answers s0 h.*1 = (h.*2, s) /\
      sk_peer w = mkPeer (answer s p).2 [] rest /\ rest <> [] /\ frame (answer s p).1 = got ++ rest /\
      Forall fits todo /\ Forall (fun a => fits a /\ zlen (frame a) <= bound) (answers s (p :: todo)).1;
  |}.
  - intros p todo h w (s & Hh & Hw & Hfit & Hans). split; [by apply Forall_cons in Hfit as [? _]|]. by exists s.
  - intros todo h p sent w Hs (s & Hh & Hw & Hfit & Hans).
    apply Forall_cons in Hfit as Hfit'. destruct Hfit' as [Hp Htodo].
    destruct (peer_send p w sent s Hp Hs Hw) as (n & w' & Hsend & Hn & Hw'). exists n, w'.
    split_and!; [done|lia|lia|]. destruct (Z.ltb_spec (sent + n) (zlen (frame p))); exists s; [by split_and!|].
    exists (frame (answer s p).1). by split_and!.
  - intros todo h p got size w Hsize (s & rest & Hh & Hw & Hne & Hf & Hfit & Hans).
    destruct (sk_recv_law w size) as (chunk & rest' & w' & Hrecv & Hsz & Hsplit & Hw'); [by rewrite Hw|done|].
    rewrite Hw in Hsplit, Hw'. cbn [p_fly p_state p_in] in *. subst rest.
    cbn [answers] in Hans. exists chunk, (answer s p).1, rest', w'.
    destruct (answer s p) as [a s1] eqn:Ha. cbn [fst snd] in *.
    assert (Forall (fun a => fits a /\ zlen (frame a) <= bound) (a :: (answers s1 todo).1)) as Hall
      by (by destruct (answers s1 todo)).
    apply Forall_cons in Hall as [[Hfa Hba] Hall]. split_and!; try done; try lia.
    case_bool_decide as Hr.
    + subst rest'. exists s1. split_and!; try done. rewrite !fmap_app, answers_app, Hh. cbn. by rewrite Ha.
    + exists s, rest'. rewrite Ha. cbn [answers fst snd]. rewrite Ha, <-app_assoc. split_and!; try done.
Defined.

Lemma peer_loop_wp fuel lines w out s0 :
  sk_peer w = mkPeer s0 [] [] -> Forall fits (requests lines) ->
  Forall (fun a => fits a /\ zlen (frame a) < Z.of_nat fuel) (answers s0 (requests lines)).1 ->
  wp (client_loop fuel lines)
    (fun _ st => st.2 = out ++ transcript lines (answers s0 (requests lines)).1 /\
                 sk_peer st.1 = mkPeer (answers s0 (requests lines)).2 [] []) no_fail (w, out).
Proof using HL.
  intros Hw Hfit Hans.
  eapply (wp_mono _ _ _ no_fail); [apply (client_loop_all (Z.of_nat fuel - 1) (HV := peer_service s0 _) fuel lines w out [])| |done].
  - lia.
  - done.
  - exists s0. split_and!; [done|done|done|]. eapply Forall_impl; [exact Hans|]. intros a [? ?]. split; [done|lia].
  - intros [] st (h' & Hout & Hreq & s & Hs & Hp & _). cbn [app] in Hs. rewrite <-Hreq, Hs. done.
Qed.

(** The client makes one request per non-empty line, in order and until
    QUIT, and prints the prompts and exactly the peer's answers, however the kernel splits what
    is sent and what is received: partial sends put exactly the frame on the
    wire, and the answer is put together from any pieces. The program then
    exits with status 0. *)
Theorem client_exchange fuel lines w out s0 :
  sk_peer w = mkPeer s0 [] [] ->
  Forall fits (requests lines) ->
  Forall (fun a => fits a /\ zlen (frame a) < Z.of_nat fuel) (answers s0 (requests lines)).1 ->
  exists w', client_main fuel lines (w, out) = (Ret 0, (w', out ++ transcript lines (answers s0 (requests lines)).1)) /\
    sk_peer w' = mkPeer (answers s0 (requests lines)).2 [] [].
Proof.
  intros Hw Hfit Hans.
  pose proof (peer_loop_wp fuel lines w out s0 Hw Hfit Hans) as Hwp.
  apply wp_run in Hwp as ([] & [w' out'] & Hrun & Hout & Hw'). cbn [fst snd] in *. subst out'.
  exists w'. split; [|done]. unfold client_main, try_catch, mbind, M_bind. by rewrite Hrun.
Qed.
End peer.
