(* ===== verification/ClientSession.v ===== *)
(** * A client talking to the request pipeline

    The peer of the client is the pipeline of the server, [ParseCommand] and
    [Execute] over a store, at given clock readings: composing the client, the
    frames, the parser, the executor and the store, what a user reads on the
    screen is what the abstract map with deadlines answers ([ClientMain] has the
    theorem on the whole program). *)

From S2P Require Import Prelude PriorityQueue KVStore KVStoreInv KVStoreSweep KVStoreSpec FrameCodec CommandParser CommandGrammar CommandExecutor CommandTheorems RequestSpec Client.
#[local] Open Scope Z_scope.

Section peer.
Context {Q : Type} `{!PriorityQueue ExpirationRecord Q}.

(** The store and the clock readings to come. *)
Definition serve_line (st : KVStore Q * list TimePoint) (line : bytes) : bytes * (KVStore Q * list TimePoint) :=
  match st.2 with
  | now :: ts =>
      match answer now line st.1 with
      | (Ret a, s') => (a, (s', ts))
      | (Fail _, s') => ([], (s', ts))
      end
  | [] => ([], st)
  end.

Lemma serve_session ts reqs s resps s' :
  length ts = length reqs ->
  session (zip ts reqs) s = (Ret resps, s') -> answers serve_line (s, ts) reqs = (resps, (s', [])).
Proof.
  revert reqs s resps. induction ts as [|now ts IH]; intros [|line reqs] s resps Hl; try done; cbn [zip zip_with session].
  { by intros [= <- <-]. }
  unfold mbind, M_bind. cbn [answers]. unfold serve_line at 1. cbn [fst snd].
  destruct (answer now line s) as [[a|f] s1]; [|done].
  destruct (session (zip ts reqs) s1) as [[rest|f] s2] eqn:Hs; [|done].
  intros [= <- <-]. rewrite (IH reqs s1 rest); [done|cbn in Hl; lia|done].
Qed.

Context `{!PriorityQueueLaws ExpirationRecord Q ExpirationCompare}.
(** Requests that fit are answered as the abstract map answers, and the answers
    fit. *)
Lemma session_answers lines ts :
  let reqs := requests lines in
  length ts = length reqs -> steady 0 (zip ts reqs) -> zlen reqs < U64_MOD -> Forall fits reqs ->
  exists resps st, answers serve_line (KVStore_init, ts) reqs = (resps, st) /\ serves ∅ (zip ts reqs) resps /\
    Forall (fun a => fits a /\ zlen (frame a) <= HEADER_SIZE + MAX_FRAME_SIZE) resps.
Proof.
  intros reqs Hlen Hst Hn Hfit.
  assert (zlen (zip ts reqs) < U64_MOD) as Hz.
  { unfold zlen in *. rewrite length_zip_with_r_eq; lia. }
  destruct (wp_run _ _ _ (session_correct (zip ts reqs) 0 0 KVStore_init ∅ (Inv_init 0) Hst ltac:(lia) ltac:(done)))
    as (resps & s' & Hrun & Hs).
  exists resps, (s', []). split; [by apply serve_session|]. split; [done|].
  assert (Forall (fun x => fits x.2) (zip ts reqs)) as Hfit'.
  { apply Forall_forall. intros [t r] Hin%elem_of_zip_r. cbn in *. by eapply Forall_forall. }
  eapply Forall_impl; [apply (serves_fits _ _ _ Hs small_empty Hfit')|]. intros a Ha. split; [done|].
  rewrite zlen_frame. unfold fits in Ha. lia.
Qed.
End peer.

(** ** A connection that delivers two or three bytes at a time *)

Abbreviation StoreState := (SessionStore * list TimePoint)%type.

#[local] Instance small_socket : Socket (peer StoreState) := {
  sk_send data w :=
    let n := Z.min 2 (zlen data) in (Ret n, absorb serve_line w (take (Z.to_nat n) data));
  sk_recv size w :=
    let n := Z.min 3 size in
    (Ret (match take (Z.to_nat n) (p_fly w) with [] => None | chunk => Some chunk end),
     mkPeer (p_state w) (p_in w) (drop (Z.to_nat n) (p_fly w)));
}.

#[local] Instance small_socket_laws : SocketLaws serve_line (peer StoreState).
Proof.
  refine {| sk_peer := fun w => w |}.
  - intros w data Hd. do 2 eexists. split; [done|]. split; [|done].
    destruct data; [done|]. rewrite zlen_cons. pose proof (zlen_nonneg data). lia.
  - intros w size Hf Hsize. set (n := Z.min 3 size).
    exists (take (Z.to_nat n) (p_fly w)), (drop (Z.to_nat n) (p_fly w)),
      (mkPeer (p_state w) (p_in w) (drop (Z.to_nat n) (p_fly w))).
    assert (1 <= zlen (take (Z.to_nat n) (p_fly w)) <= size) as Hl.
    { unfold zlen. rewrite length_take. destruct (p_fly w); [done|]. cbn [length]. lia. }
    split; [|split; [done|]; split; [by rewrite take_drop|done]].
    cbn. fold n. generalize dependent (take (Z.to_nat n) (p_fly w)).
    intros [|a l] Hl; [rewrite (@zlen_nil ascii) in Hl; lia|done].
Defined.

Definition example_lines : list bytes :=
  lit <$> ["SET k v"; ""; "GET k"; "EXPIRE k 1"; "GET k"; "QUIT"; "PING"]%string.
Definition example_times : list TimePoint := [0; 1; 2; 1000000002; 1000000003].
Definition example_world : peer StoreState := mkPeer (KVStore_init, example_times) [] [].

Definition example_answers : list bytes := lit <$> ["+OK"; "$v"; "+OK"; "$nil"; "+BYE"]%string.

Lemma example_answers_ok :
  (Client.answers serve_line (KVStore_init : SessionStore, example_times) (requests example_lines)).1 = example_answers.
Proof. vm_compute. reflexivity. Qed.

(** What the terminal shows, the answers broken off with their newlines. *)
Lemma example_transcript :
  concat (transcript example_lines example_answers) =
  lit "> +OK" ++ newline ++ lit "> > $v" ++ newline ++ lit "> +OK" ++ newline ++ lit "> $nil" ++ newline ++
  lit "> +BYE" ++ newline.
Proof. vm_compute. reflexivity. Qed.

Lemma client_exchange_witness :
  exists w', client_main 200 example_lines (example_world, []) =
    (Ret 0, (w', transcript example_lines example_answers)).
Proof.
  destruct (client_exchange serve_line 200 example_lines example_world [] (KVStore_init, example_times))
    as (w' & Hrun & _).
  - reflexivity.
  - cbn [example_lines requests]. repeat constructor; vm_compute; discriminate.
  - rewrite example_answers_ok. unfold example_answers. cbn [fmap list_fmap].
    repeat (apply Forall_cons; split); [split; vm_compute; congruence..|constructor].
  - exists w'. rewrite Hrun, example_answers_ok. reflexivity.
Defined.
