(* ===== verification/ClientWire.v ===== *)
(** * The connection between the client program and the server

    The client of app/client_main.cpp is at one end of a TCP connection, and at
    the other end the server of [Serving] works with all its clients. While the
    client is in a call of [send] or [recv] the threads of the server make
    moves: on this connection they receive what has arrived, serve a request,
    send, or change what they watch; in between they do anything to the other
    clients, and the sweeper runs. The bytes on their way in both directions are
    part of the state. *)

From S2P Require Import Prelude PriorityQueue KVStore KVStoreInv KVStoreSpec FrameCodec CommandGrammar RequestSpec OutputBuffer ServerMetrics Poller SubReactor SubReactorInv SubReactorRequests SubReactorHandlers EventLoop Serving ServingInv ServingSteps ServingTheorems Client.
#[local] Open Scope Z_scope.

Section wire.
Context {Q : Type} `{!PriorityQueue ExpirationRecord Q}.
Context {P : Type} `{!Poller P}.
(** The client is the [i]-th of the server. *)
Context (o : NetworkOptions) (i : nat).

(** ** Moves of the server *)

Inductive move :=
  (** something that does not concern this client *)
  | MvOther (act : action (P := P))
  (** the read event, [most] bytes having arrived at most *)
  | MvReceive (most : Z) (p : P)
  (** the next request of the last [recv] *)
  | MvServe (clock : TimePoint * Z) (p : P)
  (** the write event, with room for [room] bytes *)
  | MvWrite (room : Z) (p : P)
  (** the interest is brought up to date after the events *)
  | MvRefresh (p : P).

(** What [recv] answers the server, [up] being on its way. *)
Definition arrived (most : Z) (up : bytes) : syscall bytes :=
  if (most <=? 0) || bool_decide (up = []) then SysError EAGAIN else SysOk (take (Z.to_nat most) up).

Definition vacant (room : Z) : syscall Z := if room <=? 0 then SysError EAGAIN else SysOk room.

Definition move_action (m : move) (up : bytes) : action :=
  match m with
  | MvOther act => act
  | MvReceive most p => ActReceive i [arrived most up] p
  | MvServe clock p => ActServe i clock p
  | MvWrite room p => ActWrite i [vacant room] p
  | MvRefresh p => ActConn i ActRefresh p
  end.

(** ** The state of the connection *)

Record wire := mkWire {
  wr_server : serving Q;
  (** what has happened at the server *)
  wr_events : list event;
  (** on its way to the server, and to the client *)
  wr_up : bytes;
  wr_down : bytes;
  (** the moves during the calls to come of the client *)
  wr_turns : list (list move);
  (** the sizes of the pieces in which the client's kernel transfers *)
  wr_cuts : list Z;
}.
#[export] Instance wire_settable : Settable wire := fun w =>
  {| wr_server := wr_server w; wr_events := wr_events w; wr_up := wr_up w; wr_down := wr_down w;
     wr_turns := wr_turns w; wr_cuts := wr_cuts w |}.

(** A move that is not possible is not made. *)
Definition make_move (w : wire) (m : move) : wire :=
  match exec o (move_action m (wr_up w)) (wr_server w) with
  | Some (ev, sys) =>
      w <| wr_server := sys |> <| wr_events ::= fun h => h ++ ev |>
        <| wr_up ::= drop (length (received_by i ev)) |> <| wr_down ::= fun down => down ++ sent_to i ev |>
  | None => w
  end.

Definition make_moves (ms : list move) (w : wire) : wire := fold_left make_move ms w.

(** The next piece of [n] bytes. *)
Definition cut (n : Z) (w : wire) : Z :=
  match wr_cuts w with c :: _ => Z.max 1 (Z.min c n) | [] => n end.

(** [::send]: the server moves, and a piece of the data is on its way. *)
Definition wire_send (data : bytes) : M wire Z := fun w =>
  let w := match wr_turns w with [] => w | ms :: turns => make_moves ms (w <| wr_turns := turns |>) end in
  let n := cut (zlen data) w in
  (Ret n, w <| wr_up ::= fun up => up ++ take (Z.to_nat n) data |> <| wr_cuts ::= tail |>).

Definition server_closed (w : wire) : bool :=
  match sv_clients (wr_server w) !! i with Some cl => closed (cl_conn cl) | None => true end.

(** The server moves until something is there to receive, or the end of the
    stream. *)
Fixpoint wait_data (turns : list (list move)) (w : wire) : option wire :=
  match turns with
  | [] => None
  | ms :: turns =>
      let w := make_moves ms (w <| wr_turns := turns |>) in
      if bool_decide (wr_down w = []) && negb (server_closed w) then wait_data turns w else Some w
  end.

(** [::recv], with [None] for the end of the stream. *)
Definition wire_recv (size : Z) : M wire (option bytes) := fun w =>
  match wait_data (wr_turns w) w with
  | None => (Fail OutOfFuel, w)
  | Some w =>
      if bool_decide (wr_down w = []) then (Ret None, w) else
      let n := cut (Z.min size (zlen (wr_down w))) w in
      (Ret (Some (take (Z.to_nat n) (wr_down w))),
       w <| wr_down ::= drop (Z.to_nat n) |> <| wr_cuts ::= tail |>)
  end.

Definition wire_socket : Socket wire := {| sk_send := wire_send; sk_recv := wire_recv |}.

(** ** Fair schedules *)

Definition action_client (act : action (P := P)) : option nat :=
  match act with
  | ActAccept j _ | ActReceive j _ _ | ActServe j _ _ | ActWrite j _ _ | ActConn j _ _ | ActDestroy j => Some j
  | ActSweep _ _ | ActMetrics _ => None
  end.

Definition action_time (act : action (P := P)) : option TimePoint :=
  match act with
  | ActServe _ clock _ => Some clock.1
  | ActSweep now _ => Some now
  | _ => None
  end.

(** The other moves leave the client alone. *)
Definition move_ok (m : move) : bool :=
  match m with MvOther act => bool_decide (action_client act <> Some i) | _ => true end.

Definition receives (m : move) : bool := match m with MvReceive most _ => 1 <=? most | _ => false end.
Definition serves_one (m : move) : bool := match m with MvServe _ _ => true | _ => false end.
Definition writes (m : move) : bool := match m with MvWrite room _ => 1 <=? room | _ => false end.

(** The server gets to the client: during each call it receives, serves and sends
    once at least, in any order and among any other moves. *)
Definition fair (ms : list move) : bool :=
  forallb move_ok ms && existsb receives ms && existsb serves_one ms && existsb writes ms.

Definition move_time (m : move) : option TimePoint := action_time (move_action m []).

(** The clock does not go back, and the calls on the store can be counted. *)
Definition timely (now : TimePoint) (calls : Z) (ms : list move) : Prop :=
  let ts := omap move_time ms in
  StronglySorted Z.le (now :: ts) /\ Forall clock_ok ts /\ calls + zlen ts < U64_MOD.
End wire.
Arguments wire Q P : clear implicits.
