(* ===== verification/ClientWireSteps.v ===== *)
(** * What the server's moves do to a request of the client

    The request goes through three phases at the server: it is being received,
    it waits to be served, its answer is on the way back. Each move on the
    connection keeps the phase or gets ahead. *)

From S2P Require Import Prelude PriorityQueue KVStore KVStoreInv KVStoreSpec FrameCodec CommandGrammar RequestSpec OutputBuffer ServerMetrics Poller SubReactor SubReactorInv SubReactorRequests SubReactorHandlers EventLoop Serving ServingInv ServingSteps ServingTheorems Client ClientWire.
#[local] Open Scope Z_scope.

(** ** Others *)

(** The requests of client [i] that were served. *)
Definition lines_of (i : nat) (h : list event) : list bytes :=
  omap (fun e => match e with EvServe j _ line => if (j =? i)%nat then Some line else None | _ => None end) h.

Lemma history_lines a h answers a' i : history a h answers a' -> (answers_of i answers).*1 = lines_of i h.
Proof.
  unfold answers_of, lines_of.
  induction 1 as [| | |a j now line resp a1 h answers a' _ _ IH|]; cbn; [done|done|done| |done].
  destruct (j =? i)%nat; cbn; by rewrite IH.
Qed.

Section steps.
Context {Q : Type} `{!PriorityQueue ExpirationRecord Q}
  `{!PriorityQueueLaws ExpirationRecord Q ExpirationCompare}.
Context {P : Type} `{!Poller P}.
Context (o : NetworkOptions) (i : nat).
Hypothesis Ho : options_ok o.
(** A frame fits in the receive buffer and in the send queue. *)
Hypothesis Hread : HEADER_SIZE + MAX_FRAME_SIZE <= maxReadBufferBytes o.
Hypothesis Hhard : HEADER_SIZE + MAX_FRAME_SIZE <= writeHardLimitBytes o.
Implicit Types (w : serving Q) (c : Connection) (up down : bytes).

(** An action on a client that was possible: its guards held, and its handler
    returned. *)
Ltac open_exec Hrun :=
  let cl := fresh "cl" in let Hcl := fresh "Hcl" in let w1 := fresh "w1" in let Hon := fresh "Hon" in
  apply bind_Some in Hrun as (cl & Hcl & Hrun);
  first [destruct (negb _); [done|] | destruct (cl_todo cl); [done|]; destruct (negb _); [done|] | idtac];
  try (apply bind_Some in Hrun as (w1 & Hon & Hrun);
       destruct (on_client_inv _ _ _ _ _ _ _ Hcl Hon) as (? & ? & _ & ->));
  injection Hrun as <- <-.

(** The clock and the number of calls after an action. *)
Lemma exec_clock act w ev w' :
  exec (P := P) o act w = Some (ev, w') ->
  (sv_clock w' = sv_clock w /\ sv_calls w' = sv_calls w) \/
  (action_time act = Some (sv_clock w') /\ sv_calls w' = sv_calls w + 1).
Proof.
  intros Hrun. destruct act as [j cfd|j answers p|j clock p|j answers p|j act p|j|now n|m]; cbn [exec] in Hrun;
    try (open_exec Hrun; first [by left|by right]).
  - destruct (sv_clients w !! j); [done|]. injection Hrun as _ <-. by left.
  - destruct (negb _); [done|]. destruct (SweepExpired _ _ _) as [[]]; [|done]. injection Hrun as _ <-. by right.
  - injection Hrun as _ <-. by left.
Qed.

(** An action of somebody else. *)
Lemma exec_other act w ev w' :
  exec (P := P) o act w = Some (ev, w') -> action_client act <> Some i ->
  sv_clients w' !! i = sv_clients w !! i /\ received_by i ev = [] /\ sent_to i ev = [] /\ lines_of i ev = [].
Proof.
  intros Hrun Hne. unfold received_by, sent_to, lines_of.
  destruct act as [j cfd|j answers p|j clock p|j answers p|j act p|j|now n|m]; cbn [exec action_client] in *;
    try (assert (j <> i) as Hj by congruence; apply Nat.eqb_neq in Hj as Hb);
    try (open_exec Hrun; cbn; by rewrite lookup_insert_ne, ?Hb).
  - destruct (sv_clients w !! j); [done|]. injection Hrun as <- <-. cbn. by rewrite lookup_insert_ne.
  - destruct (negb _); [done|]. destruct (SweepExpired _ _ _) as [[]]; [|done]. by injection Hrun as <- <-.
  - by injection Hrun as <- <-.
Qed.

(** ** The phases of a request *)

Inductive phase := PhRead | PhServe | PhAnswer (a : bytes).

(** The client has sent [k] bytes of the request [p], has [got] of the answer,
    and will go on when there is something [todo]. *)
Definition phase_ok (todo : list bytes) (p : bytes) (k : Z) (got : bytes) (ph : phase)
    (cl : client) (up down : bytes) : Prop :=
  let c := cl_conn cl in
  match ph with
  | PhRead => cl_todo cl = [] /\ taking_requests c /\ pending c = [] /\
      readBuffer c ++ up = take (Z.to_nat k) (frame p) /\ down = [] /\ got = []
  | PhServe => cl_todo cl = [p] /\ taking_requests c /\ pending c = [] /\ readBuffer c = [] /\ up = [] /\
      down = [] /\ got = [] /\ k = zlen (frame p)
  | PhAnswer a => cl_todo cl = [] /\ (todo <> [] -> taking_requests c) /\ readBuffer c = [] /\ up = [] /\
      k = zlen (frame p) /\ fits a /\ frame a = got ++ down ++ pending c
  end.

(** How far the client is from having something to receive. *)
Definition rank (ph : phase) (up down : bytes) : nat :=
  match ph with
  | PhRead => 2 + length up
  | PhServe => 2
  | PhAnswer _ => if bool_decide (down = []) then 1 else 0
  end.

(** The answers the client has been given before, or with this one. *)
Definition exchanges (h : list (bytes * bytes)) (p : bytes) (ph : phase) : list (bytes * bytes) :=
  match ph with PhAnswer a => h ++ [(p, a)] | _ => h end.

(** The connection is as good as before. *)
Definition as_good c c' : Prop :=
  pending c' = pending c /\ readBuffer c' = readBuffer c /\ (taking_requests c -> taking_requests c').

Lemma phase_as_good todo p k got ph c td c' up down :
  phase_ok todo p k got ph (mkClient c td) up down -> as_good c c' ->
  phase_ok todo p k got ph (mkClient c' td) up down.
Proof.
  intros Hph (Hp & Hr & Ht). destruct ph; cbn [phase_ok cl_conn cl_todo] in *; rewrite Hp, Hr; tauto.
Qed.

Lemma as_good_refl c : as_good c c.
Proof. by split_and!. Qed.

Lemma as_good_bp c : as_good c (bp_conn o c).
Proof.
  destruct (bp_conn_same o c) as (Hp & _ & Hr & Hcl & Hcw & _). split_and!; [done|done|].
  unfold taking_requests. by rewrite Hcl, Hcw.
Qed.

Lemma as_good_closed c :
  readBuffer c = [] -> pending c = [] -> ~ taking_requests c -> as_good c (closed_conn c).
Proof. intros Hr Hp Hn. split_and!; [by rewrite Hp|by rewrite Hr|by intros ?%Hn]. Qed.

(** A connection that takes requests and owes nothing reads. *)
Lemma conn_reads c :
  ConnOK o c -> taking_requests c -> pending c = [] -> reading c = true /\ Taking o c.
Proof.
  intros Hc [Hcl Hcw] Hp. destruct (co_active _ _ Hc Hcl Hcw) as [_ Hbp]. split.
  - unfold reading. rewrite Hcl, Hcw. destruct (readPaused c) eqn:Hrp; [|done].
    unfold backpressure_ok in Hbp. rewrite Hrp, Hp, (@zlen_nil ascii) in Hbp. destruct Ho. lia.
  - split; [apply Hc..|done|done|done].
Qed.

(** A request that has been received completely is there to be served. *)
Lemma read_incomplete p k rb up :
  fits p -> 0 <= k <= zlen (frame p) -> incomplete rb -> rb ++ up = take (Z.to_nat k) (frame p) ->
  exists rest, rest <> [] /\ frame p = rb ++ rest /\ (k = zlen (frame p) -> rest = up).
Proof.
  intros Hp Hk Hinc Hrb. exists (up ++ drop (Z.to_nat k) (frame p)).
  assert (frame p = rb ++ up ++ drop (Z.to_nat k) (frame p)) as Heq by (by rewrite app_assoc, Hrb, take_drop).
  split_and!; [|done|].
  - intros Hnil. rewrite Hnil, app_nil_r in Heq. subst rb.
    pose proof (decode_whole p Hp) as Hd. apply decode_ok_iff in Hd as (_ & _ & Hd).
    unfold incomplete in Hinc. rewrite <- (app_nil_r (frame p)), ntohl_frame in Hinc by done.
    rewrite app_nil_r, zlen_frame in Hinc. pose proof (zlen_nonneg p). lia.
  - intros ->. rewrite drop_ge; [apply app_nil_r|]. unfold zlen. lia.
Qed.

(** ** Receiving *)

(** The client is not further from an answer, and is nearer when the move is the
    one it waits for. *)
Definition ahead (helped : Prop) ph up down ph' up' down' : Prop :=
  (rank ph' up' down' <= rank ph up down)%nat /\
  (helped -> rank ph up down <> 0%nat -> (rank ph' up' down' < rank ph up down)%nat) /\
  (ph' = ph \/ (rank ph' up' down' < rank ph up down)%nat).

Lemma ahead_refl (helped : Prop) ph up down : ~ helped -> ahead helped ph up down ph up down.
Proof. intros Hn. split_and!; [done|by intros ?%Hn|by left]. Qed.

Lemma ahead_less helped ph up down ph' up' down' :
  (rank ph' up' down' < rank ph up down)%nat -> ahead helped ph up down ph' up' down'.
Proof. intros Hlt. split_and!; [lia|done|by right]. Qed.

(** Nothing has arrived. *)
Lemma receive_nothing s m pl c (x' : Ctx Q P) ps :
  ConnOK o c -> zlen (readBuffer c) < maxReadBufferBytes o ->
  receive o [SysError EAGAIN] (mkCtx s m pl c) = (Ret ps, x') ->
  ps = [] /\ x_conn x' = c /\ delivered o [SysError EAGAIN] c = [].
Proof.
  intros Hc Hroom Hrun. unfold delivered. rewrite (proj2 (Z.leb_gt _ _) Hroom). cbn [retry_eintr].
  assert (forall b : bool, (if b then [] else []) = @nil ascii) as -> by by intros [].
  destruct (reading c) eqn:Hrd.
  2: { rewrite receive_inactive in Hrun by done. by injection Hrun as <- <-. }
  destruct (wp_result _ _ _ _ _ _ (receive_wp o Ho [SysError EAGAIN] (inr EAGAIN) (mkCtx s m pl c) Hc eq_refl Hrd) Hrun)
    as (m' & c' & -> & Heff). cbn [x_conn] in Heff. unfold receive_effect in Heff.
  rewrite (proj2 (Z.leb_gt _ _) Hroom) in Heff. destruct Heff as [-> ->]. done.
Qed.

Lemma read_room todo p k got c td up down :
  fits p -> 0 <= k <= zlen (frame p) -> ConnOK o c -> phase_ok todo p k got PhRead (mkClient c td) up down ->
  incomplete (readBuffer c) /\ zlen (readBuffer c) < maxReadBufferBytes o.
Proof.
  intros Hp Hk Hc (_ & Htk & _ & Hrb & _). cbn [cl_conn] in *. destruct (co_active _ _ Hc) as [Hinc _]; [apply Htk..|].
  split; [done|]. destruct (read_incomplete p k _ _ Hp Hk Hinc Hrb) as (rest & Hrest & Hf & _).
  apply (f_equal zlen) in Hf. rewrite zlen_app, zlen_frame in Hf. unfold fits in Hp.
  destruct rest; [done|]. rewrite zlen_cons in Hf. pose proof (zlen_nonneg rest). lia.
Qed.

(** A piece of the request is taken over, or all that was missing. *)
Lemma receive_something todo p k got c up down most s m pl ps (x' : Ctx Q P) :
  fits p -> 0 <= k <= zlen (frame p) -> ConnOK o c -> phase_ok todo p k got PhRead (mkClient c []) up down ->
  1 <= most -> up <> [] ->
  receive o [SysOk (take (Z.to_nat most) up)] (mkCtx s m pl c) = (Ret ps, x') ->
  exists d rest, delivered o [SysOk (take (Z.to_nat most) up)] c = d /\ up = d ++ rest /\ d <> [] /\
    ((ps = [] /\ phase_ok todo p k got PhRead (mkClient (x_conn x') ps) rest down) \/
     phase_ok todo p k got PhServe (mkClient (x_conn x') ps) rest down).
Proof.
  intros Hp Hk Hc Hph Hmost Hup Hrun. destruct (read_room _ _ _ _ _ _ _ _ Hp Hk Hc Hph) as [Hinc Hroom].
  destruct Hph as (_ & Htk & Hpe & Hrb & -> & ->). cbn [cl_conn] in *. destruct (conn_reads c Hc Htk Hpe) as [Hrd _].
  destruct (wp_result _ _ _ _ _ _ (receive_wp o Ho [SysOk (take (Z.to_nat most) up)] (inl (take (Z.to_nat most) up))
    (mkCtx s m pl c) Hc eq_refl Hrd) Hrun) as (m' & c' & Hx & Heff).
  red in Hx. subst x'. cbn [x_conn] in *. unfold receive_effect in Heff. unfold delivered. rewrite Hrd. cbn [negb orb retry_eintr].
  rewrite (proj2 (Z.leb_gt _ _) Hroom) in *. unfold received in *. rewrite take_take in *.
  set (n := Nat.min _ _) in *. exists (take n up), (drop n up).
  assert (0 < n)%nat as Hn by (unfold n, READ_CHUNK; lia).
  assert (take n up <> []) as Hd by (destruct up, n; by try lia).
  rewrite bool_decide_eq_false_2 in Heff by done. rewrite take_drop. split_and!; [done|done|done|].
  rewrite <- (take_drop n up), app_assoc in Hrb.
  destruct (decide (frame p = readBuffer c ++ take n up)) as [Hall|Hpart].
  - rewrite <- Hall, (decode_whole p Hp) in Heff. destruct Heff as [-> ->]. right.
    rewrite <- Hall in Hrb. apply (f_equal zlen) in Hrb as Hlen. rewrite zlen_app, zlen_take in Hlen by lia.
    pose proof (zlen_nonneg (drop n up)).
    assert (drop n up = []) as -> by (apply zlen_0_nil; lia). split_and!; try done. lia.
  - assert (exists rest, rest <> [] /\ frame p = (readBuffer c ++ take n up) ++ rest) as (rest & Hrest & Hf).
    { exists (drop n up ++ drop (Z.to_nat k) (frame p)). rewrite app_assoc, Hrb, take_drop. split; [|done].
      intros Hnil%app_nil. destruct Hnil as [Hn1 Hn2]. rewrite Hn1, app_nil_r in Hrb. apply Hpart.
      rewrite Hrb, <- (take_drop (Z.to_nat k) (frame p)) at 1. by rewrite Hn2, app_nil_r. }
    rewrite (decode_part p _ rest Hp Hf Hrest) in Heff. destruct Heff as [-> ->]. left. by split_and!.
Qed.

Lemma receive_step todo p k got ph c up down most s m pl ps (x' : Ctx Q P) :
  fits p -> 0 <= k <= zlen (frame p) -> ConnOK o c -> phase_ok todo p k got ph (mkClient c []) up down ->
  receive o [arrived most up] (mkCtx s m pl c) = (Ret ps, x') ->
  let up' := drop (length (delivered o [arrived most up] c)) up in
  exists ph', phase_ok todo p k got ph' (mkClient (x_conn x') ps) up' down /\
    (forall h, exchanges h p ph' = exchanges h p ph) /\
    ahead (ph = PhRead /\ k = zlen (frame p) /\ 1 <= most) ph up down ph' up' down.
Proof.
  intros Hp Hk Hc Hph. unfold arrived. destruct ((most <=? 0) || bool_decide (up = [])) eqn:Hnone; cbn zeta.
  - intros Hrun. assert (zlen (readBuffer c) < maxReadBufferBytes o) as Hroom.
    { destruct ph; [by eapply read_room|by destruct Hph|].
      destruct Hph as (_ & _ & Hrb & _). cbn in Hrb. rewrite Hrb, (@zlen_nil ascii). destruct Ho. lia. }
    destruct (receive_nothing _ _ _ _ _ _ Hc Hroom Hrun) as (-> & -> & ->). exists ph.
    rewrite drop_0. split_and!; [done|done|]. apply ahead_refl.
    intros (-> & -> & Hm). destruct (read_room _ _ _ _ _ _ _ _ Hp Hk Hc Hph) as [Hinc _].
    destruct Hph as (_ & _ & _ & Hrb & _).
    destruct (read_incomplete p _ _ _ Hp Hk Hinc Hrb) as (rest & Hrest & _ & Hup). rewrite Hup in Hrest by done.
    rewrite bool_decide_eq_false_2, orb_false_r in Hnone by done. lia.
  - apply orb_false_iff in Hnone as [Hmost%Z.leb_gt Hup%bool_decide_eq_false].
    destruct ph; [|by destruct Hph|by destruct Hph as (_ & _ & _ & ? & _)]. intros Hrun. assert (1 <= most) as Hm by lia.
    destruct (receive_something _ _ _ _ _ _ _ _ _ _ _ _ _ Hp Hk Hc Hph Hm Hup Hrun)
      as (d & rest & -> & -> & Hd & Hor).
    rewrite drop_app_length. assert (length rest < length (d ++ rest))%nat as Hless
      by (rewrite length_app; destruct d; cbn; [done|lia]).
    destruct Hor as [[-> Hph']|Hph']; [exists PhRead|exists PhServe]; (split; [done|split; [done|]]);
      apply ahead_less; cbn [rank]; lia.
Qed.

(** ** Serving *)

(** Serving goes from the second phase to the third. *)
Lemma serve_step todo p k got ph h ans a w cl up down clock pl ev w' :
  (todo <> [] -> ~ denotes p ReqQuit) -> ServingOK o h ans a w -> sv_clients w !! i = Some cl ->
  phase_ok todo p k got ph cl up down -> exec o (ActServe i clock pl) w = Some (ev, w') ->
  exists resp a' cl', ph = PhServe /\ ev = [EvServe i clock.1 p] /\ server_step clock.1 a p resp a' /\
    ServingOK o (h ++ ev) (ans ++ [(i, (p, resp))]) a' w' /\ sv_clients w' !! i = Some cl' /\
    phase_ok todo p k got (PhAnswer resp) cl' up down.
Proof.
  intros Hq HS Hi Hph Hrun.
  destruct (exec_serve_effect o Ho _ _ _ _ _ _ _ _ _ HS Hrun)
    as (c & line & todo' & resp & a' & go_on & c' & Hi' & -> & Hstep & Hresp & Heff & Hcl' & HS').
  rewrite Hi in Hi'. injection Hi' as ->. pose proof (so_conn _ _ _ _ _ (sg_client _ _ _ _ _ HS i _ Hi)) as Hc.
  destruct ph; [by destruct Hph| |by destruct Hph].
  destruct Hph as (Hline & Htk & Hp & Hrb & Hup & Hdown & Hgot & Hk). cbn [cl_conn cl_todo] in *. injection Hline as -> ->.
  destruct (conn_reads c Hc Htk Hp) as [_ Htaking].
  exists resp, a', (mkClient c' []). split_and!; try done.
  { by destruct go_on. }
  cbn [phase_ok cl_conn cl_todo]. subst got down. cbn [app].
  destruct Heff as [(_ & _ & Hqd)|[(_ & Hquit & c1 & Hqd & ->)|(_ & Hqd)]].
  - destruct (queued_true o Ho _ _ _ Htaking Hqd) as (Htk' & (_ & _ & Hr & _) & Hpe & _).
    rewrite Hr, Hrb, Hpe, Hp. split_and!; try done. intros _. split; apply Htk'.
  - destruct (queued_true o Ho _ _ _ Htaking Hqd) as (Htk' & (_ & _ & Hr & _) & Hpe & _).
    change (readBuffer (c1 <| closeAfterWrite := true |>)) with (readBuffer c1).
    change (pending (c1 <| closeAfterWrite := true |>)) with (pending c1).
    rewrite Hr, Hrb, Hpe, Hp. split_and!; try done. by intros ?%Hq.
  - destruct Hqd as [(? & _)|(_ & [Hbig|Hfull] & _)]; [done| |]; exfalso.
    + unfold fits in Hresp. lia.
    + rewrite Hp, (@zlen_nil ascii), zlen_frame in Hfull. unfold fits in Hresp. lia.
Qed.

(** ** Sending *)

(** The write event when nothing is sent: the connection is closed, or the
    queue is empty or the socket full. *)
Lemma write_nothing todo p k got ph c up down room s m pl (x' : Ctx Q P) :
  ConnOK o c -> phase_ok todo p k got ph (mkClient c []) up down ->
  HandleClientWrite o [vacant room] (mkCtx s m pl c) = (Ret tt, x') ->
  pending c = [] \/ room <= 0 ->
  phase_ok todo p k got ph (mkClient (x_conn x') []) up down /\ taken o [vacant room] c = [].
Proof.
  intros Hc Hph Hrun Hnone. unfold taken. destruct (closed c) eqn:Hcl.
  { rewrite write_inactive' in Hrun by done. by injection Hrun as <-. }
  assert (exists answer, retry_eintr [vacant room] = Ret answer) as [answer Hans]
    by (unfold vacant; destruct (room <=? 0); by eexists).
  destruct (wp_result _ _ _ _ _ _ (handle_write_wp o [vacant room] answer (mkCtx s m pl c) Hc Hans Hcl) Hrun)
    as (m' & c' & Hx & Heff). red in Hx. subst x'. cbn [x_conn] in *. unfold write_effect in Heff.
  assert (as_good c c' /\ (pending c = [] \/ answer = inr EAGAIN)) as [Hgood Hor].
  { case_bool_decide as Hp.
    - split; [|by left]. destruct (closeAfterWrite c) eqn:Hcw; subst c'; [|apply as_good_bp].
      assert (~ taking_requests c) as Hnt by (intros [_ ?]; congruence).
      apply as_good_closed; [|done|done].
      destruct ph; [by destruct Hph as (_ & ? & _)|by destruct Hph|by destruct Hph as (_ & _ & ? & _)].
    - destruct Hnone as [?|Hroom]; [done|]. unfold vacant in Hans. rewrite (proj2 (Z.leb_le _ _) Hroom) in Hans.
      injection Hans as <-. cbn in Heff. subst c'. split; [apply as_good_refl|by right]. }
  split; [by eapply phase_as_good|]. rewrite Hans. destruct Hor as [Hp| ->]; [|done].
  rewrite Hp. destruct answer; [apply take_nil|done].
Qed.

Lemma write_step todo p k got ph c up down room s m pl (x' : Ctx Q P) :
  ConnOK o c -> phase_ok todo p k got ph (mkClient c []) up down ->
  HandleClientWrite o [vacant room] (mkCtx s m pl c) = (Ret tt, x') ->
  let down' := down ++ taken o [vacant room] c in
  phase_ok todo p k got ph (mkClient (x_conn x') []) up down' /\
  ahead ((exists a, ph = PhAnswer a /\ frame a <> got) /\ 1 <= room) ph up down ph up down'.
Proof.
  intros Hc Hph Hrun. cbn zeta.
  destruct (decide (pending c = [] \/ room <= 0)) as [Hnone|[Hp Hroom%Z.nle_gt]%Decidable.not_or].
  { destruct (write_nothing _ _ _ _ _ _ _ _ _ _ _ _ _ Hc Hph Hrun Hnone) as [Hph' ->]. rewrite app_nil_r.
    split; [done|]. split_and!; [done| |by left]. intros [(a & -> & Hne) Hroom] Hr. cbn in Hr.
    destruct Hph as (_ & _ & _ & _ & _ & _ & Hf). cbn [cl_conn] in Hf. case_bool_decide; [|done]. subst down.
    destruct Hnone as [Hp|]; [|lia]. rewrite Hp, !app_nil_r in Hf. by destruct Hne. }
  destruct ph; [by destruct Hph as (_ & _ & ? & _)|by destruct Hph|].
  destruct Hph as (_ & Hmore & Hrb & -> & Hk & Ha & Hf). cbn [cl_conn] in *.
  assert (closed c = false) as Hcl.
  { destruct (closed c) eqn:Hcl; [|done]. by rewrite (co_closed _ _ Hc Hcl) in Hp. }
  unfold taken, vacant in *. rewrite (proj2 (Z.leb_gt _ _) Hroom) in *. rewrite Hcl. cbn [retry_eintr].
  destruct (wp_result _ _ _ _ _ _ (handle_write_wp o [SysOk room] (inl room) (mkCtx s m pl c) Hc eq_refl Hcl) Hrun)
    as (m' & c' & Hx & Heff). red in Hx. subst x'. cbn [x_conn] in *. unfold write_effect in Heff.
  rewrite bool_decide_eq_false_2 in Heff by done. set (n := Z.min room _) in *.
  assert (1 <= n <= zlen (pending c)) as Hn.
  { destruct Ho. assert (1 <= zlen (pending c)); [|lia]. destruct (pending c); [done|].
    rewrite zlen_cons. pose proof (zlen_nonneg l). lia. }
  replace (n <=? 0) with false in Heff by lia. destruct Heff as (b' & _ & Hd & Heff). cbn zeta in Heff.
  assert (pending c' = drop (Z.to_nat n) (pending c) /\ readBuffer c' = [] /\ (taking_requests c -> taking_requests c'))
    as (Hp' & Hr' & Ht').
  { destruct (bp_conn_same o (c <| writeBuffer := b' |>)) as (Hbp & _ & Hbr & Hbcl & Hbcw & _).
    destruct (bool_decide (Data b' = []) && closeAfterWrite c) eqn:Hlast; subst c'.
    - apply andb_true_iff in Hlast as [Hnil%bool_decide_eq_true Hcw]. split_and!; [by rewrite <- Hd, Hnil|done|].
      intros [_ ?]. congruence.
    - rewrite Hbp, Hbr. split_and!; [exact Hd|exact Hrb|]. unfold taking_requests. by rewrite Hbcl, Hbcw. }
  split.
  - split_and!; cbn [cl_todo cl_conn]; try done; [by intros ?; apply Ht', Hmore|].
    by rewrite Hp', <- app_assoc, take_drop.
  - destruct (take (Z.to_nat n) (pending c)) eqn:Htk.
    { apply (f_equal zlen) in Htk. rewrite zlen_take, (@zlen_nil ascii) in Htk by lia. lia. }
    split_and!; [|intros _|by left]; cbn [rank]; rewrite (bool_decide_eq_false_2 (_ ++ _ = [])) by (by destruct down); lia.
Qed.

(** ** The interest *)

Lemma refresh_step todo p k got ph c up down s m pl (x' : Ctx Q P) :
  ConnOK o c -> phase_ok todo p k got ph (mkClient c []) up down ->
  exec_conn o ActRefresh (mkCtx s m pl c) = (Ret tt, x') ->
  phase_ok todo p k got ph (mkClient (x_conn x') []) up down.
Proof.
  intros Hc Hph Hrun. eapply phase_as_good; [exact Hph|].
  destruct (wp_result _ _ _ _ _ _ (refresh_keeps o Ho (mkCtx s m pl c) Hc) Hrun) as ((_ & _ & Hq) & Hclose & Hend).
  cbn [x_conn] in *. destruct (closed (x_conn x')) eqn:Hcl'.
  - destruct Hclose as [Hcl|[Hcw Hp]]; [done| |].
    + destruct Hq as [->|(Hp & Hr & _)].
      * rewrite <- (co_closed _ _ Hc Hcl). apply as_good_refl.
      * split_and!; [done|done|]. intros [? _]. congruence.
    + assert (~ taking_requests c) as Hnt by (intros [_ ?]; congruence).
      destruct Hq as [->|(Hp' & Hr & _)]; [|split_and!; [done|done|by intros ?%Hnt]].
      apply as_good_closed; [|done|done].
      destruct ph; [by destruct Hph as (_ & ? & _)|by destruct Hph|by destruct Hph as (_ & _ & ? & _)].
  - destruct Hq as [Hx|(Hp & Hr & _)]; [rewrite Hx in Hcl'; done|]. split_and!; [done|done|]. intros [_ Hcw].
    split; [done|]. destruct (closeAfterWrite (x_conn x')); [|done]. rewrite Hend in Hcw; done.
Qed.

(** ** Any move *)

(** The client's request [p] is in phase [ph]; it was given the answers [h]
    before. *)
Definition talk (todo : list bytes) (h : list (bytes * bytes)) (p : bytes) (k : Z) (got : bytes) (ph : phase)
    (x : wire Q P) : Prop :=
  exists ans a cl, history ∅ (wr_events x) ans a /\ ServingOK o (wr_events x) ans a (wr_server x) /\
    sv_clients (wr_server x) !! i = Some cl /\ phase_ok todo p k got ph cl (wr_up x) (wr_down x) /\
    answers_of i ans = exchanges h p ph.

(** The move the client waits for. *)
Definition helps (k : Z) (p got : bytes) (ph : phase) (m : move (P := P)) : Prop :=
  match ph with
  | PhRead => k = zlen (frame p) /\ receives m = true
  | PhServe => serves_one m = true
  | PhAnswer a => frame a <> got /\ writes m = true
  end.

(** The state after an action that was possible. *)
Lemma talk_exec todo h p k got ph ph' (x : wire Q P) m ev w' cl' ans a :
  exec o (move_action i m (wr_up x)) (wr_server x) = Some (ev, w') ->
  history ∅ (wr_events x) ans a -> ServingOK o (wr_events x) ans a (wr_server x) ->
  answers_of i ans = exchanges h p ph -> sv_clients w' !! i = Some cl' ->
  (forall ans' a', history a ev ans' a' -> exchanges h p ph ++ answers_of i ans' = exchanges h p ph') ->
  phase_ok todo p k got ph' cl' (drop (length (received_by i ev)) (wr_up x)) (wr_down x ++ sent_to i ev) ->
  talk todo h p k got ph' (make_move o i x m).
Proof.
  intros Hrun Hh HS Hans Hcl' Hex Hph. unfold make_move. rewrite Hrun.
  destruct (exec_ok o Ho _ _ _ _ _ _ _ HS Hrun) as (ans' & a' & Hh' & HS').
  exists (ans ++ ans'), a', cl'. cbn. split_and!; [by eapply history_app|done|done|done|].
  by rewrite answers_of_app, Hans, (Hex _ _ Hh').
Qed.

Lemma sent_to_recv d : sent_to i [EvRecv i d] = [].
Proof. done. Qed.
Lemma received_by_sent d : received_by i [EvSend i d] = [].
Proof. done. Qed.

(** An action on this client's connection that was possible. *)
Lemma exec_rest {A} (m : M (Ctx Q P) A) td' (ev : bytes -> list event) (d : Connection -> bytes) w w' ev' pl cl :
  sv_clients w !! i = Some cl ->
  (cl ← sv_clients w !! i;
   if negb (bool_decide (cl_todo cl = [])) then None else
   w' ← on_client_i i pl m td' w;
   Some (ev (d (cl_conn cl)), w')) = Some (ev', w') ->
  exists c r x', cl = mkClient c [] /\ m (mkCtx (sv_store w) (sv_metrics w) pl c) = (Ret r, x') /\ ev' = ev (d c) /\
    sv_clients w' !! i = Some (mkClient (x_conn x') (td' r [])).
Proof.
  intros Hi Hrun. rewrite Hi in Hrun. cbn [mbind option_bind] in Hrun.
  case_bool_decide as Htd; [cbn [negb] in Hrun|done]. apply bind_Some in Hrun as (w1 & Hon & [= <- <-]).
  destruct (on_client_inv _ _ _ _ _ _ _ Hi Hon) as (r & x' & Hrun & ->). destruct cl as [c td]. cbn in *. subst td.
  exists c, r, x'. split_and!; [done|done|done|]. by rewrite lookup_insert_eq.
Qed.

(** A move that helps is possible. *)
Lemma helps_possible todo h p k got ph (x : wire Q P) m ms :
  talk todo h p k got ph x -> helps k p got ph m ->
  timely i (sv_clock (wr_server x)) (sv_calls (wr_server x)) (m :: ms) ->
  is_Some (exec o (move_action i m (wr_up x)) (wr_server x)).
Proof.
  intros (ans & a & cl & _ & HS & Hi & Hph & _) Hm (Hs & Hclk & Hn).
  destruct ph; cbn [helps] in Hm; destruct m as [act|most pl|clock pl|room pl|pl]; try discriminate Hm; try (destruct Hm; discriminate).
  - destruct (client_goes_on o _ _ _ _ i cl pl Ho HS Hi) as (_ & Hgo & _).
    assert (exists answer, retry_eintr [arrived most (wr_up x)] = Ret answer) as [answer Hans]
      by (unfold arrived; destruct (_ || _); by eexists).
    eapply Hgo; [apply Hph|exact Hans].
  - destruct Hph as (Htd & _). destruct (client_goes_on o _ _ _ _ i cl pl Ho HS Hi) as (Hgo & _).
    eapply Hgo; [exact Htd|]. apply Forall_cons in Hclk as [[? ?] _].
    apply StronglySorted_inv in Hs as [_ Hle]. apply Forall_cons in Hle as [Hle _]. cbn in Hle.
    change (omap (move_time i) (MvServe clock pl :: ms)) with (clock.1 :: omap (move_time i) ms) in Hn.
    rewrite zlen_cons in Hn. pose proof (zlen_nonneg (omap (move_time i) ms)). unfold ticking.
    by rewrite !(proj2 (Z.leb_le _ _)), (proj2 (Z.ltb_lt _ _)) by lia.
  - destruct (client_goes_on o _ _ _ _ i cl pl Ho HS Hi) as (_ & _ & Hgo).
    assert (exists answer, retry_eintr [vacant room] = Ret answer) as [answer Hans]
      by (unfold vacant; destruct (_ <=? 0); by eexists).
    eapply Hgo; [apply Hph|exact Hans].
Qed.

(** A move keeps the conversation going and gets the client no further away. *)
Definition step_ok todo h p k got ph (x : wire Q P) m : Prop :=
  let x' := make_move o i x m in
  exists ph', talk todo h p k got ph' x' /\
    ahead (helps k p got ph m) ph (wr_up x) (wr_down x) ph' (wr_up x') (wr_down x').

(** A move without an answer, from its effect on the connection. *)
Lemma quiet_step todo h p k got ph ph' (x : wire Q P) m ev w' cl' ans a :
  exec o (move_action i m (wr_up x)) (wr_server x) = Some (ev, w') ->
  history ∅ (wr_events x) ans a -> ServingOK o (wr_events x) ans a (wr_server x) ->
  answers_of i ans = exchanges h p ph -> sv_clients w' !! i = Some cl' -> lines_of i ev = [] ->
  let up' := drop (length (received_by i ev)) (wr_up x) in
  let down' := wr_down x ++ sent_to i ev in
  phase_ok todo p k got ph' cl' up' down' -> exchanges h p ph' = exchanges h p ph ->
  ahead (helps k p got ph m) ph (wr_up x) (wr_down x) ph' up' down' ->
  step_ok todo h p k got ph x m.
Proof.
  intros Hrun Hh HS Hans Hcl' Hev up' down' Hph Hex Ha. exists ph'. split.
  - eapply talk_exec; try done. intros ans' a' Hh'. rewrite Hex.
    apply (history_lines _ _ _ _ i) in Hh'. rewrite Hev in Hh'.
    destruct (answers_of i ans'); [apply app_nil_r|done].
  - unfold make_move. by rewrite Hrun.
Qed.

(** The moves on a connection at rest. *)
Lemma rest_step todo h p k got ph (x : wire Q P) m ev w' ans a cl :
  fits p -> 0 <= k <= zlen (frame p) ->
  exec o (move_action i m (wr_up x)) (wr_server x) = Some (ev, w') -> serves_one m = false -> move_ok i m = true ->
  history ∅ (wr_events x) ans a -> ServingOK o (wr_events x) ans a (wr_server x) ->
  answers_of i ans = exchanges h p ph -> sv_clients (wr_server x) !! i = Some cl ->
  phase_ok todo p k got ph cl (wr_up x) (wr_down x) ->
  step_ok todo h p k got ph x m.
Proof.
  intros Hp Hk Hrun Hnot Hok Hh HS Hans Hi Hph.
  pose proof (so_conn _ _ _ _ _ (sg_client _ _ _ _ _ HS i _ Hi)) as Hc.
  destruct m as [act|most pl|clock pl|room pl|pl]; cbn [move_action] in Hrun; [| |done|..].
  - apply bool_decide_eq_true in Hok. destruct (exec_other _ _ _ _ Hrun Hok) as (Hcl' & Hr & Hs & Hl).
    eapply (quiet_step _ _ _ _ _ _ ph); try done; rewrite ?Hr, ?Hs, ?drop_0, ?app_nil_r; [by rewrite Hcl'|done|].
    apply ahead_refl. intros Hm. destruct ph; cbn in Hm; [by destruct Hm|done|by destruct Hm].
  - destruct (exec_rest _ _ (fun d => [EvRecv i d]) (delivered o [arrived most (wr_up x)]) _ _ _ _ _ Hi Hrun)
      as (c & ps & x' & -> & Hrecv & -> & Hcl').
    destruct (receive_step _ _ _ _ _ _ _ _ _ _ _ _ _ _ Hp Hk Hc Hph Hrecv) as (ph' & Hph' & Hex & H1 & H2 & H3).
    eapply (quiet_step _ _ _ _ _ _ ph'); try done; rewrite received_by_self, sent_to_recv, app_nil_r; [done|].
    split_and!; [done| |done]. intros Hm. apply H2.
    destruct ph; try (by destruct Hm). destruct Hm as [-> Hm]. cbn in Hm. split_and!; [done|done|lia].
  - destruct (exec_rest _ _ (fun d => [EvSend i d]) (taken o [vacant room]) _ _ _ _ _ Hi Hrun)
      as (c & [] & x' & -> & Hwrite & -> & Hcl').
    destruct (write_step _ _ _ _ _ _ _ _ _ _ _ _ _ Hc Hph Hwrite) as (Hph' & H1 & H2 & H3).
    eapply (quiet_step _ _ _ _ _ _ ph); try done; rewrite received_by_sent, sent_to_self, drop_0; [done|].
    split_and!; [done| |done]. intros Hm. apply H2.
    destruct ph; try (by destruct Hm). destruct Hm as [Hne Hm]. cbn in Hm. split; [by eexists|lia].
  - destruct (exec_rest _ _ (fun _ => []) (fun _ => []) _ _ _ _ _ Hi Hrun) as (c & [] & x' & -> & Href & -> & Hcl').
    eapply (quiet_step _ _ _ _ _ _ ph); try done; cbn [received_by sent_to omap list_omap concat length];
      rewrite ?drop_0, ?app_nil_r; [by eapply refresh_step|].
    apply ahead_refl. intros Hm. destruct ph; cbn in Hm; [by destruct Hm|done|by destruct Hm].
Qed.

Lemma move_step todo h p k got ph (x : wire Q P) m ms :
  fits p -> 0 <= k <= zlen (frame p) -> (todo <> [] -> ~ denotes p ReqQuit) ->
  talk todo h p k got ph x -> move_ok i m = true ->
  timely i (sv_clock (wr_server x)) (sv_calls (wr_server x)) (m :: ms) ->
  step_ok todo h p k got ph x m.
Proof.
  intros Hp Hk Hq Htalk Hok Hts. pose proof (helps_possible _ _ _ _ _ _ _ m ms Htalk) as Hposs.
  destruct (exec o (move_action i m (wr_up x)) (wr_server x)) as [[ev w']|] eqn:Hrun.
  2: { exists ph. unfold make_move. rewrite Hrun. split; [done|]. apply ahead_refl.
       intros Hm. destruct (Hposs Hm Hts) as [? Hsome]. done. }
  destruct Htalk as (ans & a & cl & Hh & HS & Hi & Hph & Hans).
  destruct (serves_one m) eqn:Hm; [|by eapply rest_step].
  destruct m as [|?|clock pl| |]; try discriminate Hm. cbn [move_action] in Hrun.
  destruct (serve_step _ _ _ _ _ _ _ _ _ _ _ _ _ _ _ _ Hq HS Hi Hph Hrun)
    as (resp & a' & cl' & -> & -> & Hstep & HS' & Hcl' & Hph').
  exists (PhAnswer resp). unfold make_move. cbn [move_action]. rewrite Hrun. split.
  - exists (ans ++ [(i, (p, resp))]), a', cl'.
    refine (conj _ (conj HS' (conj Hcl' (conj _ _)))).
    + eapply history_app; [exact Hh|]. econstructor; [exact Hstep|constructor].
    + rewrite <- (app_nil_r (wr_down x)) in Hph'. exact Hph'.
    + rewrite answers_of_app, Hans. unfold answers_of. cbn. by rewrite Nat.eqb_refl.
  - apply ahead_less. cbn. case_bool_decide; lia.
Qed.
End steps.
