(* ===== verification/Posix.v ===== *)
(** * The POSIX calls the wrappers use

    The kernel is a parameter: a state type with the calls of [sys/socket.h],
    [fcntl.h] and [unistd.h] that [net/scoped_fd], [net/socket_util] and
    [net/wakeup] make. A call returns a value or an error number. The laws
    state the documented effect of each call on what a process can observe:
    the open descriptors, their flags, and the unread bytes of socket pairs.
    [sim] is a simple kernel that satisfies them, with a script of failures. *)

From S2P Require Import Prelude.
From stdpp Require Import sets gmap.
#[local] Open Scope Z_scope.

(** A result: a value, or [-1] with this [errno]. *)
Abbreviation result A := (A + Z)%type.
(** A call of the kernel [K]. *)
Definition sys (K A : Type) : Type := K -> A * K.

Definition call {K A} (f : sys K A) : M K A := fun k => let '(a, k') := f k in (Ret a, k').

Lemma wp_call {K A} (f : sys K A) Q E k :
  (forall a k', f k = (a, k') -> Q a k') -> wp (call f) Q E k.
Proof. unfold wp, call. destruct (f k) as [a k']. auto. Qed.

Record sockaddr_in := mkSockaddr { sin_addr : Z; sin_port : Z }.

(** Numeric constants of the system headers. *)
Class PosixConstants := {
  O_NONBLOCK : Z;
  FD_CLOEXEC : Z;
  EINTR : Z;
  EAGAIN : Z;
  EWOULDBLOCK : Z;
  O_NONBLOCK_bit : 0 < O_NONBLOCK;
  FD_CLOEXEC_bit : 0 < FD_CLOEXEC;
  EINTR_other : EINTR <> EAGAIN /\ EINTR <> EWOULDBLOCK;
}.

Class Posix (K : Type) := {
  sys_socket : sys K (result Z);
  sys_socketpair : sys K (result (Z * Z));
  (** [epoll_create1(EPOLL_CLOEXEC)] *)
  sys_epoll_create1 : sys K (result Z);
  (** what the constructor of [std::thread] calls *)
  sys_thread_create : sys K (result unit);
  sys_close : Z -> sys K (result unit);
  (** [fcntl] with [F_GETFL], [F_SETFL], [F_GETFD], [F_SETFD] *)
  sys_getfl : Z -> sys K (result Z);
  sys_setfl : Z -> Z -> sys K (result unit);
  sys_getfd : Z -> sys K (result Z);
  sys_setfd : Z -> Z -> sys K (result unit);
  (** [setsockopt] with [SO_REUSEADDR] and value 1 *)
  sys_reuseaddr : Z -> sys K (result unit);
  sys_bind : Z -> sockaddr_in -> sys K (result unit);
  sys_listen : Z -> Z -> sys K (result unit);
  sys_connect : Z -> sockaddr_in -> sys K (result unit);
  (** the count written of a buffer, and the count read into one *)
  sys_write : Z -> bytes -> sys K (result Z);
  sys_read : Z -> Z -> sys K (result Z);
  (** [inet_pton(AF_INET, host)]; for a result that is not positive, the value
      [errno] has at that time *)
  inet_pton : bytes -> sys K (result Z);
}.

(** ** What a process observes *)

Record kernel_view := mkView {
  kv_open : gset Z;
  kv_nonblock : gset Z;
  kv_cloexec : gset Z;
  (** the other end of a connected pair *)
  kv_peer : gmap Z Z;
  (** the number of bytes that can be read *)
  kv_unread : gmap Z Z;
}.
#[export] Instance kernel_view_settable : Settable kernel_view := fun v =>
  mkView (kv_open v) (kv_nonblock v) (kv_cloexec v) (kv_peer v) (kv_unread v).

Definition view_open (fd : Z) (v : kernel_view) : kernel_view :=
  v <| kv_open ::= (fun s => {[fd]} ∪ s) |>.
Definition view_pair (rfd wfd : Z) (v : kernel_view) : kernel_view :=
  mkView ({[rfd; wfd]} ∪ kv_open v) (kv_nonblock v) (kv_cloexec v)
    (<[wfd := rfd]> (<[rfd := wfd]> (kv_peer v))) (<[rfd := 0]> (<[wfd := 0]> (kv_unread v))).
(** The descriptor is gone; its pair is broken, so that nothing is known of the
    bytes of the other end. *)
Definition view_close (fd : Z) (v : kernel_view) : kernel_view :=
  let other (m : gmap Z Z) := match kv_peer v !! fd with Some p => delete p m | None => m end in
  mkView (kv_open v ∖ {[fd]}) (kv_nonblock v ∖ {[fd]}) (kv_cloexec v ∖ {[fd]})
    (other (delete fd (kv_peer v))) (other (delete fd (kv_unread v))).
Definition set_bit (b : bool) (fd : Z) (s : gset Z) : gset Z := if b then {[fd]} ∪ s else s ∖ {[fd]}.

(** Nothing known of [v] is lost in [v']. *)
Record grows (v v' : kernel_view) : Prop := mkGrows {
  gr_open : kv_open v ⊆ kv_open v';
  gr_nonblock : kv_nonblock v ⊆ kv_nonblock v';
  gr_cloexec : kv_cloexec v ⊆ kv_cloexec v';
  gr_pairs fd : fd ∈ kv_open v -> kv_peer v' !! fd = kv_peer v !! fd /\ kv_unread v' !! fd = kv_unread v !! fd;
}.
#[export] Instance grows_preorder : PreOrder grows.
Proof.
  split; [by intros v; split|]. intros v1 v2 v3 [? ? ? H12] [? ? ? H23]. split; [set_solver..|].
  intros fd Hfd. destruct (H12 fd Hfd), (H23 fd) as [-> ->]; [set_solver|done].
Qed.

Class PosixLaws (K : Type) `{!PosixConstants, !Posix K} := {
  kview : K -> kernel_view;
  (** how many more interruptions the process will see before a call gets
      through: signals are finitely many *)
  interrupts : K -> nat;
  socket_law k : forall r k', sys_socket k = (r, k') ->
    match r with
    | inl fd => 0 <= fd /\ (fd ∉ kv_open (kview k)) /\ kview k' = view_open fd (kview k)
    | inr _ => kview k' = kview k
    end;
  socketpair_law k : forall r k', sys_socketpair k = (r, k') ->
    match r with
    | inl (rfd, wfd) =>
        0 <= rfd /\ 0 <= wfd /\ rfd <> wfd /\ (rfd ∉ kv_open (kview k)) /\ (wfd ∉ kv_open (kview k)) /\
        kview k' = view_pair rfd wfd (kview k)
    | inr _ => kview k' = kview k
    end;
  epoll_create1_law k : forall r k', sys_epoll_create1 k = (r, k') ->
    match r with
    | inl fd => 0 <= fd /\ (fd ∉ kv_open (kview k)) /\
        kview k' = view_open fd (kview k) <| kv_cloexec ::= (fun s => {[fd]} ∪ s) |>
    | inr _ => kview k' = kview k
    end;
  thread_create_law k : kview (sys_thread_create k).2 = kview k;
  close_law k fd : kview (sys_close fd k).2 = view_close fd (kview k);
  getfl_law k fd : kview (sys_getfl fd k).2 = kview k;
  getfl_range k fd : match (sys_getfl fd k).1 with inl f => 0 <= f | inr _ => True end;
  setfl_law k fd f : forall r k', sys_setfl fd f k = (r, k') ->
    match r with
    | inl _ => kview k' = (kview k) <| kv_nonblock ::= set_bit (negb (Z.land f O_NONBLOCK =? 0)) fd |>
    | inr _ => kview k' = kview k
    end;
  getfd_law k fd : kview (sys_getfd fd k).2 = kview k;
  getfd_range k fd : match (sys_getfd fd k).1 with inl f => 0 <= f | inr _ => True end;
  setfd_law k fd f : forall r k', sys_setfd fd f k = (r, k') ->
    match r with
    | inl _ => kview k' = (kview k) <| kv_cloexec ::= set_bit (negb (Z.land f FD_CLOEXEC =? 0)) fd |>
    | inr _ => kview k' = kview k
    end;
  reuseaddr_law k fd : kview (sys_reuseaddr fd k).2 = kview k;
  bind_law k fd a : kview (sys_bind fd a k).2 = kview k;
  listen_law k fd n : kview (sys_listen fd n k).2 = kview k;
  connect_law k fd a : kview (sys_connect fd a k).2 = kview k;
  inet_pton_law k h : kview (inet_pton h k).2 = kview k;
  (** one byte into a non-blocking pair: it arrives, the call is interrupted, or
      the other end is full *)
  write_law k wfd rfd n b : forall r k',
    kv_peer (kview k) !! wfd = Some rfd -> kv_unread (kview k) !! rfd = Some n ->
    wfd ∈ kv_nonblock (kview k) -> 0 <= n ->
    sys_write wfd [b] k = (r, k') ->
    match r with
    | inl c => c = 1 /\ kview k' = (kview k) <| kv_unread ::= (fun m => <[rfd := n + 1]> m) |>
    | inr e => kview k' = kview k /\
        ((e = EINTR /\ (interrupts k' < interrupts k)%nat) \/
         ((e = EAGAIN \/ e = EWOULDBLOCK) /\ 0 < n))
    end;
  (** [write] neither opens nor closes, whatever it is given *)
  write_open_law k fd b : forall r k', sys_write fd b k = (r, k') ->
    kv_open (kview k') = kv_open (kview k) /\ (r = inr EINTR -> (interrupts k' < interrupts k)%nat);
  (** reading a non-blocking pair whose other end is open *)
  read_law k rfd n size : forall r k',
    kv_unread (kview k) !! rfd = Some n -> rfd ∈ kv_nonblock (kview k) -> 0 <= n -> 0 < size ->
    sys_read rfd size k = (r, k') ->
    match r with
    | inl c => 1 <= c <= Z.min n size /\ kview k' = (kview k) <| kv_unread ::= (fun m => <[rfd := n - c]> m) |> /\
        (interrupts k' <= interrupts k)%nat
    | inr e => kview k' = kview k /\
        ((e = EINTR /\ (interrupts k' < interrupts k)%nat) \/
         ((e = EAGAIN \/ e = EWOULDBLOCK) /\ n = 0))
    end;
}.

(** ** A simple kernel

    The next error numbers are scripted (0 for success); a pair holds at most
    [capacity] bytes. *)

#[export] Instance linux_constants : PosixConstants.
Proof.
  refine {| O_NONBLOCK := 2048; FD_CLOEXEC := 1; EINTR := 4; EAGAIN := 11; EWOULDBLOCK := 11 |}; lia.
Defined.

Record sim := mkSim { sim_view : kernel_view; sim_script : list Z }.
#[export] Instance sim_settable : Settable sim := fun k => mkSim (sim_view k) (sim_script k).

Definition sim_init (script : list Z) : sim := mkSim (mkView {[0; 1; 2]} ∅ ∅ ∅ ∅) script.

Definition capacity : Z := 2.

(** One call: its scripted error, or its effect. *)
Definition scripted {A} (f : kernel_view -> result A * kernel_view) : sys sim (result A) :=
  fun k =>
    match sim_script k with
    | e :: script =>
        if e =? 0 then let '(r, v) := f (sim_view k) in (r, mkSim v script) else (inr e, mkSim (sim_view k) script)
    | [] => let '(r, v) := f (sim_view k) in (r, mkSim v [])
    end.

(** The lowest descriptor above all open ones. *)
Definition next_fd (v : kernel_view) : Z := set_fold Z.max (-1) (kv_open v) + 1.

(** Only interruptions are scripted for a pair. *)
Definition scripted_io (f : kernel_view -> result Z * kernel_view) : sys sim (result Z) :=
  fun k =>
    match sim_script k with
    | e :: script =>
        if e =? 4 then (inr 4, mkSim (sim_view k) script)
        else let '(r, v) := f (sim_view k) in (r, mkSim v script)
    | [] => let '(r, v) := f (sim_view k) in (r, mkSim v [])
    end.

#[export] Instance sim_posix : Posix sim := {
  sys_socket := scripted (fun v => let fd := next_fd v in (inl fd, view_open fd v));
  sys_socketpair := scripted (fun v => let fd := next_fd v in (inl (fd, fd + 1), view_pair fd (fd + 1) v));
  sys_epoll_create1 := scripted (fun v =>
    let fd := next_fd v in (inl fd, view_open fd v <| kv_cloexec ::= (fun s => {[fd]} ∪ s) |>));
  sys_thread_create := scripted (fun v => (inl tt, v));
  sys_close fd k := (inl tt, mkSim (view_close fd (sim_view k)) (sim_script k));
  sys_getfl fd := scripted (fun v => (inl (if bool_decide (fd ∈ kv_nonblock v) then 2050 else 2), v));
  sys_setfl fd f := scripted (fun v => (inl tt, v <| kv_nonblock ::= set_bit (negb (Z.land f 2048 =? 0)) fd |>));
  sys_getfd fd := scripted (fun v => (inl (if bool_decide (fd ∈ kv_cloexec v) then 1 else 0), v));
  sys_setfd fd f := scripted (fun v => (inl tt, v <| kv_cloexec ::= set_bit (negb (Z.land f 1 =? 0)) fd |>));
  sys_reuseaddr fd := scripted (fun v => (inl tt, v));
  sys_bind fd a := scripted (fun v => (inl tt, v));
  sys_listen fd n := scripted (fun v => (inl tt, v));
  sys_connect fd a := scripted (fun v => (inl tt, v));
  sys_write fd b := scripted_io (fun v =>
    match kv_peer v !! fd with
    | Some rfd =>
        match kv_unread v !! rfd with
        | Some n => if n <? capacity then (inl 1, v <| kv_unread ::= (fun m => <[rfd := n + 1]> m) |>) else (inr 11, v)
        | None => (inr 32, v)
        end
    | None => (inr 9, v)
    end);
  sys_read fd size := scripted_io (fun v =>
    match kv_unread v !! fd with
    | Some n => if n =? 0 then (inr 11, v)
                else let c := Z.min n size in (inl c, v <| kv_unread ::= (fun m => <[fd := n - c]> m) |>)
    | None => (inr 9, v)
    end);
  inet_pton h k := (if bool_decide (h = lit "127.0.0.1") then inl 2130706433 else inr 0, k);
}.

Lemma next_fd_fresh v : (next_fd v ∉ kv_open v) /\ (next_fd v + 1 ∉ kv_open v) /\ 0 <= next_fd v.
Proof.
  unfold next_fd. assert (forall x, x ∈ kv_open v -> x <= set_fold Z.max (-1) (kv_open v)) as Hx.
  { apply (set_fold_ind_L (fun m (s : gset Z) => forall x, x ∈ s -> x <= m)); [set_solver|].
    intros x s m _ IH y [->%elem_of_singleton|Hy]%elem_of_union; [lia|]. specialize (IH y Hy). lia. }
  assert (-1 <= set_fold Z.max (-1) (kv_open v)) as Hb.
  { apply (set_fold_ind_L (fun m (_ : gset Z) => -1 <= m)); [lia|]. intros; lia. }
  split_and!; [|intros Hin%Hx; lia|lia]. intros Hin%Hx. lia.
Qed.

Lemma scripted_cases {A} (f : kernel_view -> result A * kernel_view) k r k' :
  scripted f k = (r, k') ->
  (exists e, r = inr e /\ sim_view k' = sim_view k) \/ (r = (f (sim_view k)).1 /\ sim_view k' = (f (sim_view k)).2).
Proof.
  unfold scripted. destruct (f (sim_view k)) as [r1 v1]. destruct (sim_script k) as [|e script];
    [intros [= <- <-]; by right|].
  destruct (e =? 0); intros [= <- <-]; [by right|]. left. by exists e.
Qed.

Lemma scripted_same {A} (x : kernel_view -> result A) k :
  sim_view (scripted (fun v => (x v, v)) k).2 = sim_view k.
Proof.
  destruct (scripted _ k) as [r k'] eqn:H. by apply scripted_cases in H as [(e & _ & ?)|[_ ?]].
Qed.

Lemma scripted_io_cases f k r k' :
  scripted_io f k = (r, k') ->
  (r = inr 4 /\ sim_view k' = sim_view k /\ (length (sim_script k') < length (sim_script k))%nat) \/
  (r = (f (sim_view k)).1 /\ sim_view k' = (f (sim_view k)).2 /\
   (length (sim_script k') <= length (sim_script k))%nat).
Proof.
  unfold scripted_io. destruct (f (sim_view k)) as [r1 v1]. destruct (sim_script k) as [|e script] eqn:Hs;
    [intros [= <- <-]; by right|].
  destruct (e =? 4); intros [= <- <-]; [left|right]; cbn; split_and!; done || lia.
Qed.

#[export] Instance sim_laws : PosixLaws sim.
Proof.
  refine {| kview := sim_view; interrupts k := length (sim_script k) |}.
  - intros k r k' [(e & -> & Hv)|[-> Hv]]%scripted_cases; [done|]. cbn.
    pose proof (next_fd_fresh (sim_view k)). tauto.
  - intros k r k' [(e & -> & Hv)|[-> Hv]]%scripted_cases; [done|]. cbn.
    pose proof (next_fd_fresh (sim_view k)) as (? & ? & ?). split_and!; done || lia.
  - intros k r k' [(e & -> & Hv)|[-> Hv]]%scripted_cases; [done|]. cbn.
    pose proof (next_fd_fresh (sim_view k)). tauto.
  - intros k. apply (scripted_same (fun _ => inl tt)).
  - done.
  - intros k fd. apply (scripted_same (fun v => inl (if bool_decide (fd ∈ kv_nonblock v) then 2050 else 2))).
  - intros k fd. destruct (sys_getfl fd k) as [r k'] eqn:H.
    apply scripted_cases in H as [(e & -> & _)|[-> _]]; cbn; [done|]. by case_bool_decide.
  - intros k fd f r k' [(e & -> & Hv)|[-> Hv]]%scripted_cases; done.
  - intros k fd. apply (scripted_same (fun v => inl (if bool_decide (fd ∈ kv_cloexec v) then 1 else 0))).
  - intros k fd. destruct (sys_getfd fd k) as [r k'] eqn:H.
    apply scripted_cases in H as [(e & -> & _)|[-> _]]; cbn; [done|]. by case_bool_decide.
  - intros k fd f r k' [(e & -> & Hv)|[-> Hv]]%scripted_cases; done.
  - intros k fd. apply (scripted_same (fun _ => inl tt)).
  - intros k fd a. apply (scripted_same (fun _ => inl tt)).
  - intros k fd n. apply (scripted_same (fun _ => inl tt)).
  - intros k fd a. apply (scripted_same (fun _ => inl tt)).
  - done.
  - intros k wfd rfd n b r k' Hp Hn _ Hn0 [(-> & Hv & Hl)|(-> & Hv & Hl)]%scripted_io_cases.
    { split; [done|]. by left. }
    rewrite Hp, Hn in Hv |- *. destruct (Z.ltb_spec n capacity); [done|]. cbn in *.
    split; [done|]. right. unfold capacity in *. split; [by left|lia].
  - intros k fd b r k' [(-> & Hv & Hl)|(-> & Hv & _)]%scripted_io_cases; rewrite Hv; [done|].
    destruct (kv_peer _ !! fd) as [rfd|]; [|done]. destruct (kv_unread _ !! rfd) as [n|]; [|done].
    by destruct (n <? capacity).
  - intros k rfd n size r k' Hn _ Hn0 Hs [(-> & Hv & Hl)|(-> & Hv & Hl)]%scripted_io_cases.
    { split; [done|]. by left. }
    rewrite Hn in Hv |- *. destruct (Z.eqb_spec n 0); cbn in *.
    + split; [done|]. right. split; [by left|done].
    + split_and!; done || lia.
Defined.
