(* ===== verification/ScopedFd.v ===== *)
(** * ScopedFd: owning descriptors (net/scoped_fd.h, net/scoped_fd.cpp)

    The member functions are computations on the kernel and the member [m_fd].
    A heap of objects, named by numbers, then gives the lifetime operations:
    construction, moves, [Release], [Reset] and destruction. The theorem is
    about ownership: whatever the order of these operations, no descriptor has
    two owners, an object closes only a descriptor it owns and that is open,
    and nothing that was owned stays open once nobody owns it. *)

From S2P Require Import Prelude Posix.
From stdpp Require Import sets gmap.
#[local] Open Scope Z_scope.

Definition INVALID_FD : Z := -1.

Section ScopedFd.
Context {K : Type} `{!Posix K}.

Definition ScopedFd_Get : M (K * Z) Z := gets snd.
Definition ScopedFd_Valid : M (K * Z) bool := gets (fun st => 0 <=? snd st).

Definition ScopedFd_Release : M (K * Z) Z :=
  oldFd ← gets snd;
  modify (fun st => st <| snd := INVALID_FD |>);;
  mret oldFd.

(** The result of [close] is ignored. *)
Definition ScopedFd_Reset (newFd : Z) : M (K * Z) unit :=
  m_fd ← gets snd;
  if m_fd =? newFd then mret tt else
  (when (0 <=? m_fd) (zoom fst (call (sys_close m_fd));; mret tt));;
  modify (fun st => st <| snd := newFd |>).

(** The destructor. *)
Definition ScopedFd_Destroy : M (K * Z) unit := ScopedFd_Reset INVALID_FD.

(** A local [ScopedFd var(fd);] and the code up to the end of its scope, which
    destroys it whether the code returns or throws. *)
Definition with_fd {A} (fd : Z) (body : M (K * Z) A) : M K A :=
  fun k =>
    let '(r, st) := body (k, fd) in
    let '(_, (k', _)) := ScopedFd_Destroy st in
    (r, k').

(** ** Objects *)

Abbreviation heap := (K * gmap nat Z)%type.

(** A member function of the object [i]. *)
Definition on_object {A} (i : nat) (m : M (K * Z) A) : M heap A :=
  fun h =>
    match h.2 !! i with
    | Some fd => let '(r, (k, fd')) := m (h.1, fd) in (r, (k, <[i := fd']> h.2))
    | None => (Fail (Undefined "object outside its lifetime"), h)
    end.

Inductive fd_op :=
  | OpNew (i : nat)
  | OpAdopt (i : nat) (fd : Z)
  | OpMoveNew (i other : nat)
  | OpMoveAssign (i other : nat)
  | OpRelease (i : nat)
  | OpReset (i : nat) (newFd : Z)
  | OpDestroy (i : nat).

(** The result is the descriptor that [Release] hands to its caller. *)
Definition exec_fd_op (op : fd_op) : M heap (option Z) :=
  match op with
  | OpNew i => modify (fun h => h <| snd ::= <[i := INVALID_FD]> |>);; mret None
  | OpAdopt i fd => modify (fun h => h <| snd ::= <[i := fd]> |>);; mret None
  | OpMoveNew i other =>
      fd ← on_object other ScopedFd_Release;
      modify (fun h => h <| snd ::= <[i := fd]> |>);;
      mret None
  | OpMoveAssign i other =>
      if (i =? other)%nat then mret None else
      fd ← on_object other ScopedFd_Release;
      on_object i (ScopedFd_Reset fd);;
      mret None
  | OpRelease i => fd ← on_object i ScopedFd_Release; mret (Some fd)
  | OpReset i newFd => on_object i (ScopedFd_Reset newFd);; mret None
  | OpDestroy i => on_object i ScopedFd_Destroy;; modify (fun h => h <| snd ::= delete i |>);; mret None
  end.

Fixpoint exec_fd_ops (ops : list fd_op) : M heap (list Z) :=
  match ops with
  | [] => mret []
  | op :: ops =>
      r ← exec_fd_op op;
      rest ← exec_fd_ops ops;
      mret (match r with Some fd => fd :: rest | None => rest end)
  end.

(** ** Ownership *)

Definition owner (objs : gmap nat Z) (i : nat) (fd : Z) : Prop := objs !! i = Some fd /\ 0 <= fd.
Definition owned (objs : gmap nat Z) (fd : Z) : Prop := exists i, owner objs i fd.

Context `{!PosixConstants, !PosixLaws K}.

(** No two objects own a descriptor, and owned descriptors are open. *)
Record Owned (h : heap) : Prop := {
  ow_unique i j fd : owner h.2 i fd -> owner h.2 j fd -> i = j;
  ow_open fd : owned h.2 fd -> fd ∈ kv_open (kview h.1);
}.

(** What the language and the comments of the class ask of the caller: objects
    are used during their lifetime, and an adopted descriptor is open and not
    owned by another object. *)
Definition legal (h : heap) (op : fd_op) : Prop :=
  let adoptable fd i := fd = INVALID_FD \/
    (fd ∈ kv_open (kview h.1) /\ map_Forall (fun j f => f = fd -> i = Some j) h.2) in
  match op with
  | OpNew i => h.2 !! i = None
  | OpAdopt i fd => h.2 !! i = None /\ adoptable fd None
  | OpMoveNew i other => h.2 !! i = None /\ is_Some (h.2 !! other)
  | OpMoveAssign i other => is_Some (h.2 !! i) /\ is_Some (h.2 !! other)
  | OpRelease i => is_Some (h.2 !! i)
  | OpReset i newFd => is_Some (h.2 !! i) /\ adoptable newFd (Some i)
  | OpDestroy i => is_Some (h.2 !! i)
  end.

Definition adopts (op : fd_op) (fd : Z) : Prop :=
  match op with OpAdopt _ f | OpReset _ f => f = fd | _ => False end.

#[export] Instance adopts_dec op fd : Decision (adopts op fd).
Proof. destruct op; cbn; apply _. Defined.

(** The effect of one operation: what is owned was owned or adopted, and what
    is closed is what was owned or adopted and is neither owned nor released. *)
Definition accounted (h : heap) (op : fd_op) (r : option Z) (h' : heap) : Prop :=
  (forall fd, owned h'.2 fd -> owned h.2 fd \/ adopts op fd) /\
  (forall fd, 0 <= fd ->
    (fd ∈ kv_open (kview h'.1) <->
     fd ∈ kv_open (kview h.1) /\
     ~ ((owned h.2 fd \/ adopts op fd) /\ ~ owned h'.2 fd /\ r <> Some fd))).

(** ** Lemmas *)

Lemma Reset_spec k m fd :
  exists k', ScopedFd_Reset fd (k, m) = (Ret tt, (k', fd)) /\
    kv_open (kview k') = if (m =? fd) || (m <? 0) then kv_open (kview k) else kv_open (kview k) ∖ {[m]}.
Proof.
  unfold ScopedFd_Reset, mbind, M_bind, gets, when, zoom, call, modify. cbn [snd fst].
  destruct (Z.eqb_spec m fd) as [->|Hne]; cbn [orb]; [by exists k|].
  destruct (Z.leb_spec 0 m) as [Hm|Hm].
  - replace (m <? 0) with false by lia. cbn [fst]. pose proof (close_law k m) as Hc.
    destruct (sys_close m k) as [r k']. exists k'. split; [done|]. cbn [snd] in Hc. by rewrite Hc.
  - replace (m <? 0) with true by lia. by exists k.
Qed.

Lemma owner_insert objs i fd j fd' :
  owner (<[i := fd]> objs) j fd' <-> (j = i /\ fd' = fd /\ 0 <= fd) \/ (j <> i /\ owner objs j fd').
Proof.
  unfold owner. destruct (decide (j = i)) as [->|Hj].
  - rewrite lookup_insert_eq. split; [intros [[= ->] ?]; by left|intros [(_ & -> & ?)|[? _]]; done].
  - rewrite lookup_insert_ne by done. split; [by right|intros [(? & _)|[_ ?]]; done].
Qed.

Lemma owner_delete objs i j fd' :
  owner (delete i objs) j fd' <-> j <> i /\ owner objs j fd'.
Proof.
  unfold owner. destruct (decide (j = i)) as [->|Hj].
  - rewrite lookup_delete_eq. split; [by intros [? _]|by intros [? _]].
  - rewrite lookup_delete_ne by done. tauto.
Qed.

(** What an operation does, seen from the owners: object [i] gives up what it
    owns, the descriptor [old], and owns [new] instead (nothing when [new] is
    negative), which it takes over from the object [src] or adopts; the old
    descriptor is closed when [shut] says so. *)
Lemma transfer_ok h op r k' objs' i src old new (shut : bool) :
  Owned h ->
  (forall j fd, owner objs' j fd <->
     (j = i /\ fd = new /\ 0 <= new) \/ (j <> i /\ src <> Some j /\ owner h.2 j fd)) ->
  (forall j, j <> i -> src <> Some j -> ~ owner h.2 j new) ->
  (forall j fd, src = Some j -> owner h.2 j fd -> fd = new) ->
  (0 <= new -> new ∈ kv_open (kview h.1)) ->
  (0 <= new -> owned h.2 new \/ adopts op new) ->
  (forall fd, owner h.2 i fd <-> fd = old /\ 0 <= old) ->
  (forall fd, 0 <= fd -> adopts op fd -> fd = new) ->
  (shut = false -> 0 <= old -> old = new \/ r = Some old) ->
  (shut = true -> old <> new /\ 0 <= old /\ r = None) ->
  kv_open (kview k') = (if shut then kv_open (kview h.1) ∖ {[old]} else kv_open (kview h.1)) ->
  Owned (k', objs') /\ accounted h op r (k', objs').
Proof.
  intros Ho Hobjs Hother Hsrc Hnew Hfrom Hold Had Hkeep Hshut Hopen.
  assert (forall fd, owned objs' fd <-> (fd = new /\ 0 <= new) \/ (exists j, j <> i /\ src <> Some j /\ owner h.2 j fd))
    as Howned.
  { intros fd. split.
    - intros (j & [(_ & -> & ?)|(? & ? & ?)]%Hobjs); eauto.
    - intros [[-> ?]|(j & ? & ? & ?)]; [exists i|exists j]; apply Hobjs; eauto. }
  assert (forall fd, owned objs' fd -> fd ∈ kv_open (kview h.1) /\ (shut = true -> fd <> old)) as Hkept.
  { intros fd [[-> Hn]|(j & Hj & _ & Hjo)]%Howned.
    - split; [by apply Hnew|]. intros Hs ->. by destruct (Hshut Hs).
    - split; [apply (ow_open _ Ho); by exists j|]. intros Hs ->. destruct (Hshut Hs) as (_ & Hge & _).
      apply Hj. eapply (ow_unique _ Ho); [done|]. by apply Hold. }
  assert (forall fd, owned h.2 fd \/ (0 <= fd /\ adopts op fd) -> ~ owned objs' fd -> fd = old /\ 0 <= old) as Hlost.
  { intros fd [(j & Hj)|[Hfd Hadf]] Hnot.
    - destruct (decide (j = i)) as [->|Hji]; [by apply Hold|]. destruct Hnot. apply Howned.
      destruct (decide (src = Some j)) as [Hs|Hs]; [left|right; by exists j].
      pose proof (Hsrc _ _ Hs Hj) as ->. split; [done|apply Hj].
    - pose proof (Had _ Hfd Hadf) as ->. destruct Hnot. apply Howned. by left. }
  split.
  - split; cbn [fst snd].
    + intros j1 j2 fd [(-> & -> & ?)|(? & ? & Hj1)]%Hobjs [(-> & ? & ?)|(? & ? & Hj2)]%Hobjs; try done.
      * by destruct (Hother j2).
      * subst fd. by destruct (Hother j1).
      * by eapply ow_unique.
    + intros fd [Hin Hne]%Hkept. rewrite Hopen. destruct shut; [|done].
      apply elem_of_difference. split; [done|]. rewrite elem_of_singleton. auto.
  - split; [intros fd [[-> Hge]|(j & _ & _ & Hj)]%Howned; [by apply Hfrom|left; by exists j]|].
    intros fd Hfd. cbn [fst snd]. rewrite Hopen. destruct shut.
    + destruct (Hshut eq_refl) as (Hne & Hge & ->). rewrite elem_of_difference, elem_of_singleton. split.
      * intros [Hin Hn]. split; [done|]. intros (Hor & Hnot & _). apply Hn. apply Hlost; [|done]. tauto.
      * intros [Hin Hn]. split; [done|]. intros ->. apply Hn. split_and!; [left; exists i; by apply Hold| |done].
        intros Hk. by apply Hkept in Hk as [_ []].
    + split; [|by intros [? _]]. intros Hin. split; [done|]. intros (Hor & Hnot & Hr).
      destruct (Hlost fd) as [-> Hge]; [tauto|done|].
      destruct (Hkeep eq_refl Hge) as [->|?]; [|done]. apply Hnot, Howned. left.
      split; [done|]. done.
Qed.

Lemma adoptable_other h fd (i : option nat) :
  fd = INVALID_FD \/ (fd ∈ kv_open (kview h.1) /\ map_Forall (fun j f => f = fd -> i = Some j) h.2) ->
  (0 <= fd -> fd ∈ kv_open (kview h.1)) /\ (forall j, i <> Some j -> ~ owner h.2 j fd).
Proof.
  unfold INVALID_FD. intros [->|[Hin Hj]].
  - split; [lia|]. by intros j _ [_ ?].
  - split; [done|]. intros j Hne [Ho _]. by apply Hne, (Hj j fd).
Qed.

Lemma owner_lookup objs i fd : objs !! i = Some fd -> forall fd', owner objs i fd' <-> fd' = fd /\ 0 <= fd.
Proof. intros Hi fd'. unfold owner. rewrite Hi. split; [by intros [[= ->] ?]|by intros [-> ?]]. Qed.

Lemma owner_none objs i : objs !! i = None -> forall fd', ~ owner objs i fd'.
Proof. intros Hi fd' [? _]. congruence. Qed.

Lemma on_object_eq {A} i (m : M (K * Z) A) k objs fd r k' fd' :
  objs !! i = Some fd -> m (k, fd) = (r, (k', fd')) ->
  on_object i m (k, objs) = (r, (k', <[i := fd']> objs)).
Proof. intros Hi Hm. unfold on_object. cbn [fst snd]. by rewrite Hi, Hm. Qed.

Definition op_ok (h : heap) (op : fd_op) : Prop :=
  Owned h -> legal h op ->
  exists r h', exec_fd_op op h = (Ret r, h') /\ Owned h' /\ accounted h op r h'.

Lemma new_ok h i : op_ok h (OpNew i).
Proof.
  intros Ho Hl. destruct h as [k objs]. cbn [legal fst snd] in Hl.
  do 2 eexists. split; [done|].
  apply (transfer_ok (k, objs) _ _ k _ i None (-1) (-1) false); try done; cbn [snd fst].
  - intros j fd. rewrite owner_insert. unfold INVALID_FD. intuition (lia || done).
  - intros j _ _ [_ ?]. lia.
  - intros fd. split; [by intros ?%owner_none|lia].
Qed.

Lemma adopt_ok h i fd : op_ok h (OpAdopt i fd).
Proof.
  intros Ho Hl. destruct h as [k objs]. cbn [legal fst snd] in Hl.
  destruct Hl as [Hi [Hin Hfree]%(adoptable_other (k, objs))]. do 2 eexists. split; [done|].
  apply (transfer_ok (k, objs) _ _ k _ i None (-1) fd false); try done; cbn [snd fst].
  - intros j fd'. rewrite owner_insert. intuition done.
  - intros j _ _. by apply Hfree.
  - by right.
  - intros fd'. split; [by intros ?%owner_none|lia].
Qed.

Lemma move_new_ok h i other : op_ok h (OpMoveNew i other).
Proof.
  intros Ho Hl. destruct h as [k objs]. cbn [legal fst snd] in Hl.
  destruct Hl as [Hi [fd Hfd]]. do 2 eexists. split.
  { unfold exec_fd_op, mbind, M_bind. by erewrite on_object_eq by done. }
  apply (transfer_ok (k, objs) _ _ k _ i (Some other) (-1) fd false); try done; cbn [snd fst].
  - intros j fd'. rewrite !owner_insert. unfold INVALID_FD.
    destruct (decide (j = i)); destruct (decide (j = other)); intuition (congruence || lia || done).
  - intros j Hj Hne Hjo. assert (j = other); [|congruence]. eapply (ow_unique _ Ho); [done|].
    by split; [|apply Hjo].
  - intros j fd' [= <-] [? ?]. congruence.
  - intros Hge. apply (ow_open _ Ho). by exists other.
  - left. by exists other.
  - intros fd'. split; [by intros ?%owner_none|lia].
Qed.

Lemma move_assign_ok h i other : op_ok h (OpMoveAssign i other).
Proof.
  intros Ho Hl. destruct h as [k objs]. cbn [legal fst snd] in Hl.
  destruct Hl as [[m Hm] [fd Hfd]]. unfold exec_fd_op. destruct (Nat.eqb_spec i other) as [->|Hne].
  { do 2 eexists. split; [done|]. split; [done|]. split; [tauto|]. intros fd' _. cbn. tauto. }
  destruct (Reset_spec k m fd) as (k' & Hr & Hopen). do 2 eexists. split.
  { unfold mbind, M_bind. erewrite on_object_eq by done. cbn [fst snd].
    rewrite (on_object_eq i _ k _ m (Ret tt) k' fd); [done|by rewrite lookup_insert_ne|exact Hr]. }
  apply (transfer_ok (k, objs) _ _ k' _ i (Some other) m fd (negb ((m =? fd) || (m <? 0)))); try done; cbn [snd fst].
  - intros j fd'. rewrite !owner_insert. unfold INVALID_FD.
    destruct (decide (j = i)); destruct (decide (j = other)); intuition (congruence || lia || done).
  - intros j Hj Hnj Hjo. assert (j = other); [|congruence]. eapply (ow_unique _ Ho); [done|].
    by split; [|apply Hjo].
  - intros j fd' [= <-] [? ?]. congruence.
  - intros Hge. apply (ow_open _ Ho). by exists other.
  - left. by exists other.
  - by apply owner_lookup.
  - intros Hs Hge. left. lia.
  - intros Hs. split_and!; [lia|lia|done].
  - rewrite Hopen. by destruct ((m =? fd) || (m <? 0)).
Qed.

Lemma release_ok h i : op_ok h (OpRelease i).
Proof.
  intros Ho Hl. destruct h as [k objs]. cbn [legal fst snd] in Hl.
  destruct Hl as [fd Hfd]. do 2 eexists. split.
  { unfold exec_fd_op, mbind, M_bind. by erewrite on_object_eq by done. }
  apply (transfer_ok (k, objs) _ _ k _ i None fd (-1) false); try done; cbn [snd fst].
  - intros j fd'. rewrite !owner_insert. unfold INVALID_FD. intuition (lia || done).
  - intros j _ _ [_ ?]. lia.
  - by apply owner_lookup.
  - intros _ _. by right.
Qed.

Lemma reset_ok h i newFd : op_ok h (OpReset i newFd).
Proof.
  intros Ho Hl. destruct h as [k objs]. cbn [legal fst snd] in Hl.
  destruct Hl as [[m Hm] [Hin Hfree]%(adoptable_other (k, objs))].
  destruct (Reset_spec k m newFd) as (k' & Hr & Hopen). do 2 eexists. split.
  { unfold exec_fd_op, mbind, M_bind. by erewrite on_object_eq by done. }
  apply (transfer_ok (k, objs) _ _ k' _ i None m newFd (negb ((m =? newFd) || (m <? 0)))); try done; cbn [snd fst].
  - intros j fd'. rewrite !owner_insert. intuition done.
  - intros j Hj _. apply Hfree. congruence.
  - by right.
  - by apply owner_lookup.
  - intros Hs Hge. left. lia.
  - intros Hs. split_and!; [lia|lia|done].
  - rewrite Hopen. by destruct ((m =? newFd) || (m <? 0)).
Qed.

Lemma destroy_ok h i : op_ok h (OpDestroy i).
Proof.
  intros Ho Hl. destruct h as [k objs]. cbn [legal fst snd] in Hl.
  destruct Hl as [m Hm].
  destruct (Reset_spec k m INVALID_FD) as (k' & Hr & Hopen). do 2 eexists. split.
  { unfold exec_fd_op, mbind, M_bind. by erewrite on_object_eq by done. }
  unfold INVALID_FD in *. cbn [fst snd upd].
  apply (transfer_ok (k, objs) _ _ k' _ i None m (-1) (negb ((m =? -1) || (m <? 0)))); try done; cbn [snd fst].
  - intros j fd'. rewrite owner_delete, owner_insert. intuition (lia || done).
  - intros j _ _ [_ ?]. lia.
  - by apply owner_lookup.
  - intros Hs Hge. lia.
  - intros Hs. split_and!; [lia|lia|done].
  - rewrite Hopen. by destruct ((m =? -1) || (m <? 0)).
Qed.

Lemma owned_dec objs fd : owned objs fd \/ ~ owned objs fd.
Proof.
  destruct (decide (map_Forall (fun _ f => f <> fd) objs)) as [Hf|Hn%map_not_Forall].
  - right. intros (i & Hi & _). by eapply (map_Forall_lookup_1 _ _ _ _ Hf).
  - destruct Hn as (i & f & Hi & ->%dec_stable). destruct (decide (0 <= fd)).
    + left. by exists i.
    + right. by intros (? & _ & ?).
  - apply _.
Qed.

Lemma exec_fd_op_ok h op : op_ok h op.
Proof.
  destruct op; [apply new_ok|apply adopt_ok|apply move_new_ok|apply move_assign_ok|apply release_ok|
    apply reset_ok|apply destroy_ok].
Qed.

(** Every operation is legal where it is executed. *)
Fixpoint legal_ops (h : heap) (ops : list fd_op) : Prop :=
  match ops with
  | [] => True
  | op :: ops => legal h op /\ legal_ops (exec_fd_op op h).2 ops
  end.

#[export] Instance legal_dec h op : Decision (legal h op).
Proof. destruct op; cbn; apply _. Defined.
#[export] Instance legal_ops_dec h ops : Decision (legal_ops h ops).
Proof. revert h. induction ops as [|op ops IH]; intros h; cbn; apply _. Defined.

(** The descriptors the objects came to own. *)
Definition entrusted (h : heap) (ops : list fd_op) (fd : Z) : Prop :=
  0 <= fd /\ (owned h.2 fd \/ Exists (fun op => adopts op fd) ops).

(** C31. Ownership of descriptors: any sequence of constructions, moves (to
    oneself included), releases, resets (to the same descriptor included) and
    destructions runs to its end with every descriptor owned by one object at
    most and every owned descriptor open. The objects close only descriptors
    they came to own and own no more, and each of these that nobody owns at the
    end and that was not released to the caller is closed: no double close, no
    leak. *)
Theorem scoped_fd_ownership h ops :
  Owned h -> legal_ops h ops ->
  exists released h', exec_fd_ops ops h = (Ret released, h') /\ Owned h' /\
    (forall fd, 0 <= fd -> fd ∈ kv_open (kview h'.1) -> fd ∈ kv_open (kview h.1)) /\
    (forall fd, 0 <= fd -> fd ∈ kv_open (kview h.1) -> (fd ∉ kv_open (kview h'.1)) ->
       entrusted h ops fd /\ ~ owned h'.2 fd) /\
    (forall fd, entrusted h ops fd -> owned h'.2 fd \/ fd ∈ released \/ (fd ∉ kv_open (kview h'.1))).
Proof.
  revert h. induction ops as [|op ops IH]; intros h Ho; cbn [legal_ops exec_fd_ops].
  { intros _. exists [], h. split_and!; try done. intros fd [_ [?|Hx]]; [by left|by inversion Hx]. }
  intros [Hl Hls]. destruct (exec_fd_op_ok h op Ho Hl) as (r & h1 & He & Ho1 & Hacc).
  rewrite He in Hls. cbn [snd] in Hls.
  destruct (IH h1 Ho1 Hls) as (released & h2 & He2 & Ho2 & Hsub & Hclosed & Hleak).
  eexists _, h2. split; [unfold mbind, M_bind; by rewrite He, He2|]. split; [done|].
  destruct Hacc as [Hfrom Hopen].
  assert (forall fd, entrusted h1 ops fd -> entrusted h (op :: ops) fd) as Hent.
  { intros fd [Hfd [Hown|Hex]]; (split; [done|]); [|by right; apply Exists_cons_tl].
    destruct (Hfrom fd Hown) as [?|?]; [by left|right; by apply Exists_cons_hd]. }
  assert (forall fd, entrusted h (op :: ops) fd ->
    entrusted h1 ops fd \/ ((owned h.2 fd \/ adopts op fd) /\ ~ owned h1.2 fd)) as Hinv.
  { intros fd [Hfd Hor]. destruct (owned_dec h1.2 fd) as [?|Hno]; [by left; split; [|left]|].
    destruct Hor as [?|[?|?]%Exists_cons]; [tauto|tauto|]. left. split; [done|by right]. }
  split_and!.
  - intros fd Hfd Hin%Hsub; [|done]. by apply Hopen in Hin as [? _].
  - intros fd Hfd Hin Hnin. split; [|intros Hown; by apply Hnin, (ow_open _ Ho2)].
    destruct (decide (fd ∈ kv_open (kview h1.1))) as [Hin1|Hnin1].
    + apply Hent. by apply Hclosed.
    + split; [done|]. assert (owned h.2 fd \/ adopts op fd) as [?|?]; [|by left|by right; apply Exists_cons_hd].
      destruct (owned_dec h.2 fd) as [?|Hn]; [by left|right]. apply dec_stable. intros Ha.
      apply Hnin1, Hopen; [done|]. tauto.
  - intros fd Hf. destruct (Hinv fd Hf) as [Hf1|[Hor Hno]].
    + destruct (Hleak fd Hf1) as [?|[?|?]]; [by left| |by right; right].
      right; left. destruct r; [by right|done].
    + right. destruct Hf as [Hfd _]. destruct (decide (r = Some fd)) as [->|Hr]; [left; by left|right].
      intros Hin%Hsub; [|done]. apply Hopen in Hin as [_ Hx]; [|done]. by apply Hx.
Qed.
End ScopedFd.

(** ** A history with moves, a self-move, a reset to the same descriptor *)

Definition example_ops : list fd_op :=
  [OpAdopt 0 3; OpMoveNew 1 0; OpMoveAssign 1 1; OpAdopt 2 4; OpMoveAssign 1 2; OpReset 1 4; OpNew 3;
   OpAdopt 4 5; OpRelease 4; OpDestroy 0; OpDestroy 2; OpDestroy 1; OpDestroy 3; OpDestroy 4].

Definition example_heap : sim * gmap nat Z :=
  (mkSim (mkView {[0; 1; 2; 3; 4; 5]} ∅ ∅ ∅ ∅) [], ∅).

Lemma example_heap_owned : Owned example_heap.
Proof. split; [by intros i j fd [? _]|by intros fd (i & ? & _)]. Qed.

Lemma scoped_fd_ownership_witness :
  exists released h', exec_fd_ops example_ops example_heap = (Ret released, h') /\
    released = [5] /\ elements (kv_open (sim_view h'.1)) = elements (kv_open (sim_view example_heap.1) ∖ {[3; 4]}).
Proof.
  destruct (scoped_fd_ownership example_heap example_ops example_heap_owned) as (released & h' & Hrun & _).
  - apply (bool_decide_unpack _). vm_compute. exact I.
  - exists released, h'. split; [exact Hrun|].
    assert (exec_fd_ops example_ops example_heap = (Ret [5], (exec_fd_ops example_ops example_heap).2)) as Hc
      by (vm_compute; reflexivity).
    rewrite Hc in Hrun. injection Hrun as <- <-. split; [reflexivity|].
    vm_compute. reflexivity.
Defined.
