(* ===== verification/SocketUtil.v ===== *)
(** * Socket helpers (net/socket_util.cpp, common/posix_error.cpp)

    Each helper is a row of system calls; a failing one throws, and the local
    [ScopedFd] closes what was opened. *)

From S2P Require Import Prelude CommandLine Posix ScopedFd.
From stdpp Require Import sets gmap.
#[local] Open Scope Z_scope.

(** [std::string::c_str()], read up to the first NUL. *)
Definition c_str (s : bytes) : bytes := take_while (fun c => negb (bool_decide (c = Ascii.zero))) s.

Section SocketUtil.
Context {K : Type} `{!PosixConstants, !Posix K}.
Context (strerror : Z -> string).

Definition ErrorMessage (pfx : string) (errno : Z) : string := pfx +:+ ": " +:+ strerror errno.

(** [if (call < 0) throw std::runtime_error(prefix + ...)] *)
Definition check {S A} (pfx : string) (r : result A) : M S A :=
  match r with
  | inl a => mret a
  | inr errno => throw (runtime_error (ErrorMessage pfx errno))
  end.

Definition SetNonBlocking (fd : Z) : M K unit :=
  r ← call (sys_getfl fd);
  flags ← check "fcntl(F_GETFL) failed" r;
  r ← call (sys_setfl fd (Z.lor flags O_NONBLOCK));
  check "fcntl(F_SETFL) failed" r.

Definition SetCloseOnExec (fd : Z) : M K unit :=
  r ← call (sys_getfd fd);
  flags ← check "fcntl(F_GETFL) failed" r;
  r ← call (sys_setfd fd (Z.lor flags FD_CLOEXEC));
  check "fcntl(F_SETFL) failed" r.

(** A system call on the descriptor that the local [socketFd] holds. *)
Definition on_socket {A} (pfx : string) (f : Z -> sys K (result A)) : M (K * Z) A :=
  fd ← ScopedFd_Get;
  r ← zoom fst (call (f fd));
  check pfx r.

(** The address of [host] and [port]: [htons(static_cast<uint16_t>(port))]. *)
Definition make_address (host : bytes) (port : Z) : M (K * Z) sockaddr_in :=
  addr ← on_socket "inet_pton() failed" (fun _ => inet_pton (c_str host));
  mret (mkSockaddr addr (port mod 65536)).

(** The result is the descriptor of the [ScopedFd] that is returned. *)
Definition CreateListenSocket (host : bytes) (port backlog : Z) : M K Z :=
  r ← call sys_socket;
  fd ← check "socket() failed" r;
  with_fd fd (
    on_socket "setsockopt(SO_REUSEADDR) failed" sys_reuseaddr;;
    addr ← make_address host port;
    on_socket "bind() failed" (fun fd => sys_bind fd addr);;
    on_socket "listen() failed" (fun fd => sys_listen fd backlog);;
    ScopedFd_Release).

Definition ConnectToServer (host : bytes) (port : Z) : M K Z :=
  r ← call sys_socket;
  fd ← check "socket() failed" r;
  with_fd fd (
    addr ← make_address host port;
    on_socket "connect() failed" (fun fd => sys_connect fd addr);;
    ScopedFd_Release).

(** ** What they promise *)

Context `{!PosixLaws K}.

(** [m] from [k] returns with the view [v], or throws and leaves the view. *)
Definition all_or_nothing {A} (m : M K A) (k : K) (v : A -> kernel_view -> Prop) : Prop :=
  match m k with
  | (Ret a, k') => v a (kview k')
  | (Fail (Throw (runtime_error _)), k') => kview k' = kview k
  | _ => False
  end.

Lemma land_lor_bit f b : 0 < b -> (Z.land (Z.lor f b) b =? 0) = false.
Proof.
  intros Hb. apply Z.eqb_neq. intros H0.
  assert (Z.land (Z.lor f b) b = b) as He; [|lia].
  apply Z.bits_inj'. intros n _. rewrite Z.land_spec, Z.lor_spec.
  by destruct (Z.testbit f n), (Z.testbit b n).
Qed.

Lemma SetNonBlocking_ok fd k :
  all_or_nothing (SetNonBlocking fd) k (fun _ v => v = (kview k) <| kv_nonblock ::= (fun s => {[fd]} ∪ s) |>).
Proof.
  unfold all_or_nothing, SetNonBlocking, mbind, M_bind, call, check, throw, fail, mret, M_ret.
  pose proof (getfl_law k fd) as Hg. destruct (sys_getfl fd k) as [[flags|e] k1]; cbn [snd] in Hg; [|done].
  cbn beta iota. destruct (sys_setfl fd (Z.lor flags O_NONBLOCK) k1) as [r k2] eqn:Hs.
  apply setfl_law in Hs. destruct r as [[]|e]; cbn beta iota; rewrite Hs, Hg; [|done].
  by rewrite land_lor_bit by apply O_NONBLOCK_bit.
Qed.

Lemma SetCloseOnExec_ok fd k :
  all_or_nothing (SetCloseOnExec fd) k (fun _ v => v = (kview k) <| kv_cloexec ::= (fun s => {[fd]} ∪ s) |>).
Proof.
  unfold all_or_nothing, SetCloseOnExec, mbind, M_bind, call, check, throw, fail, mret, M_ret.
  pose proof (getfd_law k fd) as Hg. destruct (sys_getfd fd k) as [[flags|e] k1]; cbn [snd] in Hg; [|done].
  cbn beta iota. destruct (sys_setfd fd (Z.lor flags FD_CLOEXEC) k1) as [r k2] eqn:Hs.
  apply setfd_law in Hs. destruct r as [[]|e]; cbn beta iota; rewrite Hs, Hg; [|done].
  by rewrite land_lor_bit by apply FD_CLOEXEC_bit.
Qed.

(** A system call of a local socket that leaves the view alone. *)
Lemma on_socket_ok {A} pfx (f : Z -> sys K (result A)) k fd :
  (forall k, kview (f fd k).2 = kview k) ->
  wp (on_socket pfx f) (fun _ st => st.2 = fd /\ kview st.1 = kview k)
    (fun e st => (exists what, e = Throw (runtime_error what)) /\ st.2 = fd /\ kview st.1 = kview k) (k, fd).
Proof.
  intros Hf. specialize (Hf k). unfold wp, on_socket, ScopedFd_Get, mbind, M_bind, gets, zoom, call, check. cbn [fst snd].
  destruct (f fd k) as [[a|e] k']; cbn [snd] in Hf; cbn; [done|]. split; [by eexists|done].
Qed.

(** The body of a socket helper: it ends by releasing its open descriptor. *)
Lemma with_fd_ok (body : M (K * Z) Z) fd k :
  fd ∈ kv_open (kview k) -> 0 <= fd ->
  wp body (fun a st => a = fd /\ st.2 = INVALID_FD /\ kview st.1 = kview k)
    (fun e st => (exists what, e = Throw (runtime_error what)) /\ st.2 = fd /\ kview st.1 = kview k) (k, fd) ->
  match with_fd fd body k with
  | (Ret a, k') => a = fd /\ kview k' = kview k
  | (Fail (Throw (runtime_error _)), k') => kv_open (kview k') = kv_open (kview k) ∖ {[fd]}
  | _ => False
  end.
Proof.
  intros Hin Hfd. unfold wp, with_fd. destruct (body (k, fd)) as [[a|e] [k1 m]]; cbn [fst snd].
  - intros (-> & -> & Hk). unfold ScopedFd_Destroy, ScopedFd_Reset, mbind, M_bind, gets. cbn [snd].
    rewrite Z.eqb_refl. by split.
  - intros ((what & ->) & -> & Hk). destruct (Reset_spec k1 fd INVALID_FD) as (k' & Hr & Hopen).
    unfold ScopedFd_Destroy. rewrite Hr, Hopen. unfold INVALID_FD.
    replace ((fd =? -1) || (fd <? 0)) with false by lia. by rewrite Hk.
Qed.

(** The outcome of a helper that makes a socket. *)
Definition makes_socket (m : M K Z) (k : K) : Prop :=
  match m k with
  | (Ret fd, k') => 0 <= fd /\ (fd ∉ kv_open (kview k)) /\ kview k' = view_open fd (kview k)
  | (Fail (Throw (runtime_error _)), k') => kv_open (kview k') = kv_open (kview k)
  | _ => False
  end.

Lemma socket_helper (body : M (K * Z) Z) k :
  (forall k fd, wp body (fun a st => a = fd /\ st.2 = INVALID_FD /\ kview st.1 = kview k)
     (fun e st => (exists what, e = Throw (runtime_error what)) /\ st.2 = fd /\ kview st.1 = kview k) (k, fd)) ->
  makes_socket (r ← call sys_socket; fd ← check "socket() failed" r; with_fd fd body) k.
Proof.
  intros Hbody. unfold makes_socket, mbind, M_bind, call.
  destruct (sys_socket k) as [r k1] eqn:Hs. apply socket_law in Hs.
  destruct r as [fd|e]; cbn; [|by rewrite Hs]. destruct Hs as (Hfd & Hnew & Hk1).
  assert (fd ∈ kv_open (kview k1)) as Hin by (rewrite Hk1; cbn; set_solver).
  pose proof (with_fd_ok body fd k1 Hin Hfd (Hbody k1 fd)) as Hw. rewrite Hk1 in Hw.
  destruct (with_fd fd body k1) as [[a|[[]| | |]] k2]; try done.
  - by destruct Hw as [-> ->].
  - rewrite Hw. cbn. apply set_eq. intros x. rewrite elem_of_difference, elem_of_union, elem_of_singleton.
    split; [tauto|]. intros Hx. split; [by right|]. by intros ->.
Qed.

(** One call of the row, and the rest. *)
Lemma on_socket_then {A B} pfx (f : Z -> sys K (result A)) (rest : A -> M (K * Z) B) Q E k fd :
  (forall k, kview (f fd k).2 = kview k) ->
  (forall what k', kview k' = kview k -> E (Throw (runtime_error what)) (k', fd)) ->
  (forall a k', kview k' = kview k -> wp (rest a) Q E (k', fd)) ->
  wp (a ← on_socket pfx f; rest a) Q E (k, fd).
Proof.
  intros Hf HE Hrest. apply wp_bind. eapply wp_mono; [by apply on_socket_ok|..].
  - intros a [k' m] [Hm Hk]. cbn in *. subst m. by apply Hrest.
  - intros e [k' m] ((what & ->) & Hm & Hk). cbn in *. subst m. by apply HE.
Qed.

Ltac socket_step Hk :=
  apply on_socket_then;
  [intros ?; first [apply reuseaddr_law|apply inet_pton_law|apply bind_law|apply listen_law|apply connect_law]
  |intros ? ? ?; split_and!; cbn; [by eexists|done|congruence]
  |intros ? ? Hk].

Lemma make_address_then {B} host port (rest : sockaddr_in -> M (K * Z) B) Q E k fd :
  (forall what k', kview k' = kview k -> E (Throw (runtime_error what)) (k', fd)) ->
  (forall a k', kview k' = kview k -> wp (rest a) Q E (k', fd)) ->
  wp (a ← make_address host port; rest a) Q E (k, fd).
Proof.
  intros HE Hrest. apply wp_bind. unfold make_address. apply on_socket_then.
  - intros k'. apply inet_pton_law.
  - done.
  - intros a k' Hk. apply wp_ret. by apply Hrest.
Qed.

Lemma CreateListenSocket_ok host port backlog k : makes_socket (CreateListenSocket host port backlog) k.
Proof.
  apply socket_helper; intros k0 fd. socket_step Hk1. apply make_address_then.
  { intros. split_and!; [by eexists|done|cbn; congruence]. }
  intros addr k2 Hk2. socket_step Hk3. socket_step Hk4.
  unfold wp, ScopedFd_Release, mbind, M_bind, gets, modify. cbn. split_and!; [done|done|congruence].
Qed.

Lemma ConnectToServer_ok host port k : makes_socket (ConnectToServer host port) k.
Proof.
  apply socket_helper; intros k0 fd. apply make_address_then.
  { intros. split_and!; [by eexists|done|cbn; congruence]. }
  intros addr k2 Hk2. socket_step Hk3.
  unfold wp, ScopedFd_Release, mbind, M_bind, gets, modify. cbn. split_and!; [done|done|congruence].
Qed.

(** C32. Making a socket never leaks a descriptor: [CreateListenSocket] and
    [ConnectToServer] either return a fresh open descriptor, owned by the
    returned object, everything else unchanged, or throw and leave exactly the
    descriptors that were open before, whichever call fails. *)
Theorem socket_helpers_never_leak host port backlog k :
  makes_socket (CreateListenSocket host port backlog) k /\ makes_socket (ConnectToServer host port) k.
Proof. split; [apply CreateListenSocket_ok|apply ConnectToServer_ok]. Qed.
End SocketUtil.

(** ** Examples on the simple kernel *)

Definition no_strerror (_ : Z) : string := "error".

(** The fourth call fails ([bind], address in use). *)
Example listen_fails :
  let '(r, k) := CreateListenSocket no_strerror (lit "127.0.0.1") 7777 128 (sim_init [0; 0; 98]) in
  r = Fail (Throw (runtime_error "bind() failed: error")) /\
  elements (kv_open (sim_view k)) = elements (kv_open (sim_view (sim_init []))).
Proof. vm_compute. split; reflexivity. Qed.

Example listen_succeeds :
  (CreateListenSocket no_strerror (lit "127.0.0.1") 7777 128 (sim_init [])).1 = Ret 3.
Proof. vm_compute. reflexivity. Qed.

(** The same run through the theorem: the listening socket is fresh and the
    other descriptors are untouched. *)
Lemma socket_helpers_never_leak_witness :
  exists fd k', CreateListenSocket no_strerror (lit "127.0.0.1") 7777 128 (sim_init []) = (Ret fd, k') /\
    kview k' = view_open fd (kview (sim_init [])).
Proof.
  destruct (socket_helpers_never_leak no_strerror (lit "127.0.0.1") 7777 128 (sim_init [])) as [Hlisten _].
  unfold makes_socket in Hlisten.
  destruct (CreateListenSocket no_strerror (lit "127.0.0.1") 7777 128 (sim_init [])) as [r k'] eqn:Hr.
  assert (r = Ret 3) as -> by (change r with (r, k').1; rewrite <- Hr; vm_compute; reflexivity).
  exists 3, k'. split; [reflexivity|]. apply Hlisten.
Defined.
