(* ===== verification/WakeupChannel.v ===== *)
(** * WakeupChannel: waking an event loop (net/wakeup/wakeup_channel.cpp)

    A pair of connected sockets: [Notify] writes a byte at one end, the event
    loop watches the other and [Drain]s it. The loops over the system calls
    are translated with fuel, which the finite number of interruptions and of
    unread bytes bounds. *)

From S2P Require Import Prelude Posix ScopedFd SocketUtil.
From stdpp Require Import sets gmap.
#[local] Open Scope Z_scope.

Record WakeupChannel := mkWakeupChannel {
  m_readFd : Z;
  m_writeFd : Z;
}.

Section WakeupChannel.
Context {K : Type} `{!PosixConstants, !Posix K}.
Context (strerror : Z -> string).

(** Two local [ScopedFd]s, destroyed in reverse order. *)
Definition with_two_fds {A} (fd1 fd2 : Z) (body : M (K * (Z * Z)) A) : M K A :=
  fun k =>
    let '(r, (k1, (m1, m2))) := body (k, (fd1, fd2)) in
    let '(_, (k2, _)) := ScopedFd_Destroy (k1, m2) in
    let '(_, (k3, _)) := ScopedFd_Destroy (k2, m1) in
    (r, k3).

(** The members start without a descriptor; the moves come last. *)
Definition WakeupChannel_new : M K WakeupChannel :=
  r ← call sys_socketpair;
  rawFds ← check strerror "socketpair failed" r;
  with_two_fds rawFds.1 rawFds.2 (
    fds ← gets snd;
    zoom fst (SetNonBlocking strerror fds.1);;
    zoom fst (SetNonBlocking strerror fds.2);;
    zoom fst (SetCloseOnExec strerror fds.1);;
    zoom fst (SetCloseOnExec strerror fds.2);;
    modify (fun st => st <| snd := (INVALID_FD, INVALID_FD) |>);;
    mret (mkWakeupChannel fds.1 fds.2)).

Definition is_again (e : Z) : bool := (e =? EAGAIN) || (e =? EWOULDBLOCK).

(** [Break] is [return]. *)
Definition Notify_body (c : WakeupChannel) : M K ctl :=
  written ← call (sys_write (m_writeFd c) [byte_of 1]);
  match written with
  | inl n => if n =? 1 then mret Break else mret Break
  | inr e =>
      if e =? EINTR then mret Continue else
      if is_again e then mret Break else mret Break
  end.

Definition Notify (fuel : nat) (c : WakeupChannel) : M K unit := loop fuel (Notify_body c).

Definition Drain_body (c : WakeupChannel) : M K ctl :=
  received ← call (sys_read (m_readFd c) 256);
  match received with
  | inl n => if 0 <? n then mret Continue else mret Break
  | inr e =>
      if e =? EINTR then mret Continue else
      if is_again e then mret Break else
      throw (runtime_error (ErrorMessage strerror "wakeup channel read failed" e))
  end.

Definition Drain (fuel : nat) (c : WakeupChannel) : M K unit := loop fuel (Drain_body c).

(** ** The channel *)

Context `{!PosixLaws K}.

(** Both ends are open and do not block; [n] bytes are unread. *)
Record Channel (c : WakeupChannel) (v : kernel_view) (n : Z) : Prop := {
  ch_peer : kv_peer v !! m_writeFd c = Some (m_readFd c);
  ch_unread : kv_unread v !! m_readFd c = Some n;
  ch_read : m_readFd c ∈ kv_nonblock v;
  ch_write : m_writeFd c ∈ kv_nonblock v;
  ch_count : 0 <= n;
}.

(** The same kernel with [n] bytes unread at the reading end of [c]. *)
Definition with_unread (c : WakeupChannel) (n : Z) (v : kernel_view) : kernel_view :=
  v <| kv_unread ::= (fun m => <[m_readFd c := n]> m) |>.

Lemma Channel_unread c v n n' : Channel c v n -> 0 <= n' -> Channel c (with_unread c n' v) n'.
Proof.
  intros [Hp Hu Hr Hw Hn] Hn'. split; [exact Hp| |exact Hr|exact Hw|done]. cbn. apply lookup_insert_eq.
Qed.

Lemma with_unread_same c v n : Channel c v n -> v = with_unread c n v.
Proof. intros [_ Hu _ _ _]. unfold with_unread. destruct v; cbn in *. by rewrite insert_id. Qed.

Lemma with_unread_twice c v n n' : with_unread c n' (with_unread c n v) = with_unread c n' v.
Proof. unfold with_unread. cbn. by rewrite insert_insert_eq. Qed.

(** A turn of [Notify]: the byte is there, or one was there already, or the call
    was interrupted. *)
Lemma Notify_turn c k n :
  Channel c (kview k) n ->
  exists r k' n', Notify_body c k = (Ret r, k') /\ Channel c (kview k') n' /\
    kview k' = with_unread c n' (kview k) /\
    match r with
    | Break => 0 < n' /\ (n' = n + 1 \/ n' = n)
    | Continue => n' = n /\ (interrupts k' < interrupts k)%nat
    end.
Proof.
  intros HC. pose proof HC as [Hp Hu Hr Hw Hn]. unfold Notify_body, mbind, M_bind, call.
  destruct (sys_write (m_writeFd c) [byte_of 1] k) as [r k'] eqn:Hs.
  apply (write_law k _ (m_readFd c) n) in Hs; [|done..]. destruct r as [count|e].
  - destruct Hs as [-> Hv]. cbn. exists Break, k', (n + 1). rewrite Hv.
    split_and!; [done|eapply (Channel_unread c (kview k)); [done|lia]|done|lia|lia].
  - pose proof (with_unread_same _ _ _ HC) as Hsame. destruct Hs as [Hv [[-> Hi]|[He Hlt]]].
    + rewrite Z.eqb_refl. exists Continue, k', n. rewrite Hv. by split_and!.
    + assert ((e =? EINTR) = false) as -> by (pose proof EINTR_other; lia).
      exists Break, k', n. rewrite Hv. destruct (is_again e); split_and!; (done || lia).
Qed.

(** On any descriptor [Notify] returns, and neither opens nor closes. *)
Lemma Notify_returns fuel c k :
  (interrupts k < fuel)%nat ->
  wp (Notify fuel c) (fun _ k' => kv_open (kview k') = kv_open (kview k)) no_fail k.
Proof.
  intros Hfuel. apply (wp_loop (fun k' => kv_open (kview k') = kv_open (kview k)) _ _ interrupts); [done|done|].
  intros k1 Hk1. unfold Notify_body. apply wp_bind, wp_call. intros r k2 Hs.
  apply write_open_law in Hs as [Ho Hi]. rewrite Hk1 in Ho. destruct r as [n|e].
  - by destruct (n =? 1); apply wp_ret.
  - destruct (Z.eqb_spec e EINTR) as [->|]; [apply wp_ret; auto|]. by destruct (is_again e); apply wp_ret.
Qed.

Lemma Drain_turn c k n :
  Channel c (kview k) n ->
  exists r k' n', Drain_body c k = (Ret r, k') /\ Channel c (kview k') n' /\
    kview k' = with_unread c n' (kview k) /\
    match r with
    | Break => n' = 0
    | Continue => 0 <= n' <= n /\ (interrupts k' + Z.to_nat n' < interrupts k + Z.to_nat n)%nat
    end.
Proof.
  intros HC. pose proof HC as [Hp Hu Hr Hw Hn]. unfold Drain_body, mbind, M_bind, call.
  destruct (sys_read (m_readFd c) 256 k) as [r k'] eqn:Hs.
  apply (read_law k _ n) in Hs; [|done || lia..]. destruct r as [count|e].
  - destruct Hs as (Hc & Hv & Hi). replace (0 <? count) with true by lia.
    exists Continue, k', (n - count). rewrite Hv.
    split_and!; [done|eapply (Channel_unread c (kview k)); [done|lia]|done|lia|lia|lia].
  - pose proof (with_unread_same _ _ _ HC) as Hsame. destruct Hs as [Hv [[-> Hi]|[He ->]]].
    + rewrite Z.eqb_refl. exists Continue, k', n. rewrite Hv. split_and!; done || lia.
    + assert ((e =? EINTR) = false) as -> by (pose proof EINTR_other; lia).
      assert (is_again e = true) as -> by (unfold is_again; lia).
      exists Break, k', 0. rewrite Hv. by split_and!.
Qed.

(** C33. The channel does what the event loop relies on: [Notify] always returns,
    adds a byte or finds one unread already, and leaves at least one, however
    often it is interrupted and when the channel is full; [Drain] always
    returns, never throws, and leaves no unread byte. Nothing else of the
    kernel changes: no descriptor is opened or closed, no flag set, and no
    other channel written to or read. *)
Theorem wakeup_channel_ok c k n fuel :
  Channel c (kview k) n -> (interrupts k + Z.to_nat n < fuel)%nat ->
  (exists k' n', Notify fuel c k = (Ret tt, k') /\ Channel c (kview k') n' /\
     0 < n' /\ (n' = n + 1 \/ n' = n) /\ kview k' = with_unread c n' (kview k)) /\
  (exists k', Drain fuel c k = (Ret tt, k') /\ Channel c (kview k') 0 /\
     kview k' = with_unread c 0 (kview k)).
Proof.
  intros HC Hf. split.
  - assert (wp (Notify fuel c) (fun _ k' => exists n', Channel c (kview k') n' /\ 0 < n' /\
      (n' = n + 1 \/ n' = n) /\ kview k' = with_unread c n' (kview k)) no_fail k) as Hwp.
    { apply (wp_loop (fun k' => Channel c (kview k') n /\ kview k' = with_unread c n (kview k))
        _ _ (fun k' => interrupts k')); [by split; [|apply with_unread_same]|lia|].
      intros k1 [HC1 Hv1]. destruct (Notify_turn c k1 n HC1) as (r & k2 & n2 & Hrun & HC2 & Hv2 & Hr).
      rewrite Hv1, with_unread_twice in Hv2.
      eapply wp_intro; [exact Hrun|]. destruct r; [|destruct Hr; by eauto]. by destruct Hr as [-> ?]. }
    apply wp_run in Hwp as ([] & k' & Hrun & n' & ? & ? & ? & ?). eauto 10.
  - assert (wp (Drain fuel c) (fun _ k' => Channel c (kview k') 0 /\
      kview k' = with_unread c 0 (kview k)) no_fail k) as Hwp.
    { apply (wp_loop (fun k' => exists n', Channel c (kview k') n' /\
          kview k' = with_unread c n' (kview k) /\
          (interrupts k' + Z.to_nat n' <= interrupts k + Z.to_nat n)%nat)
        _ _ (fun k' => (interrupts k' + Z.to_nat (default 0%Z (kv_unread (kview k') !! m_readFd c)))%nat)).
      - exists n. split_and!; [done|by apply with_unread_same|lia].
      - rewrite (ch_unread _ _ _ HC). cbn. lia.
      - intros k1 (n1 & HC1 & Hv1 & Hle).
        destruct (Drain_turn c k1 n1 HC1) as (r & k2 & n2 & Hrun & HC2 & Hv2 & Hr).
        rewrite Hv1, with_unread_twice in Hv2.
        eapply wp_intro; [exact Hrun|]. destruct r; [|by subst].
        rewrite (ch_unread _ _ _ HC1), (ch_unread _ _ _ HC2). cbn.
        split; [exists n2; split_and!; [done|done|lia]|lia]. }
    apply wp_run in Hwp as ([] & k' & Hrun & ? & ?). eauto.
Qed.

(** ** Construction *)

Lemma flag_then {A B} (m : M K A) (v : A -> kernel_view -> Prop) (rest : A -> M (K * (Z * Z)) B) Q E k fds :
  all_or_nothing m k v ->
  (forall what k', kview k' = kview k -> E (Throw (runtime_error what)) (k', fds)) ->
  (forall a k', v a (kview k') -> wp (rest a) Q E (k', fds)) ->
  wp (a ← zoom fst m; rest a) Q E (k, fds).
Proof.
  unfold all_or_nothing. intros Hm HE Hrest. apply wp_bind. unfold wp at 1, zoom. cbn [fst].
  destruct (m k) as [[a|[[]| | |]] k']; try done; [by apply Hrest|by apply HE].
Qed.

(** What is left to destroy when the body is done. *)
Lemma with_two_fds_ok {A} rfd wfd (body : M (K * (Z * Z)) A) (R : A -> kernel_view -> Prop) k :
  0 <= rfd -> 0 <= wfd ->
  wp body (fun a st => st.2 = (INVALID_FD, INVALID_FD) /\ R a (kview st.1))
    (fun e st => (exists what, e = Throw (runtime_error what)) /\ st.2 = (rfd, wfd) /\
       kv_open (kview st.1) = kv_open (kview k)) (k, (rfd, wfd)) ->
  match with_two_fds rfd wfd body k with
  | (Ret a, k') => R a (kview k')
  | (Fail (Throw (runtime_error _)), k') => kv_open (kview k') = kv_open (kview k) ∖ {[wfd]} ∖ {[rfd]}
  | _ => False
  end.
Proof.
  intros Hr Hw. unfold wp, with_two_fds. destruct (body (k, (rfd, wfd))) as [[a|e] [k1 [m1 m2]]]; cbn [fst snd].
  - intros [[= -> ->] HR]. done.
  - intros ((what & ->) & [= -> ->] & Hk). unfold ScopedFd_Destroy.
    destruct (Reset_spec k1 wfd INVALID_FD) as (k2 & -> & Ho2).
    destruct (Reset_spec k2 rfd INVALID_FD) as (k3 & -> & Ho3). unfold INVALID_FD in *.
    rewrite Ho3, Ho2, <-Hk.
    by replace ((rfd =? -1) || (rfd <? 0)) with false by lia; replace ((wfd =? -1) || (wfd <? 0)) with false by lia.
Qed.

(** A channel with both ends non-blocking and close-on-exec. *)
Definition view_channel (c : WakeupChannel) (v : kernel_view) : kernel_view :=
  view_pair (m_readFd c) (m_writeFd c) v
    <| kv_nonblock ::= (fun s => {[m_readFd c]} ∪ s) |> <| kv_nonblock ::= (fun s => {[m_writeFd c]} ∪ s) |>
    <| kv_cloexec ::= (fun s => {[m_readFd c]} ∪ s) |> <| kv_cloexec ::= (fun s => {[m_writeFd c]} ∪ s) |>.

Lemma view_channel_ok c v : m_readFd c <> m_writeFd c -> Channel c (view_channel c v) 0.
Proof.
  split; cbn; [apply lookup_insert_eq|apply lookup_insert_eq|set_unfold; tauto|set_unfold; tauto|lia].
Qed.

(** The constructor gives a fresh channel or nothing: after an exception the
    descriptors that are open are those that were. *)
Lemma WakeupChannel_new_ok k :
  match WakeupChannel_new k with
  | (Ret c, k') => 0 <= m_readFd c /\ 0 <= m_writeFd c /\ m_readFd c <> m_writeFd c /\
      (m_readFd c ∉ kv_open (kview k)) /\ (m_writeFd c ∉ kv_open (kview k)) /\
      kview k' = view_channel c (kview k)
  | (Fail (Throw (runtime_error _)), k') => kv_open (kview k') = kv_open (kview k)
  | _ => False
  end.
Proof.
  unfold WakeupChannel_new. unfold mbind at 1 2, M_bind at 1 2, call.
  destruct (sys_socketpair k) as [r k0] eqn:Hs. apply socketpair_law in Hs.
  destruct r as [[rfd wfd]|e]; cbn [check]; [|unfold throw, fail; by rewrite Hs].
  destruct Hs as (Hr & Hw & Hne & Hnr & Hnw & Hv). unfold mret at 1, M_ret at 1. cbn [fst snd].
  match goal with |- context [with_two_fds rfd wfd ?b] => set (body := b) end.
  pose proof (with_two_fds_ok rfd wfd body (fun c v => c = mkWakeupChannel rfd wfd /\
    v = view_channel c (kview k)) k0 Hr Hw) as Hok.
  assert (kv_open (kview k0) = {[rfd; wfd]} ∪ kv_open (kview k)) as Ho0 by by rewrite Hv.
  destruct (with_two_fds rfd wfd body k0) as [o k1].
  match type of Hok with ?H -> _ => assert H as Hbody end.
  { subst body. clear Hok. apply wp_bind, wp_gets. cbn [fst snd].
    eapply flag_then; [apply SetNonBlocking_ok|intros; split_and!; [by eexists|done|cbn; congruence]|].
    intros [] k2 H2. eapply flag_then; [apply SetNonBlocking_ok|intros what k3 H3; split_and!; [by eexists|done|cbn; by rewrite H3, H2]|].
    intros [] k3 H3. eapply flag_then; [apply SetCloseOnExec_ok|intros what k4 H4; split_and!; [by eexists|done|cbn; by rewrite H4, H3, H2]|].
    intros [] k4 H4. eapply flag_then; [apply SetCloseOnExec_ok|intros what k5 H5; split_and!; [by eexists|done|cbn; by rewrite H5, H4, H3, H2]|].
    intros [] k5 H5. apply wp_bind, wp_modify, wp_ret. cbn [fst snd upd].
    split; [done|]. split; [done|]. by rewrite H5, H4, H3, H2, Hv. }
  specialize (Hok Hbody). destruct o as [c|[[]| | |]]; try done.
  - by destruct Hok as (-> & Ho).
  - rewrite Hok, Ho0. apply set_eq. intros x. set_unfold. split; [tauto|]. intros Hx.
    split_and!; [by right|by intros ->|by intros ->].
Qed.
End WakeupChannel.

(** ** On the simple kernel: a full channel, interruptions *)

Definition example_channel : WakeupChannel := mkWakeupChannel 3 4.
Definition example_kernel (script : list Z) : sim :=
  ((WakeupChannel_new no_strerror (sim_init [])).2) <| sim_script := script |>.

Lemma example_channel_ok script : Channel example_channel (kview (example_kernel script)) 0.
Proof.
  pose proof (WakeupChannel_new_ok no_strerror (sim_init [])) as Hn.
  assert ((WakeupChannel_new no_strerror (sim_init [])).1 = Ret example_channel) as Hc by (vm_compute; reflexivity).
  unfold example_kernel. destruct (WakeupChannel_new no_strerror (sim_init [])) as [o k]. cbn in Hc. subst o.
  destruct Hn as (_ & _ & Hne & _ & _ & Hk).
  change (Channel example_channel (kview k) 0). rewrite Hk. by apply view_channel_ok.
Qed.

Lemma wakeup_channel_ok_witness :
  (exists k' n', Notify 10 example_channel (example_kernel [4; 4]) = (Ret tt, k') /\
     Channel example_channel (kview k') n' /\ 0 < n' /\ (n' = 0 + 1 \/ n' = 0) /\
     kview k' = with_unread example_channel n' (kview (example_kernel [4; 4]))) /\
  (exists k', Drain no_strerror 10 example_channel (example_kernel [4; 4]) = (Ret tt, k') /\
     Channel example_channel (kview k') 0 /\
     kview k' = with_unread example_channel 0 (kview (example_kernel [4; 4]))).
Proof.
  apply (wakeup_channel_ok no_strerror example_channel (example_kernel [4; 4]) 0 10).
  - apply example_channel_ok.
  - cbn. lia.
Defined.
