(* ===== verification/WakeupProtocol.v ===== *)
(** * No wake-up is lost (net/sub_reactor.cpp with net/wakeup/wakeup_channel.cpp)

    A thread that hands a request to an event loop changes the control fields
    under the mutex and then calls [Notify]; the loop, when its poller reports
    the channel, drains it and then processes the requests. The two run
    interleaved system call by system call. What the protocol needs of a loop
    is an interface ([ControlLoop]); the sub-reactor implements it, and the
    theorem says that a request that waits always has a byte in the channel, a
    notification under way, or the loop about to look. *)

From S2P Require Import Prelude PriorityQueue KVStore FrameCodec OutputBuffer ServerMetrics Poller SubReactor EventLoop ReactorTheorems Posix ScopedFd SocketUtil WakeupChannel.
From stdpp Require Import sets gmap relations.
#[local] Open Scope Z_scope.

(** ** The interface of a loop with requests *)

(** [post s s' b]: another thread makes a request; [b] says that it will
    notify. *)
Class ControlLoop (S : Type) := {
  todo : S -> Prop;
  post : S -> S -> bool -> Prop;
  process : S -> S -> Prop;
  serve : S -> S -> Prop;
}.

Class ControlLoopLaws (S : Type) `{!ControlLoop S} := {
  post_quiet s s' : post s s' false -> todo s' -> todo s;
  process_done s s' : process s s' -> ~ todo s';
  serve_frame s s' : serve s s' -> todo s' -> todo s;
}.

(** ** Interleavings *)

(** What is left of the round: the loop waits when nothing is. *)
Inductive action := ADrain | AProcess | AServe.

(** The round after [Wait] reported the channel, and any other round. *)
Definition control_round : list action := [ADrain; AProcess; AServe].
Definition plain_round : list action := [AServe].

Record world (S K : Type) := mkWorld {
  w_loop : S;
  w_kernel : K;
  (** threads inside [Notify] *)
  w_notifiers : nat;
  w_round : list action;
}.
Arguments mkWorld {S K}.
Arguments w_loop {S K}.
Arguments w_kernel {S K}.
Arguments w_notifiers {S K}.
Arguments w_round {S K}.

Section protocol.
Context {K : Type} `{!PosixConstants, !Posix K, !PosixLaws K}.
Context (strerror : Z -> string).
Context {S : Type} `{!ControlLoop S, !ControlLoopLaws S}.
Context (c : WakeupChannel).

Definition unread (k : K) : Z := default 0 (kv_unread (kview k) !! m_readFd c).

Inductive wstep : world S K -> world S K -> Prop :=
  | ws_post s s' b k n round :
      post s s' b ->
      wstep (mkWorld s k n round) (mkWorld s' k (if b then Datatypes.S n else n) round)
  | ws_notify s k k' r n round :
      Notify_body c k = (Ret r, k') ->
      wstep (mkWorld s k (Datatypes.S n) round)
            (mkWorld s k' (match r with Continue => Datatypes.S n | Break => n end) round)
  | ws_wake s k n : 0 < unread k -> wstep (mkWorld s k n []) (mkWorld s k n control_round)
  | ws_other s k n : wstep (mkWorld s k n []) (mkWorld s k n plain_round)
  | ws_drain s k k' r n round :
      Drain_body strerror c k = (Ret r, k') ->
      wstep (mkWorld s k n (ADrain :: round))
            (mkWorld s k' n (match r with Continue => ADrain :: round | Break => round end))
  | ws_process s s' k n round :
      process s s' -> wstep (mkWorld s k n (AProcess :: round)) (mkWorld s' k n round)
  | ws_serve s s' k n round :
      serve s s' -> wstep (mkWorld s k n (AServe :: round)) (mkWorld s' k n round).

(** A request that waits will be seen. *)
Definition covered (w : world S K) : Prop :=
  todo (w_loop w) -> 0 < unread (w_kernel w) \/ (0 < w_notifiers w)%nat \/ AProcess ∈ w_round w.

Record Watched (w : world S K) : Prop := {
  wa_channel : exists n, Channel c (kview (w_kernel w)) n;
  wa_round : suffix (w_round w) control_round \/ suffix (w_round w) plain_round;
  wa_covered : covered w;
}.

Lemma unread_channel k n : Channel c (kview k) n -> unread k = n.
Proof. intros HC. unfold unread. by rewrite (ch_unread _ _ _ HC). Qed.

(** A drain is followed by the processing of the requests. *)
Lemma drain_then_process round :
  suffix (ADrain :: round) control_round \/ suffix (ADrain :: round) plain_round -> AProcess ∈ round.
Proof.
  unfold control_round, plain_round. intros [[l Hl]|[l Hl]]; destruct l as [|a l]; simplify_eq/=.
  - by left.
  - by destruct l as [|? [|? [|? l]]].
  - by destruct l as [|? l].
Qed.

Lemma round_tail a round :
  suffix (a :: round) control_round \/ suffix (a :: round) plain_round ->
  suffix round control_round \/ suffix round plain_round.
Proof. intros [?|?]; [left|right]; by eapply suffix_cons_l. Qed.

Lemma wstep_watched w w' : Watched w -> wstep w w' -> Watched w'.
Proof.
  intros [(n & HC) Hr Hcov] Hstep. destruct Hstep; cbn [w_kernel w_round w_loop w_notifiers] in *;
    unfold covered in Hcov; cbn [w_kernel w_round w_loop w_notifiers] in Hcov.
  - split; cbn; [eauto|done|]. unfold covered; cbn. intros Ht. destruct b; [right; left; lia|].
    apply Hcov. by eapply post_quiet.
  - destruct (Notify_turn c k n HC) as (r' & k1 & n1 & Hrun & HC1 & _ & Hr1).
    match goal with Hn : Notify_body c k = _ |- _ => rewrite Hrun in Hn; injection Hn as <- <- end.
    split; cbn; [eauto|done|]. unfold covered; cbn. intros Ht. destruct r'.
    + right. left. lia.
    + left. destruct Hr1. by rewrite (unread_channel _ _ HC1).
  - split; cbn; [eauto|left; by exists []|]. unfold covered; cbn. intros _. right. right. right. left.
  - split; cbn; [eauto|right; by exists []|]. unfold covered; cbn. intros [?|[?|Hin]]%Hcov; [by left|by right; left|].
    by inversion Hin.
  - destruct (Drain_turn strerror c k n HC) as (r' & k1 & n1 & Hrun & HC1 & _ & Hr1).
    match goal with Hn : Drain_body strerror c k = _ |- _ => rewrite Hrun in Hn; injection Hn as <- <- end.
    pose proof (drain_then_process _ Hr) as Hp.
    split; cbn; [eauto|destruct r'; [done|by eapply round_tail]|]. unfold covered; cbn. intros _. right. right.
    destruct r'; [by right|done].
  - split; cbn; [eauto|by eapply round_tail|]. unfold covered; cbn. intros Ht.
    match goal with Hs : process _ _ |- _ => by destruct (process_done _ _ Hs Ht) end.
  - split; cbn; [eauto|by eapply round_tail|]. unfold covered; cbn. intros Ht.
    match goal with Hs : serve _ _ |- _ => apply (serve_frame _ _ Hs) in Ht end.
    destruct (Hcov Ht) as [?|[?|Hin]]; [by left|by right; left|].
    right. right. by inversion Hin.
Qed.

Lemma reachable_watched w w' : Watched w -> rtc wstep w w' -> Watched w'.
Proof. intros Hw Hr. revert Hw. induction Hr as [|? ? ? Hstep _ IH]; [done|]. intros Hw. by eapply IH, wstep_watched. Qed.
End protocol.

(** ** The sub-reactor *)

Section keeps_rules.
Context {S X : Type} (f : S -> X).

Lemma keeps_for_each {A} (l : list A) (g : A -> M S unit) : (forall x, keeps f (g x)) -> keeps f (for_each l g).
Proof. intros Hg. induction l as [|x l IH]; [done|]. by apply keeps_bind. Qed.
Lemma keeps_on_exception {A} (m : M S A) h : keeps f m -> keeps f h -> keeps f (on_exception m h).
Proof.
  intros Hm Hh s. unfold on_exception. specialize (Hm s).
  destruct (m s) as [[a|[e| | |]] s']; cbn in *; try done.
  rewrite <-Hm. unfold mbind, M_bind. specialize (Hh s'). by destruct (h s') as [[|] ?].
Qed.
End keeps_rules.

Section reactor.
Context {Q : Type} `{!PriorityQueue ExpirationRecord Q}.
Context {P : Type} `{!Poller P}.
Context (o : NetworkOptions) (controlFd : Z).

Abbreviation Reactor := (SubReactor Q P).
Implicit Types s : Reactor.

(** The fields of the control interface, and with the state. *)
Definition control (s : Reactor) := (m_pendingClients s, m_stopRequested s, m_forceStopRequested s).
Definition control_state (s : Reactor) := (control s, m_state s).

Lemma keeps_control {A} (m : M Reactor A) : keeps control_state m -> keeps control m.
Proof. intros H s. exact (f_equal fst (H s)). Qed.

Lemma keeps_on_client {A} cfd (h : M (Ctx Q P) A) : keeps control_state (on_client cfd h).
Proof.
  intros s. unfold on_client. destruct (m_poller s), (m_clients s !! cfd); try done. by destruct (h _).
Qed.
Lemma keeps_on_poller {A} (m : M P A) : keeps control_state (on_poller m).
Proof. intros s. unfold on_poller. destruct (m_poller s); [|done]. by destruct (m _). Qed.
Lemma keeps_metric m : keeps control_state (reactor_metric m).
Proof. intros s. unfold reactor_metric, zoom. by destruct (m _). Qed.
Lemma keeps_close cfd : keeps control_state (close_fd cfd).
Proof. done. Qed.
Hint Resolve keeps_on_client keeps_on_poller keeps_metric keeps_close : keeps.

Ltac keeps_auto := repeat first [keeps_step | apply keeps_for_each | apply keeps_on_exception].

Lemma keeps_add client : keeps control_state (AddClientInLoop client).
Proof. unfold AddClientInLoop. keeps_auto. Qed.
Lemma keeps_cleanup : keeps control_state CleanupClosedConnections.
Proof. unfold CleanupClosedConnections, CleanupClosedConnections_body. keeps_auto. Qed.
Hint Resolve keeps_add keeps_cleanup : keeps.
Lemma keeps_force_close : keeps control_state ForceCloseAllConnections.
Proof. unfold ForceCloseAllConnections. keeps_auto. Qed.
Lemma keeps_handle_event ev : keeps control_state (handle_event o controlFd ev).
Proof. unfold handle_event. keeps_auto. Qed.
Hint Resolve keeps_force_close keeps_handle_event : keeps.

(** The requests that the loop has not seen. *)
Definition reactor_todo (s : Reactor) : Prop :=
  m_state s <> Stopped /\
  (m_pendingClients s <> [] \/ m_forceStopRequested s = true \/
   (m_stopRequested s = true /\ m_state s = Running)).

(** A call from another thread, which notifies after the mutex is released
    unless the client was refused. *)
Inductive reactor_post : Reactor -> Reactor -> bool -> Prop :=
  | post_enqueue fd b s s' : EnqueClient fd s = (Ret b, s') -> reactor_post s s' b
  | post_stop deadline s s' : Stop deadline s = (Ret tt, s') -> reactor_post s s' true
  | post_force s s' : ForceStop s = (Ret tt, s') -> reactor_post s s' true.

(** The round after the control requests. *)
Definition serve_events (events : list (ReadyEvent * conn_io)) (after : TimePoint) : M Reactor unit :=
  state ← gets m_state;
  if bool_decide (state = Stopped) then mret tt else
  for_each events (handle_event o controlFd);;
  CleanupClosedConnections;;
  CheckShutdownProgress after.

#[export] Instance reactor_loop : ControlLoop Reactor := {
  todo := reactor_todo;
  post := reactor_post;
  process s s' := ProcessControlRequests o s = (Ret tt, s');
  serve s s' := exists events after, serve_events events after s = (Ret tt, s');
}.

(** [serve_events] is the end of the round as the loop runs it. *)
Lemma round_is_serve i s :
  EventLoop_body o controlFd i s =
  (timeout ← gets (ComputeWaitTimeout (ri_now i));
   readyEvents ← lift (ri_wait i timeout);
   when (existsb (fun event => re_fd event.1 =? controlFd) readyEvents)
     (lift (ri_drain i);; ProcessControlRequests o);;
   serve_events readyEvents (ri_after i)) s.
Proof. done. Qed.

Lemma todo_control s s' : control_state s' = control_state s -> reactor_todo s' -> reactor_todo s.
Proof. unfold control_state, control, reactor_todo. by intros [= -> -> -> ->]. Qed.

Lemma publish_state (m : M Reactor unit) st s s' : (m;; PublishState st) s = (Ret tt, s') -> m_state s' = st.
Proof. intros ([] & s1 & _ & H)%bind_ret_inv. by injection H as <-. Qed.

(** After a graceful shutdown has begun the reactor does not run. *)
Lemma begin_not_running deadline s s' :
  BeginGracefulShutdown o deadline s = (Ret tt, s') -> control s' = control s /\ m_state s' <> Running.
Proof.
  unfold BeginGracefulShutdown. intros (state & s1 & [= <- <-] & H)%bind_ret_inv.
  case_bool_decide as Hrun; cbn [negb] in H; [|by injection H as <-].
  apply bind_ret_inv in H as ([] & s1 & [= <-] & H). apply bind_ret_inv in H as ([] & s2 & Hpub & H).
  assert (control_state s2 = (control s, Draining)) as H2 by (by injection Hpub as <-).
  apply bind_ret_inv in H as (fds & s3 & [= <- <-] & H). apply bind_ret_inv in H as ([] & s3 & H3 & H).
  apply (keeps_ret_inv control_state) in H3; [|by apply keeps_for_each; intros; apply keeps_on_client].
  apply bind_ret_inv in H as ([] & s4 & H4 & H). apply (keeps_ret_inv control_state) in H4; [|apply keeps_cleanup].
  rewrite H3, H2 in H4. 
  assert (control s4 = control s) as Hc4 by exact (f_equal fst H4).
  assert (m_state s4 = Draining) as Hst4 by exact (f_equal snd H4).
  apply bind_ret_inv in H as (clients & s5 & [= <- <-] & H).
  case_bool_decide; cbn [when] in H; injection H as <-; (split; [exact Hc4|]); [done|congruence].
Qed.

#[export] Instance reactor_loop_laws : ControlLoopLaws Reactor.
Proof.
  split.
  - intros s s' Hp. inversion Hp as [fd b ? ? He| |]; subst. apply todo_control. destruct fd as [cfd|].
    + unfold EnqueClient in He. apply bind_ret_inv in He as (x & s1 & [= <- <-] & He). cbn [id] in He.
      destruct (m_stopRequested s || m_forceStopRequested s); [by injection He as <-|done].
    + by injection He as <-.
  - intros s s' Hp. cbn in Hp. unfold ProcessControlRequests in Hp.
    apply bind_ret_inv in Hp as (x & s1 & [= <- <-] & Hp). cbn [id] in Hp.
    apply bind_ret_inv in Hp as ([] & s1 & [= <-] & Hp). intros [Hns Htodo]. revert Hp Htodo.
    destruct (m_forceStopRequested s) eqn:Hf; [|destruct (m_stopRequested s) eqn:Hs].
    + intros Hp _. apply bind_ret_inv in Hp as ([] & s2 & _ & Hp). by apply publish_state in Hp.
    + intros ([] & s2 & H2 & Hp)%bind_ret_inv Htodo.
      apply (keeps_ret_inv control_state) in H2; [|by apply keeps_for_each].
      apply begin_not_running in Hp as [Hc Hr]. unfold control_state, control in *. cbn in H2.
      injection H2 as H2p H2s H2f _. rewrite H2p, H2s, H2f in Hc. injection Hc as Hcp Hcs Hcf.
      destruct Htodo as [?|[?|[_ ?]]]; congruence.
    + intros Hp Htodo. apply (keeps_ret_inv control_state) in Hp.
      2: { apply keeps_for_each. intros. apply keeps_try_catch; [apply keeps_add|done]. }
      unfold control_state, control in Hp. cbn in Hp. injection Hp as Hcp Hcs Hcf _.
      destruct Htodo as [?|[?|[? _]]]; congruence.
  - intros s s' (events & after & Hs) [Hns Htodo]. unfold serve_events in Hs.
    apply bind_ret_inv in Hs as (state & s1 & [= <- <-] & Hs). case_bool_decide as Hst.
    { by injection Hs as <-. }
    apply bind_ret_inv in Hs as ([] & s1 & H1 & Hs). apply (keeps_ret_inv control_state) in H1.
    2: { apply keeps_for_each. intros. apply keeps_handle_event. }
    apply bind_ret_inv in Hs as ([] & s2 & H2 & Hs). apply (keeps_ret_inv control_state) in H2; [|apply keeps_cleanup].
    rewrite H1 in H2. apply (todo_control s s2 H2). revert Hs. unfold CheckShutdownProgress.
    intros (state & s3 & [= <- <-] & Hs)%bind_ret_inv.
    case_bool_decide as Hdr; cbn [negb] in Hs; [|by injection Hs as <-].
    apply bind_ret_inv in Hs as (clients & s3 & [= <- <-] & Hs). case_bool_decide.
    { injection Hs as <-. done. }
    apply bind_ret_inv in Hs as (d & s3 & [= <- <-] & Hs).
    destruct (_ <=? after); cbn [when] in Hs; [|by injection Hs as <-]. by apply publish_state in Hs.
Qed.

Context {K : Type} `{!PosixConstants, !Posix K, !PosixLaws K}.
Context (strerror : Z -> string).

(** C34. No wake-up is lost: however the calls of other threads ([EnqueClient],
    [Stop], [ForceStop], each followed by the writes of its [Notify]), the reads
    of [Drain], the processing of requests and the handling of events
    interleave, with interruptions and a full channel, whenever a request is
    waiting, no thread is inside [Notify] and the loop is about to wait, the
    channel is readable, so that the wait returns at once. *)
Theorem no_lost_wakeup c (w w' : world Reactor K) :
  Watched c w -> rtc (wstep strerror c) w w' ->
  reactor_todo (w_loop w') -> w_notifiers w' = 0%nat -> w_round w' = [] ->
  0 < unread c (w_kernel w').
Proof.
  intros Hw Hr Htodo Hn Hround. destruct (reachable_watched strerror c w w' Hw Hr) as [_ _ Hcov].
  destruct (Hcov Htodo) as [?|[?|Hin]]; [done|lia|]. rewrite Hround in Hin. by inversion Hin.
Qed.
End reactor.

(** ** A client handed over while the loop waits *)

Definition waiting_world : world ExampleReactor sim :=
  mkWorld (example_reactor Running ∅ ∅) (example_kernel [4]) 0 [].

(** Another thread hands over client 7; its write is interrupted once. *)
Definition handed_over : ExampleReactor := (EnqueClient (Some 7) (example_reactor Running ∅ ∅)).2.
Definition interrupted : sim := (Notify_body example_channel (example_kernel [4])).2.
Definition notified : sim := (Notify_body example_channel interrupted).2.

#[local] Instance example_loop : ControlLoop ExampleReactor := reactor_loop NetworkOptions_default 3.

Lemma waiting_world_watched : Watched example_channel waiting_world.
Proof.
  split; cbn; [exists 0; apply example_channel_ok|left; by exists control_round; rewrite app_nil_r|].
  intros [_ [?|[?|[? _]]]]; done.
Qed.

Lemma no_lost_wakeup_witness :
  0 < unread example_channel notified.
Proof.
  apply (no_lost_wakeup NetworkOptions_default 3 no_strerror example_channel waiting_world
           (mkWorld handed_over notified 0 [])).
  - apply waiting_world_watched.
  - eapply rtc_l; [apply (ws_post _ _ _ handed_over true); apply (post_enqueue (Some 7)); reflexivity|].
    eapply rtc_l; [apply (ws_notify _ _ _ _ interrupted Continue); vm_compute; reflexivity|].
    eapply rtc_l; [apply (ws_notify _ _ _ _ notified Break); vm_compute; reflexivity|].
    apply rtc_refl.
  - split; [discriminate|]. left. discriminate.
  - reflexivity.
  - reflexivity.
Defined.
