(* ===== verification/SignalHandler.v ===== *)
(** * TerminationSignalHandler: signals become notifications (net/wakeup/termination_signal_handler.cpp)

    The state is the process's: the global [G_NOTIFY_FD] and the disposition of
    each signal. Whether a call of [sigemptyset] or [sigaction] fails is
    scripted in the state; a failing call changes nothing, as documented. *)

From S2P Require Import Prelude Posix ScopedFd SocketUtil WakeupChannel.
#[local] Open Scope Z_scope.

Inductive signal := SIGINT | SIGTERM | SIGPIPE | SIG_other (n : Z).
#[export] Instance signal_eq_dec : EqDecision signal.
Proof. solve_decision. Defined.

Inductive sig_handler := SIG_DFL | SIG_IGN | HandleTermination | OtherHandler (n : Z).

Record sigaction_t := mkSigaction {
  sa_handler : sig_handler;
  sa_flags : Z;
  sa_mask : list signal;
}.

(** [struct sigaction action {};] *)
Definition sigaction_zero : sigaction_t := mkSigaction SIG_DFL 0 [].
#[export] Instance sigaction_settable : Settable sigaction_t := fun a =>
  mkSigaction (sa_handler a) (sa_flags a) (sa_mask a).

Record process := mkProcess {
  G_NOTIFY_FD : Z;
  ps_disposition : signal -> sigaction_t;
  (** the results of the calls to come, [Some e] for a failure; success when
      none is left *)
  ps_script : list (option Z);
}.
#[export] Instance process_settable : Settable process := fun p =>
  mkProcess (G_NOTIFY_FD p) (ps_disposition p) (ps_script p).

Record TerminationSignalHandler := mkTerminationSignalHandler {
  m_previousSigint : sigaction_t;
  m_previousSigterm : sigaction_t;
  m_previousSigpipe : sigaction_t;
  m_installed : bool;
}.

Section SignalHandler.
Context (strerror : Z -> string).

(** The result of the next call. *)
Definition next_result : M process (result unit) :=
  script ← gets ps_script;
  match script with
  | [] => mret (inl tt)
  | e :: script =>
      modify (fun p => p <| ps_script := script |>);;
      mret (match e with None => inl tt | Some e => inr e end)
  end.

(** [sigaction(sig, &act, &oldact)] *)
Definition sigaction (sig : signal) (act : sigaction_t) : M process (result sigaction_t) :=
  r ← next_result;
  match r with
  | inr e => mret (inr e)
  | inl _ =>
      old ← gets (fun p => ps_disposition p sig);
      modify (fun p => p <| ps_disposition := fun s => if decide (s = sig) then act else ps_disposition p s |>);;
      mret (inl old)
  end.

(** Both [Make...Action] functions, up to the handler. *)
Definition make_action (h : sig_handler) : M process sigaction_t :=
  let action := sigaction_zero <| sa_handler := h |> <| sa_flags := 0 |> in
  r ← next_result;
  match r with
  | inl _ => mret (action <| sa_mask := [] |>)
  | inr e => throw (runtime_error (ErrorMessage strerror "sigemptyset failed" e))
  end.

Definition MakeTerminationAction : M process sigaction_t := make_action HandleTermination.
Definition MakeIgnoreAction : M process sigaction_t := make_action SIG_IGN.

Definition set_notify (fd : Z) : M process unit := modify (fun p => p <| G_NOTIFY_FD := fd |>).

Definition TerminationSignalHandler_new (notifyFd : Z) : M process TerminationSignalHandler :=
  if notifyFd <? 0 then throw (invalid_argument "termination notify fd must be valid") else
  g ← gets G_NOTIFY_FD;
  if 0 <? g then throw (logic_error "termination signal handler already installed") else
  set_notify notifyFd;;
  terminationAction ← MakeTerminationAction;
  ignoreAction ← MakeIgnoreAction;
  previousSigint ← sigaction SIGINT terminationAction;
  match previousSigint with
  | inr e =>
      set_notify (-1);;
      throw (runtime_error (ErrorMessage strerror "sigaction SIGINT failed" e))
  | inl previousSigint =>
  previousSigterm ← sigaction SIGTERM terminationAction;
  match previousSigterm with
  | inr e =>
      sigaction SIGINT previousSigint;;
      set_notify (-1);;
      throw (runtime_error (ErrorMessage strerror "sigaction SIGTERM failed" e))
  | inl previousSigterm =>
  previousSigpipe ← sigaction SIGPIPE ignoreAction;
  match previousSigpipe with
  | inr e =>
      sigaction SIGINT previousSigint;;
      sigaction SIGTERM previousSigterm;;
      set_notify (-1);;
      throw (runtime_error (ErrorMessage strerror "sigaction SIGTERM failed" e))
  | inl previousSigpipe =>
      mret (mkTerminationSignalHandler previousSigint previousSigterm previousSigpipe true)
  end end end.

(** The destructor. *)
Definition TerminationSignalHandler_destroy (h : TerminationSignalHandler) : M process unit :=
  if negb (m_installed h) then mret tt else
  sigaction SIGINT (m_previousSigint h);;
  sigaction SIGTERM (m_previousSigterm h);;
  sigaction SIGPIPE (m_previousSigpipe h);;
  set_notify (-1).

(** What installation makes of the dispositions. *)
Definition installed (d : signal -> sigaction_t) : signal -> sigaction_t := fun s =>
  match s with
  | SIGINT | SIGTERM => mkSigaction HandleTermination 0 []
  | SIGPIPE => mkSigaction SIG_IGN 0 []
  | SIG_other _ => d s
  end.

Definition same_dispositions (d d' : signal -> sigaction_t) : Prop := forall s, d s = d' s.

Lemma install_ok fd d :
  0 <= fd ->
  exists h p, TerminationSignalHandler_new fd (mkProcess (-1) d []) = (Ret h, p) /\
    G_NOTIFY_FD p = fd /\ same_dispositions (ps_disposition p) (installed d) /\
    exists p', TerminationSignalHandler_destroy h p = (Ret tt, p') /\
      G_NOTIFY_FD p' = -1 /\ same_dispositions (ps_disposition p') d.
Proof.
  intros Hfd. unfold TerminationSignalHandler_new. replace (fd <? 0) with false by lia. do 2 eexists.
  split; [reflexivity|]. split; [done|]. split; [by intros []|].
  eexists. split; [reflexivity|]. split; [done|]. by intros [].
Qed.

Lemma install_fails fd d n e :
  0 <= fd -> (n < 5)%nat ->
  exists what p, TerminationSignalHandler_new fd (mkProcess (-1) d (replicate n None ++ [Some e]))
      = (Fail (Throw (runtime_error what)), p) /\
    same_dispositions (ps_disposition p) d /\
    G_NOTIFY_FD p = if (n <? 2)%nat then fd else -1.
Proof.
  intros Hfd Hn. unfold TerminationSignalHandler_new. replace (fd <? 0) with false by lia.
  do 5 (destruct n as [|n]; [do 2 eexists; split; [reflexivity|split; [by intros []|done]]|]). lia.
Qed.

(** C35. The life of the handler: when no call fails, construction redirects
    SIGINT and SIGTERM to the handler, ignores SIGPIPE, leaves the other
    signals alone and keeps the descriptor; a second construction is refused
    without effect unless the descriptor is 0; and destruction restores every
    disposition and frees the place. When one call of the constructor fails,
    it throws and every disposition is as before; the place is free again
    unless the failing call was [sigemptyset]. *)
Theorem signal_handler_lifecycle fd d :
  0 <= fd ->
  (exists h p, TerminationSignalHandler_new fd (mkProcess (-1) d []) = (Ret h, p) /\
     G_NOTIFY_FD p = fd /\ same_dispositions (ps_disposition p) (installed d) /\
     (forall fd', 0 <= fd' -> 0 < fd ->
        TerminationSignalHandler_new fd' p
        = (Fail (Throw (logic_error "termination signal handler already installed")), p)) /\
     exists p', TerminationSignalHandler_destroy h p = (Ret tt, p') /\
       G_NOTIFY_FD p' = -1 /\ same_dispositions (ps_disposition p') d) /\
  (forall n e, (n < 5)%nat ->
     exists what p, TerminationSignalHandler_new fd (mkProcess (-1) d (replicate n None ++ [Some e]))
       = (Fail (Throw (runtime_error what)), p) /\
       same_dispositions (ps_disposition p) d /\
       G_NOTIFY_FD p = if (n <? 2)%nat then fd else -1).
Proof.
  intros Hfd. split; [|intros n e Hn; by apply install_fails].
  destruct (install_ok fd d Hfd) as (h & p & Hnew & Hg & Hd & Hdestroy). exists h, p.
  split; [done|]. split; [done|]. split; [done|]. split; [|done].
  intros fd' Hfd' Hpos. unfold TerminationSignalHandler_new. replace (fd' <? 0) with false by lia.
  cbv [mbind M_bind gets]. rewrite Hg. by replace (0 <? fd) with true by lia.
Qed.
End SignalHandler.

Lemma signal_handler_lifecycle_witness :
  exists h p, TerminationSignalHandler_new no_strerror 4 (mkProcess (-1) (fun _ => sigaction_zero) []) = (Ret h, p) /\
    G_NOTIFY_FD p = 4 /\ sa_handler (ps_disposition p SIGTERM) = HandleTermination.
Proof.
  destruct (signal_handler_lifecycle no_strerror 4 (fun _ => sigaction_zero)) as [(h & p & Hnew & Hg & Hd & _) _].
  - lia.
  - exists h, p. split; [exact Hnew|]. split; [exact Hg|]. rewrite (Hd SIGTERM). reflexivity.
Defined.

(** With notification descriptor 0 a second handler is not refused, and the
    destruction of the second leaves the first without its descriptor. *)
Lemma second_handler_accepted :
  exists h1 p1 h2 p2 p3,
    TerminationSignalHandler_new no_strerror 0 (mkProcess (-1) (fun _ => sigaction_zero) []) = (Ret h1, p1) /\
    TerminationSignalHandler_new no_strerror 5 p1 = (Ret h2, p2) /\
    TerminationSignalHandler_destroy h2 p2 = (Ret tt, p3) /\
    G_NOTIFY_FD p3 = -1 /\ sa_handler (ps_disposition p3 SIGTERM) = HandleTermination.
Proof. do 5 eexists. split_and!; reflexivity. Qed.

(** After a failing [sigemptyset] no other handler can be installed. *)
Lemma failed_installation_blocks :
  let p := (TerminationSignalHandler_new no_strerror 4 (mkProcess (-1) (fun _ => sigaction_zero) [Some 22])).2 in
  (TerminationSignalHandler_new no_strerror 4 p).1
  = Fail (Throw (logic_error "termination signal handler already installed")).
Proof. reflexivity. Qed.

(** ** The handler *)

Section handler.
Context {K : Type} `{!PosixConstants, !Posix K}.

(** [HandleTerminationSignal], with [errno] beside the kernel; a failing call
    sets it. *)
Definition HandleTerminationSignal (p : process) : M (K * Z) unit :=
  savedErrno ← gets snd;
  let notifyFd := G_NOTIFY_FD p in
  (if 0 <=? notifyFd then
     ignored ← zoom fst (call (sys_write notifyFd [byte_of 1]));
     match ignored with
     | inl _ => mret tt
     | inr e => modify (fun st => st <| snd := e |>)
     end
   else mret tt);;
  modify (fun st => st <| snd := savedErrno |>).

Context `{!PosixLaws K}.

(** The handler never fails and leaves [errno] alone; on the write end of a
    channel it leaves an unread byte, unless its one write was interrupted. *)
Lemma HandleTerminationSignal_ok p c n k errno :
  G_NOTIFY_FD p = m_writeFd c -> 0 <= m_writeFd c -> Channel c (kview k) n ->
  exists k' n', HandleTerminationSignal p (k, errno) = (Ret tt, (k', errno)) /\ Channel c (kview k') n' /\
    (0 < n' \/ (interrupts k' < interrupts k)%nat).
Proof.
  intros Hg Hw HC. pose proof HC as [Hp Hu Hr Hwr Hn].
  unfold HandleTerminationSignal, mbind, M_bind, gets, zoom, call, modify. cbn [fst snd].
  rewrite Hg. replace (0 <=? m_writeFd c) with true by lia. cbn [fst].
  destruct (sys_write (m_writeFd c) [byte_of 1] k) as [r k'] eqn:Hs.
  apply (write_law k _ (m_readFd c) n) in Hs; [|done..]. destruct r as [count|e].
  - destruct Hs as [-> Hv]. exists k', (n + 1). rewrite Hv.
    split_and!; [done|eapply Channel_unread; [done|lia]|left; lia].
  - destruct Hs as [Hv He]. exists k', n. rewrite Hv. split_and!; [done|done|].
    destruct He as [[_ ?]|[_ ?]]; [by right|by left].
Qed.
End handler.
