(* ===== verification/PollerFactory.v ===== *)
(** * Making and destroying pollers (net/poll/poller_factory.cpp, epoll_poller.cpp)

    The reactors get a poller from the factory and own it through a
    [unique_ptr]. What they rely on is a class: a new poller watches nothing,
    holds descriptors nobody had, keeps them whatever it is told to watch, and
    gives them back when it is destroyed. [AnyPoller] is the implementation,
    one of the two back ends, as [PollerFactory::CreatePoller] chooses it. *)

From S2P Require Import Prelude Poller PollerTheorems Posix.
From stdpp Require Import sets gmap.
#[local] Open Scope Z_scope.

(** The descriptors [fds] are new ones. *)
Definition new_fds (fds : list Z) (v : kernel_view) : Prop :=
  NoDup fds /\ Forall (fun fd => 0 <= fd /\ fd ∉ kv_open v) fds.

(** [p] is a new poller with the descriptors [fds]; [v] and [v'] are before and
    after. *)
Record new_poller {P} `{!Poller P, !PollerLaws P} (fds : list Z) (v v' : kernel_view) (p : P) : Prop := {
  np_ok : poller_ok p;
  np_registered : registered p = ∅;
  np_fresh : new_fds fds v;
  np_open : kv_open v' = list_to_set fds ∪ kv_open v;
  np_grows : grows v v';
}.

(** An exception, and no descriptor more or less. *)
Definition nothing_new (v : kernel_view) (f : failure) (v' : kernel_view) : Prop :=
  kv_open v' = kv_open v /\ exists e, f = Throw e.

Class PollerFactory (K P : Type) := {
  factory_create : PollerBackend -> M K P;
  (** the destructor *)
  factory_destroy : P -> M K unit;
  (** the descriptors it owns *)
  poller_fds : P -> list Z;
}.

Class PollerFactoryLaws (K P : Type) `{!PosixConstants, !Posix K, !PosixLaws K, !Poller P, !PollerLaws P, !PollerFactory K P} := {
  create_law b k :
    wp (factory_create b) (fun p k' => new_poller (poller_fds p) (kview k) (kview k') p)
      (fun f k' => nothing_new (kview k) f (kview k')) k;
  destroy_law p k :
    wp (factory_destroy p)
       (fun _ k' => kv_open (kview k') = kv_open (kview k) ∖ list_to_set (poller_fds p)) no_fail k;
  add_fds fd i : keeps poller_fds (poller_Add fd i);
  modity_fds fd i : keeps poller_fds (poller_Modity fd i);
  remove_fds fd : keeps poller_fds (poller_Remove fd);
}.

(** ** The two back ends *)

Section any_poller.
Context {K : Type} `{!PosixConstants, !Posix K}.
(** The kernel's epoll objects, and a new one. *)
Context {E : Type} (epoll_ctl : epoll_op -> Z -> Z -> E -> option Z * E) (epoll_new : E).
Context (EPOLLIN EPOLLOUT EPOLLRDHUP : Z).
(** whether [__linux__] is defined *)
Context (linux : bool).

(** An [EpollPoller] comes with its [m_epollFd]. *)
Inductive AnyPoller :=
  | APoll (p : PollPoller)
  | AEpoll (p : EpollPoller (K := E)) (m_epollFd : Z).

#[local] Instance epoll_back_end : Poller (EpollPoller (K := E)) :=
  EpollPoller_poller epoll_ctl EPOLLIN EPOLLOUT EPOLLRDHUP.

(** A virtual call. *)
Definition on_back_end {A} (poll : M PollPoller A) (epoll : M (EpollPoller (K := E)) A) : M AnyPoller A :=
  fun a =>
    match a with
    | APoll p => let '(r, p') := poll p in (r, APoll p')
    | AEpoll p fd => let '(r, p') := epoll p in (r, AEpoll p' fd)
    end.

#[export] Instance AnyPoller_poller : Poller AnyPoller := {
  poller_Add fd i := on_back_end (poller_Add fd i) (poller_Add fd i);
  poller_Modity fd i := on_back_end (poller_Modity fd i) (poller_Modity fd i);
  poller_Remove fd := on_back_end (poller_Remove fd) (poller_Remove fd);
}.

(** The constructor of [EpollPoller], with the system call. *)
Definition EpollPoller_new : M K AnyPoller :=
  epollFd ← call sys_epoll_create1;
  p ← lift (EpollPoller_init (match epollFd with inl _ => Some epoll_new | inr _ => None end));
  mret (AEpoll p (match epollFd with inl fd => fd | inr _ => -1 end)).

Definition CreatePoller_in (backend : PollerBackend) : M K AnyPoller :=
  kind ← lift (CreatePoller linux backend);
  match kind with
  | KindPoll => mret (APoll PollPoller_init)
  | KindEpoll => EpollPoller_new
  end.

Definition DestroyPoller (a : AnyPoller) : M K unit :=
  match a with
  | APoll _ => mret tt
  | AEpoll _ fd => call (sys_close fd);; mret tt
  end.

#[export] Instance AnyPoller_factory : PollerFactory K AnyPoller := {
  factory_create := CreatePoller_in;
  factory_destroy := DestroyPoller;
  poller_fds a := match a with APoll _ => [] | AEpoll _ fd => [fd] end;
}.

(** ** The laws *)

Context (interest_list : E -> gmap Z Z).
Hypothesis Hctl : ctl_documented epoll_ctl interest_list.
Hypothesis Hnew : interest_list epoll_new = ∅.

#[local] Instance epoll_back_end_laws : PollerLaws (EpollPoller (K := E)) :=
  EpollPoller_laws epoll_ctl EPOLLIN EPOLLOUT EPOLLRDHUP interest_list Hctl.

#[export] Program Instance AnyPoller_laws : PollerLaws AnyPoller := {
  registered a := match a with APoll p => registered p | AEpoll p _ => registered p end;
  poller_ok a := match a with APoll p => poller_ok p | AEpoll p _ => poller_ok p end;
}.
Next Obligation.
  intros fd i [p|p efd] Hok; unfold wp, poller_Add; cbn -[poller_Add registered poller_ok]; unfold on_back_end;
    pose proof (add_law fd i p Hok) as Hlaw; unfold wp in Hlaw; by destruct (poller_Add fd i p) as [[[]|f] p'].
Qed.
Next Obligation.
  intros fd i [p|p efd] Hok; unfold wp, poller_Modity; cbn -[poller_Modity registered poller_ok]; unfold on_back_end;
    pose proof (modity_law fd i p Hok) as Hlaw; unfold wp in Hlaw; by destruct (poller_Modity fd i p) as [[[]|f] p'].
Qed.
Next Obligation.
  intros fd [p|p efd] Hok; unfold wp, poller_Remove; cbn -[poller_Remove registered poller_ok]; unfold on_back_end;
    pose proof (remove_law fd p Hok) as Hlaw; unfold wp in Hlaw; by destruct (poller_Remove fd p) as [[[]|f] p'].
Qed.

Context `{!PosixLaws K}.

Lemma keeps_back_end {A} (poll : M PollPoller A) (epoll : M (EpollPoller (K := E)) A) :
  keeps (poller_fds (K := K)) (on_back_end poll epoll).
Proof. intros [p|p efd]; unfold on_back_end; [by destruct (poll p)|by destruct (epoll p)]. Qed.

(** The constructors of both back ends. *)
Definition makes_poller (m : M K AnyPoller) k : Prop :=
  wp m (fun p k' => new_poller (poller_fds (K := K) p) (kview k) (kview k') p)
    (fun f k' => nothing_new (kview k) f (kview k')) k.

Lemma make_poll k : makes_poller (mret (APoll PollPoller_init)) k.
Proof.
  apply wp_ret. split; try done; [|cbn; by rewrite union_empty_l_L]. split; [by apply NoDup_nil|by apply Forall_nil].
Qed.

Lemma make_epoll k : makes_poller EpollPoller_new k.
Proof.
  unfold EpollPoller_new. apply wp_bind. unfold wp at 1, call.
  destruct (sys_epoll_create1 k) as [r k1] eqn:Hr. apply epoll_create1_law in Hr.
  apply wp_bind. unfold wp at 1, lift. destruct r as [fd|e]; cbn [EpollPoller_init].
  - destruct Hr as (Hfd & Hnot & Hv). apply wp_ret. rewrite Hv. split; try done.
    + split; [by apply NoDup_singleton|by apply Forall_singleton].
    + cbn. by rewrite union_empty_r_L.
    + split; cbn; [set_solver..|done].
  - rewrite Hr. split; [done|by eexists].
Qed.

Lemma create_poller_law b k : makes_poller (CreatePoller_in b) k.
Proof.
  unfold makes_poller, CreatePoller_in. apply wp_bind. unfold wp at 1, lift.
  pose proof (make_poll k). pose proof (make_epoll k).
  destruct b, linux; cbn; try done. split; [done|by eexists].
Qed.

#[export] Program Instance AnyPoller_factory_laws : PollerFactoryLaws K AnyPoller := {
  create_law := create_poller_law;
}.
Next Obligation.
  intros [p|p fd] k; cbn.
  - apply wp_ret. set_solver.
  - apply wp_bind. unfold wp at 1, call. destruct (sys_close fd k) as [r k'] eqn:Hr.
    pose proof (close_law k fd) as Hlaw. rewrite Hr in Hlaw. cbn in Hlaw. apply wp_ret. rewrite Hlaw.
    unfold view_close. cbn. set_solver.
Qed.
Next Obligation. intros fd i. apply keeps_back_end. Qed.
Next Obligation. intros fd i. apply keeps_back_end. Qed.
Next Obligation. intros fd. apply keeps_back_end. Qed.
End any_poller.
