(* ===== verification/ServerStart.v ===== *)
(** * The server as a process (net/tcp_server.cpp, net/sub_reactor.cpp)

    [TcpServer::Run]: the start (the poller, the listening socket, the
    sub-reactors with their wake-up channels, pollers and threads, the sweeper),
    the handler that undoes all of it when anything throws, the rounds of the
    main loop, and the end. The state is the kernel with the server object; a
    sub-reactor comes with the descriptors of its channel and its thread.

    The threads of the sub-reactors run beside the main thread. The two meet only
    when the main thread calls a sub-reactor, so every interleaving is one in
    which the thread goes through some rounds right before each of these calls;
    which rounds, is a schedule. *)

From S2P Require Import Prelude PriorityQueue KVStore ServerMetrics Poller SubReactor EventLoop TcpServer Posix ScopedFd SocketUtil WakeupChannel PollerFactory.
#[local] Open Scope Z_scope.

Section start.
Context {K : Type} `{!PosixConstants, !Posix K}.
Context {Q : Type} `{!PriorityQueue ExpirationRecord Q}.
Context {P : Type} `{!Poller P, !PollerFactory K P}.
Context (strerror : Z -> string).

(** ** State *)

(** A sub-reactor object: [sl_joinable] is [m_thread.joinable()]. The thread goes
    through the rounds at the head of [sl_rounds] before the next call of the
    main thread, and after the last one through [sl_last] too. *)
Record slot := mkSlot {
  sl_reactor : SubReactor Q P;
  m_controlWakeup : WakeupChannel;
  sl_options : NetworkOptions;
  sl_joinable : bool;
  sl_rounds : list (list round_input);
  sl_last : list round_input;
}.
#[export] Instance slot_settable : Settable slot := fun t =>
  {| sl_reactor := sl_reactor t; m_controlWakeup := m_controlWakeup t; sl_options := sl_options t;
     sl_joinable := sl_joinable t; sl_rounds := sl_rounds t; sl_last := sl_last t |}.

(** Rounds of the thread. *)
Definition thread_rounds (rounds : list round_input) : M slot unit :=
  fun t => zoom sl_reactor (run_steps (sl_options t) (m_readFd (m_controlWakeup t)) (StepRound <$> rounds)) t.

(** The main thread calls, the thread having run meanwhile. *)
Definition meeting {A} (m : M (SubReactor Q P) A) : M slot A :=
  t ← gets id;
  (match sl_rounds t with
   | rounds :: rest =>
       when (sl_joinable t) (modify (fun t => t <| sl_rounds := rest |>);; thread_rounds rounds)
   | [] => mret tt
   end);;
  zoom sl_reactor m.

(** The main thread reaches the reactor through the object. *)
#[export] Instance slot_control : ReactorControl slot := {
  ctl_EnqueClient fd := meeting (EnqueClient fd);
  ctl_Stop deadline := meeting (Stop deadline);
  ctl_ForceStop := meeting ForceStop;
  ctl_IsStopped := meeting IsStopped;
  ctl_HasFailed := meeting HasFailed;
}.

(** [pr_sweeping] is [m_sweeperRunning], with a joinable [m_sweepThread]. *)
Record server_process := mkServerProcess {
  pr_kernel : K;
  pr_server : TcpServer slot P;
  pr_sweeping : bool;
}.
#[export] Instance server_process_settable : Settable server_process := fun w =>
  {| pr_kernel := pr_kernel w; pr_server := pr_server w; pr_sweeping := pr_sweeping w |}.

(** The members of the server, as the constructor leaves them. *)
Context (m_host : bytes) (m_port : Z) (m_sweepInterval : Z).
Context (m_networkOptions : NetworkOptions) (m_reactorOptions : ReactorOptions).
Context (m_stopWakeup : WakeupChannel).

Definition TcpServer_init : TcpServer slot P :=
  {| t_state := Created; m_listenFd := None; t_poller := None; t_stopRequested := false;
     t_shutdownDeadline := 0; m_forceStopSent := false; m_subReactors := [];
     m_nextSubReactorIndex := 0; t_accepts := []; t_closes := [] |}.

(** The schedule of each sub-reactor's thread, given its control descriptor. *)
Context (schedule : nat -> Z -> list (list round_input)) (last : nat -> Z -> list round_input).

Definition in_kernel {A} (m : M K A) : M server_process A := zoom pr_kernel m.
Definition in_server {A} (m : M (TcpServer slot P) A) : M server_process A := zoom pr_server m.

(** A call on [*m_subReactors[i]] that makes system calls. *)
Definition on_slot {A} (i : nat) (m : M (K * slot) A) : M server_process A :=
  fun w =>
    match m_subReactors (pr_server w) !! i with
    | Some t =>
        let '(r, (k, t')) := m (pr_kernel w, t) in
        (r, w <| pr_kernel := k |> <| pr_server ::= fun s => s <| m_subReactors ::= <[i := t']> |> |>)
    | None => (Fail (Undefined "sub-reactor index"), w)
    end.

(** ** A sub-reactor *)

Definition in_reactor {A} (m : M (SubReactor Q P) A) : M (K * slot) A := zoom snd (zoom sl_reactor m).

(** The members; [m_store] is bound to the store of the server, which is empty
    when [Run] begins and reached by the other threads too ([tn_others]). *)
Definition SubReactor_init : SubReactor Q P :=
  {| m_state := Created; m_publishedState := Created; m_failed := false; m_stopRequested := false;
     m_forceStopRequested := false; m_requestedShutdownDeadline := 0; m_shutdownDeadline := 0;
     m_pendingClients := []; m_clients := ∅; m_poller := None; r_store := KVStore_init;
     r_metrics := ServerMetrics_init; r_closes := [] |}.

Definition SubReactor_new : M K slot :=
  c ← WakeupChannel_new strerror;
  mret (mkSlot SubReactor_init c m_networkOptions false [] []).

(** [m_poller.reset()] *)
Definition reset_poller : M (K * slot) unit :=
  p ← gets (fun st => m_poller (sl_reactor st.2));
  (match p with
   | Some p => zoom fst (factory_destroy p)
   | None => mret tt
   end);;
  in_reactor (modify (fun s => s <| m_poller := None |>)).

(** The handler of a failed thread creation; [e] is its error. *)
Definition SubReactor_Start_undo (controlFd e : Z) : M (K * slot) unit :=
  in_reactor (PublishState Created);;
  try_catch (in_reactor (on_poller (poller_Remove controlFd))) (fun _ => mret tt);;
  reset_poller;;
  throw (runtime_error (strerror e)).

(** The new thread has the given schedule. *)
Definition SubReactor_Start (schedule : Z -> list (list round_input)) (last : Z -> list round_input) :
    M (K * slot) unit :=
  state ← gets (fun st => m_publishedState (sl_reactor st.2));
  if negb (bool_decide (state = Created)) then throw (logic_error "Sub-reactor can only run once!") else
  poller ← zoom fst (factory_create (pollerBackend m_reactorOptions));
  in_reactor (modify (fun s => s <| m_poller := Some poller |>));;
  controlFd ← gets (fun st => m_readFd (m_controlWakeup st.2));
  in_reactor (on_poller (poller_Add controlFd IoEvent_Read));;
  in_reactor (PublishState Running);;
  m_thread ← zoom fst (call sys_thread_create);
  match m_thread with
  | inl _ =>
      modify (fun st => st <| snd ::= fun t =>
        t <| sl_joinable := true |> <| sl_rounds := schedule controlFd |> <| sl_last := last controlFd |> |>)
  | inr e => SubReactor_Start_undo controlFd e
  end.

(** The caller waits for the end of the thread, which goes through the rounds it
    has left. *)
Definition SubReactor_Join : M slot unit :=
  t ← gets id;
  if negb (sl_joinable t) then mret tt else
  thread_rounds (concat (sl_rounds t) ++ sl_last t);;
  state ← gets (fun t => m_state (sl_reactor t));
  if negb (bool_decide (state = Stopped)) then fail OutOfFuel else
  modify (fun t => t <| sl_joinable := false |> <| sl_rounds := [] |> <| sl_last := [] |>).

Definition close_all (fds : list Z) : M K unit := for_each fds (fun fd => call (sys_close fd);; mret tt).

(** The destructor: members in reverse order; a joinable thread is fatal. The
    descriptors of clients are recorded ([clients_closed]) as everywhere. *)
Definition SubReactor_destroy (t : slot) : M K unit :=
  let s := sl_reactor t in
  close_all [m_writeFd (m_controlWakeup t); m_readFd (m_controlWakeup t)];;
  (match m_poller s with Some p => factory_destroy p | None => mret tt end);;
  (if sl_joinable t then fail (Undefined "std::terminate") else mret tt).

(** The descriptors of clients that a sub-reactor has closed, at the latest when
    it is destroyed. *)
Definition clients_closed (t : slot) : list Z :=
  let s := sl_reactor t in m_pendingClients s ++ client_fds s ++ r_closes s.

(** ** Run, up to the loop *)

Definition Run_listen : M server_process unit :=
  poller ← in_kernel (factory_create (pollerBackend m_reactorOptions));
  in_server (modify (fun s => s <| t_poller := Some poller |>));;
  listenFd ← in_kernel (CreateListenSocket strerror m_host m_port 128);
  in_server (modify (fun s => s <| m_listenFd := Some listenFd |>));;
  in_kernel (SetNonBlocking strerror listenFd);;
  in_kernel (SetCloseOnExec strerror listenFd);;
  in_server (server_poller (poller_Add listenFd IoEvent_Read));;
  in_server (server_poller (poller_Add (m_readFd m_stopWakeup) IoEvent_Read)).

(** [m_subReactors.push_back(std::make_unique<SubReactor>(...))] *)
Definition push_reactor : M server_process unit :=
  t ← in_kernel SubReactor_new;
  in_server (modify (fun s => s <| m_subReactors ::= fun l => l ++ [t] |>)).

Definition Run_reactors : M server_process unit :=
  for_each (seq 0 (Z.to_nat (subReactorCount m_reactorOptions))) (fun _ => push_reactor);;
  n ← gets (fun w => length (m_subReactors (pr_server w)));
  for_each (seq 0 n) (fun i => on_slot i (SubReactor_Start (schedule i) (last i))).

Definition StartSweeper : M server_process unit :=
  if m_sweepInterval <=? 0 then mret tt else
  sweeping ← gets pr_sweeping;
  if (sweeping : bool) then throw (logic_error "sweeper thread already running") else
  sweepThread ← in_kernel (call sys_thread_create);
  match sweepThread with
  | inl _ => modify (fun w => w <| pr_sweeping := true |>)
  | inr e => throw (runtime_error (strerror e))
  end.

Definition Run_startup : M server_process unit :=
  Run_listen;;
  Run_reactors;;
  in_server (modify (fun s => s <| t_state := Running |>));;
  StartSweeper.

(** ** The end of Run *)

(** The outcome of [StopSweeperThread] as [Run] sees it: the thread has ended. The
    calls that bring it about (the flag under the lock, the notification, the
    join) are [SweeperThread.StopSweeperThread], and that they always come to an
    end is shown there of every interleaving with the thread. *)
Definition StopSweeper : M server_process unit := modify (fun w => w <| pr_sweeping := false |>).

Definition JoinSubReactors : M server_process unit :=
  in_server (for_reactors (fun i => try_catch (on_reactor i SubReactor_Join) (fun _ => mret tt))).

Definition ForceStopAndJoinSubReactors : M server_process unit :=
  in_server ForceStopSubReactors;; JoinSubReactors.

(** The [close] calls and destructors of [CleanupMainReactor]. *)
Definition destroy_members (s : TcpServer slot P) : M K unit :=
  close_all (match m_listenFd s with Some fd => [fd] | None => [] end);;
  (match t_poller s with Some p => factory_destroy p | None => mret tt end);;
  for_each (m_subReactors s) SubReactor_destroy.

Definition CleanupMainReactor_in : M server_process unit :=
  in_server (CleanupMainReactor_remove (m_readFd m_stopWakeup));;
  s ← gets pr_server;
  in_kernel (destroy_members s);;
  in_server (modify (fun s => s <| t_closes ::= app (concat (clients_closed <$> m_subReactors s)) |>));;
  in_server CleanupMainReactor_reset.

Definition Run_abort (e : exn) : M server_process unit :=
  StopSweeper;; ForceStopAndJoinSubReactors;; CleanupMainReactor_in;;
  in_server (modify (fun s => s <| t_state := Stopped |>));;
  throw e.

Definition Run_finish : M server_process unit :=
  StopSweeper;; JoinSubReactors;; CleanupMainReactor_in;;
  in_server (modify (fun s => s <| t_state := Stopped |>)).

(** ** The loop *)

(** [m_listenFd] was reset, which closes the descriptor. *)
Definition close_reset (before : option Z) : M server_process unit :=
  now ← gets (fun w => m_listenFd (pr_server w));
  match before, now with
  | Some fd, None => in_kernel (call (sys_close fd);; mret tt)
  | _, _ => mret tt
  end.

(** [m], and then [h] whether it returned or not. *)
Definition finally {S A} (m : M S A) (h : M S unit) : M S A :=
  fun s => let '(r, s1) := m s in (r, (h s1).2).

Definition main_round (shutdown : ShutdownOptions) (i : server_input) : M server_process unit :=
  before ← gets (fun w => m_listenFd (pr_server w));
  finally (in_server (Run_body m_networkOptions shutdown (m_readFd m_stopWakeup) i)) (close_reset before).

(** The [while], a round per input. *)
Fixpoint main_loop (shutdown : ShutdownOptions) (inputs : list server_input) : M server_process unit :=
  state ← gets (fun w => t_state (pr_server w));
  if bool_decide (state = Stopped) then mret tt else
  match inputs with
  | [] => fail OutOfFuel
  | i :: inputs => main_round shutdown i;; main_loop shutdown inputs
  end.

(** [TcpServer::Run] *)
Definition Run (shutdown : ShutdownOptions) (inputs : list server_input) : M server_process unit :=
  state ← gets (fun w => t_state (pr_server w));
  if negb (bool_decide (state = Created)) then throw (logic_error "TcpServer can only run once!") else
  try_catch (Run_startup;; main_loop shutdown inputs) Run_abort;;
  Run_finish.
End start.
