(* ===== verification/ServerSlots.v ===== *)
(** * Sub-reactors whose threads run

    A sub-reactor in the server meets the main thread only in its control calls,
    and its thread has gone through any number of rounds before each. It gives
    the main reactor the interface of [ReactorInterface]; and a thread that was
    told to stop at once, and is woken, ends. *)

From S2P Require Import Prelude PriorityQueue KVStore KVStoreInv KVStoreSpec ServerMetrics Poller SubReactor SubReactorInv SubReactorRequests EventLoop ReactorFrame ReactorEvents ReactorInv ReactorRounds ReactorTheorems TcpServer ReactorInterface Posix ScopedFd SocketUtil WakeupChannel PollerFactory ServerStart.
#[local] Open Scope Z_scope.

Section rounds.
Context {Q : Type} `{!PriorityQueue ExpirationRecord Q}
  `{!PriorityQueueLaws ExpirationRecord Q ExpirationCompare}.
Context {P : Type} `{!Poller P, !PollerLaws P}.
Context {X : Type} (F : P -> X).
Context (Hadd : forall fd i, keeps F (poller_Add fd i)).
Context (Hmodity : forall fd i, keeps F (poller_Modity fd i)).
Context (Hremove : forall fd, keeps F (poller_Remove fd)).
Context (o : NetworkOptions) (controlFd : Z).
Hypothesis Ho : options_ok o.
Implicit Types s : SubReactor Q P.

(** The poller reports the control descriptor. *)
Definition wakes (i : round_input) : Prop :=
  forall timeout, exists events, ri_wait i timeout = Ret events /\
    existsb (fun event => re_fd event.1 =? controlFd) events = true.

(** Its thread may go through the rounds [l]. *)
Definition may_run (l : list round_input) s : Prop :=
  exists n now, ReactorOK o n now s /\ history_ok o n now (StepRound <$> l).

(** What rounds do for those outside: requests stand, what is seen of the poller
    stays, descriptors are kept. *)
Record went_on s s' : Prop := mkWentOn {
  wo_moved : moved [] s s';
  wo_poller : F <$> m_poller s' = F <$> m_poller s;
}.

Lemma went_on_refl s : went_on s s.
Proof. split; [by apply moved_refl|done]. Qed.

Lemma went_on_trans s1 s2 s3 : went_on s1 s2 -> went_on s2 s3 -> went_on s1 s3.
Proof. intros [M1 E1] [M2 E2]. split; [by apply (moved_trans [] [] s1 s2)|congruence]. Qed.

Lemma one_round i l s :
  may_run (i :: l) s ->
  exists s', exec_step o controlFd (StepRound i) s = (Ret tt, s') /\ may_run l s' /\ went_on s s' /\
    step_effect o controlFd (StepRound i) s s'.
Proof.
  intros (n & now & HR & Hh). cbn [fmap list_fmap] in Hh.
  destruct (step_rule o controlFd Ho _ _ _ _ _ HR Hh) as (s' & n' & now' & Hrun & Heff & HR' & Hh').
  exists s'. split; [done|]. split; [by exists n', now'|]. split; [|done].
  pose proof (round_kept F Hadd Hmodity Hremove o controlFd i s) as [Hp Hfail]. rewrite Hrun in Hp, Hfail.
  split; [|exact Hp]. destruct Heff as [[_ ->]|(Hns & (n1 & hi & HI) & _)]; [by apply moved_refl|].
  destruct (in_goes _ _ _ _ _ _ _ HI) as [_ Hs Hf Hd _ _ _]. split.
  - split; [done| |exact Hfail]. cbn. rewrite !bool_decide_eq_true.
    rewrite (core_published _ _ _ _ (ro_core _ _ _ _ HR)). by intros Hst.
  - apply (in_owned _ _ _ _ _ _ _ HI).
  - cbn. by rewrite Hs, Hd.
  - exact Hf.
Qed.

Lemma some_rounds l more s :
  may_run (l ++ more) s ->
  exists s', run_steps o controlFd (StepRound <$> l) s = (Ret tt, s') /\ may_run more s' /\ went_on s s'.
Proof.
  revert s. induction l as [|i l IH]; intros s Hm.
  { exists s. split; [done|]. split; [done|apply went_on_refl]. }
  destruct (one_round i (l ++ more) s Hm) as (s1 & Hrun & Hm1 & Hw1 & _).
  destruct (IH s1 Hm1) as (s2 & Hrun2 & Hm2 & Hw2). exists s2. split; [|split; [done|by eapply went_on_trans]].
  unfold run_steps in *. cbn [fmap list_fmap for_each]. cbv [mbind M_bind]. by rewrite Hrun, Hrun2.
Qed.

(** A stopped reactor, and one that is told to stop at once and woken, has ended
    with its rounds. *)
Lemma last_rounds l s :
  may_run l s -> m_state s = Stopped \/ (m_forceStopRequested s = true /\ Exists wakes l) ->
  exists s', run_steps o controlFd (StepRound <$> l) s = (Ret tt, s') /\ m_state s' = Stopped /\
    may_run [] s' /\ went_on s s'.
Proof.
  revert s. induction l as [|i l IH]; intros s Hm Hend.
  { exists s. split; [done|]. split; [|split; [done|apply went_on_refl]].
    destruct Hend as [?|[_ Hw]]; [done|]. by apply Exists_nil in Hw. }
  destruct (one_round i l s Hm) as (s1 & Hrun & Hm1 & Hw1 & Heff).
  destruct (IH s1 Hm1) as (s2 & Hrun2 & Hst2 & Hm2 & Hw2).
  - cbn [step_effect] in Heff. destruct Heff as [[Hst ->]|(Hns & _ & Hob)]; [by left|].
    destruct Hend as [Hst|[Hf Hex]]; [done|]. apply Exists_cons in Hex as [Hwake|Hex].
    + left. destruct Hob as (_ & _ & Hob). apply (Hob (Hwake _) Hf).
    + right. split; [|done]. etrans; [apply (mv_forced _ _ _ (wo_moved _ _ Hw1))|exact Hf].
  - exists s2. split; [|split; [done|split; [done|by eapply went_on_trans]]].
    unfold run_steps in *. cbn [fmap list_fmap for_each]. cbv [mbind M_bind]. by rewrite Hrun, Hrun2.
Qed.
End rounds.

(** ** The objects *)

Section slots.
Context {Q : Type} `{!PriorityQueue ExpirationRecord Q}
  `{!PriorityQueueLaws ExpirationRecord Q ExpirationCompare}.
Context {P : Type} `{!Poller P, !PollerLaws P}.

Abbreviation Slot := (slot (Q := Q) (P := P)).
Implicit Types t : Slot.

(** The rounds its thread has still to go through. *)
Definition rounds_left t : list round_input := concat (sl_rounds t) ++ sl_last t.

(** A thread that was started may go through its rounds, and is woken once more
    when it is waited for. *)
Record thread_ok t : Prop := mkThreadOk {
  th_options : options_ok (sl_options t);
  th_run : may_run (sl_options t) (rounds_left t) (sl_reactor t);
  th_woken : Exists (wakes (m_readFd (m_controlWakeup t))) (sl_last t);
}.

#[export] Instance slot_view : ReactorView Slot := {
  rc_ok t := sl_joinable t = true -> thread_ok t;
  rc_stopped t := rc_stopped (sl_reactor t);
  rc_failed t := rc_failed (sl_reactor t);
  rc_asked t := rc_asked (sl_reactor t);
  rc_forced t := rc_forced (sl_reactor t);
  rc_given t := rc_given (sl_reactor t);
}.

(** What is left alone by everything the thread and the calls do. *)
Record same_object {X} (F : P -> X) t t' : Prop := mkSameObject {
  so_channel : m_controlWakeup t' = m_controlWakeup t;
  so_options : sl_options t' = sl_options t;
  so_joinable : sl_joinable t' = sl_joinable t;
  so_last : sl_last t' = sl_last t;
  so_poller : F <$> m_poller (sl_reactor t') = F <$> m_poller (sl_reactor t);
}.

#[export] Instance same_object_preorder {X} (F : P -> X) : PreOrder (same_object F).
Proof. split; [by split|]. intros t1 t2 t3 [] []. split; congruence. Qed.

(** A sub-reactor kept by the calls of a poller. *)
Class PollerKeeps {X} (F : P -> X) : Prop := {
  keeps_add fd i : keeps F (poller_Add fd i);
  keeps_modity fd i : keeps F (poller_Modity fd i);
  keeps_remove fd : keeps F (poller_Remove fd);
}.

#[export] Instance keeps_nothing : PollerKeeps (fun _ : P => tt).
Proof. by split. Qed.

(** Before a call the thread has moved on. *)
Lemma meeting_eq {X} (F : P -> X) `{!PollerKeeps F} {A} (m : M (SubReactor Q P) A) t :
  rc_ok t -> exists t1, meeting m t = zoom sl_reactor m t1 /\ moved [] t t1 /\ same_object F t t1.
Proof.
  intros Ht. unfold meeting. cbv [mbind M_bind gets id]. destruct (sl_rounds t) as [|rounds rest] eqn:Hr.
  { exists t. split; [done|]. split; [by apply moved_refl|done]. }
  destruct (sl_joinable t) eqn:Hj; cbn [when].
  2: { exists t. split; [done|]. split; [by apply moved_refl|done]. }
  destruct (Ht Hj) as [Ho Hm Hwk]. unfold rounds_left in Hm. rewrite Hr in Hm. cbn [concat] in Hm. rewrite <- app_assoc in Hm.
  destruct (some_rounds F keeps_add keeps_modity keeps_remove (sl_options t) (m_readFd (m_controlWakeup t)) Ho
    rounds _ _ Hm) as (s' & Hrun & Hm' & [Hmv Hp]).
  exists (t <| sl_rounds := rest |> <| sl_reactor := s' |>). split.
  { unfold modify, thread_rounds, zoom. cbv [mbind M_bind]. cbn. rewrite Hrun. done. }
  split; [|by split]. destruct Hmv as [[_ Hs Hf] Hg Ha Hfo]. split; [|exact Hg|exact Ha|exact Hfo].
  split; [|exact Hs|exact Hf]. intros _. by split.
Qed.

Lemma may_run_request o l s step :
  is_round step = false -> may_run o l s -> may_run o l (requests step s).
Proof. intros Hr (n & now & HR & Hh). exists n, now. split; [by apply request_ok|done]. Qed.

(** A call that makes a request, once the thread has been met. *)
Lemma call_request {A} (m : M (SubReactor Q P) A) step (a : SubReactor Q P -> A) t :
  is_round step = false -> (forall s, m s = (Ret (a s), requests step s)) -> rc_ok t ->
  exists t1, moved [] t t1 /\ same_object (fun _ => tt) t t1 /\
    meeting m t = (Ret (a (sl_reactor t1)), t1 <| sl_reactor ::= requests step |>) /\
    rc_ok (t1 <| sl_reactor ::= requests step |>).
Proof.
  intros Hr Hm Ht. destruct (meeting_eq (fun _ => tt) m t Ht) as (t1 & Heq & Hmv & Hso).
  exists t1. split; [done|]. split; [done|]. split.
  - rewrite Heq. unfold zoom. by rewrite Hm.
  - intros Hj. destruct (lo_ok _ _ (mv_lives _ _ _ Hmv) Hj) as [Ho Hrun Hwk]. split; [exact Ho| |exact Hwk].
    by apply may_run_request.
Qed.

(** A call that only looks. *)
Lemma call_look {A} (f : SubReactor Q P -> A) t :
  rc_ok t -> (meeting (gets f) t).1 = Ret (f (sl_reactor (meeting (gets f) t).2)) /\
    moved [] t (meeting (gets f) t).2.
Proof.
  intros Ht. destruct (meeting_eq (fun _ => tt) (gets f) t Ht) as (t1 & -> & Hmv & _).
  unfold zoom, gets. by destruct t1.
Qed.

Lemma enqueue_requests cfd s :
  EnqueClient (Some cfd) s
  = (Ret (negb (m_stopRequested s || m_forceStopRequested s)), requests (Q := Q) (P := P) (StepEnqueue cfd) s).
Proof.
  unfold EnqueClient, requests. cbv [mbind M_bind]. cbn.
  by destruct (m_stopRequested s || m_forceStopRequested s).
Qed.

Lemma stop_requests d s : Stop d s = (Ret tt, requests (Q := Q) (P := P) (StepStop d) s).
Proof. apply (request_eq (mkNetworkOptions 0 0 0 0 0 0) 0 (StepStop d) s). done. Qed.

Lemma force_requests s : ForceStop s = (Ret tt, requests (Q := Q) (P := P) StepForceStop s).
Proof. done. Qed.

#[export] Program Instance slot_laws : ReactorControlLaws Slot := {}.
Next Obligation.
  intros cfd t Ht.
  destruct (call_request (EnqueClient (Some cfd)) (StepEnqueue cfd) _ t eq_refl (enqueue_requests cfd) Ht)
    as (t1 & Hmv & _ & Heq & Hok).
  change (ctl_EnqueClient (Some cfd) t) with (meeting (EnqueClient (Some cfd)) t). rewrite Heq. cbn [fst snd].
  assert (rc_ok (sl_reactor t1)) as Hrc by exact I.
  destruct (enqueue_law cfd (sl_reactor t1) Hrc) as [Hr1 Hmv1]. change (ctl_EnqueClient (Some cfd) (sl_reactor t1)) with (EnqueClient (Some cfd) (sl_reactor t1)) in Hr1, Hmv1.
  rewrite enqueue_requests in Hr1, Hmv1. cbn [fst snd] in Hr1, Hmv1. split.
  - rewrite Hr1. change (Ret (bool_decide (rc_asked t1 = None) && negb (rc_forced t1))
      = Ret (bool_decide (rc_asked t = None) && negb (rc_forced t)) :> outcome bool).
    by rewrite (mv_asked _ _ _ Hmv), (mv_forced _ _ _ Hmv).
  - apply (moved_trans [] [cfd] t t1); [exact Hmv|]. destruct Hmv1 as [[_ H1 H2] H3 H4 H5].
    split; [|exact H3|exact H4|exact H5]. split; [exact Hok|exact H1|exact H2].
Qed.
Next Obligation.
  intros d t Ht.
  destruct (call_request (Stop d) (StepStop d) (fun _ => tt) t eq_refl (stop_requests d) Ht)
    as (t1 & [Hl Hg Ha Hf] & _ & Heq & Hok).
  change (ctl_Stop d t) with (meeting (Stop d) t). rewrite Heq. cbn [fst snd]. split; [done|].
  assert (rc_ok (sl_reactor t1)) as Hrc by exact I.
  destruct (stop_law d (sl_reactor t1) Hrc) as [_ (Hl1 & Ha1 & Hg1 & Hf1)]. change (ctl_Stop d (sl_reactor t1)) with (Stop d (sl_reactor t1)) in Hl1, Ha1, Hg1, Hf1.
  rewrite stop_requests in Hl1, Ha1, Hg1, Hf1. cbn [fst snd] in Hl1, Ha1, Hg1, Hf1.
  split; [|split; [|split]].
  - eapply lives_on_trans; [exact Hl|]. destruct Hl1 as [_ H1 H2]. split; [exact Hok|exact H1|exact H2].
  - etrans; [exact Ha1|]. change (rc_asked (sl_reactor t1)) with (rc_asked t1). by rewrite Ha.
  - etrans; [exact Hg1|exact Hg].
  - etrans; [exact Hf1|exact Hf].
Qed.
Next Obligation.
  intros t Ht.
  destruct (call_request ForceStop StepForceStop (fun _ => tt) t eq_refl force_requests Ht)
    as (t1 & [Hl Hg Ha Hf] & _ & Heq & Hok).
  change (ctl_ForceStop t) with (meeting ForceStop t). rewrite Heq. cbn [fst snd]. split; [done|].
  split; [|split; [done|split; [exact Ha|exact Hg]]].
  eapply lives_on_trans; [exact Hl|]. split; [exact Hok|done|done].
Qed.
Next Obligation. intros t Ht. exact (call_look (fun s => bool_decide (m_publishedState s = Stopped)) t Ht). Qed.
Next Obligation. intros t Ht. exact (call_look m_failed t Ht). Qed.

(** ** The calls leave the object alone *)

Section kept.
Context {X : Type} (F : P -> X) `{!PollerKeeps F}.

Lemma thread_rounds_same l t : same_object F t (thread_rounds l t).2.
Proof.
  unfold thread_rounds, zoom, run_steps.
  assert (keeps (fun s : SubReactor Q P => F <$> m_poller s)
    (for_each (StepRound <$> l) (exec_step (sl_options t) (m_readFd (m_controlWakeup t))))) as Hk.
  { induction l as [|i l IH]; [apply keeps_ret|]. cbn [fmap list_fmap for_each]. apply keeps_bind; [|by intros []].
    intros s. apply (round_kept F keeps_add keeps_modity keeps_remove). }
  specialize (Hk (sl_reactor t)). by destruct (for_each _ _ _).
Qed.

Lemma meeting_same {A} (m : M (SubReactor Q P) A) t :
  (forall s, m_poller (m s).2 = m_poller s) -> same_object F t (meeting m t).2.
Proof.
  intros Hm. assert (forall t0, same_object F t0 (zoom sl_reactor m t0).2) as Hz.
  { intros t0. unfold zoom. specialize (Hm (sl_reactor t0)). destruct (m (sl_reactor t0)) as [r s].
    split; try done. cbn in *. by rewrite Hm. }
  unfold meeting. cbv [mbind M_bind gets id]. destruct (sl_rounds t) as [|rounds rest]; [apply Hz|].
  destruct (sl_joinable t); cbn [when]; [|apply Hz]. unfold modify. cbv [mbind M_bind].
  set (t1 := t <| sl_rounds := rest |>). assert (same_object F t t1) as H1 by done.
  pose proof (thread_rounds_same rounds t1) as H2. destruct (thread_rounds rounds t1) as [[[]|f] t2]; cbn [snd] in *.
  - etrans; [exact H1|]. etrans; [exact H2|apply Hz].
  - by etrans.
Qed.

(** Every call of the main thread. *)
Lemma calls_same t :
  (forall cfd, same_object F t (ctl_EnqueClient cfd t).2) /\ (forall d, same_object F t (ctl_Stop d t).2) /\
  same_object F t (ctl_ForceStop t).2 /\ same_object F t (ctl_IsStopped t).2 /\ same_object F t (ctl_HasFailed t).2.
Proof.
  split_and!; [intros [cfd|]|intros d|..]; apply meeting_same; try done; intros s.
  - unfold EnqueClient. cbv [mbind M_bind]. cbn. by destruct (m_stopRequested s || m_forceStopRequested s).
  - unfold Stop, when. cbv [mbind M_bind]. cbn. by destruct (_ || _).
Qed.

(** The end of the thread. *)
Record joined t t' : Prop := mkJoined {
  jn_channel : m_controlWakeup t' = m_controlWakeup t;
  jn_poller : F <$> m_poller (sl_reactor t') = F <$> m_poller (sl_reactor t);
  jn_joinable : sl_joinable t' = false;
  jn_given : rc_given t' ≡ₚ rc_given t;
  jn_clients : sl_joinable t = true -> m_clients (sl_reactor t') = ∅;
}.

Lemma join_ok t :
  rc_ok t ->
  (sl_joinable t = true -> m_state (sl_reactor t) = Stopped \/ rc_forced t = true) ->
  exists t', SubReactor_Join t = (Ret tt, t') /\ joined t t'.
Proof.
  intros Ht Hend. unfold SubReactor_Join. cbv [mbind M_bind gets id].
  destruct (sl_joinable t) eqn:Hj; cbn [negb].
  2: { exists t. split; [done|]. split; done || congruence. }
  destruct (Ht Hj) as [Ho Hm Hwk].
  assert (m_state (sl_reactor t) = Stopped \/ (m_forceStopRequested (sl_reactor t) = true /\
    Exists (wakes (m_readFd (m_controlWakeup t))) (rounds_left t))) as Hend'.
  { destruct (Hend eq_refl) as [?|?]; [by left|right]. split; [done|]. unfold rounds_left. apply Exists_app. by right. }
  destruct (last_rounds F keeps_add keeps_modity keeps_remove (sl_options t) (m_readFd (m_controlWakeup t)) Ho
    (rounds_left t) _ Hm Hend') as (s' & Hrun & Hst & (n & now & HR & _) & [Hmv Hp]).
  unfold thread_rounds, zoom. fold (rounds_left t). rewrite Hrun. cbn. rewrite Hst, bool_decide_eq_true_2 by done.
  cbn. eexists. split; [done|]. split; cbn; [done|exact Hp|done|apply (mv_given _ _ _ Hmv)|].
  intros _. by apply (ro_stopped _ _ _ _ HR).
Qed.
End kept.
End slots.
