(* ===== verification/ServerStartInv.v ===== *)
(** * What the starting server owns *)

From S2P Require Import Prelude PriorityQueue KVStore KVStoreInv KVStoreSpec ServerMetrics Poller SubReactor SubReactorInv EventLoop ReactorInv TcpServer ReactorInterface Posix ScopedFd SocketUtil WakeupChannel PollerFactory ServerStart ServerSlots.
From stdpp Require Import sets gmap.
#[local] Open Scope Z_scope.

(** ** Ownership of descriptors *)

(** The open descriptors of [v] are those of [v0] and [l], which are new. *)
Record Own (v0 v : kernel_view) (l : list Z) : Prop := mkOwn {
  own_fresh : new_fds l v0;
  own_open : kv_open v = list_to_set l ∪ kv_open v0;
}.

Lemma own_new v0 v v' new l l' :
  Own v0 v l -> new_fds new v -> kv_open v' = list_to_set new ∪ kv_open v -> l' ≡ₚ new ++ l -> Own v0 v' l'.
Proof.
  intros [[Hnd Hnew] Ho] [Hnd' Hnew'] Ho' Hp. rewrite Forall_forall in Hnew, Hnew'. split.
  - split.
    + rewrite Hp. apply NoDup_app. split_and!; [done| |done]. intros x Hx Hl.
      apply (Hnew' x Hx). rewrite Ho. set_solver.
    + rewrite Hp. apply Forall_app. rewrite !Forall_forall. split; [|done]. intros x Hx.
      destruct (Hnew' x Hx) as [? Hnot]. split; [done|]. rewrite Ho in Hnot. set_solver.
  - rewrite Ho', Ho, Hp, list_to_set_app_L. set_solver.
Qed.

Lemma own_same v0 v v' l : Own v0 v l -> kv_open v' = kv_open v -> Own v0 v' l.
Proof. intros [? Ho] He. split; [done|by rewrite He]. Qed.

Lemma own_close v0 v v' gone l l' :
  Own v0 v l -> l ≡ₚ gone ++ l' -> kv_open v' = kv_open v ∖ list_to_set gone -> Own v0 v' l'.
Proof.
  intros [[Hnd Hnew] Ho] Hp Ho'. rewrite Hp in Hnd, Hnew, Ho. apply NoDup_app in Hnd as (_ & Hdis & Hnd).
  apply Forall_app in Hnew as [Hg Hl]. split; [done|]. rewrite Forall_forall in Hg.
  rewrite Ho', Ho, list_to_set_app_L. apply set_eq. intros x. specialize (Hg x). specialize (Hdis x). set_solver.
Qed.

Lemma own_nil v0 v : Own v0 v [] -> kv_open v = kv_open v0.
Proof. intros [_ Ho]. rewrite Ho. cbn. by rewrite union_empty_l_L. Qed.

Lemma own_elem v0 v l fd : Own v0 v l -> fd ∈ l -> fd ∈ kv_open v.
Proof. intros [_ ->] ?. set_solver. Qed.

Section owned.
Context {K : Type} `{!PosixConstants, !Posix K, !PosixLaws K}.
Context {Q : Type} `{!PriorityQueue ExpirationRecord Q}
  `{!PriorityQueueLaws ExpirationRecord Q ExpirationCompare}.
Context {P : Type} `{!Poller P, !PollerLaws P, !PollerFactory K P, !PollerFactoryLaws K P}.
Context (o : NetworkOptions).
Implicit Types (t : slot (Q := Q) (P := P)) (s : TcpServer (slot (Q := Q) (P := P)) P).

Definition opt_fds (p : option P) : list Z :=
  match p with Some p => poller_fds (K := K) p | None => [] end.

#[export] Instance fds_kept : PollerKeeps (poller_fds (K := K) (P := P)).
Proof. split; intros; [apply add_fds|apply modity_fds|apply remove_fds]. Qed.

Lemma opt_fds_fmap p q : poller_fds (K := K) <$> p = poller_fds <$> q -> opt_fds p = opt_fds q.
Proof. destruct p, q; cbn; congruence. Qed.

Definition slot_fds t : list Z :=
  [m_readFd (m_controlWakeup t); m_writeFd (m_controlWakeup t)] ++ opt_fds (m_poller (sl_reactor t)).

(** The descriptors the server holds. *)
Definition owned s : list Z :=
  (match m_listenFd s with Some fd => [fd] | None => [] end) ++ opt_fds (t_poller s) ++
  concat (slot_fds <$> m_subReactors s).

Lemma same_object_fds t t' : same_object (poller_fds (K := K)) t t' -> slot_fds t' = slot_fds t.
Proof. intros [Hc _ _ _ Hp]. unfold slot_fds. by rewrite Hc, (opt_fds_fmap _ _ Hp). Qed.

(** What holds whatever happens. *)
Record Owns (v0 : kernel_view) (w : server_process (K := K) (Q := Q) (P := P)) : Prop := mkOwns {
  ow_own : Own v0 (kview (pr_kernel w)) (owned (pr_server w));
  ow_slots : Forall rc_ok (m_subReactors (pr_server w));
  ow_poller p : t_poller (pr_server w) = Some p -> poller_ok p;
}.

(** A step throws, and what it made is owned. *)
Definition aborted (v0 : kernel_view) (f : failure) (w : server_process (K := K) (Q := Q) (P := P)) : Prop :=
  Owns v0 w /\ exists e, f = Throw e.

(** ** Stages of the start *)

(** The channel is ready, the reactor not started. *)
Record fresh_slot (v : kernel_view) t : Prop := mkFreshSlot {
  fs_reactor : sl_reactor t = SubReactor_init;
  fs_joinable : sl_joinable t = false;
  fs_options : sl_options t = o;
  fs_channel : Channel (m_controlWakeup t) v 0;
}.

(** A reactor at the start of its thread. *)
Definition started_reactor (p : P) : SubReactor Q P :=
  SubReactor_init <| m_poller := Some p |> <| m_state := Running |> <| m_publishedState := Running |>.

(** The thread runs; its poller watches the channel. *)
Record running_slot (v : kernel_view) t : Prop := mkRunningSlot {
  rs_joinable : sl_joinable t = true;
  rs_options : sl_options t = o;
  rs_thread : thread_ok t;
  rs_reactor : exists p, sl_reactor t = started_reactor p /\ poller_ok p /\
    registered p = {[m_readFd (m_controlWakeup t) := IoEvent_Read]};
  rs_channel : Channel (m_controlWakeup t) v 0;
}.

Lemma started_reactor_ok now p : poller_ok p -> ReactorOK o 0 now (started_reactor p).
Proof.
  intros Hp. assert (m_clients (started_reactor p) = ∅) as Hc by done.
  split; [| |done|done|done].
  - split; [done|done| |].
    + exists p. split; [done|]. split; [done|]. rewrite Hc. apply map_Forall_empty.
    + exists ∅. split_and!; [apply Inv_init|reflexivity|by apply map_Forall_empty].
  - rewrite Hc. apply map_Forall_empty.
Qed.

Lemma channel_grows c n v v' :
  grows v v' -> m_readFd c ∈ kv_open v -> m_writeFd c ∈ kv_open v -> Channel c v n -> Channel c v' n.
Proof.
  intros [_ Hnb _ Hpairs] Hr Hw [Hp Hu Hnr Hnw Hn].
  split; [by rewrite (proj1 (Hpairs _ Hw))|by rewrite (proj2 (Hpairs _ Hr))|set_solver|set_solver|done].
Qed.

Lemma fresh_ok v t : fresh_slot v t -> rc_ok t.
Proof. intros [_ Hj _ _] Hjn. congruence. Qed.

Lemma running_ok v t : running_slot v t -> rc_ok t.
Proof. intros Hr _. apply Hr. Qed.
End owned.
