(* ===== verification/ServerStartSteps.v ===== *)
(** * The steps of the start: what each makes, and what it leaves when it throws *)

From S2P Require Import Prelude PriorityQueue KVStore ServerMetrics Poller SubReactor SubReactorInv EventLoop ReactorEvents ReactorTheorems TcpServer ReactorInterface Posix ScopedFd SocketUtil WakeupChannel PollerFactory ServerStart ServerSlots ServerStartInv.
From stdpp Require Import sets gmap.
#[local] Open Scope Z_scope.

(** [for (i = 0; i < n; ++i)] *)
Lemma wp_for_seq {S} (I : nat -> S -> Prop) n (f : nat -> M S unit) E s :
  I 0%nat s ->
  (forall i s, (i < n)%nat -> I i s -> wp (f i) (fun _ s' => I (Datatypes.S i) s') E s) ->
  wp (for_each (seq 0 n) f) (fun _ s' => I n s') E s.
Proof.
  intros HI Hf. assert (forall m i s, (i + m = n)%nat -> I i s -> wp (for_each (seq i m) f) (fun _ s' => I n s') E s) as H.
  { clear s HI. induction m as [|m IH]; intros i s Hn HI; [apply wp_ret; by replace n with i by lia|].
    cbn [seq for_each]. apply wp_bind. eapply wp_mono; [apply Hf; [lia|done]| |done].
    intros [] s'. apply IH. lia. }
  by apply (H n 0%nat).
Qed.

Section steps.
Context {K : Type} `{!PosixConstants, !Posix K, !PosixLaws K}.
Context {Q : Type} `{!PriorityQueue ExpirationRecord Q}
  `{!PriorityQueueLaws ExpirationRecord Q ExpirationCompare}.
Context {P : Type} `{!Poller P, !PollerLaws P, !PollerFactory K P, !PollerFactoryLaws K P}.
Context (strerror : Z -> string) (o : NetworkOptions) (ro : ReactorOptions).
Hypothesis Hoptions : options_ok o.
Implicit Types (t : slot (Q := Q) (P := P)).

Abbreviation opt_fds := (opt_fds (K := K)).
Abbreviation slot_fds := (slot_fds (K := K)).

(** ** Starting one sub-reactor *)

(** What a thread that begins at [now] is answered: in order of time, and woken
    in the end. *)
Definition schedule_ok (now : TimePoint) (schedule : Z -> list (list round_input)) (last : Z -> list round_input)
    (cfd : Z) : Prop :=
  history_ok o 0 now (StepRound <$> concat (schedule cfd) ++ last cfd) /\ Exists (wakes cfd) (last cfd).

(** The descriptors [new] were made and are held by the reactor's poller. *)
Definition slot_step (v : kernel_view) t (st : K * slot (Q := Q) (P := P)) : Prop :=
  exists new, new_fds new v /\ kv_open (kview st.1) = list_to_set new ∪ kv_open v /\
    opt_fds (m_poller (sl_reactor st.2)) = new /\ m_controlWakeup st.2 = m_controlWakeup t /\ rc_ok st.2.

Lemma slot_step_same v t st :
  kv_open (kview st.1) = kv_open v -> m_poller (sl_reactor st.2) = None ->
  m_controlWakeup st.2 = m_controlWakeup t -> rc_ok st.2 -> slot_step v t st.
Proof.
  intros Ho Hp Hc Ht. exists []. rewrite Hp. split_and!; try done.
  - split; [by apply NoDup_nil|by apply Forall_nil].
  - rewrite Ho. cbn. by rewrite union_empty_l_L.
Qed.

Definition thrown_by (v : kernel_view) t (f : failure) (st : K * slot (Q := Q) (P := P)) : Prop :=
  slot_step v t st /\ exists e, f = Throw e.

(** Removing a descriptor, whether it works or not. *)
Lemma remove_eq cfd (k : K) t p :
  m_poller (sl_reactor t) = Some p -> poller_ok p ->
  exists p', poller_fds (K := K) p' = poller_fds (K := K) p /\
    try_catch (in_reactor (on_poller (poller_Remove cfd))) (fun _ => mret tt) (k, t)
    = (Ret tt, (k, t <| sl_reactor ::= (fun r => r <| m_poller := Some p' |>) |>)).
Proof.
  intros Hp Hok. pose proof (remove_law cfd p Hok) as Hlaw. pose proof (remove_fds cfd p) as Hfds.
  unfold wp in Hlaw. unfold try_catch, in_reactor, zoom, on_poller. cbn. rewrite Hp.
  destruct (poller_Remove cfd p) as [[[]|f] p']; cbn [snd] in Hfds; [by exists p'|].
  destruct Hlaw as (Hok' & _ & e & ->). by exists p'.
Qed.

(** The thread could not be created: the poller goes. *)
Lemma undo_start_wp v t k p e :
  m_poller (sl_reactor t) = Some p -> sl_joinable t = false -> poller_ok p -> new_fds (poller_fds (K := K) p) v ->
  kv_open (kview k) = list_to_set (poller_fds (K := K) p) ∪ kv_open v ->
  wp (SubReactor_Start_undo strerror (m_readFd (m_controlWakeup t)) e) (fun _ _ => False) (thrown_by v t) (k, t).
Proof.
  intros Hp Hj Hok [_ Hnew] Ho. unfold SubReactor_Start_undo.
  set (t1 := t <| sl_reactor ::= (fun r => r <| m_state := Created |> <| m_publishedState := Created |>) |>).
  apply wp_bind. apply (wp_intro _ _ _ tt _ (k, t1)); [done|].
  destruct (remove_eq (m_readFd (m_controlWakeup t)) k t1 p Hp Hok) as (p' & Hfds & Heq).
  apply wp_bind. eapply wp_intro; [exact Heq|]. apply wp_bind. unfold reset_poller. apply wp_bind, wp_gets. cbn.
  apply wp_bind, wp_zoom. eapply wp_mono; [apply (destroy_law p' k)| |done]. intros [] k' Hk'.
  apply (wp_intro _ _ _ tt _ (k', t1 <| sl_reactor ::= (fun r => r <| m_poller := None |>) |>)); [done|].
  apply wp_fail. split; [|by eexists]. apply slot_step_same; try done.
  - cbn. rewrite Hk', Hfds, Ho. rewrite Forall_forall in Hnew. apply set_eq. intros x.
    specialize (Hnew x). set_solver.
  - intros Hjn. cbn in Hjn. congruence.
Qed.

Lemma add_wp cfd i (k : K) t p :
  m_poller (sl_reactor t) = Some p -> poller_ok p ->
  wp (in_reactor (on_poller (poller_Add cfd i)))
     (fun _ st => exists p', poller_ok p' /\ poller_fds (K := K) p' = poller_fds (K := K) p /\
        registered p' = <[cfd := i]> (registered p) /\
        st = (k, t <| sl_reactor ::= (fun r => r <| m_poller := Some p' |>) |>))
     (fun f st => exists p', poller_fds (K := K) p' = poller_fds (K := K) p /\
        st = (k, t <| sl_reactor ::= (fun r => r <| m_poller := Some p' |>) |>) /\ exists e, f = Throw e) (k, t).
Proof.
  intros Hp Hok. pose proof (add_law cfd i p Hok) as Hlaw. pose proof (add_fds cfd i p) as Hfds.
  unfold wp in *. unfold in_reactor, zoom, on_poller. cbn. rewrite Hp.
  destruct (poller_Add cfd i p) as [[[]|f] p']; cbn [snd] in Hfds; exists p'; [|by destruct Hlaw as (? & _ & ?)].
  by destruct Hlaw as (? & _ & _ & ?).
Qed.

Lemma slot_step_poller v t k t' p :
  new_fds (poller_fds (K := K) p) v -> kv_open (kview k) = list_to_set (poller_fds (K := K) p) ∪ kv_open v ->
  m_poller (sl_reactor t') = Some p -> m_controlWakeup t' = m_controlWakeup t -> rc_ok t' -> slot_step v t (k, t').
Proof. intros Hnew Ho Hp Hc Ht. exists (poller_fds (K := K) p). cbn. by rewrite Hp. Qed.

(** Starting a sub-reactor: it runs with its channel watched, or what was made
    for it is still held by it or gone. *)
Lemma start_wp schedule last now k t :
  fresh_slot o (kview k) t -> m_readFd (m_controlWakeup t) ∈ kv_open (kview k) ->
  m_writeFd (m_controlWakeup t) ∈ kv_open (kview k) ->
  schedule_ok now schedule last (m_readFd (m_controlWakeup t)) ->
  wp (SubReactor_Start strerror ro schedule last)
     (fun _ st => slot_step (kview k) t st /\ grows (kview k) (kview st.1) /\ running_slot o (kview st.1) st.2)
     (thrown_by (kview k) t) (k, t).
Proof.
  intros Hfs Hrd Hwr Hsched. pose proof (fresh_ok _ _ _ Hfs) as Hrc. destruct Hfs as [Hr Hj Hopt Hch].
  unfold SubReactor_Start. apply wp_bind, wp_gets. cbn [snd]. rewrite Hr. cbn [m_publishedState SubReactor_init].
  rewrite bool_decide_eq_true_2 by done. cbn [negb].
  apply wp_bind, wp_zoom. eapply wp_mono; [apply (create_law (pollerBackend ro) k)| |].
  2: { intros f k' [Ho' He]. split; [|done]. apply slot_step_same; try done. cbn. by rewrite Hr. }
  intros p k1 [Hok Hreg Hfr Ho' Hg]. cbn [fst] in *.
  set (t1 := t <| sl_reactor ::= (fun r => r <| m_poller := Some p |>) |>).
  apply wp_bind, (wp_intro _ _ _ tt _ (k1, t1)); [done|]. apply wp_bind, wp_gets. cbn [snd].
  change (m_controlWakeup t1) with (m_controlWakeup t).
  assert (forall q, rc_ok (t1 <| sl_reactor ::= (fun r => r <| m_poller := Some q |>) |>)) as Htq.
  { intros q Hjn. cbn in Hjn. congruence. }
  apply wp_bind. eapply wp_mono; [by apply (add_wp _ _ k1 t1 p)| |].
  2: { intros f st (p' & Hfds & -> & He). split; [|done]. apply (slot_step_poller _ _ _ _ p'); rewrite ?Hfds; try done. }
  intros [] st (p' & Hok' & Hfds & Hreg' & ->).
  set (t3 := t <| sl_reactor := started_reactor p' |>).
  apply wp_bind, (wp_intro _ _ _ tt _ (k1, t3)); [subst t3 t1; unfold started_reactor; by rewrite <- Hr|].
  apply wp_bind, wp_zoom, wp_call. intros r k2 Hk2. cbn [fst] in *.
  pose proof (thread_create_law k1) as Hv2. rewrite Hk2 in Hv2. cbn [snd] in Hv2.
  change ((k1, t3) <| fst := k2 |>) with (k2, t3).
  destruct r as [[]|e].
  - apply wp_modify. cbn [fst snd].
    set (t4 := t3 <| sl_joinable := true |> <| sl_rounds := schedule (m_readFd (m_controlWakeup t)) |>
                  <| sl_last := last (m_readFd (m_controlWakeup t)) |>).
    assert (running_slot o (kview k2) t4) as Hrunning.
    { split; cbn; [done|done| | |].
      - destruct Hsched as [Hh Hwk]. split; cbn; [by rewrite Hopt| |exact Hwk].
        exists 0, now. rewrite Hopt. split; [by apply started_reactor_ok|done].
      - exists p'. split_and!; [done|done|]. by rewrite Hreg', Hreg.
      - rewrite Hv2. by eapply channel_grows. }
    change (m_controlWakeup t3) with (m_controlWakeup t) in *.
    change ((k2, t3) <| snd ::= _ |>) with (k2, t4).
    split; [|split; [cbn; by rewrite Hv2|exact Hrunning]].
    apply (slot_step_poller _ _ _ _ p'); rewrite ?Hfds, ?Hv2; try done. by eapply running_ok.
  - eapply wp_mono; [apply (undo_start_wp (kview k) t3 k2 p' e)|done|done]; try done;
      rewrite Hfds; [done|by rewrite Hv2].
Qed.
End steps.
