(* ===== verification/ServerStartStages.v ===== *)
(** * The stages of the start: listening, making the sub-reactors, starting them *)

From S2P Require Import Prelude PriorityQueue KVStore ServerMetrics Poller SubReactor EventLoop ReactorEvents TcpServer ReactorInterface Posix ScopedFd SocketUtil WakeupChannel PollerFactory ServerStart ServerSlots ServerStartInv ServerStartSteps.
From stdpp Require Import sets gmap.
#[local] Open Scope Z_scope.

Section stages.
Context {K : Type} `{!PosixConstants, !Posix K, !PosixLaws K}.
Context {Q : Type} `{!PriorityQueue ExpirationRecord Q}
  `{!PriorityQueueLaws ExpirationRecord Q ExpirationCompare}.
Context {P : Type} `{!Poller P, !PollerLaws P, !PollerFactory K P, !PollerFactoryLaws K P}.
Context (o : NetworkOptions).

Abbreviation Slot := (slot (Q := Q) (P := P)).
Abbreviation Server := (TcpServer Slot P).
Abbreviation Process := (server_process (K := K) (Q := Q) (P := P)).
Implicit Types (t : Slot) (s : Server) (w : Process) (v : kernel_view).

Abbreviation view w := (kview (pr_kernel w)).
Abbreviation opt_fds := (opt_fds (K := K)).
Abbreviation slot_fds := (slot_fds (K := K)).
Abbreviation owned := (owned (K := K)).

Lemma slot_fds_owned s i t : m_subReactors s !! i = Some t -> slot_fds t ⊆ owned s.
Proof.
  intros Ht fd Hfd. unfold owned. apply elem_of_app. right. apply elem_of_app. right.
  apply list_elem_of_In, in_concat. exists (slot_fds t). split; [|by apply list_elem_of_In].
  apply list_elem_of_In, list_elem_of_fmap. exists t. split; [done|]. by eapply list_elem_of_lookup_2.
Qed.

(** The slots are what they were, in a kernel that has grown. *)
Lemma slots_grow v0 started w v' :
  Owns v0 w -> grows (view w) v' ->
  (forall i t, m_subReactors (pr_server w) !! i = Some t ->
     if (i <? started)%nat then running_slot o (view w) t else fresh_slot o (view w) t) ->
  forall i t, m_subReactors (pr_server w) !! i = Some t ->
     if (i <? started)%nat then running_slot o v' t else fresh_slot o v' t.
Proof.
  intros Ho Hg Hs i t Ht. specialize (Hs i t Ht). pose proof (slot_fds_owned _ _ _ Ht) as Hin.
  assert (forall fd, fd ∈ slot_fds t -> fd ∈ kv_open (view w)) as Hopen.
  { intros fd Hfd. eapply own_elem; [apply Ho|by apply Hin]. }
  assert (Channel (m_controlWakeup t) (view w) 0 -> Channel (m_controlWakeup t) v' 0) as Hch.
  { apply channel_grows; [done|apply Hopen|apply Hopen]; unfold slot_fds; set_solver. }
  destruct (i <? started)%nat; [destruct Hs as [? ? ? ? Hc]|destruct Hs as [? ? ? Hc]]; (split; [done..|by apply Hch]).
Qed.

(** A call on the poller of the server. *)
Lemma server_add_wp cfd i s p :
  t_poller s = Some p -> poller_ok p ->
  wp (server_poller (poller_Add cfd i))
     (fun _ s' => exists p', poller_ok p' /\ poller_fds (K := K) p' = poller_fds (K := K) p /\
        registered p' = <[cfd := i]> (registered p) /\ s' = s <| t_poller := Some p' |>)
     (fun f s' => (exists p', poller_ok p' /\ poller_fds (K := K) p' = poller_fds (K := K) p /\
        s' = s <| t_poller := Some p' |>) /\ exists e, f = Throw e) s.
Proof.
  intros Hp Hok. pose proof (add_law cfd i p Hok) as Hlaw. pose proof (add_fds cfd i p) as Hfds.
  unfold wp in *. unfold server_poller. rewrite Hp.
  destruct (poller_Add cfd i p) as [[[]|f] p']; cbn [snd] in Hfds.
  - destruct Hlaw as (? & _ & _ & ?). by exists p'.
  - destruct Hlaw as (? & _ & ?). split; [|done]. by exists p'.
Qed.

(** Only the descriptors and the poller of a server without sub-reactors count. *)
Lemma owns_bare v0 w :
  m_subReactors (pr_server w) = [] -> (forall p, t_poller (pr_server w) = Some p -> poller_ok p) ->
  Own v0 (view w) (match m_listenFd (pr_server w) with Some fd => [fd] | None => [] end ++
    opt_fds (t_poller (pr_server w))) -> Owns v0 w.
Proof.
  intros Hs Hp Ho. split; [|by rewrite Hs|done]. unfold ServerStartInv.owned. rewrite Hs. cbn.
  by rewrite app_nil_r.
Qed.

Lemma in_kernel_flag_wp (m : M K unit) (f : kernel_view -> kernel_view) w (Q' : unit -> Process -> Prop) E :
  all_or_nothing m (pr_kernel w) (fun _ v => v = f (view w)) ->
  (forall k', kview k' = f (view w) -> Q' tt (w <| pr_kernel := k' |>)) ->
  (forall k' what, kview k' = view w -> E (Throw (runtime_error what)) (w <| pr_kernel := k' |>)) ->
  wp (in_kernel m) Q' E w.
Proof.
  intros Hm HQ HE. unfold in_kernel. apply wp_zoom. unfold all_or_nothing in Hm. unfold wp.
  destruct (m (pr_kernel w)) as [[[]|[[]| | |]] k']; try done; [by apply HQ|by apply HE].
Qed.

Lemma new_pair v c : m_readFd c <> m_writeFd c -> 0 <= m_readFd c -> 0 <= m_writeFd c ->
  (m_readFd c ∉ kv_open v) -> (m_writeFd c ∉ kv_open v) -> new_fds [m_readFd c; m_writeFd c] v.
Proof.
  intros Hne ? ? ? ?. split; [|by repeat constructor].
  apply NoDup_cons. split; [set_solver|apply NoDup_singleton].
Qed.

Lemma view_channel_grows v c :
  (m_readFd c ∉ kv_open v) -> (m_writeFd c ∉ kv_open v) -> grows v (view_channel c v).
Proof.
  intros Hr Hw. split; cbn; [set_solver..|]. intros fd Hfd.
  assert (fd <> m_readFd c /\ fd <> m_writeFd c) as [? ?] by (split; congruence).
  by rewrite !lookup_insert_ne, ?lookup_delete_ne by done.
Qed.

(** ** Stages *)

Context (stopWakeup : WakeupChannel).

(** The socket listens and the poller watches it and the stop channel. *)
Record Listening v s : Prop := mkListening {
  li_poller : exists p lfd, t_poller s = Some p /\ poller_ok p /\ m_listenFd s = Some lfd /\
    registered p = <[m_readFd stopWakeup := IoEvent_Read]> {[lfd := IoEvent_Read]} /\
    lfd ∈ kv_nonblock v /\ lfd ∈ kv_cloexec v;
}.

(** [n] sub-reactors exist, and the first [started] run. *)
Record Stage (v0 : kernel_view) (n started : nat) w : Prop := mkStage {
  sg_owns : Owns v0 w;
  sg_grows : grows v0 (view w);
  sg_listening : Listening (view w) (pr_server w);
  sg_length : length (m_subReactors (pr_server w)) = n;
  sg_slots i t : m_subReactors (pr_server w) !! i = Some t ->
    if (i <? started)%nat then running_slot o (view w) t else fresh_slot o (view w) t;
  sg_rest : t_state (pr_server w) = Created /\ t_stopRequested (pr_server w) = false /\
    m_forceStopSent (pr_server w) = false /\ m_nextSubReactorIndex (pr_server w) = 0 /\ pr_sweeping w = false;
}.

Lemma listening_grows v v' s : grows v v' -> Listening v s -> Listening v' s.
Proof.
  intros [_ Hn Hc _] [(p & lfd & ? & ? & ? & ? & ? & ?)]. split. exists p, lfd. split_and!; set_solver.
Qed.

Context (strerror : Z -> string) (host : bytes) (port : Z) (ro : ReactorOptions).

(** ** Listening *)

(** The socket made, it is set up and watched; [v0] is where [Run] began. *)
Definition listening_server (lfd : Z) (k : K) (p : P) : Process :=
  mkServerProcess k (TcpServer_init <| t_poller := Some p |> <| m_listenFd := Some lfd |>) false.

Lemma watch_wp v0 lfd k p :
  grows v0 (kview k) -> poller_ok p -> registered p = ∅ ->
  (forall k' q, kv_open (kview k') = kv_open (kview k) -> poller_ok q ->
    poller_fds (K := K) q = poller_fds (K := K) p -> Owns v0 (listening_server lfd k' q)) ->
  wp (in_kernel (SetNonBlocking strerror lfd);;
      in_kernel (SetCloseOnExec strerror lfd);;
      in_server (server_poller (poller_Add lfd IoEvent_Read));;
      in_server (server_poller (poller_Add (m_readFd stopWakeup) IoEvent_Read)))
     (fun _ w => Stage v0 0 0 w) (aborted v0) (listening_server lfd k p).
Proof.
  intros Hg Hok Hreg Hbare.
  apply wp_bind, (in_kernel_flag_wp _ (fun v => v <| kv_nonblock ::= (fun l => {[lfd]} ∪ l) |>)); [apply SetNonBlocking_ok| |].
  2: { intros k' what Hv. split; [|by eexists]. apply (Hbare k'); try done. by rewrite Hv. }
  intros k3 Hv3. change ((listening_server lfd k p) <| pr_kernel := k3 |>) with (listening_server lfd k3 p). cbn in Hv3.
  apply wp_bind, (in_kernel_flag_wp _ (fun v => v <| kv_cloexec ::= (fun l => {[lfd]} ∪ l) |>)); [apply SetCloseOnExec_ok| |].
  2: { intros k' what Hv. split; [|by eexists]. apply (Hbare k'); try done. rewrite Hv. cbn. by rewrite Hv3. }
  intros k4 Hv4. change ((listening_server lfd k3 p) <| pr_kernel := k4 |>) with (listening_server lfd k4 p). cbn in Hv4. rewrite Hv3 in Hv4.
  assert (kv_open (kview k4) = kv_open (kview k)) as Ho4 by by rewrite Hv4.
  unfold in_server. apply wp_bind, wp_zoom. eapply wp_mono; [by apply (server_add_wp _ _ _ p)| |].
  2: { intros f s' [(q & Hq & Hfds & ->) He]. split; [by apply (Hbare k4 q)|done]. }
  intros [] s' (q & Hq & Hfds & Hregq & ->). cbn in Hregq.
  apply wp_zoom. eapply wp_mono; [by apply (server_add_wp _ _ _ q)| |].
  2: { intros f s' [(q' & Hq' & Hfds' & ->) He]. split; [|done]. apply (Hbare k4 q'); congruence. }
  intros [] s' (q' & Hq' & Hfds' & Hregq' & ->).
  split; [apply (Hbare k4 q'); congruence| | |done|done|done].
  - change (grows v0 (kview k4)). etrans; [exact Hg|]. rewrite Hv4. split; cbn; [set_solver..|done].
  - split. exists q', lfd. split_and!; try done.
    + rewrite Hregq', Hregq, Hreg. done.
    + change (lfd ∈ kv_nonblock (kview k4)). rewrite Hv4. cbn. set_solver.
    + change (lfd ∈ kv_cloexec (kview k4)). rewrite Hv4. cbn. set_solver.
Qed.

Lemma listen_wp k :
  wp (Run_listen strerror host port ro stopWakeup)
     (fun _ w => Stage (kview k) 0 0 w) (aborted (kview k)) (mkServerProcess k TcpServer_init false).
Proof.
  unfold Run_listen, in_kernel, in_server. apply wp_bind, wp_zoom. cbn [pr_kernel].
  eapply wp_mono; [apply (create_law (pollerBackend ro) k)| |].
  2: { intros f k' [Ho He]. split; [|done]. apply owns_bare; try done. cbn.
       split; [split; [by apply NoDup_nil|by apply Forall_nil]|]. rewrite Ho. cbn. by rewrite union_empty_l_L. }
  intros p k1 [Hok Hreg Hfr Ho Hg].
  assert (Own (kview k) (kview k1) (poller_fds (K := K) p)) as Hown by done.
  apply wp_bind, wp_zoom, wp_modify. cbn.
  apply wp_bind, wp_zoom. cbn [pr_kernel].
  pose proof (CreateListenSocket_ok strerror host port 128 k1) as Hsock. unfold makes_socket in Hsock. unfold wp at 1.
  destruct (CreateListenSocket strerror host port 128 k1) as [[lfd|[[]| | |]] k2]; try done.
  2: { split; [|by eexists]. apply owns_bare; [done| |].
       - intros q [= <-]. done.
       - by eapply own_same. }
  destruct Hsock as (Hlfd & Hnew & Hv2).
  assert (Own (kview k) (kview k2) (lfd :: poller_fds (K := K) p)) as Hown2.
  { eapply (own_new _ _ _ [lfd]); [exact Hown| |by rewrite Hv2; cbn; rewrite union_empty_r_L|done].
    split; [by apply NoDup_singleton|by apply Forall_singleton]. }
  assert (grows (kview k) (kview k2)) as Hg2.
  { etrans; [exact Hg|]. rewrite Hv2. split; cbn; [set_solver..|done]. }
  apply wp_bind, wp_zoom, wp_modify. cbn.
  apply (watch_wp (kview k) lfd k2 p Hg2 Hok Hreg).
  intros k' q Ho' Hq Hfds. apply owns_bare; [done|by intros ? [= <-]|]. cbn. rewrite Hfds.
  by eapply own_same.
Qed.

(** ** Making the sub-reactors *)

Lemma push_reactor_wp v0 n w :
  Stage v0 n 0 w ->
  wp (push_reactor strerror o) (fun _ w' => Stage v0 (Datatypes.S n) 0 w') (aborted v0) w.
Proof.
  intros [Ho Hg Hli Hlen Hsl Hrest]. unfold push_reactor, SubReactor_new, in_kernel, in_server.
  apply wp_bind, wp_zoom, wp_bind. pose proof (WakeupChannel_new_ok strerror (pr_kernel w)) as Hnew. unfold wp at 1.
  destruct (WakeupChannel_new strerror (pr_kernel w)) as [[c|[[]| | |]] k']; try done.
  2: { split; [|by eexists]. destruct Ho as [Hown ? ?]. split; [|done|done]. by eapply own_same. }
  destruct Hnew as (Hr & Hw & Hne & Hnr & Hnw & Hv). apply wp_ret, wp_zoom, wp_modify. cbn.
  pose proof (view_channel_grows _ _ Hnr Hnw) as Hgr. rewrite <- Hv in Hgr.
  assert (fresh_slot o (kview k') (mkSlot SubReactor_init c o false [] [] : Slot)) as Hfs.
  { split; [done|done|done|]. cbn. rewrite Hv. by apply view_channel_ok. }
  pose proof (slots_grow v0 0 w _ Ho Hgr Hsl) as Hsl'.
  split; cbn; [|by etrans|destruct (listening_grows _ _ _ Hgr Hli); by split|by rewrite length_app, Hlen, Nat.add_comm| |done].
  - destruct Ho as [Hown Hrc Hp]. split; cbn; [|by apply Forall_app; split; [|apply Forall_singleton; eapply fresh_ok]|done].
    eapply (own_new _ _ _ [m_readFd c; m_writeFd c]); [exact Hown|by apply new_pair|by rewrite Hv; cbn; set_solver|].
    unfold ServerStartInv.owned. cbn. rewrite fmap_app, concat_app. cbn. rewrite !app_assoc.
    apply (Permutation_app_comm _ [m_readFd c; m_writeFd c]).
  - intros i t Hi. apply lookup_app_Some in Hi as [Ht|[Hle Ht]]; [by apply (Hsl' i)|].
    destruct (i - _)%nat; [|done]. by cbn in Ht; simplify_eq.
Qed.
End stages.
