(* ===== verification/ServerStartRunning.v ===== *)
(** * The stages of the start: the threads of the sub-reactors, the sweeper *)

From S2P Require Import Prelude PriorityQueue KVStore ServerMetrics Poller SubReactor SubReactorInv EventLoop ReactorEvents ReactorTheorems TcpServer ReactorInterface Posix ScopedFd SocketUtil WakeupChannel PollerFactory ServerStart ServerSlots ServerStartInv ServerStartSteps ServerStartStages.
From stdpp Require Import sets gmap.
#[local] Open Scope Z_scope.

Section running.
Context {K : Type} `{!PosixConstants, !Posix K, !PosixLaws K}.
Context {Q : Type} `{!PriorityQueue ExpirationRecord Q}
  `{!PriorityQueueLaws ExpirationRecord Q ExpirationCompare}.
Context {P : Type} `{!Poller P, !PollerLaws P, !PollerFactory K P, !PollerFactoryLaws K P}.
Context (strerror : Z -> string) (host : bytes) (port sweepInterval : Z).
Context (o : NetworkOptions) (ro : ReactorOptions) (stopWakeup : WakeupChannel).
Context (schedule : nat -> Z -> list (list round_input)) (last : nat -> Z -> list round_input).
(** The threads begin at [now]; they are given answers in order of time. *)
Context (now : TimePoint).
Hypothesis Hoptions : options_ok o.
Hypothesis Hschedule : forall i cfd, schedule_ok o now (schedule i) (last i) cfd.

Abbreviation Slot := (slot (Q := Q) (P := P)).
Abbreviation Process := (server_process (K := K) (Q := Q) (P := P)).
Implicit Types (t : Slot) (w : Process) (v : kernel_view).
Abbreviation view w := (kview (pr_kernel w)).
Abbreviation owned := (owned (K := K)).
Abbreviation Stage := (Stage o stopWakeup).

Definition with_slot (w : Process) (i : nat) (k : K) t : Process :=
  w <| pr_kernel := k |> <| pr_server ::= fun s => s <| m_subReactors ::= <[i := t]> |> |>.

Lemma on_slot_wp (m : M (K * Slot) unit) i w t (Q' : unit -> Process -> Prop) E :
  m_subReactors (pr_server w) !! i = Some t ->
  wp m (fun _ st => Q' tt (with_slot w i st.1 st.2)) (fun f st => E f (with_slot w i st.1 st.2)) (pr_kernel w, t) ->
  wp (on_slot i m) Q' E w.
Proof.
  intros Hi Hm. unfold wp in *. unfold on_slot. rewrite Hi.
  by destruct (m (pr_kernel w, t)) as [[[]|f] [k t']].
Qed.

(** What the sub-reactor has made is owned by the server. *)
Lemma owns_slot v0 w i t k t' :
  Owns v0 w -> m_subReactors (pr_server w) !! i = Some t -> m_poller (sl_reactor t) = None ->
  slot_step (view w) t (k, t') -> Owns v0 (with_slot w i k t').
Proof.
  intros [Hown Hrc Hp] Hi Hnone (new & Hnew & Ho & Hfds & Hc & Ht). split; [|by apply Forall_insert|done].
  eapply own_new; [exact Hown|exact Hnew|exact Ho|]. unfold ServerStartInv.owned. cbn.
  assert (slot_fds (K := K) t' ≡ₚ new ++ slot_fds (K := K) t) as Hsl.
  { unfold slot_fds. cbn [fst snd] in *. rewrite Hfds, Hc, Hnone. cbn [ServerStartInv.opt_fds].
    rewrite app_nil_r. by rewrite Permutation_app_comm. }
  rewrite (concat_insert _ _ _ _ _ _ Hi Hsl). rewrite !(app_assoc _ (opt_fds _)).
  apply Permutation_app_swap_app.
Qed.

Lemma start_one_wp v0 n i w :
  (i < n)%nat -> Stage v0 n i w ->
  wp (on_slot i (SubReactor_Start strerror ro (schedule i) (last i)))
     (fun _ w' => Stage v0 n (Datatypes.S i) w') (aborted v0) w.
Proof.
  intros Hin [Ho Hg Hli Hlen Hsl Hrest].
  destruct (lookup_lt_is_Some_2 (m_subReactors (pr_server w)) i) as [t Ht]; [lia|].
  pose proof (Hsl i t Ht) as Hfs. rewrite (proj2 (Nat.ltb_ge i i)) in Hfs by lia.
  assert (m_poller (sl_reactor t) = None) as Hnone by (by destruct Hfs as [-> _ _ _]).
  pose proof (slot_fds_owned _ _ _ Ht) as Hsub.
  assert (forall fd, fd ∈ slot_fds (K := K) t -> fd ∈ kv_open (view w)) as Hopen.
  { intros fd Hfd. eapply own_elem; [apply Ho|by apply Hsub]. }
  eapply on_slot_wp; [exact Ht|]. eapply wp_mono; [apply (start_wp strerror o ro Hoptions (schedule i) (last i) now (pr_kernel w) t Hfs)| |].
  - apply Hopen. unfold slot_fds. set_solver.
  - apply Hopen. unfold slot_fds. set_solver.
  - apply Hschedule.
  - intros _ [k t'] (Hstep & Hgr & Hrun). cbn [fst snd] in *. pose proof (owns_slot _ _ _ _ _ _ Ho Ht Hnone Hstep) as Hown.
    pose proof (slots_grow o v0 i w _ Ho Hgr Hsl) as Hsl'.
    split; [done|by etrans|destruct (listening_grows _ _ _ _ Hgr Hli); by split|by cbn; rewrite length_insert| |done].
    intros j u Hj. cbn in Hj. destruct (decide (j = i)) as [->|Hne].
    + rewrite list_lookup_insert_eq in Hj by lia. simplify_eq.
      rewrite (proj2 (Nat.ltb_lt i (Datatypes.S i))) by lia. done.
    + rewrite list_lookup_insert_ne in Hj by done. specialize (Hsl' j u Hj). cbn [pr_kernel with_slot].
      replace (j <? Datatypes.S i)%nat with (j <? i)%nat; [done|].
      destruct (Nat.ltb_spec j i), (Nat.ltb_spec j (Datatypes.S i)); lia || done.
  - intros f [k t'] [Hstep He]. split; [by eapply owns_slot|done].
Qed.

Lemma reactors_wp v0 w :
  Stage v0 0 0 w ->
  wp (Run_reactors strerror o ro schedule last)
     (fun _ w' => let n := Z.to_nat (subReactorCount ro) in Stage v0 n n w') (aborted v0) w.
Proof.
  intros Hst. unfold Run_reactors. apply wp_bind. eapply wp_mono.
  - apply (wp_for_seq (fun i w => Stage v0 i 0 w)); [done|]. intros i w' _ Hi. by apply push_reactor_wp.
  - intros [] w' Hw. cbn beta in Hw. apply wp_bind, wp_gets. rewrite (sg_length _ _ _ _ _ _ Hw).
    apply (wp_for_seq (fun i w => Stage v0 _ i w)); [done|]. intros i w1 Hi H1. by apply start_one_wp.
  - done.
Qed.

(** ** The server after the start *)

(** It runs, as configured. *)
Record Started (v0 : kernel_view) w : Prop := mkStarted {
  sd_owns : Owns v0 w;
  sd_listening : Listening stopWakeup (view w) (pr_server w);
  sd_count : Z.of_nat (length (m_subReactors (pr_server w))) = subReactorCount ro;
  sd_slots : Forall (running_slot o (view w)) (m_subReactors (pr_server w));
  sd_state : t_state (pr_server w) = Running;
  sd_flags : t_stopRequested (pr_server w) = false /\ m_forceStopSent (pr_server w) = false /\
    m_nextSubReactorIndex (pr_server w) = 0;
  sd_sweeping : pr_sweeping w = (0 <? sweepInterval);
}.

Lemma sweeper_wp v0 w :
  1 <= subReactorCount ro -> t_state (pr_server w) = Running ->
  (let n := Z.to_nat (subReactorCount ro) in Stage v0 n n (w <| pr_server ::= fun s => s <| t_state := Created |> |>)) ->
  wp (StartSweeper strerror sweepInterval) (fun _ w' => Started v0 w') (aborted v0) w.
Proof.
  intros Hc Hrun [[Hown Hrc Hp] Hg [Hli] Hlen Hsl Hrest]. cbn in Hown, Hrc, Hp, Hg, Hli, Hlen, Hrest. destruct Hrest as (_ & ? & ? & ? & Hsw).
  assert (Owns v0 w) as Ho by done.
  assert (Forall (running_slot o (view w)) (m_subReactors (pr_server w))) as Hall.
  { apply Forall_lookup. intros i t Ht. specialize (Hsl i t Ht).
    rewrite (proj2 (Nat.ltb_lt _ _)) in Hsl; [done|]. rewrite <- Hlen. by eapply lookup_lt_Some. }
  unfold StartSweeper. destruct (sweepInterval <=? 0) eqn:Hz.
  { apply wp_ret. split; try done; [lia|]. rewrite Hsw. lia. }
  apply wp_bind, wp_gets. rewrite Hsw. apply wp_bind. unfold in_kernel. apply wp_zoom, wp_call. intros r k Hk.
  pose proof (thread_create_law (pr_kernel w)) as Hv. rewrite Hk in Hv. cbn in Hv.
  destruct r as [[]|e].
  - apply wp_modify. split; cbn; rewrite ?Hv; try done; [|lia|lia]. split; cbn; [by rewrite Hv|done|done].
  - apply wp_fail. split; [|by eexists]. split; cbn; [by rewrite Hv|done|done].
Qed.

Lemma startup_wp k :
  1 <= subReactorCount ro ->
  wp (Run_startup strerror host port sweepInterval o ro stopWakeup schedule last)
     (fun _ w => Started (kview k) w) (aborted (kview k)) (mkServerProcess k TcpServer_init false).
Proof.
  intros Hc. unfold Run_startup. apply wp_bind. eapply wp_mono; [apply listen_wp| |done].
  intros [] w Hw. apply wp_bind. eapply wp_mono; [by apply reactors_wp| |done].
  intros [] w' Hw'. unfold in_server. apply wp_bind, wp_zoom, wp_modify. cbn.
  apply sweeper_wp; [done|done|]. destruct Hw' as [[? ? ?] ? [] ? Hsl (? & ? & ? & ? & ?)].
  split; [by split|done|by split|done|exact Hsl|done].
Qed.
End running.
