(* ===== verification/ServerStartAbort.v ===== *)
(** * The ends of the server: everything is given back

    The threads of the sub-reactors are waited for, the sub-reactors, the poller
    and the listening socket destroyed. *)

From S2P Require Import Prelude PriorityQueue KVStore KVStoreSpec ServerMetrics Poller SubReactor EventLoop ReactorEvents ReactorInv TcpServer ReactorInterface ServerShutdown ServerLedger Posix ScopedFd SocketUtil WakeupChannel PollerFactory ServerStart ServerSlots ServerStartInv ServerStartSteps ServerStartStages ServerStartRunning.
From stdpp Require Import sets gmap.
#[local] Open Scope Z_scope.

Section abort.
Context {K : Type} `{!PosixConstants, !Posix K, !PosixLaws K}.
Context {Q : Type} `{!PriorityQueue ExpirationRecord Q}
  `{!PriorityQueueLaws ExpirationRecord Q ExpirationCompare}.
Context {P : Type} `{!Poller P, !PollerLaws P, !PollerFactory K P, !PollerFactoryLaws K P}.

Abbreviation Slot := (slot (Q := Q) (P := P)).
Abbreviation Process := (server_process (K := K) (Q := Q) (P := P)).
Implicit Types (t : Slot) (w : Process) (v : kernel_view) (k : K) (s : TcpServer Slot P).
Abbreviation view w := (kview (pr_kernel w)).
Abbreviation owned := (owned (K := K)).
Abbreviation slot_fds := (slot_fds (K := K)).

(** ** The destructors *)

(** [m] closes [fds]. *)
Definition closes (m : M K unit) (fds : list Z) : Prop :=
  forall k, wp m (fun _ k' => kv_open (kview k') = kv_open (kview k) ∖ list_to_set fds) no_fail k.

Lemma closes_nil : closes (mret tt) [].
Proof. intros k. apply wp_ret. cbn. set_solver. Qed.

Lemma closes_bind m1 m2 l1 l2 : closes m1 l1 -> closes m2 l2 -> closes (m1;; m2) (l1 ++ l2).
Proof.
  intros H1 H2 k. apply wp_bind. eapply wp_mono; [apply H1| |done]. intros [] k1 Hk1.
  eapply wp_mono; [apply H2| |done]. intros [] k2 Hk2. rewrite Hk2, Hk1, list_to_set_app_L. set_solver.
Qed.

Lemma closes_one fd : closes (call (sys_close fd);; mret tt) [fd].
Proof.
  intros k. apply wp_bind, wp_call. intros r k' Hk. apply wp_ret.
  pose proof (close_law k fd) as Hlaw. rewrite Hk in Hlaw. cbn in Hlaw. rewrite Hlaw. cbn. set_solver.
Qed.

Lemma closes_for_each {A} (l : list A) (f : A -> M K unit) (g : A -> list Z) :
  (forall x, x ∈ l -> closes (f x) (g x)) -> closes (for_each l f) (concat (g <$> l)).
Proof.
  induction l as [|x l IH]; intros Hf; [apply closes_nil|]. cbn [for_each fmap list_fmap concat].
  apply closes_bind; [apply Hf; set_solver|]. apply IH. intros y Hy. apply Hf. set_solver.
Qed.

Lemma closes_all fds : closes (close_all fds) fds.
Proof.
  replace fds with (concat ((fun fd => [fd]) <$> fds)) at 2 by (induction fds; cbn; congruence).
  apply closes_for_each. intros fd _. apply closes_one.
Qed.

Lemma closes_proper m l l' : closes m l -> l ≡ₚ l' -> closes m l'.
Proof.
  intros Hm Hp k. assert (list_to_set l =@{gset Z} list_to_set l') as <- by (apply leibniz_equiv; by rewrite Hp).
  apply Hm.
Qed.

Lemma closes_poller (p : option P) :
  closes (match p with Some p => factory_destroy p | None => mret tt end) (opt_fds (K := K) p).
Proof. destruct p as [p|]; [intros k; apply destroy_law|apply closes_nil]. Qed.

Lemma slot_destroy t : sl_joinable t = false -> closes (SubReactor_destroy t) (slot_fds t).
Proof.
  intros Hj. unfold SubReactor_destroy. rewrite Hj. eapply closes_proper.
  - apply closes_bind; [apply closes_all|]. apply closes_bind; [apply closes_poller|apply closes_nil].
  - unfold ServerStartInv.slot_fds. cbn. rewrite app_nil_r. apply perm_swap.
Qed.

Lemma destroy_members_ok s :
  Forall (fun t => sl_joinable t = false) (m_subReactors s) -> closes (destroy_members s) (owned s).
Proof.
  intros Hall. unfold destroy_members, ServerStartInv.owned.
  apply closes_bind; [apply closes_all|]. apply closes_bind; [apply closes_poller|].
  apply closes_for_each. intros t Ht. rewrite Forall_forall in Hall. by apply slot_destroy, Hall.
Qed.

(** ** The threads *)

(** Waiting for its thread ends. *)
Definition may_join t : Prop :=
  rc_ok t /\ (sl_joinable t = true -> m_state (sl_reactor t) = Stopped \/ rc_forced t = true).

(** What waiting leaves. *)
Definition waited t : Slot := (SubReactor_Join t).2.

Lemma waited_ok t : may_join t -> SubReactor_Join t = (Ret tt, waited t) /\ joined (poller_fds (K := K)) t (waited t).
Proof. intros [Hok Hend]. unfold waited. by destruct (join_ok (poller_fds (K := K)) t Hok Hend) as (t' & -> & Hj). Qed.

Lemma joined_fds t t' : joined (poller_fds (K := K)) t t' -> slot_fds t' = slot_fds t.
Proof. intros [Hc Hp _ _ _]. unfold ServerStartInv.slot_fds. by rewrite Hc, (opt_fds_fmap _ _ Hp). Qed.

Lemma join_all_eq w :
  Forall may_join (m_subReactors (pr_server w)) ->
  JoinSubReactors w = (Ret tt, w <| pr_server ::= fun s => s <| m_subReactors ::= fmap waited |> |>).
Proof.
  intros Hall. unfold JoinSubReactors, in_server, zoom. rewrite (for_reactors_eq may_join waited); [done|done|].
  intros i t s Ht Hj. unfold try_catch. by rewrite (on_reactor_eq i _ tt t) by (done || by rewrite (proj1 (waited_ok t Hj))).
Qed.

(** The server holds what it held. *)
Lemma own_owned v0 v s (g : Slot -> Slot) :
  Own v0 v (owned s) -> Forall (fun t => slot_fds (g t) = slot_fds t) (m_subReactors s) ->
  Own v0 v (owned (s <| m_subReactors ::= fmap g |>)).
Proof.
  intros Hown Hg. unfold ServerStartInv.owned in *. cbn. rewrite <- list_fmap_compose.
  rewrite (proj1 (Forall_fmap_ext (slot_fds ∘ g) slot_fds (m_subReactors s)) Hg). exact Hown.
Qed.

(** Everything is held by sub-reactors that run no more. *)
Record Ended (v0 : kernel_view) w : Prop := mkEnded {
  en_own : Own v0 (view w) (owned (pr_server w));
  en_poller p : t_poller (pr_server w) = Some p -> poller_ok p;
  en_joined : Forall (fun t => sl_joinable t = false) (m_subReactors (pr_server w));
  en_sweeping : pr_sweeping w = false;
  en_balanced : Balanced (pr_server w);
}.

Lemma join_wp v0 w :
  Owns v0 w -> Balanced (pr_server w) -> Forall may_join (m_subReactors (pr_server w)) -> pr_sweeping w = false ->
  wp JoinSubReactors (fun _ w' => Ended v0 w') no_fail w.
Proof.
  intros [Hown _ Hp] Hb Hall Hsw. eapply wp_intro; [by apply join_all_eq|]. split; [|exact Hp| |exact Hsw|].
  - eapply own_owned; [exact Hown|]. eapply Forall_impl; [exact Hall|]. intros t Ht. by apply joined_fds, waited_ok.
  - cbn. apply Forall_fmap. eapply Forall_impl; [exact Hall|]. intros t Ht. apply (waited_ok t Ht).
  - apply balanced_fmap; [exact Hb|]. eapply Forall_impl; [exact Hall|]. intros t Ht. apply (jn_given _ _ _ (proj2 (waited_ok t Ht))).
Qed.

Lemma force_and_join_wp v0 w :
  Owns v0 w -> Balanced (pr_server w) -> pr_sweeping w = false ->
  wp ForceStopAndJoinSubReactors (fun _ w' => Ended v0 w') no_fail w.
Proof.
  intros [Hown Hok Hp] Hb Hsw. unfold ForceStopAndJoinSubReactors, in_server. apply wp_bind, wp_zoom.
  eapply wp_intro; [by apply force_catch_eq|]. apply join_wp; [| | |done].
  - split; [| |exact Hp].
    + eapply own_owned; [exact Hown|]. eapply Forall_impl; [exact Hok|]. intros t Ht.
      apply same_object_fds, (calls_same (poller_fds (K := K)) t).
    + cbn. apply Forall_fmap. eapply Forall_impl; [exact Hok|]. intros t Ht. exact (lo_ok _ _ (proj1 (proj2 (force_stop_law t Ht)))).
  - apply balanced_fmap; [exact Hb|]. eapply Forall_impl; [exact Hok|]. intros t Ht. apply (force_stop_law t Ht).
  - cbn. apply Forall_fmap. eapply Forall_impl; [exact Hok|]. intros t Ht.
    destruct (force_stop_law t Ht) as (_ & Hl & Hf & _). split; [exact (lo_ok _ _ Hl)|]. by right.
Qed.

(** ** The whole handler *)

Lemma remove_keeps_fds cfd :
  keeps (fun s : TcpServer Slot P => opt_fds (K := K) (t_poller s)) (CleanupMainReactor_remove cfd).
Proof.
  assert (forall fd, keeps (fun s : TcpServer Slot P => opt_fds (K := K) (t_poller s)) (server_poller (poller_Remove fd))) as Hr.
  { intros fd s. unfold server_poller. destruct (t_poller s) as [p|] eqn:Hp; [|by cbn; rewrite Hp].
    pose proof (remove_fds fd p) as Hk. by destruct (poller_Remove fd p). }
  unfold CleanupMainReactor_remove. repeat first [apply Hr|keeps_step].
Qed.

(** Nothing is left. *)
Record Undone (v0 : kernel_view) w : Prop := mkUndone {
  un_open : kv_open (view w) = kv_open v0;
  un_state : t_state (pr_server w) = Stopped;
  un_listen : m_listenFd (pr_server w) = None;
  un_poller : t_poller (pr_server w) = None;
  un_reactors : m_subReactors (pr_server w) = [];
  un_sweeping : pr_sweeping w = false;
  un_settled : Settled (pr_server w);
}.

Context (stopWakeup : WakeupChannel).

(** What the destructors of the sub-reactors close is what these were given. *)
Lemma clients_closed_given s : concat (clients_closed <$> m_subReactors s) ≡ₚ given s.
Proof.
  unfold given. induction (m_subReactors s) as [|t l IH]; [done|]. cbn [fmap list_fmap concat]. rewrite IH.
  apply Permutation_app_tail. unfold clients_closed. cbn. unfold descriptors. done.
Qed.

Lemma cleanup_in_wp v0 w :
  Ended v0 w ->
  wp (CleanupMainReactor_in stopWakeup)
     (fun _ w' => Undone v0 (w' <| pr_server ::= fun s => s <| t_state := Stopped |> |>)) no_fail w.
Proof.
  intros [Hown Hp Hall Hsw Hb]. unfold CleanupMainReactor_in, in_server, in_kernel. apply wp_bind, wp_zoom.
  pose proof (remove_keeps_fds (m_readFd stopWakeup) (pr_server w)) as Hfds.
  pose proof (cleanup_remove_wp (m_readFd stopWakeup) (pr_server w) Hp) as Hrem. unfold wp in Hrem |- * at 1.
  destruct (CleanupMainReactor_remove (m_readFd stopWakeup) (pr_server w)) as [[[]|f] s1]; [|done].
  destruct Hrem as [q ->]. cbn in Hfds. apply wp_bind, wp_gets, wp_bind, wp_zoom. cbn [pr_server].
  eapply wp_mono; [by apply destroy_members_ok| |done]. intros [] k Hk.
  assert (owned ((pr_server w) <| t_poller := q |>) = owned (pr_server w)) as Howned.
  { unfold ServerStartInv.owned. cbn. by rewrite Hfds. }
  change (kv_open (kview k) = kv_open (view w) ∖ list_to_set (owned ((pr_server w) <| t_poller := q |>))) in Hk.
  rewrite Howned in Hk.
  assert (kv_open (kview k) = kv_open v0) as Hopen.
  { apply own_nil. eapply own_close; [exact Hown| |exact Hk]. by rewrite app_nil_r. }
  destruct Hb as (lfds & Hlen & Hnone & Hb). rewrite (Permutation_app_comm (t_closes _)), <- clients_closed_given in Hb.
  apply wp_bind, wp_zoom, wp_modify, wp_zoom. unfold CleanupMainReactor_reset. apply wp_bind, wp_gets, wp_bind. cbn.
  destruct (m_listenFd (pr_server w)) as [lfd|] eqn:Hl.
  - apply wp_bind, wp_modify, wp_modify, wp_bind, wp_modify, wp_modify. split; try done.
    rewrite (Hnone (ex_intro _ lfd eq_refl)) in Hb. exists [lfd]. split; [done|]. cbn. by rewrite Hb.
  - apply wp_ret, wp_bind, wp_modify, wp_modify. split; try done. by exists lfds.
Qed.

Lemma abort_wp v0 e w :
  Owns v0 w -> Balanced (pr_server w) ->
  wp (Run_abort stopWakeup e) (fun _ _ => False) (fun f w' => f = Throw e /\ Undone v0 w') w.
Proof.
  intros Ho Hb. unfold Run_abort, StopSweeper. apply wp_bind, wp_modify, wp_bind.
  eapply wp_mono; [apply (force_and_join_wp v0)| |done]; [by destruct Ho; split|done..|].
  intros [] w1 He. apply wp_bind. eapply wp_mono; [by apply cleanup_in_wp| |done].
  intros [] w2 Hu. unfold in_server. by apply wp_bind, wp_zoom, wp_modify, wp_fail.
Qed.

Lemma finish_wp v0 w :
  Owns v0 w -> Balanced (pr_server w) -> Forall may_join (m_subReactors (pr_server w)) ->
  wp (Run_finish stopWakeup) (fun _ w' => Undone v0 w') no_fail w.
Proof.
  intros Ho Hb Hall. unfold Run_finish, StopSweeper. apply wp_bind, wp_modify, wp_bind.
  eapply wp_mono; [apply (join_wp v0)| |done]; [by destruct Ho; split|done..|].
  intros [] w1 He. apply wp_bind. eapply wp_mono; [by apply cleanup_in_wp| |done].
  intros [] w2 Hu. unfold in_server. by apply wp_zoom, wp_modify.
Qed.
End abort.
