(* ===== verification/ServerStartTheorems.v ===== *)
(** * The start of the server is all or nothing *)

From S2P Require Import Prelude PriorityQueue KVStore KVStoreSpec ServerMetrics Poller PollerTheorems SubReactor SubReactorInv SubReactorTheorems EventLoop ReactorFrame ReactorEvents ReactorTheorems TcpServer ReactorInterface ServerAccept ServerShutdown ServerLedger Posix ScopedFd SocketUtil WakeupChannel PollerFactory ServerStart ServerSlots ServerStartInv ServerStartSteps ServerStartRunning ServerStartAbort.
From stdpp Require Import sets gmap.
#[local] Open Scope Z_scope.

Section theorems.
Context {K : Type} `{!PosixConstants, !Posix K, !PosixLaws K}.
Context {Q : Type} `{!PriorityQueue ExpirationRecord Q}
  `{!PriorityQueueLaws ExpirationRecord Q ExpirationCompare}.
Context {P : Type} `{!Poller P, !PollerLaws P, !PollerFactory K P, !PollerFactoryLaws K P}.

Abbreviation Process := (server_process (K := K) (Q := Q) (P := P)).

(** ** Nobody is accepted before the loop *)

Definition books (w : Process) : list Z * list Z * list Z :=
  (t_accepts (pr_server w), t_closes (pr_server w), given (pr_server w)).

Abbreviation taken := (fun st : K * slot (Q := Q) (P := P) => rc_given st.2).

Ltac books_step := first
  [ progress cbv zeta | solve [eauto with keeps nocore] | apply for_each_keeps | keeps_step
  | apply keeps_zoom; intros; reflexivity ].

Lemma in_reactor_keeps {A} (m : M (SubReactor Q P) A) : keeps rc_given m -> keeps taken (in_reactor (K := K) m).
Proof.
  intros Hm. apply (keeps_zoom_in _ rc_given); [done|done|]. by apply (keeps_zoom_in _ rc_given).
Qed.
#[local] Hint Resolve in_reactor_keeps : keeps.

Lemma on_poller_taken {A} (m : M P A) : keeps (rc_given (T := SubReactor Q P)) (on_poller m).
Proof. intros s. unfold on_poller. destruct (m_poller s) as [p|]; [|done]. by destruct (m p). Qed.
#[local] Hint Resolve on_poller_taken : keeps.

Lemma SubReactor_Start_taken strerror ro schedule last : keeps taken (SubReactor_Start (K := K) strerror ro schedule last).
Proof.
  assert (forall st, keeps (rc_given (T := SubReactor Q P)) (PublishState st)) as Hpub by done.
  unfold SubReactor_Start, SubReactor_Start_undo, reset_poller. repeat books_step.
Qed.

Lemma on_slot_books {A} i (m : M (K * slot) A) : keeps taken m -> keeps books (on_slot i m).
Proof.
  intros Hm w. unfold on_slot. destruct (m_subReactors (pr_server w) !! i) as [t|] eqn:Ht; [|done].
  specialize (Hm (pr_kernel w, t)). destruct (m _) as [r [k t']]. cbn in *. unfold books, given. cbn.
  rewrite list_fmap_insert, list_insert_id; [done|]. rewrite list_lookup_fmap, Ht. by apply (f_equal Some).
Qed.

Lemma push_reactor_books strerror o : keeps books (push_reactor (K := K) (Q := Q) (P := P) strerror o).
Proof.
  intros w. unfold push_reactor, in_kernel, in_server, SubReactor_new, zoom. cbv [mbind M_bind].
  destruct (WakeupChannel_new strerror (pr_kernel w)) as [[c|f] k]; [|done]. unfold books, given. cbn.
  by rewrite fmap_app, concat_app, app_nil_r.
Qed.

Lemma startup_books strerror host port sweepInterval o ro stopWakeup schedule last :
  keeps books (Run_startup strerror host port sweepInterval o ro stopWakeup schedule last).
Proof.
  assert (forall A (m : M P A), keeps (fun s : TcpServer (slot (Q := Q) (P := P)) P => (t_accepts s, t_closes s, given s))
    (server_poller m)) as Hp.
  { intros A m s. unfold server_poller. destruct (t_poller s) as [p|]; [|done]. by destruct (m p). }
  assert (forall A (m : M (TcpServer _ P) A), keeps (fun s => (t_accepts s, t_closes s, given s)) m -> keeps books (in_server (K := K) m)) as Hs.
  { intros A m Hm. by apply (keeps_zoom_in _ (fun s => (t_accepts s, t_closes s, given s))). }
  unfold Run_startup, Run_listen, Run_reactors, StartSweeper, in_kernel.
  repeat first [apply on_slot_books, SubReactor_Start_taken|apply push_reactor_books|apply Hs|apply Hp|books_step].
Qed.

Lemma books_balanced (w : Process) : books w = ([], [], []) -> Balanced (pr_server w).
Proof. unfold books. intros Hb. by apply balanced_new; injection Hb. Qed.

(** The server that has started is one the theorems on its rounds apply to. *)
Lemma started_ok sweepInterval o ro stopWakeup v0 (w : Process) :
  1 <= subReactorCount ro < U64_MOD -> Started sweepInterval o ro stopWakeup v0 w -> ServerOK (pr_server w).
Proof.
  intros Hc [Ho [(p & lfd & Hp & Hok & Hl & _)] Hlen Hsl Hst (_ & Hf & Hn) _]. split; rewrite ?Hst; try done.
  - by exists p.
  - unfold index_ok, zlen. rewrite Hn, Hlen. split_and!; [lia..|]. apply (ow_slots _ _ Ho).
  - intros _. rewrite Hl. split_and!; [by eexists|done|]. eapply Forall_impl; [exact Hsl|].
    intros t [_ _ _ (q & Hr & _) _]. cbn. by rewrite Hr.
  - congruence.
Qed.

(** C25. Starting the server is all or nothing. Either [Run] reaches its loop with
    a running server whose listening socket is non-blocking, closed on [exec] and
    watched together with the stop channel, with the configured number of
    sub-reactors, each with its thread and its own poller watching its own
    channel, and with the sweeper if it is configured, every descriptor of them
    new and distinct; or something throws, and then [Run] passes the exception on
    and leaves no thread running and exactly the descriptors open that were open
    before, whatever the threads that had begun did meanwhile. *)
Theorem startup_all_or_nothing strerror host port sweepInterval o ro stopWakeup schedule last now
    shutdown inputs (k : K) :
  1 <= subReactorCount ro < U64_MOD -> options_ok o ->
  (forall i controlFd, schedule_ok o now (schedule i) (last i) controlFd) ->
  let start : Process := mkServerProcess k TcpServer_init false in
  match Run_startup strerror host port sweepInterval o ro stopWakeup schedule last start with
  | (Ret _, w) => Started sweepInterval o ro stopWakeup (kview k) w /\ ServerOK (pr_server w)
  | (Fail f, _) => exists e w', f = Throw e /\
      Run strerror host port sweepInterval o ro stopWakeup schedule last shutdown inputs start = (Fail (Throw e), w') /\
      Undone (kview k) w'
  end.
Proof.
  intros Hc Hopt Hsched start.
  pose proof (startup_wp strerror host port sweepInterval o ro stopWakeup schedule last now Hopt Hsched k (proj1 Hc)) as Hs.
  pose proof (startup_books strerror host port sweepInterval o ro stopWakeup schedule last start) as Hbooks.
  unfold Run. fold start in Hs |- *. unfold wp in Hs.
  destruct (Run_startup strerror host port sweepInterval o ro stopWakeup schedule last start) as [[[]|f] w] eqn:Hrun.
  { split; [done|by eapply started_ok]. }
  destruct Hs as (Ho & e & ->). pose proof (abort_wp stopWakeup (kview k) e w Ho (books_balanced w Hbooks)) as Ha.
  exists e. cbv [mbind M_bind gets]. cbn beta iota. change (t_state (pr_server start)) with Created.
  cbn [bool_decide negb]. unfold try_catch. rewrite bool_decide_eq_true_2 by done. cbn [negb]. rewrite Hrun.
  unfold wp in Ha. destruct (Run_abort stopWakeup e w) as [[[]|f] w']; [done|].
  destruct Ha as [-> Hu]. by exists w'.
Qed.
End theorems.

(** ** A concrete start *)

#[local] Instance example_poller : Poller (AnyPoller (E := gmap Z Z)) := AnyPoller_poller example_ctl 1 4 8192.
#[local] Instance example_factory : PollerFactory sim (AnyPoller (E := gmap Z Z)) := AnyPoller_factory ∅ true.

Lemma example_ctl_documented : ctl_documented example_ctl id.
Proof. intros op fd ev k. unfold example_ctl, id. destruct (fd =? 7); [reflexivity|]. by destruct op. Qed.

#[local] Instance example_poller_laws : PollerLaws (AnyPoller (E := gmap Z Z)) :=
  AnyPoller_laws example_ctl 1 4 8192 id example_ctl_documented.
#[local] Instance example_factory_laws : PollerFactoryLaws sim (AnyPoller (E := gmap Z Z)) :=
  AnyPoller_factory_laws example_ctl ∅ 1 4 8192 true id example_ctl_documented eq_refl.

(** A round that sees the channel of its sub-reactor, and nothing else. *)
Definition example_wakeup (controlFd : Z) : round_input :=
  example_round [(mkReadyEvent controlFd 1, example_io [] 0)] 0.

Definition example_start (script : list Z) : server_process (K := sim) (Q := sorted_queue ExpirationCompare) (P := AnyPoller (E := gmap Z Z)) :=
  mkServerProcess (sim_init script) TcpServer_init false.

(** Every thread is woken once before it is called for the first time, and in the
    end. *)
Definition example_schedule (i : nat) (controlFd : Z) : list (list round_input) := [[example_wakeup controlFd]].
Definition example_last (i : nat) (controlFd : Z) : list round_input := [example_wakeup controlFd].

Definition example_run (n : Z) : M (server_process (K := sim) (Q := sorted_queue ExpirationCompare) (P := AnyPoller (E := gmap Z Z))) unit :=
  Run no_strerror (lit "127.0.0.1") 6379 100 NetworkOptions_default (mkReactorOptions PB_Auto n) example_channel
    example_schedule example_last ShutdownOptions_default [].

Lemma example_wakes controlFd : wakes controlFd (example_wakeup controlFd).
Proof. intros timeout. eexists. split; [done|]. cbn. by rewrite Z.eqb_refl. Qed.

Lemma example_schedule_ok i controlFd :
  schedule_ok NetworkOptions_default 0 (example_schedule i) (example_last i) controlFd.
Proof.
  split; [|left; apply example_wakes]. cbn [example_schedule example_last concat app fmap list_fmap history_ok].
  do 2 (eexists _, 0; split;
    [apply example_round_ok; [repeat constructor; by eexists _, _|vm_compute; discriminate|vm_compute; reflexivity]|]).
  exact I.
Qed.

(** One sub-reactor can be started; the poller of the second refuses its
    descriptor, 7, and then all is given back. *)
Lemma startup_all_or_nothing_witness :
  (exists w, Run_startup no_strerror (lit "127.0.0.1") 6379 100 NetworkOptions_default (mkReactorOptions PB_Auto 1)
       example_channel example_schedule example_last (example_start []) = (Ret tt, w) /\
     Started 100 NetworkOptions_default (mkReactorOptions PB_Auto 1) example_channel (sim_view (sim_init [])) w /\
     ServerOK (pr_server w) /\ kv_open (sim_view (pr_kernel w)) = {[0; 1; 2; 3; 4; 5; 6; 7]}) /\
  (exists w, example_run 2 (example_start [])
       = (Fail (Throw (runtime_error "epoll_ctl EPOLL_CRL_ADD failed")), w) /\
     Undone (sim_view (sim_init [])) w /\ kv_open (sim_view (pr_kernel w)) = {[0; 1; 2]}).
Proof.
  pose proof (fun n Hn => startup_all_or_nothing (P := AnyPoller (E := gmap Z Z)) no_strerror (lit "127.0.0.1") 6379 100
    NetworkOptions_default (mkReactorOptions PB_Auto n) example_channel example_schedule example_last 0
    ShutdownOptions_default [] (sim_init []) Hn default_options_ok example_schedule_ok) as Hok.
  split.
  - assert (1 <= 1 < U64_MOD) as H1 by (split; [lia|vm_compute; reflexivity]). specialize (Hok 1 H1). cbn zeta in Hok. unfold example_start.
    match type of Hok with match ?run with _ => _ end => destruct run as [[[]|f] w] eqn:Hrun end;
      [|apply (f_equal fst) in Hrun; vm_compute in Hrun; discriminate Hrun].
    exists w. destruct Hok as [Hs HS]. split_and!; [reflexivity|exact Hs|exact HS|].
    apply (f_equal (fun r => kv_open (sim_view (pr_kernel r.2)))) in Hrun. cbn [snd] in Hrun. rewrite <- Hrun.
    vm_compute. reflexivity.
  - assert (1 <= 2 < U64_MOD) as H2 by (split; [lia|vm_compute; reflexivity]). specialize (Hok 2 H2). cbn zeta in Hok.
    match type of Hok with match ?run with _ => _ end => destruct run as [[[]|f] w] eqn:Hrun end;
      [apply (f_equal fst) in Hrun; vm_compute in Hrun; discriminate Hrun|].
    destruct Hok as (e & w' & -> & Hr & Hu). exists w'.
    assert (e = runtime_error "epoll_ctl EPOLL_CRL_ADD failed") as ->.
    { apply (f_equal fst) in Hrun. vm_compute in Hrun. by injection Hrun as <-. }
    split_and!; [exact Hr|exact Hu|]. exact (un_open _ _ Hu).
Defined.
