(* ===== verification/ServerRun.v ===== *)
(** * The whole of [TcpServer::Run]: nothing is left

    The rounds of the main loop keep track of what the server holds, while the
    threads of its sub-reactors run; whether the loop ends or throws, the end of
    [Run] then gives everything back. *)

From S2P Require Import Prelude PriorityQueue KVStore KVStoreSpec FrameCodec ServerMetrics Poller PollerTheorems SubReactor SubReactorInv SubReactorTheorems EventLoop ReactorFrame ReactorEvents ReactorInv ReactorTheorems TcpServer ReactorInterface ServerAccept ServerShutdown ServerLedger Posix ScopedFd SocketUtil WakeupChannel PollerFactory ServerStart ServerSlots ServerStartInv ServerStartSteps ServerStartRunning ServerStartAbort ServerStartTheorems.
From stdpp Require Import sets gmap.
#[local] Open Scope Z_scope.

Section run.
Context {K : Type} `{!PosixConstants, !Posix K, !PosixLaws K}.
Context {Q : Type} `{!PriorityQueue ExpirationRecord Q}
  `{!PriorityQueueLaws ExpirationRecord Q ExpirationCompare}.
Context {P : Type} `{!Poller P, !PollerLaws P, !PollerFactory K P, !PollerFactoryLaws K P}.
Context (o : NetworkOptions) (shutdown : ShutdownOptions) (stopWakeup : WakeupChannel).
Hypothesis Hbudget : 0 <= maxAcceptsPerEvent o < U64_MOD.

Abbreviation Slot := (slot (Q := Q) (P := P)).
Abbreviation Process := (server_process (K := K) (Q := Q) (P := P)).
Implicit Types (t : Slot) (w : Process) (v : kernel_view) (s : TcpServer Slot P).
Abbreviation view w := (kview (pr_kernel w)).
Abbreviation owned := (owned (K := K)).
Abbreviation slot_fds := (slot_fds (K := K)).
Abbreviation opt_fds := (opt_fds (K := K)).

(** ** What a round lets go *)

(** The server holds what it held, but for the listening socket. *)
Record lets_go s s' : Prop := mkLetsGo {
  lg_poller : opt_fds (t_poller s') = opt_fds (t_poller s);
  lg_slots : slot_fds <$> m_subReactors s' = slot_fds <$> m_subReactors s;
  lg_listen : m_listenFd s' = m_listenFd s \/ m_listenFd s' = None;
}.

#[local] Instance lets_go_preorder : PreOrder lets_go.
Proof.
  split; [intros s; split; auto|]. intros s1 s2 s3 [E1 E2 H1] [E3 E4 H2].
  split; [congruence|congruence|]. destruct H2 as [->|?]; [done|by right].
Qed.

Lemma lets_go_poller {A} (m : M P A) : keeps (poller_fds (K := K)) m -> within lets_go (server_poller m).
Proof.
  intros Hm s. unfold server_poller. destruct (t_poller s) as [p|] eqn:Hp; [|done].
  specialize (Hm p). destruct (m p) as [r p']. cbn in *. split; cbn; [by rewrite Hp; cbn|done|by left].
Qed.

Lemma lets_go_reactor {A} i (m : M Slot A) :
  (forall t, same_object (poller_fds (K := K)) t (m t).2) -> within lets_go (on_reactor (P := P) i m).
Proof.
  intros Hm s. unfold on_reactor. destruct (m_subReactors s !! i) as [t|] eqn:Ht; [|done].
  specialize (Hm t). destruct (m t) as [r t']. cbn in *. split; cbn; [done| |by left].
  rewrite list_fmap_insert, list_insert_id; [done|]. rewrite list_lookup_fmap, Ht.
  apply (f_equal Some). symmetry. by apply same_object_fds.
Qed.

Lemma lets_go_modify (f : TcpServer Slot P -> TcpServer Slot P) : (forall s, lets_go s (f s)) -> within lets_go (modify f).
Proof. done. Qed.

Ltac go_step := first
  [ progress cbv zeta
  | apply within_bind; [apply _| |intros] | apply within_when; [apply _|] | apply within_try_catch; [apply _| |intros]
  | apply within_for_each; [apply _|intros]
  | apply lets_go_poller, remove_fds
  | apply lets_go_reactor; intros; apply (calls_same (poller_fds (K := K)))
  | apply lets_go_modify; intros; split; cbn; (reflexivity || (left; reflexivity) || (right; reflexivity))
  | by apply within_pure
  | match goal with |- within _ (match ?x with _ => _ end) => destruct x end ].

Lemma accept_lets_go answers n : within lets_go (AcceptNewClients_loop (P := P) o n answers).
Proof.
  revert n. induction answers as [|[fd ok|e] answers IH]; intros n; cbn [AcceptNewClients_loop];
    unfold server_close; repeat first [apply IH|go_step].
Qed.

Lemma begin_lets_go now : within lets_go (BeginGracefulShutdown (T := Slot) (P := P) shutdown now).
Proof. unfold BeginGracefulShutdown, for_reactors, checked_i64, server_close. repeat go_step. Qed.

Lemma body_lets_go i : within lets_go (Run_body (T := Slot) (P := P) o shutdown (m_readFd stopWakeup) i).
Proof.
  assert (forall l, within lets_go (all_stopped (T := Slot) (P := P) l)) as Hall.
  { induction l as [|j l IH]; cbn [all_stopped]; repeat first [apply IH|go_step]. }
  assert (forall now l, within lets_go (check_health (T := Slot) (P := P) shutdown now l)) as Hhealth.
  { intros now. induction l as [|j l IH]; cbn [check_health]; repeat first [apply IH|apply begin_lets_go|go_step]. }
  unfold Run_body, CheckSubReactorHealth, CheckShutdownProgress, accept_event, AcceptNewClients, for_reactors.
  repeat first [apply Hall|apply Hhealth|apply begin_lets_go|apply accept_lets_go|go_step].
Qed.

(** ** A round of the process *)

(** It runs, and holds exactly what it has made. *)
Record Serves (v0 : kernel_view) w : Prop := mkServes {
  se_owns : Owns v0 w;
  se_ok : ServerOK (pr_server w);
  se_balanced : Balanced (pr_server w);
}.

(** The listening socket is closed if the round gave it up. *)
Lemma close_reset_wp v0 w s' :
  Owns v0 w -> lets_go (pr_server w) s' -> Forall rc_ok (m_subReactors s') ->
  (forall p, t_poller s' = Some p -> poller_ok p) ->
  wp (close_reset (m_listenFd (pr_server w))) (fun _ w' => Owns v0 w' /\ pr_server w' = s') no_fail
    (w <| pr_server := s' |>).
Proof.
  intros [Hown _ _] [Hp Hs Hl] Hok Hpo. unfold close_reset. apply wp_bind, wp_gets. set (w1 := w <| pr_server := s' |>).
  cbn beta. change (m_listenFd (pr_server w1)) with (m_listenFd s').
  assert (forall w', pr_server w' = s' -> Own v0 (view w') (owned s') -> Owns v0 w') as Hend.
  { intros w' <- Ho. by split. }
  assert (forall l, m_listenFd s' = l -> owned s' = (match l with Some fd => [fd] | None => [] end) ++
    opt_fds (t_poller (pr_server w)) ++ concat (slot_fds <$> m_subReactors (pr_server w))) as Howned.
  { intros l <-. unfold ServerStartInv.owned. by rewrite Hp, Hs. }
  destruct (m_listenFd (pr_server w)) as [fd|] eqn:Hfd.
  - destruct Hl as [Hl|Hl]; rewrite Hl.
    + apply wp_ret. split; [|done]. apply Hend; [done|]. rewrite (Howned _ Hl). unfold ServerStartInv.owned in Hown.
      by rewrite Hfd in Hown.
    + unfold in_kernel. apply wp_zoom. eapply wp_mono; [apply closes_one| |done]. intros [] k Hk.
      split; [|done]. apply Hend; [done|]. rewrite (Howned _ Hl).
      eapply (own_close _ _ _ [fd]); [exact Hown| |exact Hk]. unfold ServerStartInv.owned. by rewrite Hfd.
  - assert (m_listenFd s' = None) as Hl' by (by destruct Hl). apply wp_ret. split; [|done].
    apply Hend; [done|]. rewrite (Howned _ Hl'). unfold ServerStartInv.owned in Hown. by rewrite Hfd in Hown.
Qed.

Lemma main_round_wp v0 i w :
  Serves v0 w -> input_ok o shutdown i ->
  wp (main_round o stopWakeup shutdown i) (fun _ w' => Serves v0 w')
     (fun f w' => (exists e, f = Throw e) /\ Owns v0 w' /\ Balanced (pr_server w')) w.
Proof.
  intros [Ho HS Hb] Hi. unfold main_round. apply wp_bind, wp_gets.
  pose proof (body_accounts o shutdown (m_readFd stopWakeup) i _ (conj (sv_index _ HS) Hb)) as [_ Hb'].
  pose proof (round_body_wp o shutdown (m_readFd stopWakeup) Hbudget i _ HS Hi) as Hwp.
  pose proof (body_lets_go i (pr_server w)) as Hgo. unfold wp in Hwp |- *. unfold finally, in_server at 1, zoom.
  destruct (Run_body o shutdown (m_readFd stopWakeup) i (pr_server w)) as [r s']. cbn [snd] in Hgo, Hb'.
  assert (Forall rc_ok (m_subReactors s') /\ (forall p, t_poller s' = Some p -> poller_ok p)) as [Hrc Hpo].
  { destruct r as [[]|f]; [|destruct Hwp as (_ & (p & Hp & Hpo) & Hrc); split; [done|congruence]].
    destruct Hwp as [[(p & Hp & Hpo) (_ & _ & Hrc) _ _ _ _ _] _ _ _ _ _ _]. split; [done|congruence]. }
  pose proof (close_reset_wp v0 w s' Ho Hgo Hrc Hpo) as Hc. unfold wp in Hc.
  destruct (close_reset _ _) as [[[]|f'] w']; [|done]. destruct Hc as [Ho' <-]. cbn [snd].
  destruct r as [[]|f]; [split; [done|apply (sr_ok _ _ _ _ Hwp)|done]|]. split; [|done]. apply Hwp.
Qed.

(** ** The loop and its end *)

Lemma main_loop_wp v0 inputs w :
  Serves v0 w -> Forall (input_ok o shutdown) inputs ->
  wp (main_loop o stopWakeup shutdown inputs) (fun _ w' => Serves v0 w' /\ t_state (pr_server w') = Stopped)
     (fun f w' => (f = OutOfFuel /\ Serves v0 w' /\ t_state (pr_server w') <> Stopped) \/
        (exists e, f = Throw e) /\ Owns v0 w' /\ Balanced (pr_server w')) w.
Proof.
  intros Hw Hin. revert w Hw. induction Hin as [|i inputs Hi Hin IH]; intros w Hw; cbn [main_loop];
    apply wp_bind, wp_gets; case_bool_decide as Hst; try by apply wp_ret.
  - apply wp_fail. by left.
  - apply wp_bind. eapply wp_mono; [by apply main_round_wp| |]; [|by right]. intros [] w'. apply IH.
Qed.

(** A server that has stopped can be waited for. *)
Lemma stopped_may_join v0 w :
  Serves v0 w -> t_state (pr_server w) = Stopped -> Forall may_join (m_subReactors (pr_server w)).
Proof.
  intros [[_ Hrc _] HS _] Hst. pose proof (sv_stopped _ HS Hst) as Hall.
  eapply Forall_impl; [apply Forall_and; split; [exact Hrc|exact Hall]|]. intros t [Ht Hs]. split; [exact Ht|].
  intros Hj. left. destruct (Ht Hj) as [_ (n & now & HR & _) _]. cbn in Hs.
  rewrite bool_decide_eq_true in Hs. by rewrite <- (core_published _ _ _ _ (ro_core _ _ _ _ HR)).
Qed.

Lemma run_wp strerror host port sweepInterval ro schedule last now inputs (k : K) :
  1 <= subReactorCount ro < U64_MOD -> options_ok o ->
  (forall i controlFd, schedule_ok o now (schedule i) (last i) controlFd) ->
  Forall (input_ok o shutdown) inputs ->
  wp (Run strerror host port sweepInterval o ro stopWakeup schedule last shutdown inputs)
    (fun _ w => Undone (kview k) w)
    (fun f w => ((exists e, f = Throw e) /\ Undone (kview k) w) \/
       f = OutOfFuel /\ Serves (kview k) w /\ t_state (pr_server w) <> Stopped)
    (mkServerProcess k TcpServer_init false).
Proof.
  intros Hc Hopt Hsched Hin. unfold Run. apply wp_bind, wp_gets. cbn [pr_server t_state TcpServer_init].
  rewrite bool_decide_eq_true_2 by done. cbn [negb]. apply wp_bind, wp_try_catch, wp_bind. eapply wp_mono;
    [apply (wp_within (fun w w' => books w' = books w)); [apply startup_books|];
     apply (startup_wp strerror host port sweepInterval o ro stopWakeup schedule last now); [done|done|lia]| |].
  2: { intros f w [(Ho & e & ->) Hb]. eapply wp_mono; [by apply abort_wp, books_balanced|done|].
       intros f w' [-> Hu]. left. by split; [eexists|]. }
  intros [] w [Hst Hb]. assert (Serves (kview k) w) as Hw.
  { split; [apply Hst|by eapply started_ok|by apply books_balanced]. }
  eapply wp_mono; [by apply main_loop_wp| |].
  - intros [] w' [Hw' Hst']. apply (wp_mono _ (fun _ w => Undone (kview k) w) _ no_fail); [|done|done].
    apply finish_wp; [apply Hw'..|by eapply stopped_may_join].
  - intros f w' [(-> & ? & ?)|([e ->] & Ho & Hb')]; [by right|].
    eapply wp_mono; [by apply abort_wp|done|]. intros f w2 [-> Hu]. left. by split; [eexists|].
Qed.

(** C26. The whole of [Run] gives back everything it took. Whatever its sub-reactors'
    threads do between two calls of the main thread, whatever the rounds of the
    main loop see, and wherever an exception is thrown, when [Run] returns or
    throws the server is stopped, no thread of it runs, it has neither a poller
    nor a listening socket nor sub-reactors, exactly the descriptors are open that
    were open when it was called, and every client descriptor that [accept] returned
    has been closed exactly once, with at most one other, the listening socket; and
    it does nothing else, but for running on when it has seen all its rounds and has
    not stopped, in a consistent state in which those accounts are balanced. *)
Theorem run_gives_everything_back strerror host port sweepInterval ro schedule last now inputs (k : K) :
  1 <= subReactorCount ro < U64_MOD -> options_ok o ->
  (forall i controlFd, schedule_ok o now (schedule i) (last i) controlFd) ->
  Forall (input_ok o shutdown) inputs ->
  match Run strerror host port sweepInterval o ro stopWakeup schedule last shutdown inputs
          (mkServerProcess k TcpServer_init false) with
  | (Ret _, w) => Undone (kview k) w
  | (Fail (Throw _), w) => Undone (kview k) w
  | (Fail f, w) => f = OutOfFuel /\ Serves (kview k) w /\ t_state (pr_server w) <> Stopped
  end.
Proof.
  intros Hc Hopt Hsched Hin.
  pose proof (run_wp strerror host port sweepInterval ro schedule last now inputs k Hc Hopt Hsched Hin) as Hwp.
  unfold wp in Hwp. destruct (Run _ _ _ _ _ _ _ _ _ _ _ _) as [[[]|f] w]; [done|].
  destruct Hwp as [[[e ->] Hu]|(-> & ? & ?)]; done.
Qed.
End run.

(** ** A server that serves one client and stops *)

#[local] Existing Instance example_poller.
#[local] Existing Instance example_factory.
#[local] Existing Instance example_poller_laws.
#[local] Existing Instance example_factory_laws.

(** The client, whose descriptor is 10, sends a request; its answer is sent. *)
Definition example_serving : list round_input :=
  [example_round [(mkReadyEvent 10 IoEvent_Read, example_io (frame (lit "PING")) 0)] 0].
Definition example_sending : list round_input :=
  [example_round [(mkReadyEvent 10 IoEvent_Write, example_io [] 9)] 0].

(** The thread takes the client, and answers, before it is told to stop; then it
    sees the stop and sends the answer. *)
Definition serving_schedule (i : nat) (controlFd : Z) : list (list round_input) :=
  [[]; []; example_wakeup controlFd :: example_serving; example_wakeup controlFd :: example_sending].

Definition example_server_round (events : list (ReadyEvent * list accept_answer)) : server_input :=
  mkServerInput (fun _ => Ret events) (Ret tt) 0 0 0 0.

(** The listening socket, 5, is ready; then the stop channel, 3. *)
Definition example_server_rounds : list server_input :=
  [example_server_round [(mkReadyEvent 5 IoEvent_Read, [Accepted 10 true; AcceptError EAGAIN])];
   example_server_round [(mkReadyEvent 3 IoEvent_Read, [AcceptError EAGAIN])]; example_server_round []].

Lemma serving_schedule_ok i controlFd :
  schedule_ok NetworkOptions_default 0 (serving_schedule i) (example_last i) controlFd.
Proof.
  split; [|left; apply example_wakes].
  cbn [serving_schedule example_last concat app fmap list_fmap history_ok example_serving example_sending].
  do 5 (eexists _, 0; split;
    [apply example_round_ok; [repeat constructor; by eexists _, _|vm_compute; discriminate|vm_compute; reflexivity]|]).
  exact I.
Qed.

Lemma example_server_round_ok events :
  Forall (answers_ok NetworkOptions_default) events ->
  input_ok NetworkOptions_default ShutdownOptions_default (example_server_round events).
Proof.
  intros Hev. split; [|by left|split; vm_compute; discriminate|split; vm_compute; discriminate].
  intros timeout. right. by exists events.
Qed.

Lemma example_server_rounds_ok :
  Forall (input_ok NetworkOptions_default ShutdownOptions_default) example_server_rounds.
Proof.
  repeat (apply Forall_cons_2; [apply example_server_round_ok|]); try apply Forall_nil_2.
  all: repeat apply Forall_cons_2; try apply Forall_nil_2; eexists; vm_compute; reflexivity.
Qed.

(** It returns, having closed the socket, 5, and the client once each. *)
Lemma run_gives_everything_back_witness :
  exists w : server_process (K := sim) (Q := sorted_queue ExpirationCompare) (P := AnyPoller (E := gmap Z Z)),
    Run no_strerror (lit "127.0.0.1") 6379 100 NetworkOptions_default (mkReactorOptions PB_Poll 1) example_channel
      serving_schedule example_last ShutdownOptions_default example_server_rounds
      (mkServerProcess (example_kernel []) TcpServer_init false) = (Ret tt, w) /\
    Undone (kview (example_kernel [])) w /\ t_accepts (pr_server w) = [10] /\ t_closes (pr_server w) = [10; 5].
Proof.
  pose proof (run_gives_everything_back (P := AnyPoller (E := gmap Z Z)) NetworkOptions_default ShutdownOptions_default
    example_channel ltac:(split; vm_compute; (discriminate || reflexivity)) no_strerror (lit "127.0.0.1") 6379 100
    (mkReactorOptions PB_Poll 1) serving_schedule example_last 0 example_server_rounds (example_kernel [])
    ltac:(split; vm_compute; (discriminate || reflexivity)) default_options_ok serving_schedule_ok
    example_server_rounds_ok) as Hok.
  match type of Hok with match ?run with _ => _ end => destruct run as [[[]|f] w] eqn:Hrun end.
  - exists w. split; [reflexivity|]. split; [exact Hok|].
    pose proof (f_equal (fun r => t_accepts (pr_server r.2)) Hrun) as Ha.
    pose proof (f_equal (fun r => t_closes (pr_server r.2)) Hrun) as Hc. cbn [snd] in Ha, Hc.
    rewrite <- Ha, <- Hc. vm_compute. split; reflexivity.
  - apply (f_equal fst) in Hrun. vm_compute in Hrun. discriminate Hrun.
Defined.
