(* ===== verification/ServerMain.v ===== *)
(** * The server program (app/server_main.cpp)

    [main]: the usage text, the configuration, the line that shows it, the log
    level, the server object and the signal handler, which live in scopes of
    their own and are destroyed in the reverse order whatever happens. The state
    is everything the program can touch: the kernel and the server, the
    dispositions of its signals, the logger and its two outputs. *)

From S2P Require Import Prelude PriorityQueue KVStore KVStoreSpec CommandExecutor Poller PollerTheorems SubReactor SubReactorInv SubReactorTheorems EventLoop ReactorEvents ReactorTheorems TcpServer ReactorInterface ServerAccept ServerShutdown ServerLedger Logger AppConfig CommandLine ConfigLoader ConfigTheorems Posix ScopedFd SocketUtil WakeupChannel SignalHandler PollerFactory ServerStart ServerSlots ServerStartInv ServerStartSteps ServerStartAbort ServerStartTheorems ServerRun.
From stdpp Require Import sets gmap.
#[local] Open Scope Z_scope.

Section server_main.
Context {K : Type} `{!PosixConstants, !Posix K}.
Context {Q : Type} `{!PriorityQueue ExpirationRecord Q}.
Context {P : Type} `{!Poller P, !PollerFactory K P}.
Context {Node Table : Type} `{HT : Toml Node Table}.
Context (strerror : Z -> string) (hardware_concurrency : Z).
(** What the threads and the main loop will see. *)
Context (schedule : nat -> Z -> list (list round_input)) (last : nat -> Z -> list round_input).
Context (inputs : list server_input).

Record program := mkProgram {
  pg_server : server_process (K := K) (Q := Q) (P := P);
  pg_signals : process;
  pg_logger : Logger;
  (** [std::cout] and [std::cerr] *)
  pg_out : bytes;
  pg_err : bytes;
}.
#[export] Instance program_settable : Settable program := fun w =>
  {| pg_server := pg_server w; pg_signals := pg_signals w; pg_logger := pg_logger w;
     pg_out := pg_out w; pg_err := pg_err w |}.

Definition print_out (text : bytes) : M program unit := modify (fun w => w <| pg_out ::= fun out => out ++ text |>).
Definition print_err (text : bytes) : M program unit := modify (fun w => w <| pg_err ::= fun err => err ++ text |>).

Definition usage (name : bytes) : bytes :=
  lit "Usage: " ++ name ++ lit " [options]" ++ newline ++ newline ++
  lit "Options:" ++ newline ++
  lit "  -c, --config <path>       Configuration file" ++ newline ++
  lit "      --host <address>      Listen address" ++ newline ++
  lit "      --port <port>         Listen port" ++ newline ++
  lit "      --poller <backend>    auto|poll|epoll" ++ newline ++
  lit "      --sub-reactors <n>    0=auto, 1-16=explicit" ++ newline ++
  lit "      --log-level <level>   debug|info|warn|error" ++ newline ++
  lit "  -h, --help                Show this help" ++ newline.

Definition PrintUsage (name : bytes) : M program unit := print_out (usage name).

(** ** The server object *)

Definition WakeupChannel_destroy (c : WakeupChannel) : M K unit := close_all [m_writeFd c; m_readFd c].

(** The constructor: its only member with a constructor of its own that can throw
    is [m_stopWakeup]. *)
Definition TcpServer_new (config : AppConfig) : M K WakeupChannel :=
  m_stopWakeup ← WakeupChannel_new strerror;
  on_exception (lift (TcpServer_validate (network config) (reactor config))) (WakeupChannel_destroy m_stopWakeup);;
  mret m_stopWakeup.

Definition StopNotificationFd (m_stopWakeup : WakeupChannel) : Z := m_writeFd m_stopWakeup.

(** The destructor, and those of the members in reverse order; [fuel] bounds the
    interruptions of the notification. *)
Definition TcpServer_delete (fuel : nat) (m_stopWakeup : WakeupChannel) : M (server_process (K := K) (Q := Q) (P := P)) unit :=
  in_server TcpServer_Stop;;
  in_kernel (Notify fuel m_stopWakeup);;
  StopSweeper;;
  s ← gets pr_server;
  in_kernel (
    for_each (m_subReactors s) SubReactor_destroy;;
    WakeupChannel_destroy m_stopWakeup;;
    (match t_poller s with Some p => factory_destroy p | None => mret tt end);;
    close_all (match m_listenFd s with Some fd => [fd] | None => [] end)).

(** ** main *)

(** [server.Run()], with the signal handler. *)
Definition run_with_signals (config : AppConfig) (m_stopWakeup : WakeupChannel) : M program unit :=
  signals ← zoom pg_signals (TerminationSignalHandler_new strerror (StopNotificationFd m_stopWakeup));
  scope
    (zoom pg_server (Run strerror (host config) (port config) (sweepInterval config) (network config)
       (reactor config) m_stopWakeup schedule last (shutdown config) inputs))
    (zoom pg_signals (TerminationSignalHandler_destroy signals)).

Definition config_line (config : AppConfig) : bytes := lit "[Server Config Info]" ++ BuildConfigStr config ++ newline.

Definition main_body (fuel : nat) (argv : list bytes) : M program Z :=
  config ← lift (server_config hardware_concurrency argv);
  match config with
  | None => name ← argv_at argv 0; PrintUsage name;; mret 0
  | Some config =>
      print_out (config_line config);;
      zoom pg_logger (SetLevel (logLevel config));;
      m_stopWakeup ← zoom pg_server (in_kernel (TcpServer_new config));
      scope (run_with_signals config m_stopWakeup) (zoom pg_server (TcpServer_delete fuel m_stopWakeup));;
      mret 0
  end.

Definition error_line (e : exn) : bytes := lit "tinykv_server start error: " ++ lit (what_of e) ++ newline.
(** The error output holds what [main] itself writes; the lines of the logger, which
    go to the same stream, are left out. *)
Definition main_catch (e : exn) : M program Z := print_err (error_line e);; mret 1.

Definition main (fuel : nat) (argv : list bytes) : M program Z := try_catch (main_body fuel argv) main_catch.
(** ** How it ends *)

Context `{!PosixLaws K, !PriorityQueueLaws ExpirationRecord Q ExpirationCompare}.
Context `{!PollerLaws P, !PollerFactoryLaws K P, !TomlLaws Node Table}.

Abbreviation view w := (kview (pr_kernel (pg_server w))).
Implicit Types (w : program) (v : kernel_view).

(** The server object holds nothing but its channel, and no client is left. *)
Definition bare (w : server_process (K := K) (Q := Q) (P := P)) : Prop :=
  m_subReactors (pr_server w) = [] /\ t_poller (pr_server w) = None /\ m_listenFd (pr_server w) = None /\
  pr_sweeping w = false /\ Settled (pr_server w).

Lemma bare_init k : bare (mkServerProcess k TcpServer_init false).
Proof. split_and!; try done. exists []. by split; [cbn; lia|]. Qed.

(** The outputs and the logger of [w] are those of [w0]. *)
Definition quiet w0 w : Prop := pg_logger w = pg_logger w0 /\ pg_out w = pg_out w0 /\ pg_err w = pg_err w0.

(** Everything the scope of the server made is gone. *)
Record Clean w0 w : Prop := mkClean {
  cl_open : kv_open (view w) = kv_open (view w0);
  cl_bare : bare (pg_server w);
  cl_signals : same_dispositions (ps_disposition (pg_signals w)) (ps_disposition (pg_signals w0));
  cl_quiet : quiet w0 w;
}.

(** The calls on the table of signals that will fail: at most one, of those that
    the constructor of the handler makes. *)
Definition script_ok (p : process) : Prop :=
  G_NOTIFY_FD p = -1 /\
  (ps_script p = [] \/ exists n e, (n < 5)%nat /\ ps_script p = replicate n None ++ [Some e]).

Lemma undone_bare v (w : server_process (K := K) (Q := Q) (P := P)) : Undone v w -> bare w.
Proof. by intros []. Qed.

(** The server was found running when the rounds ended. *)
Definition runs_on (f : failure) w : Prop := f = OutOfFuel /\ t_state (pr_server (pg_server w)) <> Stopped.

Lemma run_with_signals_wp c ch now w :
  1 <= subReactorCount (reactor c) < U64_MOD -> options_ok (network c) ->
  0 <= maxAcceptsPerEvent (network c) < U64_MOD -> 0 <= m_writeFd ch ->
  (forall i controlFd, schedule_ok (network c) now (schedule i) (last i) controlFd) ->
  Forall (input_ok (network c) (shutdown c)) inputs ->
  (exists k, pg_server w = mkServerProcess k TcpServer_init false) -> script_ok (pg_signals w) ->
  wp (run_with_signals c ch) (fun _ w' => Clean w w')
    (fun f w' => ((exists e, f = Throw e) /\ Clean w w') \/ (forall e, f <> Throw e) /\ runs_on f w') w.
Proof.
  intros Hc Ho Ha Hfd Hs Hi [k Hk] [Hg Hscript]. unfold run_with_signals. apply wp_bind, wp_zoom.
  assert (pg_signals w = mkProcess (-1) (ps_disposition (pg_signals w)) (ps_script (pg_signals w))) as Hp.
  { destruct (pg_signals w). cbn in *. by subst. }
  destruct Hscript as [Hscript|(n & e & Hn & Hscript)]; rewrite Hscript in Hp.
  2: { destruct (install_fails strerror (StopNotificationFd ch) (ps_disposition (pg_signals w)) n e Hfd Hn)
         as (what & p & Hnew & Hd & _).
       unfold wp. rewrite Hp, Hnew. left. split; [by eexists|]. split; [done|change (bare (pg_server w)); rewrite Hk; apply bare_init|done|done]. }
  destruct (install_ok strerror (StopNotificationFd ch) (ps_disposition (pg_signals w)) Hfd)
    as (h & p & Hnew & _ & _ & p' & Hdel & _ & Hd).
  eapply wp_intro; [by rewrite Hp|]. set (w1 := w <| pg_signals := p |>).
  assert (Hrun := run_wp (network c) (shutdown c) ch Ha strerror (host c) (port c) (sweepInterval c) (reactor c)
    schedule last now inputs k Hc Ho Hs Hi).
  assert (forall w2, Undone (kview k) (pg_server w2) -> pg_signals w2 = p -> quiet w w2 ->
    wp (zoom pg_signals (TerminationSignalHandler_destroy h)) (fun _ w' => Clean w w') no_fail w2) as Hend.
  { intros w2 Hu Hsig Hq. apply wp_zoom. eapply wp_intro; [by rewrite Hsig|].
    split; [by rewrite Hk; apply (un_open _ _ Hu)|by eapply undone_bare|done|done]. }
  apply (wp_scope _ _ _ (fun w2 => Undone (kview k) (pg_server w2) /\ pg_signals w2 = p /\ quiet w w2)).
  { intros w2 (Hu & Hsig & Hq). by apply Hend. }
  apply wp_zoom. change (pg_server w1) with (pg_server w). rewrite Hk. eapply wp_mono; [exact Hrun|done|].
  intros f sp [[He Hu]|(-> & Hsv & Hst)]; [by left|]. by right.
Qed.

Lemma destroy_channel_closes c : closes (WakeupChannel_destroy c) [m_writeFd c; m_readFd c].
Proof. apply closes_all. Qed.

Lemma delete_wp fuel c (sp : server_process (K := K) (Q := Q) (P := P)) :
  bare sp -> (interrupts (pr_kernel sp) < fuel)%nat ->
  wp (TcpServer_delete fuel c)
     (fun _ sp' => kv_open (kview (pr_kernel sp')) = kv_open (kview (pr_kernel sp)) ∖ {[m_writeFd c; m_readFd c]} /\
        Settled (pr_server sp')) no_fail sp.
Proof.
  intros (Hs & Hp & Hl & Hsw & Hset) Hfuel. unfold TcpServer_delete, in_server, in_kernel, StopSweeper.
  apply wp_bind, wp_zoom, wp_modify, wp_bind, wp_zoom. eapply wp_mono; [by apply Notify_returns| |done].
  intros [] k Hk. apply wp_bind, wp_modify, wp_bind, wp_gets, wp_zoom. cbn. rewrite Hs, Hp, Hl.
  apply wp_bind, wp_ret, wp_bind. eapply wp_mono; [apply (destroy_channel_closes c)| |done]. intros [] k' Hk'.
  apply wp_bind, wp_ret. apply wp_ret. cbn in *. split; [|exact Hset]. rewrite Hk', Hk. f_equal. set_solver.
Qed.

(** The server object is made, and its channel with it. *)
Lemma TcpServer_new_wp c k :
  TcpServer_validate (network c) (reactor c) = Ret tt ->
  wp (TcpServer_new c)
     (fun ch k' => 0 <= m_writeFd ch /\ kv_open (kview k') ∖ {[m_writeFd ch; m_readFd ch]} = kv_open (kview k))
     (fun f k' => (exists e, f = Throw e) /\ kv_open (kview k') = kv_open (kview k)) k.
Proof.
  intros Hv. unfold TcpServer_new. apply wp_bind. pose proof (WakeupChannel_new_ok strerror k) as Hnew. unfold wp at 1.
  destruct (WakeupChannel_new strerror k) as [[ch|[[]| | |]] k']; try done; [|by split; [eexists|]].
  destruct Hnew as (_ & Hw & _ & Hnr & Hnw & Hk'). unfold wp, on_exception, lift, mbind, M_bind. rewrite Hv. cbn.
  split; [done|]. rewrite Hk'. cbn. set_solver.
Qed.

(** What [main] leaves: the descriptors and the dispositions it found, and no
    client. *)
Record Exits (w0 : program) (out err : bytes) w : Prop := mkExits {
  ex_open : kv_open (view w) = kv_open (view w0);
  ex_signals : same_dispositions (ps_disposition (pg_signals w)) (ps_disposition (pg_signals w0));
  ex_out : pg_out w = out;
  ex_err : pg_err w = err;
  ex_settled : Settled (pr_server (pg_server w));
}.

(** The program where it starts. *)
Record Begins w : Prop := mkBegins {
  bg_server : exists k, pg_server w = mkServerProcess k TcpServer_init false;
  bg_signals : script_ok (pg_signals w);
  bg_out : pg_out w = [];
  bg_err : pg_err w = [];
}.

(** What the threads and the main loop will see suits the configuration. *)
Definition environment_ok (now : TimePoint) (c : AppConfig) : Prop :=
  options_ok (network c) /\ Forall (input_ok (network c) (shutdown c)) inputs /\
  forall i controlFd, schedule_ok (network c) now (schedule i) (last i) controlFd.

(** The body for one configuration, once the outputs are written. *)
Lemma main_server_wp c now w :
  TcpServer_validate (network c) (reactor c) = Ret tt ->
  1 <= subReactorCount (reactor c) < U64_MOD -> 0 <= maxAcceptsPerEvent (network c) < U64_MOD ->
  environment_ok now c -> (exists k, pg_server w = mkServerProcess k TcpServer_init false) -> script_ok (pg_signals w) ->
  exists fuel0, forall fuel, (fuel0 <= fuel)%nat ->
    wp (m_stopWakeup ← zoom pg_server (in_kernel (TcpServer_new c));
        scope (run_with_signals c m_stopWakeup) (zoom pg_server (TcpServer_delete fuel m_stopWakeup));;
        mret 0)
      (fun code w' => code = 0 /\ Exits w (pg_out w) (pg_err w) w' /\ pg_logger w' = pg_logger w)
      (fun f w' => ((exists e, f = Throw e) /\ Exits w (pg_out w) (pg_err w) w' /\ pg_logger w' = pg_logger w) \/
         (forall e, f <> Throw e) /\ runs_on f w') w.
Proof.
  intros Hv Hc Ha (Ho & Hi & Hs) [k Hk] Hscript.
  pose proof (TcpServer_new_wp c k Hv) as Hnew. unfold wp in Hnew.
  destruct (TcpServer_new c k) as [[ch|f] k1] eqn:Hn.
  2: { exists 0%nat. intros fuel _. unfold wp, mbind at 1, M_bind at 1, zoom at 1, in_kernel, zoom at 1.
       rewrite Hk. cbn [pr_kernel]. rewrite Hn. left. destruct Hnew as [He Hopen]. split; [done|]. split; [|done].
       split; try done; [cbn; by rewrite Hopen, Hk|exact (proj2 (proj2 (proj2 (proj2 (bare_init k1)))))]. }
  destruct Hnew as [Hfd Hopen]. set (w2 := w <| pg_server := mkServerProcess k1 TcpServer_init false |>).
  pose proof (run_with_signals_wp c ch now w2 Hc Ho Ha Hfd Hs Hi (ex_intro _ k1 eq_refl) Hscript) as Hrun.
  exists (S (interrupts (pr_kernel (pg_server (run_with_signals c ch w2).2)))). intros fuel Hfuel.
  apply wp_bind. eapply wp_intro.
  { unfold zoom, in_kernel, zoom. rewrite Hk. cbn [pr_kernel]. rewrite Hn. done. }
  change (w <| pg_server := _ |>) with w2. apply wp_bind.
  assert (forall w', Clean w2 w' /\ (interrupts (pr_kernel (pg_server w')) < fuel)%nat ->
    wp (zoom pg_server (TcpServer_delete fuel ch))
       (fun _ w' => Exits w (pg_out w) (pg_err w) w' /\ pg_logger w' = pg_logger w) no_fail w') as Hdel.
  { intros w' [[Hop Hb Hsig (Hl & Hout & Herr)] Hlt]. apply wp_zoom.
    eapply wp_mono; [by apply delete_wp| |done]. intros [] sp [Hsp Hset]. split; [|done]. split; try done.
    cbn. rewrite Hsp, Hop. cbn. by rewrite Hopen, Hk. }
  eapply wp_mono; [apply (wp_scope _ _ _ _ runs_on _ Hdel)|intros [] w' Hw'; by apply wp_ret|done].
  unfold wp in Hrun |- *. destruct (run_with_signals c ch w2) as [[[]|f] w3]; cbn [snd] in *; [split; [done|lia]|].
  destruct Hrun as [[He Hcl]|Hro]; [left|by right]. split; [done|]. split; [done|lia].
Qed.

(** C39. The server program tidies up after itself. For any arguments and any
    configuration file, whichever calls of the kernel fail, whatever the clients
    do and the signals: it ends with the descriptors and the signal dispositions
    it found and every client it accepted closed exactly once. It prints the
    usage for a lone help option; it reports a bad configuration before it
    touches anything; otherwise it prints the line of the configuration it
    loaded, sets the log level to the one configured and serves, and an
    exception that ends the server early is reported. It ends with status 0
    exactly when [main] reported nothing; a sub-reactor that failed is reported
    by the logger only. The only alternative is a server that runs on. Of a
    configuration that is loaded this needs a low watermark below the high one,
    limits below 2^62 and deadlines of the shutdown that fit the clock
    ([environment_ok]), and of the table of signals that at most one of the
    calls that install the handlers fails ([script_ok]). *)
Theorem server_main_tidies_up now argv w :
  Begins w ->
  (forall c, server_config hardware_concurrency argv = Ret (Some c) -> environment_ok now c) ->
  exists fuel0, forall fuel, (fuel0 <= fuel)%nat ->
    match main fuel argv w with
    | (Ret code, w') => exists out err, Exits w out err w' /\
        match server_config hardware_concurrency argv with
        | Ret None => code = 0 /\ (exists name, argv !! 0%nat = Some name /\ out = usage name) /\ err = []
        | Ret (Some c) => out = config_line c /\ m_logLevel (pg_logger w') = level_int (logLevel c) /\
            (code = 0 /\ err = [] \/ code = 1 /\ exists e, err = error_line e)
        | Fail f => code = 1 /\ out = [] /\ exists e, f = Throw e /\ err = error_line e
        end
    | (Fail f, w') => runs_on f w'
    end.
Proof.
  intros [Hsp Hscript Hout Herr] Henv.
  assert (Settled (pr_server (pg_server w))) as Hset0 by (destruct Hsp as [k ->]; apply (bare_init k)).
  pose proof (server_config_ok hardware_concurrency argv) as Hcfg.
  assert (forall fuel (R : outcome Z * program -> Prop), match main_body fuel argv w with
     | (Fail (Throw e), w') => R (Ret 1, w' <| pg_err ::= fun err => err ++ error_line e |>)
     | r => R r
     end -> R (main fuel argv w)) as Hmain.
  { intros fuel R. unfold main, try_catch. by destruct (main_body fuel argv w) as [[|[]] ?]. }
  destruct (server_config hardware_concurrency argv) as [[c|]|f] eqn:Hc.
  - destruct Hcfg as (Hty & Hva & Hv). pose proof (ct_subs _ Hty) as [[_ ?] ?].
    set (w1 := w <| pg_out ::= fun out => out ++ config_line c |>
                 <| pg_logger ::= fun l => l <| m_logLevel := level_int (logLevel c) |> |>).
    destruct (main_server_wp c now w1 Hv) as [fuel0 Hrun];
      [lia|apply (ct_network _ Hty)|by apply Henv|exact Hsp|exact Hscript|].
    exists fuel0. intros fuel Hfuel. specialize (Hrun fuel Hfuel). apply Hmain.
    assert (main_body fuel argv w = (m_stopWakeup ← zoom pg_server (in_kernel (TcpServer_new c));
        scope (run_with_signals c m_stopWakeup) (zoom pg_server (TcpServer_delete fuel m_stopWakeup));;
        mret 0) w1) as ->.
    { unfold main_body. cbv [lift mbind M_bind]. by rewrite Hc. }
    unfold wp in Hrun. destruct ((_ ← zoom pg_server (in_kernel (TcpServer_new c)); _) w1) as [[code|f] w'].
    + destruct Hrun as (-> & [Ho Hs Hout' Herr' Hset] & Hlog). exists (config_line c), [].
      split; [split; [exact Ho|exact Hs|rewrite Hout'; cbn; by rewrite Hout|by rewrite Herr'|exact Hset]|].
      split; [done|]. split; [by rewrite Hlog|by left].
    + destruct Hrun as [([e ->] & [Ho Hs Hout' Herr' Hset] & Hlog)|[Hne Hro]].
      * exists (config_line c), (error_line e). split.
        { split; [exact Ho|exact Hs|cbn; rewrite Hout'; cbn; by rewrite Hout|cbn; rewrite Herr'; cbn; by rewrite Herr|exact Hset]. }
        split; [done|]. split; [cbn; by rewrite Hlog|]. right. split; [done|by eexists].
      * destruct f as [e| | |]; [by destruct (Hne e)|exact Hro..].
  - exists 0%nat. intros fuel _. apply Hmain. unfold main_body, argv_at. cbv [lift mbind M_bind]. rewrite Hc.
    destruct (argv !! 0%nat) as [name|] eqn:Hargv.
    2: { unfold NeedShowHelp, argc in Hcfg. by destruct argv. }
    cbn. exists (usage name), []. split; [split; [done|done|cbn; by rewrite Hout|done|done]|].
    split; [done|]. split; [by exists name|done].
  - destruct Hcfg as [e ->]. exists 0%nat. intros fuel _. apply Hmain. unfold main_body.
    cbv [lift mbind M_bind]. rewrite Hc. exists [], (error_line e).
    split; [split; [done|done|done|cbn; by rewrite Herr|done]|]. split; [done|]. split; [done|by exists e].
Qed.
End server_main.
(** ** A program that serves one client and stops *)

#[local] Existing Instance example_toml.
#[local] Existing Instance example_toml_laws.
#[local] Existing Instance example_poller.
#[local] Existing Instance example_factory.
#[local] Existing Instance example_poller_laws.
#[local] Existing Instance example_factory_laws.

Abbreviation Program := (program (K := sim) (Q := sorted_queue ExpirationCompare) (P := AnyPoller (E := gmap Z Z))).

Definition example_program (script : list (option Z)) : Program :=
  mkProgram (mkServerProcess (sim_init []) TcpServer_init false) (mkProcess (-1) (fun _ => sigaction_zero) script)
    Logger_init [] [].

Definition example_argv : list bytes :=
  lit <$> ["tinykv_server"; "--host"; "127.0.0.1"; "--poller=poll"; "--sub-reactors"; "1"; "--log-level=warn"]%string.

Definition example_main : nat -> list bytes -> M Program Z :=
  main no_strerror 12 serving_schedule example_last example_server_rounds.

Lemma example_program_begins script :
  (script = [] \/ exists n e, (n < 5)%nat /\ script = replicate n None ++ [Some e]) -> Begins (example_program script).
Proof. intros Hs. split; [by eexists|by split|done|done]. Qed.

Lemma example_environment c :
  server_config 12 example_argv = Ret (Some c) -> environment_ok serving_schedule example_last example_server_rounds 0 c.
Proof.
  intros Hc. assert (network c = NetworkOptions_default /\ shutdown c = ShutdownOptions_default) as [Hn Hs].
  { vm_compute in Hc. injection Hc as <-. done. }
  unfold environment_ok. rewrite Hn, Hs. split_and!; [exact default_options_ok|exact example_server_rounds_ok|].
  exact serving_schedule_ok.
Qed.

(** The program ends with status 0 when no call fails, and with status 1 and a
    message when the disposition of SIGTERM cannot be changed; either way with
    the three descriptors and the dispositions it had. *)
Lemma server_main_tidies_up_witness :
  (exists fuel w', example_main fuel example_argv (example_program []) = (Ret 0, w') /\
     kv_open (sim_view (pr_kernel (pg_server w'))) = {[0; 1; 2]} /\ pg_err w' = [] /\
     m_logLevel (pg_logger w') = level_int LL_Warn) /\
  (exists fuel w', example_main fuel example_argv (example_program [None; None; None; Some 22]) = (Ret 1, w') /\
     kv_open (sim_view (pr_kernel (pg_server w'))) = {[0; 1; 2]}).
Proof.
  pose proof (fun script Hs => server_main_tidies_up no_strerror 12 serving_schedule example_last example_server_rounds 0
    example_argv (example_program script) (example_program_begins script Hs) example_environment) as Hmain.
  split.
  - destruct (Hmain [] (or_introl eq_refl)) as [fuel0 Hm]. specialize (Hm (10 + fuel0)%nat ltac:(lia)).
    exists (10 + fuel0)%nat. unfold example_main.
    match type of Hm with match ?run with _ => _ end => destruct run as [[code|f] w'] eqn:Hrun end;
      [|apply (f_equal fst) in Hrun; vm_compute in Hrun; discriminate Hrun].
    assert (code = 0) as ->. { apply (f_equal fst) in Hrun. vm_compute in Hrun. by injection Hrun as <-. }
    destruct Hm as (out & err & [Ho _ _ He _] & Hcase). exists w'. split; [reflexivity|]. split; [exact Ho|].
    assert (server_config 12 example_argv = Ret (Some (AppConfig_default <| host := lit "127.0.0.1" |> <| reactor := mkReactorOptions PB_Poll 1 |>
      <| logLevel := LL_Warn |>))) as Hc by (vm_compute; reflexivity).
    rewrite Hc in Hcase. destruct Hcase as (_ & Hl & [[_ ->]|[Hcode _]]); [|discriminate Hcode]. split; [exact He|exact Hl].
  - destruct (Hmain [None; None; None; Some 22]) as [fuel0 Hm].
    { right. exists 3%nat, 22. split; [lia|reflexivity]. }
    specialize (Hm (10 + fuel0)%nat ltac:(lia)). exists (10 + fuel0)%nat. unfold example_main.
    match type of Hm with match ?run with _ => _ end => destruct run as [[code|f] w'] eqn:Hrun end;
      [|apply (f_equal fst) in Hrun; vm_compute in Hrun; discriminate Hrun].
    assert (code = 1) as ->. { apply (f_equal fst) in Hrun. vm_compute in Hrun. by injection Hrun as <-. }
    destruct Hm as (out & err & [Ho _ _ _ _] & _). exists w'. split; [reflexivity|exact Ho].
Defined.
