(* ===== verification/ClientMain.v ===== *)
(** * The client program (app/client_main.cpp)

    [main]: the two arguments, the connection, the exchange of [Client] on it.
    The state is the kernel, what is behind the connected socket together with
    what was printed, and the error output. *)

From S2P Require Import Prelude FrameCodec CommandParser CommandGrammar CommandExecutor CommandTheorems CommandLine PriorityQueue KVStore KVStoreInv KVStoreSweep KVStoreSpec RequestSpec Client ClientSession Posix ScopedFd SocketUtil ServerStart.
From stdpp Require Import sets gmap.
#[local] Open Scope Z_scope.

(** [std::stoi] in base ten: white space, a sign, digits; what follows them is
    ignored. *)
Definition stoi (s : bytes) : outcome Z :=
  let s := drop_while IsSpace s in
  let '(neg, s) :=
    match s with
    | c :: r =>
        if bool_decide (c = "-"%char) then (true, r) else if bool_decide (c = "+"%char) then (false, r) else (false, s)
    | [] => (false, s)
    end in
  let ds := take_while IsDigit s in
  if bool_decide (ds = []) then Fail (Throw (invalid_argument "stoi")) else
  let v := if neg then - decimal ds else decimal ds in
  if (INT_MIN <=? v) && (v <=? INT_MAX) then Ret v else Fail (Throw (out_of_range "stoi")).

(** A scope whose body returns or throws; the destructor does not fail. *)
Lemma wp_scope_left {S A} (m : M S A) d (Q : A -> S -> Prop) (E : failure -> S -> Prop) s :
  wp m (fun a s => wp d (fun _ s' => Q a s') no_fail s)
    (fun f s => exists e, f = Throw e /\ wp d (fun _ s' => E f s') no_fail s) s ->
  wp (scope m d) Q E s.
Proof.
  unfold wp, scope, on_exception, mbind, M_bind. destruct (m s) as [[a|f] s1].
  - by destruct (d s1) as [[[]|g] s2].
  - intros (e & -> & Hd). by destruct (d s1) as [[[]|g] s2].
Qed.

Section client_main.
Context {K : Type} `{!PosixConstants, !Posix K}.
Context {W : Type} `{!Socket W}.
Context (strerror : Z -> string).

Record client_program := mkClientProgram {
  cp_kernel : K;
  cp_io : W * list bytes;
  cp_err : bytes;
}.
#[export] Instance client_program_settable : Settable client_program := fun w =>
  {| cp_kernel := cp_kernel w; cp_io := cp_io w; cp_err := cp_err w |}.

Definition client_print (text : bytes) : M client_program unit := zoom cp_io (client_out text).
Definition client_print_err (text : bytes) : M client_program unit :=
  modify (fun w => w <| cp_err ::= fun err => err ++ text |>).

Definition client_usage (name : bytes) : bytes := lit "Usage: " ++ name ++ lit " <host> <port>" ++ newline.
Definition client_error (e : exn) : bytes := lit "Error: " ++ lit (what_of e) ++ newline.
Definition connected_line (host : bytes) (port : Z) : bytes :=
  lit "Connected to server at " ++ host ++ lit ":" ++ to_string port ++ newline.

(** The [try] block; the socket is closed when it is left. *)
Definition client_body (fuel : nat) (lines : list bytes) (host : bytes) (port : Z) : M client_program Z :=
  socket ← zoom cp_kernel (ConnectToServer strerror host port);
  scope (
    client_print (connected_line host port);;
    zoom cp_io (client_loop fuel lines))
    (zoom cp_kernel (close_all [socket]));;
  mret 0.

(** [lines] is the input, [fuel] bounds the calls of [recv] for one answer. *)
Definition client_program_main (fuel : nat) (argv : list bytes) (lines : list bytes) : M client_program Z :=
  if negb (length argv =? 3)%nat then
    name ← argv_at argv 0; client_print_err (client_usage name);; mret 1 else
  host ← argv_at argv 1;
  text ← argv_at argv 2;
  port ← lift (stoi text);
  try_catch (client_body fuel lines host port) (fun e => client_print_err (client_error e);; mret 1).

(** ** What it does *)

Context `{!PosixLaws K}.
Abbreviation view w := (kview (cp_kernel w)).
Implicit Types w : client_program.

(** A valid port is read as it is written. *)
Lemma stoi_to_string n : 0 <= n <= INT_MAX -> stoi (to_string n) = Ret n.
Proof.
  intros Hn. destruct (to_string_digits n) as ([Hne Hds] & Hdec & _); [unfold INT_MAX, U64_MOD in *; lia|].
  assert (exists c r, to_string n = c :: r /\ IsDigit c = true) as (c & r & Heq & Hc).
  { destruct (to_string n) as [|c r] eqn:Heq; [by destruct Hne|]. apply Forall_cons in Hds as [Hc _]. by exists c, r. }
  unfold stoi. assert (drop_while IsSpace (to_string n) = to_string n) as ->.
  { rewrite Heq. cbn. assert (IsSpace c = false) as ->; [|done]. clear -Hc. by destruct c as [[] [] [] [] [] [] [] []]. }
  rewrite Heq. rewrite !bool_decide_eq_false_2 by (clear -Hc; intros ->; vm_compute in Hc; done). rewrite <- Heq.
  assert (take_while IsDigit (to_string n) = to_string n) as ->.
  { rewrite <-(app_nil_r (to_string n)) at 1. by apply take_while_app. }
  rewrite bool_decide_eq_false_2 by (rewrite Heq; done). rewrite Hdec.
  unfold INT_MIN, INT_MAX in *. by replace ((-2147483648 <=? n) && (n <=? 2147483647)) with true by lia.
Qed.

(** ** What a user sees *)

(** Without the two arguments the usage is printed; with a port that is no number
    an exception leaves [main]; nothing else is done. *)
Lemma client_refuses fuel argv lines w :
  (length argv <> 3%nat -> forall name rest, argv = name :: rest ->
     client_program_main fuel argv lines w = (Ret 1, w <| cp_err ::= fun err => err ++ client_usage name |>)) /\
  (forall name host text e, argv = [name; host; text] -> stoi text = Fail (Throw e) ->
     client_program_main fuel argv lines w = (Fail (Throw e), w)).
Proof.
  split.
  - intros Hl name rest ->. unfold client_program_main. rewrite (proj2 (Nat.eqb_neq _ _) Hl). done.
  - intros name host text e -> He. unfold client_program_main. cbv [mbind M_bind]. cbn. by rewrite He.
Qed.

(** The socket is closed; the rest of the state is left alone. *)
Lemma wp_close_socket fd (V : gset Z) w (R : unit -> client_program -> Prop) :
  kv_open (view w) = {[fd]} ∪ V -> fd ∉ V ->
  (forall k, kv_open (kview k) = V -> R tt (w <| cp_kernel := k |>)) ->
  wp (zoom cp_kernel (close_all [fd])) R no_fail w.
Proof.
  intros Ho Hnew HR. apply wp_zoom, wp_bind, wp_bind, wp_call. intros r k Hk. apply wp_ret, wp_ret, HR.
  pose proof (close_law (cp_kernel w) fd) as Hlaw. rewrite Hk in Hlaw. cbn in Hlaw. rewrite Hlaw. cbn. rewrite Ho.
  set_solver.
Qed.

Definition connection_refused (host : bytes) (port : Z) w (e : exn) : Prop :=
  (ConnectToServer strerror host port (cp_kernel w)).1 = Fail (Throw e).

(** The whole program over any service at the other end, its arguments being
    right. It cannot connect, says so and exits with status 1. Or it prints that
    it is connected and serves the lines up to QUIT: it exits with status 0 when
    all fit a frame; at the first that does not it stops, reports the error and
    exits with status 1. Whichever, the descriptors are those it started with. *)
Definition connected (bound : Z) `{HV : !Service bound W} (host : bytes) (port : Z) lines h w (code : Z) w' : Prop :=
  (exists h', (cp_io w').2 = (cp_io w).2 ++ connected_line host port :: transcript lines h'.*2 /\
     h'.*1 = fitting (requests lines) /\ svc_ready [] (h ++ h') (cp_io w').1) /\
  (fitting (requests lines) = requests lines /\ code = 0 /\ cp_err w' = cp_err w \/
   fitting (requests lines) <> requests lines /\ code = 1 /\ cp_err w' = cp_err w ++ client_error too_large).

Lemma client_body_served (bound : Z) `{HV : !Service bound W} fuel host port lines w h :
  bound < Z.of_nat fuel -> Forall (fun p => zlen p < U32_MOD) (requests lines) ->
  svc_ready (fitting (requests lines)) h (cp_io w).1 ->
  wp (client_body fuel lines host port)
    (fun code w' => kv_open (view w') = kv_open (view w) /\ connected bound host port lines h w code w')
    (fun f w' => exists e, f = Throw e /\ kv_open (view w') = kv_open (view w) /\
       (connected bound host port lines h w 1 (w' <| cp_err ::= fun err => err ++ client_error e |>) \/
        connection_refused host port w e /\ cp_io w' = cp_io w /\ cp_err w' = cp_err w)) w.
Proof.
  intros Hfuel Hlen Hready. unfold client_body. apply wp_bind, wp_zoom.
  pose proof (ConnectToServer_ok strerror host port (cp_kernel w)) as Hc.
  unfold makes_socket in Hc. unfold wp at 1.
  destruct (ConnectToServer strerror host port (cp_kernel w)) as [[fd|[[what| | | |]| | |]] k] eqn:Hconn; try done;
    [|exists (runtime_error what); split_and!; [done|done|right; unfold connection_refused; by rewrite Hconn]].
  destruct Hc as (_ & Hnew & Hk). apply wp_bind. destruct w as [k0 [wld out] err]. cbn [cp_io cp_kernel fst snd] in *.
  apply wp_scope_left. unfold client_print, client_out at 1. apply wp_bind, wp_zoom, wp_modify, wp_zoom. cbn.
  assert (kv_open (kview k) = {[fd]} ∪ kv_open (kview k0)) as Ho by (rewrite Hk; done).
  eapply wp_mono; [apply (client_loop_wp bound fuel lines wld (out ++ [connected_line host port]) h Hfuel Hlen Hready)|..].
  - intros [] io [(h' & Hout & Hreq & Hr) Hfit].
    eapply wp_close_socket; [exact Ho|exact Hnew|]. intros k1 Hk1. apply wp_ret. split; [exact Hk1|].
    split; [exists h'; split_and!; [cbn; by rewrite Hout, <-app_assoc|done|done]|by left].
  - intros f io (-> & (h' & Hout & Hreq & Hr) & Hfit). exists too_large. split; [done|].
    eapply wp_close_socket; [exact Ho|exact Hnew|]. intros k1 Hk1. exists too_large. split; [done|]. split; [exact Hk1|].
    left. split; [exists h'; split_and!; [cbn; by rewrite Hout, <-app_assoc|done|done]|by right].
Qed.

Lemma client_program_served (bound : Z) `{HV : !Service bound W} fuel name host text port lines w h :
  stoi text = Ret port -> bound < Z.of_nat fuel -> Forall (fun p => zlen p < U32_MOD) (requests lines) ->
  svc_ready (fitting (requests lines)) h (cp_io w).1 ->
  exists code w', client_program_main fuel [name; host; text] lines w = (Ret code, w') /\
    kv_open (view w') = kv_open (view w) /\
    (connected bound host port lines h w code w' \/
     code = 1 /\ cp_io w' = cp_io w /\ exists e, connection_refused host port w e /\ cp_err w' = cp_err w ++ client_error e).
Proof.
  intros Hport Hfuel Hlen Hready.
  pose proof (client_body_served bound fuel host port lines w h Hfuel Hlen Hready) as Hwp.
  unfold client_program_main. cbv [mbind M_bind lift argv_at]. cbn [length Nat.eqb negb lookup list_lookup].
  unfold mret, M_ret. rewrite Hport. unfold try_catch. unfold wp in Hwp.
  destruct (client_body fuel lines host port w) as [[code|f] w'].
  - destruct Hwp as [Ho Hc]. exists code, w'. split; [done|]. split; [done|]. by left.
  - destruct Hwp as (e & -> & Ho & Hcase). eexists _, _. split; [done|]. split; [done|].
    destruct Hcase as [Hc|(Href & Hio & He)]; [by left|right]. split_and!; [done|done|]. exists e. cbn. by rewrite He.
Qed.

Context {S : Type} (answer : S -> bytes -> bytes * S) `{HL : !SocketLaws answer W}.

(** Over a peer that computes its answers. *)
Lemma client_program_session fuel name host text port lines w s0 :
  stoi text = Ret port -> sk_peer answer (cp_io w).1 = mkPeer s0 [] [] -> Forall fits (requests lines) ->
  Forall (fun a => fits a /\ zlen (frame a) < Z.of_nat fuel) (answers answer s0 (requests lines)).1 ->
  exists code w', client_program_main fuel [name; host; text] lines w = (Ret code, w') /\
    kv_open (view w') = kv_open (view w) /\
    (code = 0 /\ cp_err w' = cp_err w /\
       (cp_io w').2 = (cp_io w).2 ++ connected_line host port ::
         transcript lines (answers answer s0 (requests lines)).1 \/
     code = 1 /\ cp_io w' = cp_io w /\ exists e, connection_refused host port w e /\ cp_err w' = cp_err w ++ client_error e).
Proof.
  intros Hport Hpeer Hfit Hans. pose proof (fitting_all _ Hfit) as Hall.
  destruct (client_program_served (Z.of_nat fuel - 1) (HV := peer_service answer s0 _) fuel name host text port lines w [] Hport)
    as (code & w' & Hrun & Ho & Hcase).
  - lia.
  - by apply requests_u32.
  - rewrite Hall. exists s0. split_and!; [done|done|done|]. eapply Forall_impl; [exact Hans|]. intros a [? ?]. split; [done|lia].
  - exists code, w'. split; [done|]. split; [done|].
    destruct Hcase as [[(h' & Hio & Hreq & s & Hs & _) [(_ & -> & He)|(Hne & _)]]|?]; [left|done|by right].
    rewrite Hall in Hreq. cbn [app] in Hs. split; [done|]. split; [done|]. by rewrite Hio, <-Hreq, Hs.
Qed.
End client_main.

(** ** Together with the server's request pipeline *)

Section served.
Context {K : Type} `{!PosixConstants, !Posix K, !PosixLaws K}.
Context {Q : Type} `{!PriorityQueue ExpirationRecord Q, !PriorityQueueLaws ExpirationRecord Q ExpirationCompare}.
Context {W : Type} `{!Socket W} `{HL : !SocketLaws (serve_line (Q := Q)) W}.

(** With the request pipeline alone at the other end ([ClientServer] has the whole
    server): a user starts the client with a host and a port and types
    lines. When it can connect, the client prints for each non-empty line, up to
    QUIT, the answer of the abstract map with deadlines, in order, over any
    connection that delivers the bytes in whatever pieces, when no line exceeds a
    frame, and exits with status 0; when it cannot, it says so and exits with
    status 1. Either way it leaves no descriptor open. *)
Theorem client_sees_abstract_server strerror fuel name host text port lines (w : client_program (K := K) (W := W)) ts :
  let reqs := requests lines in
  stoi text = Ret port -> sk_peer serve_line (cp_io w).1 = mkPeer (KVStore_init, ts) [] [] ->
  length ts = length reqs -> steady 0 (zip ts reqs) -> zlen reqs < U64_MOD ->
  Forall fits reqs -> HEADER_SIZE + MAX_FRAME_SIZE < Z.of_nat fuel ->
  exists code w', client_program_main strerror fuel [name; host; text] lines w = (Ret code, w') /\
    kv_open (kview (cp_kernel w')) = kv_open (kview (cp_kernel w)) /\
    (code = 0 /\ cp_err w' = cp_err w /\
       (exists resps, (cp_io w').2 = (cp_io w).2 ++ connected_line host port :: transcript lines resps /\
          serves ∅ (zip ts reqs) resps) \/
     code = 1 /\ cp_io w' = cp_io w /\ exists e, connection_refused strerror host port w e /\ cp_err w' = cp_err w ++ client_error e).
Proof.
  intros reqs Hport Hw Hlen Hst Hn Hfit Hfuel.
  destruct (session_answers (Q := Q) lines ts Hlen Hst Hn Hfit) as (resps & st & Hans & Hs & Hfits).
  destruct (client_program_session strerror serve_line fuel name host text port lines w (KVStore_init, ts) Hport Hw Hfit)
    as (code & w' & Hrun & Ho & Hcase).
  { rewrite Hans. eapply Forall_impl; [exact Hfits|]. cbn. intros a [? ?]. split; [done|lia]. }
  exists code, w'. split; [done|]. split; [done|]. rewrite Hans in Hcase.
  destruct Hcase as [(? & ? & Hio)|?]; [left|by right]. split; [done|]. split; [done|]. by exists resps.
Qed.
End served.

#[local] Existing Instance small_socket.
#[local] Existing Instance small_socket_laws.

Definition example_client : client_program (K := sim) (W := peer StoreState) :=
  mkClientProgram (sim_init []) (example_world, []) [].

(** A session over a connection that delivers two or three bytes at a time. *)
Lemma client_sees_abstract_server_witness :
  exists w', client_program_main no_strerror (Z.to_nat (HEADER_SIZE + MAX_FRAME_SIZE + 1))
      [lit "client"; lit "127.0.0.1"; lit "7777"] example_lines example_client = (Ret 0, w') /\
    kv_open (sim_view (cp_kernel w')) = {[0; 1; 2]} /\
    exists resps, (cp_io w').2 = connected_line (lit "127.0.0.1") 7777 :: transcript example_lines resps /\
      serves ∅ (zip example_times (requests example_lines)) resps.
Proof.
  destruct (client_sees_abstract_server no_strerror (Z.to_nat (HEADER_SIZE + MAX_FRAME_SIZE + 1)) (lit "client")
    (lit "127.0.0.1") (lit "7777") 7777 example_lines example_client example_times) as (code & w' & Hrun & Ho & Hcase).
  - vm_compute. reflexivity.
  - reflexivity.
  - reflexivity.
  - cbn. unfold clock_ok. repeat split; vm_compute; congruence.
  - reflexivity.
  - cbn [example_lines requests]. repeat constructor; vm_compute; discriminate.
  - rewrite Z2Nat.id; [lia|]. vm_compute. discriminate.
  - exists w'. destruct Hcase as [(-> & _ & Hcase)|(-> & Hio & _)]; [split; [exact Hrun|split; [exact Ho|exact Hcase]]|].
    apply (f_equal fst) in Hrun. vm_compute in Hrun. discriminate Hrun.
Defined.
