(* ===== verification/ClientServer.v ===== *)
(** * The client program with the server

    The client of [ClientMain] over the connection of [ClientWire]: the server's
    handlers are a service in the sense of [Client], so that what was shown of
    the client for any service holds of the two programs together. The state of
    the connection is the one it has when [connect] has succeeded: the server has
    accepted the client and nothing was sent yet. *)

From S2P Require Import Prelude PriorityQueue KVStore KVStoreInv KVStoreSpec FrameCodec CommandGrammar RequestSpec OutputBuffer ServerMetrics Poller SubReactor SubReactorInv SubReactorRequests SubReactorHandlers EventLoop Serving ServingInv ServingSteps ServingTheorems Client ClientWire ClientWireSteps CommandLine Posix ScopedFd SocketUtil ServerStart ClientMain.
From stdpp Require Import sorting gmap.
#[local] Open Scope Z_scope.

Section together.
Context {Q : Type} `{!PriorityQueue ExpirationRecord Q}
  `{!PriorityQueueLaws ExpirationRecord Q ExpirationCompare}.
Context {P : Type} `{!Poller P}.
Context (o : NetworkOptions) (i : nat).
Hypothesis Ho : options_ok o.
Hypothesis Hread : HEADER_SIZE + MAX_FRAME_SIZE <= maxReadBufferBytes o.
Hypothesis Hhard : HEADER_SIZE + MAX_FRAME_SIZE <= writeHardLimitBytes o.
Implicit Types (x : wire Q P) (todo : list bytes) (h : list (bytes * bytes)).

(** ** Bunches of moves *)

(** The moves to come are in time. *)
Definition in_time x (ms : list (move (P := P))) : Prop :=
  timely i (sv_clock (wr_server x)) (sv_calls (wr_server x)) ms.

Lemma timely_step now calls m ms now' calls' :
  timely (P := P) i now calls (m :: ms) ->
  (now' = now /\ calls' = calls) \/ (move_time i m = Some now' /\ calls' = calls + 1) ->
  timely i now' calls' ms.
Proof.
  unfold timely. cbn [omap list_omap]. destruct (move_time i m) as [t|]; intros (Hs & Hc & Hn).
  - apply StronglySorted_inv in Hs as [Hs Hle]. apply Forall_cons in Hle as [Ht Hle]. apply Forall_cons in Hc as [_ Hc].
    rewrite zlen_cons in Hn. apply StronglySorted_inv in Hs as Hs'. destruct Hs' as [Hs' _].
    intros [[-> ->]|[[= ->] ->]]; (split; [|split; [done|lia]]); [by constructor|done].
  - intros [[-> ->]|[? _]]; [|done]. by split_and!.
Qed.

Lemma in_time_step x m ms : in_time x (m :: ms) -> in_time (make_move o i x m) ms.
Proof.
  intros Ht. eapply timely_step; [exact Ht|]. unfold make_move.
  destruct (exec o (move_action i m (wr_up x)) (wr_server x)) as [[ev w']|] eqn:Hrun; [|by left].
  destruct (exec_clock o _ _ _ _ Hrun) as [?|[Htime ?]]; [by left|right]. split; [|done].
  by destruct m.
Qed.

Lemma make_move_rest x m :
  wr_turns (make_move o i x m) = wr_turns x /\ wr_cuts (make_move o i x m) = wr_cuts x.
Proof. unfold make_move. by destruct (exec _ _ _) as [[]|]. Qed.

(** A bunch gets the client ahead when the move it waits for is among them. *)
Lemma bunch_step todo h p k got ph x ms rest :
  fits p -> 0 <= k <= zlen (frame p) -> (todo <> [] -> ~ denotes p ReqQuit) ->
  talk o i todo h p k got ph x -> forallb (move_ok i) ms = true -> in_time x (ms ++ rest) ->
  let x' := make_moves o i ms x in
  exists ph', talk o i todo h p k got ph' x' /\ in_time x' rest /\
    wr_turns x' = wr_turns x /\ wr_cuts x' = wr_cuts x /\
    ahead (Exists (helps k p got ph) ms) ph (wr_up x) (wr_down x) ph' (wr_up x') (wr_down x').
Proof.
  intros Hp Hk Hq. revert ph x. induction ms as [|m ms IH]; intros ph x Htalk Hok Hts; cbn zeta.
  { exists ph. split_and!; try done. apply ahead_refl. by intros ?%Exists_nil. }
  cbn [forallb] in Hok. apply andb_true_iff in Hok as [Hm Hok].
  destruct (move_step o i Ho Hread Hhard _ _ _ _ _ _ _ _ _ Hp Hk Hq Htalk Hm Hts) as (ph1 & Htalk1 & H1 & H2 & H3).
  destruct (make_move_rest x m) as [Ht Hc].
  destruct (IH ph1 _ Htalk1 Hok (in_time_step _ _ _ Hts)) as (ph' & Htalk' & Hts' & Ht' & Hc' & H1' & H2' & H3').
  change (make_moves o i (m :: ms) x) with (make_moves o i ms (make_move o i x m)).
  exists ph'. split_and!; [done|done|congruence|congruence|].
  split_and!; [lia| |destruct H3 as [->|?], H3' as [->|?]; try (by left); right; lia].
  intros [Hm'|Hms]%Exists_cons Hr; [specialize (H2 Hm' Hr); lia|].
  destruct H3 as [->|?]; [|lia].
  destruct (decide (rank ph (wr_up (make_move o i x m)) (wr_down (make_move o i x m)) = 0%nat)); [lia|].
  specialize (H2' Hms ltac:(done)). lia.
Qed.

Lemma fair_helps k p got ph ms :
  fair (P := P) i ms = true -> k = zlen (frame p) -> (forall a, ph = PhAnswer a -> frame a <> got) ->
  forallb (move_ok i) ms = true /\ Exists (helps k p got ph) ms.
Proof.
  unfold fair. rewrite !andb_true_iff, !existsb_exists. intros [[[Hok Hr] Hs] Hw] Hk Hne. split; [done|].
  apply Exists_exists. destruct ph as [| |a].
  - destruct Hr as (m & Hin%list_elem_of_In & Hm). by exists m.
  - destruct Hs as (m & Hin%list_elem_of_In & Hm). by exists m.
  - destruct Hw as (m & Hin%list_elem_of_In & Hm). exists m. split; [done|]. split; [by apply Hne|done].
Qed.

(** ** The server as a service *)

(** The size of the largest frame, and the calls that one request can take: every
    call sends a byte, or receives one, or brings the answer nearer. *)
Definition largest : Z := HEADER_SIZE + MAX_FRAME_SIZE.
Definition per_request : Z := 4 * largest + 2.

(** What the rest of the session needs: requests that fit, none but the last
    asking to quit, and enough bunches of moves, each fair. *)
Record provided (reqs : list bytes) x (need : Z) : Prop := mkProvided {
  pv_fits : Forall fits reqs;
  pv_quit : Forall (fun p => ~ denotes p ReqQuit) (removelast reqs);
  pv_fair : Forall (fun ms => fair i ms = true) (wr_turns x);
  pv_time : in_time x (concat (wr_turns x));
  pv_turns : need <= zlen (wr_turns x);
}.

Lemma provided_next p todo x need :
  provided (p :: todo) x need -> fits p /\ (todo <> [] -> ~ denotes p ReqQuit) /\ zlen (frame p) <= largest.
Proof.
  intros [[Hp _]%Forall_cons Hq _ _ _]. split; [done|]. split.
  - intros Hne. destruct todo; [done|]. by apply Forall_cons in Hq as [? _].
  - rewrite zlen_frame. unfold fits in Hp. unfold largest. lia.
Qed.

Lemma provided_like reqs x x' need need' :
  provided reqs x need -> wr_server x' = wr_server x -> wr_turns x' = wr_turns x -> need' <= need ->
  provided reqs x' need'.
Proof. unfold in_time. intros [] Hs Ht ?. split; unfold in_time; rewrite ?Hs, ?Ht; try done. lia. Qed.

Lemma provided_tail p todo x need : provided (p :: todo) x need -> provided todo x need.
Proof.
  intros [[_ Hf]%Forall_cons Hq ? ? ?]. split; try done. destruct todo; [done|]. by apply Forall_cons in Hq as [_ ?].
Qed.

Lemma frame_complete a got : fits a -> incomplete got -> frame a <> got.
Proof.
  intros Ha Hinc <-. pose proof (decode_whole a Ha) as Hd.
  destruct (read_incomplete a (zlen (frame a)) (frame a) []) as (rest & Hrest & Hf & Hnil);
    [done|pose proof (zlen_nonneg (frame a)); lia|done|rewrite app_nil_r, take_ge; [done|unfold zlen; lia]|].
  by rewrite Hnil in Hrest.
Qed.

(** One bunch is used up. *)
Lemma bunch_ok todo h p k got ph x ms turns need :
  talk o i todo h p k got ph x -> 0 <= k <= zlen (frame p) -> wr_turns x = ms :: turns ->
  provided (p :: todo) x need ->
  let x' := make_moves o i ms (x <| wr_turns := turns |>) in
  exists ph', talk o i todo h p k got ph' x' /\ provided (p :: todo) x' (need - 1) /\
    wr_turns x' = turns /\ wr_cuts x' = wr_cuts x /\
    ahead (k = zlen (frame p) /\ incomplete got) ph (wr_up x) (wr_down x) ph' (wr_up x') (wr_down x').
Proof.
  intros Htalk Hk Hturns Hpv. pose proof (provided_next _ _ _ _ Hpv) as (Hp & Hq & _).
  destruct Hpv as [Hfits Hquit Hfair Htime Hneed]. rewrite Hturns in *. apply Forall_cons in Hfair as [Hms Hfair].
  pose proof (fair_helps k p got ph ms Hms) as Hhelps. cbn zeta.
  assert (forallb (move_ok i) ms = true) as Hok by (unfold fair in Hms; by destruct (forallb (move_ok i) ms)).
  destruct (bunch_step todo h p k got ph (x <| wr_turns := turns |>) ms (concat turns)) as
    (ph' & Htalk' & Htime' & Ht & Hc & Hle & Hlt & Hor); try done.
  exists ph'. split; [done|]. split; [|split; [done|split; [done|]]].
  - split; rewrite ?Ht; try done. rewrite zlen_cons in Hneed. cbn. lia.
  - split; [done|]. split; [|done]. intros [Hk' Hinc]. apply Hlt, Hhelps; [done|]. intros b ->.
    destruct Htalk as (_ & _ & cl & _ & _ & _ & (_ & _ & _ & _ & _ & Hb & _) & _). by apply frame_complete.
Qed.

(** The conversation is in some phase. *)
Definition svc_talk todo h p k got x (need : nat -> Z) : Prop :=
  incomplete got /\ exists ph, talk o i todo h p k got ph x /\
    provided (p :: todo) x (zlen todo * per_request + need (rank ph (wr_up x) (wr_down x))).

(** Between two requests. *)
Definition svc_idle todo h x : Prop :=
  provided todo x (zlen todo * per_request) /\ wr_up x = [] /\ wr_down x = [] /\
  exists ans a cl, history ∅ (wr_events x) ans a /\ ServingOK o (wr_events x) ans a (wr_server x) /\
    sv_clients (wr_server x) !! i = Some cl /\ answers_of i ans = h /\
    cl_todo cl = [] /\ pending (cl_conn cl) = [] /\ readBuffer (cl_conn cl) = [] /\
    (todo <> [] -> taking_requests (cl_conn cl)).

Lemma svc_idle_start p todo h x :
  svc_idle (p :: todo) h x -> fits p /\ svc_talk todo h p 0 [] x (fun _ => per_request).
Proof.
  intros (Hpv & Hup & Hdown & ans & a & cl & Hh & HS & Hi & Hans & Htd & Hpe & Hrb & Htk).
  split; [by eapply provided_next|]. split; [by left|]. exists PhRead. split.
  - exists ans, a, cl. refine (conj Hh (conj HS (conj Hi (conj _ Hans)))).
    refine (conj Htd (conj (Htk _) (conj Hpe (conj _ (conj Hdown eq_refl))))); [done|]. by rewrite Hrb, Hup.
  - eapply provided_like; [done..|]. rewrite zlen_cons. lia.
Qed.

Lemma cut_bounds n x : 1 <= n -> 1 <= cut n x <= n.
Proof. intros ?. unfold cut. destruct (wr_cuts x); lia. Qed.

Lemma talk_sent todo h p k got x n cuts :
  talk o i todo h p k got PhRead x -> 0 <= k -> 1 <= n -> k + n <= zlen (frame p) ->
  talk o i todo h p (k + n) got PhRead
    (x <| wr_up ::= fun up => up ++ take (Z.to_nat n) (drop (Z.to_nat k) (frame p)) |> <| wr_cuts := cuts |>).
Proof.
  intros (ans & a & cl & Hh & HS & Hi & (Htd & Htk & Hp & Hrb & Hdown & Hgot) & Hans) Hk Hn Hle.
  exists ans, a, cl. refine (conj Hh (conj HS (conj Hi (conj _ Hans)))).
  refine (conj Htd (conj Htk (conj Hp (conj _ (conj Hdown Hgot))))). cbn.
  rewrite app_assoc, Hrb, Z2Nat.inj_add by lia. apply take_take_drop.
Qed.

Local Lemma largest_pos : 4 <= largest.
Proof. unfold largest, HEADER_SIZE, MAX_FRAME_SIZE. lia. Qed.

(** The client waits for the answer, of which it has [got]. *)
Definition svc_awaits todo h p got x : Prop :=
  svc_talk todo h p (zlen (frame p)) got x (fun r => Z.of_nat r + 2 * (largest - zlen got)).

Lemma wire_send_ok todo h p sent x :
  0 <= sent < zlen (frame p) -> svc_talk todo h p sent [] x (fun _ => per_request - sent) ->
  exists n x', wire_send o i (drop (Z.to_nat sent) (frame p)) x = (Ret n, x') /\
    1 <= n <= zlen (frame p) - sent /\
    if sent + n <? zlen (frame p) then svc_talk todo h p (sent + n) [] x' (fun _ => per_request - (sent + n))
    else svc_awaits todo h p [] x'.
Proof.
  intros Hs (Hinc & ph & Htalk & Hpv). pose proof (provided_next _ _ _ _ Hpv) as (_ & _ & Hlarge).
  pose proof (zlen_nonneg todo). assert (0 <= zlen todo * per_request) by (unfold per_request, largest in *; nia).
  unfold wire_send. destruct (wr_turns x) as [|ms turns] eqn:Hturns.
  { destruct Hpv as [_ _ _ _ Hneed]. rewrite Hturns, (@zlen_nil (list move)) in Hneed. unfold per_request in *. lia. }
  destruct (bunch_ok todo h p sent [] ph x ms turns _ Htalk ltac:(lia) Hturns Hpv) as (ph' & Htalk' & Hpv' & _ & _ & _).
  set (x1 := make_moves o i ms (x <| wr_turns := turns |>)) in *.
  assert (ph' = PhRead) as ->.
  { destruct Htalk' as (? & ? & cl & _ & _ & _ & Hph & _). destruct ph'; [done| |].
    - destruct Hph as (_ & _ & _ & _ & _ & _ & _ & ?). lia.
    - destruct Hph as (_ & _ & _ & _ & ? & _). lia. }
  assert (zlen (drop (Z.to_nat sent) (frame p)) = zlen (frame p) - sent) as Hlen by (rewrite zlen_drop; lia).
  pose proof (cut_bounds (zlen (drop (Z.to_nat sent) (frame p))) x1 ltac:(lia)) as Hn.
  set (n := cut _ x1) in *. rewrite Hlen in Hn.
  eexists n, _. split; [reflexivity|]. split; [done|].
  pose proof (talk_sent todo h p sent [] x1 n (tail (wr_cuts x1)) Htalk' ltac:(lia) ltac:(lia) ltac:(lia)) as Htalk2.
  destruct (Z.ltb_spec (sent + n) (zlen (frame p))) as [Hmore|Hall].
  - split; [done|]. exists PhRead. split; [exact Htalk2|]. eapply provided_like; [exact Hpv'|done|done|lia].
  - assert (sent + n = zlen (frame p)) as Heq by lia. rewrite Heq in Htalk2.
    split; [done|]. exists PhRead. split; [exact Htalk2|].
    destruct Htalk2 as (? & ? & cl & _ & _ & _ & (_ & _ & _ & Hrb & _) & _).
    rewrite (take_ge (frame p)) in Hrb by (unfold zlen; lia). apply (f_equal zlen) in Hrb. rewrite zlen_app in Hrb.
    pose proof (zlen_nonneg (readBuffer (cl_conn cl))).
    eapply provided_like; [exact Hpv'|done|done|]. cbn [rank]. rewrite (@zlen_nil ascii).
    cbn in Hrb |- *. change (zlen ?l) with (Z.of_nat (length l)) in Hrb at 2. unfold per_request in *. lia.
Qed.

(** Only with something to receive is the client not to wait. *)
Lemma nothing_yet todo h p k got ph x :
  talk o i todo h p k got ph x -> incomplete got -> wr_down x = [] ->
  rank ph (wr_up x) (wr_down x) <> 0%nat /\ server_closed i x = false.
Proof.
  intros (ans & a & cl & _ & HS & Hi & Hph & _) Hinc Hdown. rewrite Hdown in *. unfold server_closed. rewrite Hi.
  pose proof (so_conn _ _ _ _ _ (sg_client _ _ _ _ _ HS i _ Hi)) as Hc.
  destruct ph as [| |b]; [split; [done|by apply Hph]..|]. split; [done|].
  destruct (closed (cl_conn cl)) eqn:Hcl; [|done].
  destruct Hph as (_ & _ & _ & _ & _ & Hb & Hf). destruct (frame_complete b got Hb Hinc).
  rewrite Hf, (co_closed _ _ Hc Hcl). apply app_nil_r.
Qed.

Lemma something todo h p k got ph x :
  talk o i todo h p k got ph x -> wr_down x <> [] -> exists a, ph = PhAnswer a.
Proof.
  intros (_ & _ & cl & _ & _ & _ & Hph & _) Hdown.
  destruct ph as [| |b]; [by destruct Hph as (_ & _ & _ & _ & ? & _)|by destruct Hph as (_ & _ & _ & _ & _ & ? & _)|by exists b].
Qed.

(** The wait for something to receive ends. *)
Lemma wait_data_ok todo h p got turns ph x need :
  talk o i todo h p (zlen (frame p)) got ph x -> incomplete got -> wr_turns x = turns ->
  provided (p :: todo) x (Z.max 1 (Z.of_nat (rank ph (wr_up x) (wr_down x))) + need) -> 0 <= need ->
  exists x' a, wait_data o i turns x = Some x' /\ talk o i todo h p (zlen (frame p)) got (PhAnswer a) x' /\
    wr_down x' <> [] /\ provided (p :: todo) x' need.
Proof.
  intros Htalk Hinc. revert ph x need Htalk. induction turns as [|ms turns IH]; intros ph x need Htalk Hturns Hpv Hneed.
  { destruct Hpv as [_ _ _ _ Hlen]. rewrite Hturns, (@zlen_nil (list move)) in Hlen. lia. }
  pose proof (zlen_nonneg (frame p)).
  destruct (bunch_ok todo h p (zlen (frame p)) got ph x ms turns _ Htalk ltac:(lia) Hturns Hpv)
    as (ph1 & Htalk1 & Hpv1 & Hturns1 & _ & Hle & Hlt & Hor).
  cbn [wait_data]. set (x1 := make_moves o i ms (x <| wr_turns := turns |>)) in *. cbn zeta.
  case_bool_decide as Hdown; cbn [andb].
  - destruct (nothing_yet _ _ _ _ _ _ _ Htalk1 Hinc Hdown) as [Hr ->]. cbn [negb].
    assert (rank ph (wr_up x) (wr_down x) <> 0%nat) as Hr0 by lia. specialize (Hlt (conj eq_refl Hinc) Hr0).
    eapply (IH ph1); try done. eapply provided_like; [exact Hpv1|done|done|lia].
  - destruct (something _ _ _ _ _ _ _ Htalk1 Hdown) as [a ->]. exists x1, a. split_and!; [done|done|done|].
    eapply provided_like; [exact Hpv1|done|done|lia].
Qed.

Lemma incomplete_less got : incomplete got -> zlen got < largest.
Proof. unfold incomplete, largest, MAX_FRAME_SIZE. lia. Qed.

(** The client takes [n] bytes of what is there. *)
Lemma talk_taken todo h p got a x n cuts :
  talk o i todo h p (zlen (frame p)) got (PhAnswer a) x -> 1 <= n <= zlen (wr_down x) ->
  let chunk := take (Z.to_nat n) (wr_down x) in
  let x' := x <| wr_down ::= drop (Z.to_nat n) |> <| wr_cuts := cuts |> in
  zlen chunk = n /\ fits a /\
  exists rest, frame a = got ++ chunk ++ rest /\ talk o i todo h p (zlen (frame p)) (got ++ chunk) (PhAnswer a) x' /\
    (rest = [] -> forall need, provided (p :: todo) x need -> zlen todo * per_request <= need ->
       svc_idle todo (h ++ [(p, a)]) x').
Proof.
  intros (ans & b & cl & Hh & HS & Hi & (Htd & Htk & Hrb & Hup & Hk & Ha & Hf) & Hans) Hn. cbn zeta.
  split; [by rewrite zlen_take by lia|]. split; [done|].
  exists (drop (Z.to_nat n) (wr_down x) ++ pending (cl_conn cl)).
  assert (frame a = (got ++ take (Z.to_nat n) (wr_down x)) ++ drop (Z.to_nat n) (wr_down x) ++ pending (cl_conn cl)) as Hf'.
  { rewrite <- app_assoc, (app_assoc (take _ _)), take_drop. exact Hf. }
  split; [by rewrite app_assoc|]. split.
  - exists ans, b, cl. refine (conj Hh (conj HS (conj Hi (conj _ Hans)))). by split_and!.
  - intros [Hd Hp]%app_nil need Hpv Hneed. split; [|split; [exact Hup|split; [exact Hd|]]].
    + eapply provided_like; [by eapply provided_tail|done|done|done].
    + exists ans, b, cl. by split_and!.
Qed.

Lemma wire_recv_ok todo h p got size x :
  1 <= size -> svc_awaits todo h p got x ->
  exists chunk a rest x', wire_recv o i size x = (Ret (Some chunk), x') /\ 1 <= zlen chunk <= size /\
    fits a /\ zlen (frame a) <= largest /\ frame a = got ++ chunk ++ rest /\
    if bool_decide (rest = []) then svc_idle todo (h ++ [(p, a)]) x' else svc_awaits todo h p (got ++ chunk) x'.
Proof.
  intros Hsize (Hinc & ph & Htalk & Hpv). pose proof (incomplete_less got Hinc) as Hgot. pose proof largest_pos.
  assert (0 <= zlen todo * per_request) by (pose proof (zlen_nonneg todo); unfold per_request; nia).
  set (budget := zlen todo * per_request + (2 * (largest - zlen got) - 1)).
  destruct (wait_data_ok todo h p got (wr_turns x) ph x budget Htalk Hinc eq_refl)
    as (x1 & a & Hwait & Htalk1 & Hdown & Hpv1); [eapply provided_like; [exact Hpv|done|done|lia]|lia|].
  unfold wire_recv. rewrite Hwait, bool_decide_eq_false_2 by done.
  assert (1 <= zlen (wr_down x1)).
  { destruct (wr_down x1); [done|]. rewrite zlen_cons. pose proof (zlen_nonneg l). lia. }
  pose proof (cut_bounds (Z.min size (zlen (wr_down x1))) x1 ltac:(lia)) as Hn.
  set (n := cut _ x1) in *. set (chunk := take (Z.to_nat n) (wr_down x1)) in *.
  destruct (talk_taken todo h p got a x1 n (tail (wr_cuts x1)) Htalk1 ltac:(lia)) as (Hlen & Ha & rest & Hf & Htalk2 & Hidle).
  fold chunk in Hlen, Hf, Htalk2. eexists chunk, a, rest, _. split; [reflexivity|]. split; [lia|]. split; [done|].
  split; [rewrite zlen_frame; unfold fits in Ha; unfold largest; lia|]. split; [done|].
  case_bool_decide as Hrest; [eapply (Hidle Hrest); [exact Hpv1|unfold budget; lia]|].
  assert (incomplete (got ++ chunk)) as Hinc' by (eapply (decode_prefix a _ rest); [done|by rewrite <- app_assoc|done]).
  split; [done|]. exists (PhAnswer a). split; [exact Htalk2|].
  eapply provided_like; [exact Hpv1|done|done|]. unfold budget. rewrite zlen_app, Hlen. cbn [rank].
  case_bool_decide; lia.
Qed.

(** The server, among all its clients, serves this one. *)
#[local] Instance server_service : @Service largest (wire Q P) (wire_socket o i).
Proof using Ho Hread Hhard PriorityQueueLaws0.
  refine (@Build_Service largest (wire Q P) (wire_socket o i) svc_idle
    (fun todo h p sent x => svc_talk todo h p sent [] x (fun _ => per_request - sent)) svc_awaits _ _ _).
  - intros p todo h x Hx. destruct (svc_idle_start p todo h x Hx) as [Hp Ht]. split; [done|]. by rewrite Z.sub_0_r.
  - exact wire_send_ok.
  - exact wire_recv_ok.
Defined.
End together.

(** ** The two programs *)

Section programs.
Context {K : Type} `{!PosixConstants, !Posix K, !PosixLaws K}.
Context {Q : Type} `{!PriorityQueue ExpirationRecord Q}
  `{!PriorityQueueLaws ExpirationRecord Q ExpirationCompare}.
Context {P : Type} `{!Poller P}.
Context (o : NetworkOptions) (i : nat).

Lemma run_actions_snoc acts act (w w' : serving Q) h :
  run_actions (P := P) o (acts ++ [act]) w = Some (h, w') ->
  exists h1 w1 ev, run_actions o acts w = Some (h1, w1) /\ exec o act w1 = Some (ev, w') /\ h = h1 ++ ev.
Proof.
  revert w h. induction acts as [|b acts IH]; intros w h; cbn [run_actions app].
  - intros ([ev w1] & Hrun & [= <- <-])%bind_Some. exists [], w, ev. by rewrite app_nil_r.
  - intros ([h0 w0] & Hrun & ([h1 w1] & Hrest & [= <- <-])%bind_Some)%bind_Some.
    destruct (IH _ _ Hrest) as (h2 & w2 & ev & Hrun2 & Hev & ->). exists (h0 ++ h2), w2, ev.
    cbn. rewrite Hrun. cbn. rewrite Hrun2. cbn. by rewrite app_assoc.
Qed.

(** A client that was just accepted can start. *)
Lemma accepted_idle (Ho : options_ok o) now acts clientFd h w reqs (turns : list (list (move (P := P)))) cuts :
  run_actions (P := P) o (acts ++ [ActAccept i clientFd]) (serving_init (Q := Q) now) = Some (h, w) ->
  let x := mkWire w h [] [] turns cuts in
  provided i reqs x (zlen reqs * per_request) -> svc_idle o i reqs [] x.
Proof.
  intros Hrun x Hpv. destruct (run_actions_snoc _ _ _ _ _ Hrun) as (h1 & w1 & ev & Hrun1 & Hacc & ->).
  destruct (run_ok o Ho _ _ _ _ _ _ _ (serving_init_ok o now) Hrun) as (ans & a & Hh & HS).
  destruct (run_ok o Ho _ _ _ _ _ _ _ (serving_init_ok o now) Hrun1) as (ans1 & a1 & Hh1 & HS1).
  cbn in Hacc. destruct (sv_clients w1 !! i) eqn:Hi; [done|]. injection Hacc as <- <-.
  split; [done|]. split; [done|]. split; [done|].
  exists ans, a, (mkClient (Connection_init clientFd) []).
  refine (conj Hh (conj HS (conj (lookup_insert_eq _ _ _) (conj _ _)))); [|done].
  rewrite app_nil_r in Hh. apply (history_lines _ _ _ _ i) in Hh. apply (history_lines _ _ _ _ i) in Hh1.
  destruct (sg_nobody _ _ _ _ _ HS1 i Hi) as (_ & _ & Hno). cbn [app] in Hno. rewrite Hno in Hh1. cbn in Hh1.
  rewrite <- Hh1 in Hh. by destruct (answers_of i ans).
Qed.

(** C40. End to end: a user starts the client program with a host and a numeric
    port and types lines, while the server of this repository serves any number
    of clients over its one store, this one among them. The schedule is fair to
    this client: in any interleaving with everything else, the server receives,
    serves and sends on its connection during each of the client's calls, and
    the kernel delivers bytes in any pieces in both directions. The server's
    buffers hold a frame, lines are shorter than 4 GiB, and only the last of the
    lines that are sent may be one the server takes for QUIT. When the client cannot connect it says so
    and exits with status 1. Otherwise it shows a prompt for every line and one
    answer for each line up to QUIT; these are, in order, the answers that this
    client's requests have in one history of the whole server, in which the
    requests of all clients and the sweeps are right on one abstract map with
    deadlines. When all lines fit a frame it exits with status 0; at the first
    that does not, it reports the error and exits with status 1. No descriptor
    is left open. *)
Theorem client_among_clients strerror fuel name host text port lines
    (w : client_program (K := K) (W := wire Q P)) now acts clientFd h sys
    (turns : list (list (move (P := P)))) cuts :
  let reqs := requests lines in
  let sent := fitting reqs in
  let x := mkWire sys h [] [] turns cuts in
  options_ok o -> largest <= maxReadBufferBytes o -> largest <= writeHardLimitBytes o ->
  run_actions (P := P) o (acts ++ [ActAccept i clientFd]) (serving_init (Q := Q) now) = Some (h, sys) ->
  stoi text = Ret port -> (cp_io w).1 = x -> largest < Z.of_nat fuel ->
  Forall (fun line => zlen line < U32_MOD) reqs -> provided i sent x (zlen sent * per_request) ->
  let _ := wire_socket o i in
  exists code w', client_program_main strerror fuel [name; host; text] lines w = (Ret code, w') /\
    kv_open (kview (cp_kernel w')) = kv_open (kview (cp_kernel w)) /\
    ((exists resps answers a,
        (cp_io w').2 = (cp_io w).2 ++ connected_line host port :: transcript lines resps /\
        history ∅ (wr_events (cp_io w').1) answers a /\ StronglySorted Z.le (event_times (wr_events (cp_io w').1)) /\
        length resps = length sent /\ answers_of i answers = zip sent resps /\
        (sent = reqs /\ code = 0 /\ cp_err w' = cp_err w \/
         sent <> reqs /\ code = 1 /\ cp_err w' = cp_err w ++ client_error too_large)) \/
     code = 1 /\ cp_io w' = cp_io w /\ exists e, connection_refused strerror host port w e /\ cp_err w' = cp_err w ++ client_error e).
Proof.
  intros reqs sent x Ho Hread Hhard Hrun Hport Hio Hfuel Hlen Hpv sock.
  destruct (client_program_served strerror largest (HV := server_service o i Ho Hread Hhard)
    fuel name host text port lines w [] Hport Hfuel Hlen) as (code & w' & Hmain & Hopen & Hcase).
  { rewrite Hio. by eapply accepted_idle. }
  exists code, w'. split; [exact Hmain|]. split; [exact Hopen|].
  destruct Hcase as [[(h' & Hout & Hreq & Hidle) Hend]|?]; [left|by right].
  destruct Hidle as (_ & _ & _ & answers & a & cl & Hh & HS & _ & Hans & _).
  exists h'.*2, answers, a. split_and!; [done|done|apply HS| | |done].
  - unfold sent, reqs. by rewrite <- Hreq, !length_fmap.
  - cbn [app] in Hans. rewrite Hans. unfold sent, reqs. rewrite <- Hreq. clear. by induction h' as [|[] h' IH]; cbn; f_equal.
Qed.
End programs.

(** ** A session among others *)

(** Moves at one time of the clock. *)
Lemma timely_constant {P : Type} `{!Poller P} i now calls (ms : list (move (P := P))) t :
  Forall (fun m => move_time i m = None \/ move_time i m = Some t) ms ->
  now <= t -> clock_ok t -> calls + zlen ms < U64_MOD -> timely i now calls ms.
Proof.
  intros Hms Hle Hclk Hn. unfold timely.
  assert (Forall (fun t' => t' = t) (omap (move_time i) ms) /\ zlen (omap (move_time i) ms) <= zlen ms) as [Hts Hlen].
  { clear -Hms. induction Hms as [|m ms Hm _ [IH1 IH2]]; [by split|]. cbn.
    destruct Hm as [->| ->]; rewrite ?zlen_cons; (split; [by try constructor|lia]). }
  split; [|split; [|lia]].
  - constructor; [|eapply Forall_impl; [exact Hts|]; cbn; lia].
    clear -Hts. induction Hts as [|t1 ts -> Hts IH]; [constructor|]. constructor; [done|].
    eapply Forall_impl; [exact Hts|]. cbn. lia.
  - eapply Forall_impl; [exact Hts|]. by intros ? ->.
Qed.

Lemma zlen_repeated {A} n (l : list A) : zlen (concat (replicate n l)) = Z.of_nat n * zlen l.
Proof. unfold zlen. induction n as [|n IH]; [done|]. cbn [replicate concat]. rewrite length_app. lia. Qed.

(** The second client has set a key; the first is accepted. *)
Definition example_before : list (action (P := PollPoller)) :=
  let p := PollPoller_init in
  [ActAccept 2 11; ActReceive 2 [SysOk (frame (lit "SET a 1"))] p; ActServe 2 (5, 100) p; ActWrite 2 [SysOk 100] p].

Definition example_start : option (list event * serving (sorted_queue ExpirationCompare)) :=
  run_actions NetworkOptions_default (example_before ++ [ActAccept 1 10]) (serving_init 0).

(** During each call of the first client three bytes of it are received, the
    sweeper runs, the second client deletes the key, and five bytes are sent. *)
Definition example_bunch : list (move (P := PollPoller)) :=
  let p := PollPoller_init in
  [MvReceive 3 p; MvOther (ActSweep 6 4096); MvOther (ActReceive 2 [SysOk (frame (lit "DEL a"))] p);
   MvServe (6, 100) p; MvOther (ActServe 2 (6, 100) p); MvOther (ActWrite 2 [SysOk 100] p); MvWrite 5 p; MvRefresh p].

Definition typed : list bytes := lit <$> ["GET a"; ""; "QUIT"]%string.

Lemma example_provided n w h cuts :
  sv_clock w <= 6 -> sv_calls w + 8 * Z.of_nat n < U64_MOD -> 2 * per_request <= Z.of_nat n ->
  provided 1 (requests typed)
    (mkWire (w : serving (sorted_queue ExpirationCompare)) h [] [] (replicate n example_bunch) cuts)
    (zlen (requests typed) * per_request).
Proof.
  intros Hclk Hcalls Hn. split.
  - repeat constructor; vm_compute; discriminate.
  - change (removelast (requests typed)) with [lit "GET a"]. apply Forall_singleton.
    intros Hq%parse_complete. vm_compute in Hq. discriminate Hq.
  - apply Forall_replicate. vm_compute. reflexivity.
  - unfold in_time. cbn [wr_server wr_turns]. apply (timely_constant _ _ _ _ 6); [|done|done|].
    + apply Forall_concat, Forall_replicate. repeat constructor; vm_compute; tauto.
    + rewrite zlen_repeated. change (zlen example_bunch) with 8. lia.
  - cbn [wr_turns]. change (zlen (requests typed)) with 2. unfold zlen. rewrite length_replicate. done.
Qed.

Definition example_user (h : list event) (w : serving (sorted_queue ExpirationCompare)) :
    client_program (K := sim) (W := wire (sorted_queue ExpirationCompare) PollPoller) :=
  mkClientProgram (sim_init [])
    (mkWire w h [] [] (replicate (Z.to_nat (2 * per_request)) example_bunch) [4; 2; 1], []) [].

(** The first client is told what the history of both clients and the sweeper
    holds for it. *)
Lemma client_among_clients_witness :
  exists h sys w', example_start = Some (h, sys) /\
    (let _ := wire_socket NetworkOptions_default 1 in
     client_program_main no_strerror (Z.to_nat (largest + 1)) [lit "client"; lit "127.0.0.1"; lit "7777"] typed
      (example_user h sys)) = (Ret 0, w') /\
    exists resps answers a, (cp_io w').2 = connected_line (lit "127.0.0.1") 7777 :: transcript typed resps /\
      history ∅ (wr_events (cp_io w').1) answers a /\ answers_of 1 answers = zip [lit "GET a"; lit "QUIT"] resps.
Proof.
  assert (option_map (fun x => (sv_clock x.2, sv_calls x.2)) example_start = Some (5, 1)) as Hstart
    by (vm_compute; reflexivity).
  destruct example_start as [[h sys]|] eqn:Hrun; [|discriminate Hstart].
  injection Hstart as Hclock Hcalls.
  destruct (client_among_clients NetworkOptions_default 1 no_strerror (Z.to_nat (largest + 1)) (lit "client")
    (lit "127.0.0.1") (lit "7777") 7777 typed (example_user h sys) 0 example_before 10 h sys
    (replicate (Z.to_nat (2 * per_request)) example_bunch) [4; 2; 1]) as (code & w' & Hmain & _ & Hcase).
  - split; cbn; lia.
  - vm_compute. discriminate.
  - vm_compute. discriminate.
  - exact Hrun.
  - vm_compute. reflexivity.
  - reflexivity.
  - rewrite Z2Nat.id; [lia|vm_compute; discriminate].
  - repeat constructor; vm_compute; congruence.
  - apply example_provided; rewrite ?Hclock, ?Hcalls, ?Z2Nat.id by (vm_compute; discriminate); vm_compute; congruence.
  - exists h, sys, w'. split; [reflexivity|].
    destruct Hcase as [(resps & answers & a & Hio & Hh & _ & _ & Hans & Hend)|(_ & _ & e & Hrefused & _)].
    + destruct Hend as [(_ & -> & _)|(Hne & _)]; [|destruct Hne; vm_compute; reflexivity]. split; [exact Hmain|]. exists resps, answers, a. split; [exact Hio|]. split; [exact Hh|exact Hans].
    + vm_compute in Hrefused. discriminate Hrefused.
Defined.
